(* ===== verification/_CoqProject ===== *)
-Q . S2P
Prelude.v
RustStd.v
TextParse.v
Message.v
Packet.v
Grammar.v
Encoder.v
Wire.v
Codec.v
Zones.v
ZoneFile.v
ZonePrint.v
Resolver.v
Cache.v
CacheRace.v
RateLimit.v
Acl.v
Blocklist.v
Metrics.v
MetricsRace.v
Dnssec.v
Net.v
Forwarder.v
Pool.v
Recursive.v
Delegations.v
State.v
Validator.v
Pipeline.v
Policy.v
Reply.v
SingleFlight.v
Transport.v
Config.v
Tls.v
Server.v
EndToEnd.v
Forwarded.v
Snapshot.v
Jobs.v
Tasks.v
Streams.v
Runtime.v
Fairness.v
