(* ===== verification/Prelude.v ===== *)
(** * mini-dns: a verification development

    ** The program

    mini-dns (under [src/src]) is a DNS server in Rust. A request reaches it over
    UDP, TCP, TLS, HTTPS or QUIC; [state.rs] takes it through a synchronous
    first pass: rate limit, parse, blocklist, zones (with CNAME chasing and
    wildcards), DNSSEC signatures, DNS64, cache. A name it does not know is sent to
    an upstream ([forwarder.rs]) or resolved from the root servers
    ([recursive.rs]); identical queries in flight share one upstream query, and
    replies are cached and replayed to each client. A zone can be transferred to
    allowed clients, and the files reloaded at run time.

    ** The files

    - [Prelude]: outcomes of Rust code ([Ok], [Err], [Panic]) and their monad,
      integers at their width, the hint database [dns], list lemmas.
    - [RustStd]: the parts of the standard library the code uses: strings as
      UTF-8 bytes, splitting and joining, lossy decoding, lower case, stable
      sorting, maps iterated in an unspecified order, socket addresses.
    - [TextParse]: [trim], [split_whitespace], [lines], [str::parse] of integers,
      IP and socket addresses.
    - [Message]: headers, questions, records and packets ([dns/error.rs],
      [header.rs], [question.rs], [record.rs]), and what it is to be well typed.
    - [Packet]: the parser ([dns/packet.rs]); the wire grammar of names ([NameAt]).
    - [Grammar]: the grammar of whole messages, which the parser accepts.
    - [Encoder]: the encoder with name compression ([dns/encoder.rs]) and the UDP
      truncation of [packet.rs].
    - [Wire]: the encoder against the parser; [Codec]: against the grammar.
    - [Zones]: [ZoneSet] and [ForwardRules] of [config.rs].
    - [ZoneFile]: the zone file parser of [config.rs]; [ZonePrint]: that parser
      against a specification of the text it reads.
    - [Resolver]: [build_response] of [dns/resolver.rs].
    - [Cache], [RateLimit], [Acl], [Blocklist], [Metrics]: the files of those names;
      [CacheRace]: the operations of the cache call by call on the shared map, with
      their interleavings; [MetricsRace]: increments and sums access by access, with
      the shards of the threads.
    - [Dnssec]: key tags, canonical forms and signing ([dnssec.rs]).
    - [Net]: the network and the clock as parameters, TCP framing.
    - [Forwarder], [Recursive]: [forwarder.rs] and [recursive.rs]; [Pool]: the
      concurrent calls of a forwarder with its semaphore and sockets;
      [Delegations]: the concurrent resolutions of [recursive.rs] with their
      semaphore and the table of delegations they share.
    - [Validator]: a DNSSEC validator after RFC 4034 and 4035, over what the encoder
      sends: the specification of signing.
    - [State]: the handlers of [state.rs]; [Pipeline] and [Policy]: their lemmas and
      properties; [Reply]: what a client decodes from the bytes it is sent.
    - [SingleFlight]: [forward_ctx] and its guard, as a step relation over tasks.
    - [Transport]: [ServerState::resolve], the stream handlers of [server.rs] and
      [doq.rs], [doh.rs], the metrics endpoint.
    - [Config]: settings, the assembly of the state in [main.rs], [reload].
    - [Tls]: [tls.rs] and the set-up half of [doq.rs].
    - [Server]: everything a running server does to its state, as one step
      relation from the assembled state, and the end-to-end theorems.
    - [EndToEnd]: from the text of the zone file to the records a client decodes.
    - [Forwarded]: from a query for a name the server does not serve, through the upstream,
      to the packet its client decodes.
    - [Snapshot]: the first pass access by access to the shared state, among
      whatever else the server does.
    - [Jobs]: the tasks the loops spawn, for each transport, each from its start to its
      end; [Tasks]: the same tasks as machines that run side by side, down to the
      single calls on the cache.
    - [Streams]: connections that end early: a write that fails, a reset, a message cut
      short.
    - [Runtime]: [server.rs] and the rest of [main.rs]: the listeners a start opens,
      and the running process as a step relation: receive and accept loops,
      tickers, signal and reload handlers, tasks, shutdown; [Fairness]: its fair
      runs.

    ** How the code is modelled

    A [u8], [u16], [u32] or [u64] is a [Z] with its wrap-around written out
    ([as_u16] and the like); a byte slice, a [Vec<u8>] and a [String] are lists of
    bytes; offsets and lengths are [nat]. A [Result] that may also panic is [res]:
    an index or slice out of range and an [expect] on [None] are [Panic], so that
    the absence of panics is a theorem, not an assumption. A [HashMap] or [DashMap]
    is a [gmap]; where the code depends on the iteration order, the order comes
    from the class [HashIter], of which only that it lists the entries once is
    assumed. State is passed explicitly: a method of [&self] with interior
    mutability takes the state and returns the next one. The clock readings of an
    operation are its arguments.

    Code that is not in the repository is a parameter: lower-casing of non-ASCII
    text ([Unicode]), Ed25519 of [ring] ([Ed25519], with the law that a signature
    verifies under its own public key), the network and the clock ([Net],
    [Clock]), the TOML parser ([Toml]), base64 ([Base64Url]), the TLS libraries ([TlsLib]), what
    sockets the operating system grants ([Os]), the file system (a function from
    paths to contents). Each class has an instance that the
    witnesses use.

    ** Bounds and fuel

    [parse_qname_loop] has fuel [(64 + 1) * (length + 1)]: a jump lowers the number
    of jumps left and a label advances the position, and [parse_qname_terminates]
    shows that the fuel is never used up. The TXT and UTF-8 decoders consume at
    least a byte per round and have the length of their input as fuel, the stream
    handler two bytes ([dns_stream_terminates]); the CNAME chase, the delegation
    walk and the receive loop have the code's own limits (16, 20, 4). A call on the
    cache makes at most seven calls on its map ([uninterrupted_calls]); ten digits
    hold every 32-bit number in [ZonePrint].

    ** What is shown

    - Messages: what the encoder writes the parser reads back, through name
      compression; the compression table is sound; the parser accepts exactly the
      messages of the grammar, in bounded time, and the encoder writes such messages; parsed packets are well typed; the exact records
      on which the parser panics; what truncation keeps and how long a UDP reply
      can be.
    - Authority: the answer section, the response code, AA and the SOA of negative
      answers against the zones' contents; the most specific zone and the
      longest forwarding suffix win; a zone file gives exactly its lines' records.
    - The pipeline: the only panic of the first pass is the parser's; what is
      forwarded, and to whom; replies carry the query's identifier; replayed
      responses fit their client; the cache's lifetimes; DNS64; every RRset of a
      signed answer has a signature, which a validator after the RFCs accepts if the
      RRset is in canonical order and of a type that is signed as it is sent; transfers
      are complete and authorised, and others are refused without any record.
    - End to end: a client decodes from its reply the packet the pipeline built, and
      for a zone file exactly the records written there; of a forwarded or cached reply
      it gets the bytes (TCP) or the records the parser kept (UDP); a query whose
      upstream fails gets a SERVFAIL; a transferred zone is the zone, if the reply fits
      the 16-bit length of a frame; a connection cut short carries a prefix of its replies and leaves the
      server in a state of its own.
    - Concurrency: one upstream query per name and type at a time, no leaked entry,
      followers never stuck, under every interleaving and cancellation; cache hits
      are sound under every interleaving, the capacity is not kept; a first pass
      overlapped by anything else answers as if at one moment, from one
      snapshot of the zones; queries and UDP sockets
      to an upstream stay within the permits, none of which leaks, and with the TCP
      streams of truncated queries connections stay within twice as many; concurrent
      resolutions stay within theirs and ask only root servers and glue; no count is
      lost, and sums taken meanwhile are bounded by the counts around them.
    - Components: the cache refines an unbounded ideal one; the flood bound of the
      limiter, the neutrality of its clean-up between queries, and what a clean-up
      overlapping a query changes ([cleanup_stale_query]); ACL matching is prefix
      equality; blocking is membership of the name or a wildcard of an ancestor;
      counters are exact.
    - Clients: forwarded replies are genuine; iterative resolution always ends
      with a message; delegations are followed to their own servers only, but filed
      under the wrong zone.
    - Life cycle: which listeners a start opens; reload is atomic and agrees with
      start-up; what holds at every moment between, whatever the loops and tasks of the
      process do, and where every request, stored reply and reply in a task's hands comes
      from; when the health check fails; how the process ends, that under
      fairness every shutdown completes, what it leaves undone, and how UDP
      service is lost.
    - Files: what is written as a zone file is read back.

    Theorems that show a departure of the code from its comments or from what it
    means to do ([from_bytes_nsec_panics], [resolve_three_labels_fails],
    [txt_across_chunks_corrupted], [sign_rrset_not_canonical_order],
    [stale_reply_accepted], [no_recurse_still_recursive], [delegation_misfiled],
    [unmodelled_answer_lost] and others) stand beside
    the component they are about.

    ** What is not modelled

    TLS records, HTTP and QUIC framing, socket options and logging, which are calls
    of rustls, hyper, quinn, socket2 and tracing: a handshake or a connection is
    represented by what it yields. In [Server], [Tasks] and [Runtime] replies are stored
    by single calls on the cache's map, while [len], [retain] and [iter] are taken
    whole ([CacheRace] takes them shard by shard); a first pass is one step ([Snapshot] takes it
    access by access), and so are [allow], which holds its entry's lock, an increment of a
    counter ([MetricsRace]), and a whole upstream query: [Pool] and [Delegations] have
    several of them side by side. A connection
    whose handler panics has no final state in [Transport] and [Streams]; [Runtime]
    has the panic as a step. A task may be scheduled at any time in
    [Runtime]: its theorems say what can happen; [Fairness] adds weak fairness of
    the signal handler, of loops that saw the shutdown, and of the main task.

    The lines of [src/src] that no definition translates are the unit tests, comments,
    imports, module declarations, derived and forwarding [impl]s, accessors of one
    field, the construction of the Tokio runtime in [main], and log statements. *)

From stdpp Require Export base tactics numbers list strings gmap.
From Stdlib Require Export ZArith Lia ZifyBool ZifyNat Sorted Permutation.

(** ** Outcomes of Rust code

    A fallible, possibly panicking computation: [Ok] and [Err] are the two
    constructors of [std::result::Result]; [Panic] is an unwinding panic
    (an index or slice out of bounds, an [expect] on [None]). *)
Inductive res (E A : Type) : Type :=
| Ok (a : A)
| Err (e : E)
| Panic.
Arguments Ok {E A} a.
Arguments Err {E A} e.
Arguments Panic {E A}.

Global Instance res_ret {E} : MRet (res E) := fun A a => Ok a.
Global Instance res_bind {E} : MBind (res E) := fun A B f c =>
  match c with
  | Ok a => f a
  | Err e => Err e
  | Panic => Panic
  end.
Global Instance res_fmap {E} : FMap (res E) := fun A B f c =>
  match c with
  | Ok a => Ok (f a)
  | Err e => Err e
  | Panic => Panic
  end.

(** The computation does not panic. *)
Definition no_panic {E A} (c : res E A) : Prop := c ≠ Panic.

(** [r.ok()]: the [Option] of a [Result] (a panic is not an [Err], so this is
    only used where the computation is known, or shown, not to panic). *)
Definition res_ok {E A} (c : res E A) : option A :=
  match c with Ok a => Some a | _ => None end.

(** [buf[i]]: indexing panics out of bounds. *)
Definition idx {E A} (l : list A) (i : nat) : res E A :=
  match l !! i with Some x => Ok x | None => Panic end.

(** [&buf[a..b]]: slicing panics when [a > b] or [b > buf.len()]. *)
Definition slice {E A} (l : list A) (a b : nat) : res E (list A) :=
  if bool_decide (a <= b <= length l) then Ok (take (b - a) (drop a l)) else Panic.

(** ** Fixed-width integers

    An integer of [w] bits is a [Z]; casts ([as u8], [as u16], ...) and wrapping
    arithmetic reduce modulo [2^w]. *)
Definition is_u8 (z : Z) : Prop := (0 <= z < 2 ^ 8)%Z.
Definition is_u16 (z : Z) : Prop := (0 <= z < 2 ^ 16)%Z.
Definition is_u32 (z : Z) : Prop := (0 <= z < 2 ^ 32)%Z.
Definition as_u8 (z : Z) : Z := (z mod 2 ^ 8)%Z.
Definition as_u16 (z : Z) : Z := (z mod 2 ^ 16)%Z.
Definition as_u32 (z : Z) : Z := (z mod 2 ^ 32)%Z.

(** [usize as u16] of a length. *)
Definition len_u16 {A} (l : list A) : Z := as_u16 (Z.of_nat (length l)).

(** [u16::to_be_bytes], [u32::to_be_bytes] and their inverses. *)
Definition u16_to_be_bytes (z : Z) : list Z := [as_u8 (z / 2 ^ 8); as_u8 z].
Definition u32_to_be_bytes (z : Z) : list Z :=
  [as_u8 (z / 2 ^ 24); as_u8 (z / 2 ^ 16); as_u8 (z / 2 ^ 8); as_u8 z].
Definition u16_from_be_bytes (a b : Z) : Z := (a * 2 ^ 8 + b)%Z.
Definition u32_from_be_bytes (a b c d : Z) : Z :=
  (a * 2 ^ 24 + b * 2 ^ 16 + c * 2 ^ 8 + d)%Z.

(** ** Automation *)

Create HintDb dns discriminated.

Lemma bind_Ok {E A B} (c : res E A) (f : A → res E B) b :
  c ≫= f = Ok b ↔ ∃ a, c = Ok a ∧ f a = Ok b.
Proof.
  destruct c; cbn; split; [eauto|by intros (?&[= ->]&?)|done|by intros (?&?&?)|done|by intros (?&?&?)].
Qed.

Lemma bind_Panic {E A B} (c : res E A) (f : A → res E B) :
  c ≫= f = Panic ↔ c = Panic ∨ ∃ a, c = Ok a ∧ f a = Panic.
Proof. destruct c; cbn; firstorder congruence. Qed.

(** Inverts every monadic step of a successful run in the context. *)
Ltac res_inv :=
  repeat match goal with
  | H : (_ ≫= _) = Ok _ |- _ =>
      apply bind_Ok in H; destruct H as (? & ? & H)
  | H : Ok _ = Ok _ |- _ => injection H as H; subst
  | H : mret _ = Ok _ |- _ => injection H as H; subst
  | H : Err _ = Ok _ |- _ => discriminate H
  | H : Panic = Ok _ |- _ => discriminate H
  end.

Lemma no_panic_ok {E A} (a : A) : no_panic (Ok (E := E) a).
Proof. done. Qed.
Lemma no_panic_err {E A} (e : E) : no_panic (Err (A := A) e).
Proof. done. Qed.
Lemma no_panic_ret {E A} (a : A) : no_panic (mret (M := res E) a).
Proof. done. Qed.
Lemma no_panic_bind {E A B} (c : res E A) (f : A → res E B) :
  no_panic c → (∀ a, c = Ok a → no_panic (f a)) → no_panic (c ≫= f).
Proof. unfold no_panic. rewrite bind_Panic. intros ?? [?|(?&?&?)]; firstorder. Qed.
#[export] Hint Resolve no_panic_ok no_panic_err no_panic_ret : dns.

(** The computation ends with a value or a panic, never with an error. *)
Definition infallible {E A} (c : res E A) : Prop := ∀ e, c ≠ Err e.

Lemma infallible_ok {E A} (a : A) : infallible (Ok (E := E) a).
Proof. done. Qed.
Lemma infallible_panic {E A} : infallible (@Panic E A).
Proof. done. Qed.
Lemma infallible_bind {E A B} (c : res E A) (f : A → res E B) :
  infallible c → (∀ a, infallible (f a)) → infallible (c ≫= f).
Proof. intros Hc Hf e. destruct c; cbn; [apply Hf|by destruct (Hc e0)|done]. Qed.
#[export] Hint Resolve infallible_ok infallible_panic : dns.

Lemma idx_Ok {E A} (l : list A) i x : idx (E := E) l i = Ok x ↔ l !! i = Some x.
Proof. unfold idx. destruct (l !! i); naive_solver. Qed.

Lemma idx_no_panic {E A} (l : list A) i : i < length l → no_panic (idx (E := E) l i).
Proof.
  intros H. unfold idx. destruct (lookup_lt_is_Some_2 l i H) as [x ->]. done.
Qed.

Lemma slice_Ok {E A} (l : list A) a b :
  a ≤ b → b ≤ length l → slice (E := E) l a b = Ok (take (b - a) (drop a l)).
Proof. intros. unfold slice. by rewrite bool_decide_true. Qed.

Lemma slice_no_panic {E A} (l : list A) a b :
  a ≤ b → b ≤ length l → no_panic (slice (E := E) l a b).
Proof. intros. by rewrite slice_Ok. Qed.

Lemma slice_Panic {E A} (l : list A) a b :
  slice (E := E) l a b = Panic ↔ ¬ (a ≤ b ≤ length l).
Proof. unfold slice. case_bool_decide; naive_solver. Qed.

Lemma slice_inv {E A} (l : list A) a b x :
  slice (E := E) l a b = Ok x → a ≤ b ∧ b ≤ length l ∧ x = take (b - a) (drop a l).
Proof. unfold slice. case_bool_decide; naive_solver. Qed.

(** Reduces the powers of two of the width definitions, then [lia]. *)
Ltac width_lia :=
  unfold is_u8, is_u16, is_u32, as_u8, as_u16, as_u32, len_u16,
    u16_from_be_bytes, u32_from_be_bytes in *;
  change (2 ^ 8)%Z with 256%Z in *; change (2 ^ 16)%Z with 65536%Z in *;
  change (2 ^ 24)%Z with 16777216%Z in *; change (2 ^ 32)%Z with 4294967296%Z in *;
  Z.to_euclidean_division_equations; lia.

Lemma as_u8_u8 z : is_u8 (as_u8 z).
Proof. width_lia. Qed.
Lemma as_u16_u16 z : is_u16 (as_u16 z).
Proof. width_lia. Qed.
Lemma as_u32_u32 z : is_u32 (as_u32 z).
Proof. width_lia. Qed.
Lemma as_u16_small z : is_u16 z → as_u16 z = z.
Proof. width_lia. Qed.
#[export] Hint Resolve as_u8_u8 as_u16_u16 as_u32_u32 : dns.

Lemma length_u16_to_be_bytes z : length (u16_to_be_bytes z) = 2.
Proof. done. Qed.
Lemma length_u32_to_be_bytes z : length (u32_to_be_bytes z) = 4.
Proof. done. Qed.

Lemma u16_be_bytes_roundtrip z :
  is_u16 z → u16_from_be_bytes (as_u8 (z / 2 ^ 8)) (as_u8 z) = z.
Proof. width_lia. Qed.

Lemma u32_be_bytes_roundtrip z :
  is_u32 z →
  u32_from_be_bytes (as_u8 (z / 2 ^ 24)) (as_u8 (z / 2 ^ 16)) (as_u8 (z / 2 ^ 8))
    (as_u8 z) = z.
Proof. width_lia. Qed.

Lemma u16_from_be_bytes_u16 a b : is_u8 a → is_u8 b → is_u16 (u16_from_be_bytes a b).
Proof. width_lia. Qed.
Lemma u32_from_be_bytes_u32 a b c d :
  is_u8 a → is_u8 b → is_u8 c → is_u8 d → is_u32 (u32_from_be_bytes a b c d).
Proof. width_lia. Qed.
#[export] Hint Resolve u16_from_be_bytes_u16 u32_from_be_bytes_u32 : dns.

(** Bitwise operations stay within the width. *)
Lemma land_ones_u16 z : is_u16 z ↔ Z.land z (Z.ones 16) = z.
Proof.
  rewrite Z.land_ones by lia. split; [apply Z.mod_small|].
  intros <-. apply Z.mod_pos_bound. lia.
Qed.

Lemma lor_u16 a b : is_u16 a → is_u16 b → is_u16 (Z.lor a b).
Proof. rewrite !land_ones_u16, Z.land_lor_distr_l. by intros -> ->. Qed.

Lemma land_u16 a b : is_u16 a → is_u16 (Z.land a b).
Proof.
  rewrite !land_ones_u16. intros Ha.
  by rewrite <- Z.land_assoc, (Z.land_comm b), Z.land_assoc, Ha.
Qed.
#[export] Hint Resolve lor_u16 land_u16 : dns.

(** ** Lists *)

(** Reading the middle part of a concatenation. *)
Lemma take_drop_app_mid {A} (p m s : list A) :
  take (length m) (drop (length p) (p ++ m ++ s)) = m.
Proof. rewrite drop_app_length, take_app_length. done. Qed.

Lemma lookup_app_at {A} (p s : list A) i :
  (p ++ s) !! (length p + i) = s !! i.
Proof. rewrite lookup_app_r by lia. f_equal. lia. Qed.

(** ** Counting the values of a map *)

Definition count_vals {K A} `{Countable K} (P : A → bool) (m : gmap K A) : nat :=
  size (filter (fun kv => P kv.2 = true) m).

Section CountVals.
Context {K A : Type} `{Countable K}.
Implicit Types (P Q : A → bool) (m : gmap K A).

Lemma count_vals_empty P : count_vals P (∅ : gmap K A) = 0.
Proof. unfold count_vals. by rewrite map_filter_empty, map_size_empty. Qed.

Lemma count_vals_insert_None P m k x :
  m !! k = None → count_vals P (<[k := x]> m) = Nat.b2n (P x) + count_vals P m.
Proof.
  intros Hk. unfold count_vals. destruct (P x) eqn:Hx.
  - rewrite map_filter_insert_True by done. rewrite map_size_insert_None; [done|].
    apply map_lookup_filter_None. by left.
  - rewrite map_filter_insert_False by (cbn; congruence). by rewrite delete_id.
Qed.

Lemma count_vals_insert P m k x y :
  m !! k = Some y → Nat.b2n (P y) + count_vals P (<[k := x]> m) = Nat.b2n (P x) + count_vals P m.
Proof.
  intros Hk. rewrite <- (insert_delete_id m k y Hk) at 2. rewrite <- (insert_delete_eq m).
  rewrite !count_vals_insert_None by apply lookup_delete_eq. lia.
Qed.

Lemma count_vals_mono P Q m : (∀ x, P x = true → Q x = true) → count_vals P m ≤ count_vals Q m.
Proof.
  intros HPQ. induction m as [|k x m Hk IH] using map_ind; [by rewrite !count_vals_empty|].
  rewrite !count_vals_insert_None by done. specialize (HPQ x).
  destruct (P x); [rewrite (HPQ eq_refl)|destruct (Q x)]; cbn [Nat.b2n]; lia.
Qed.

Lemma count_vals_le P m : count_vals P m ≤ size m.
Proof. apply map_size_filter. Qed.

End CountVals.
