(* ===== verification/RustStd.v ===== *)
(** * The parts of the Rust language and standard library the server uses

    Byte strings and [String] (its UTF-8 bytes), [String::from_utf8_lossy],
    [str::split]/[join]/[ends_with]/[to_lowercase], the iteration order of
    hash maps, the stable [sort_by_key], and the [std::net] address types. *)

From S2P Require Import Prelude.

(** ** Bytes and strings

    A [Vec<u8>] or [&[u8]] is a list of [Z] in [0, 255]; a [String] is the list
    of its UTF-8 bytes. *)
Abbreviation bytes := (list Z).

Definition wf_bytes (s : bytes) : Prop := Forall is_u8 s.

(** The bytes of a literal. *)
Definition str (s : string) : bytes :=
  (fun a => Z.of_N (Ascii.N_of_ascii a)) <$> String.list_ascii_of_string s.
Arguments str s%_string.

(** The code of ['.']. *)
Definition DOT : Z := 46.

(** [s.split(c)] for an ASCII character [c]: always at least one piece. *)
Fixpoint split_on (c : Z) (s : bytes) : list bytes :=
  match s with
  | [] => [[]]
  | x :: s' =>
      if Z.eqb x c then [] :: split_on c s'
      else match split_on c s' with
           | [] => [[x]]
           | l :: ls => (x :: l) :: ls
           end
  end.

(** [pieces.join(c)]. *)
Fixpoint join_on (c : Z) (ls : list bytes) : bytes :=
  match ls with
  | [] => []
  | [l] => l
  | l :: ls' => l ++ c :: join_on c ls'
  end.

(** [s.split_once(c)] for an ASCII character; [s.find(c)] followed by
    [&s[pos + 1..]] is its second component. *)
Fixpoint split_once (c : Z) (s : bytes) : option (bytes * bytes) :=
  match s with
  | [] => None
  | x :: s' =>
      if Z.eqb x c then Some ([], s')
      else (fun '(p, q) => (x :: p, q)) <$> split_once c s'
  end.

(** [s.ends_with(t)]. *)
Definition ends_with (s t : bytes) : bool := bool_decide (t `suffix_of` s).

(** [s.starts_with(t)]. *)
Definition starts_with (s t : bytes) : bool := bool_decide (t `prefix_of` s).

(** [s.strip_suffix(c)] and [s.trim_end_matches(c)] for one ASCII character. *)
Definition strip_suffix_char (c : Z) (s : bytes) : option bytes :=
  match rev s with
  | x :: r => if Z.eqb x c then Some (rev r) else None
  | [] => None
  end.

Fixpoint drop_while (f : Z → bool) (s : bytes) : bytes :=
  match s with
  | [] => []
  | x :: s' => if f x then drop_while f s' else s
  end.

Definition trim_end_matches (c : Z) (s : bytes) : bytes :=
  rev (drop_while (Z.eqb c) (rev s)).
Definition trim_start_matches (c : Z) (s : bytes) : bytes := drop_while (Z.eqb c) s.
Definition trim_matches (c : Z) (s : bytes) : bytes :=
  trim_end_matches c (trim_start_matches c s).

(** ** Lower case *)

Definition is_ascii (s : bytes) : bool := forallb (fun b => (b <? 128)%Z) s.

(** [u8::to_ascii_lowercase]. *)
Definition ascii_lower (b : Z) : Z :=
  if ((65 <=? b) && (b <=? 90))%Z then (b + 32)%Z else b.

(** The Unicode lower-case mapping of the strings that are not ASCII: the
    tables of the Unicode Character Database that the Rust library carries. *)
Class Unicode := unicode_lowercase : bytes → bytes.

(** [str::to_lowercase]: on an ASCII string, byte by byte. *)
Definition to_lowercase `{Unicode} (s : bytes) : bytes :=
  if is_ascii s then ascii_lower <$> s else unicode_lowercase s.

(** [str::eq_ignore_ascii_case]. *)
Definition eq_ignore_ascii_case (s t : bytes) : bool :=
  bool_decide (ascii_lower <$> s = ascii_lower <$> t).

(** A [Unicode] instance for evaluation: it leaves every non-ASCII string as it is. *)
Definition ascii_unicode : Unicode := fun s => s.

(** ** UTF-8 *)

(** [safe_get]: zero past the end. *)
Definition safe_get (s : bytes) (i : nat) : Z := default 0%Z (s !! i).

Definition in_range (a b x : Z) : bool := ((a <=? x) && (x <=? b))%Z.
Definition is_cont (b : Z) : bool := in_range 128 191 b.

(** The second byte allowed after a three- or four-byte lead byte. *)
Definition utf8_second_ok (lead b : Z) : bool :=
  if (lead =? 224)%Z then in_range 160 191 b
  else if in_range 225 236 lead then in_range 128 191 b
  else if (lead =? 237)%Z then in_range 128 159 b
  else if in_range 238 239 lead then in_range 128 191 b
  else if (lead =? 240)%Z then in_range 144 191 b
  else if in_range 241 243 lead then in_range 128 191 b
  else if (lead =? 244)%Z then in_range 128 143 b
  else false.

(** One step of the decoder at the head of [s]: whether a scalar value starts
    there, and how many bytes were inspected (the whole sequence, or the
    maximal invalid prefix). *)
Definition utf8_step (s : bytes) : bool * nat :=
  let lead := safe_get s 0 in
  if (lead <? 128)%Z then (true, 1)
  else if in_range 194 223 lead then
    if is_cont (safe_get s 1) then (true, 2) else (false, 1)
  else if in_range 224 239 lead then
    if utf8_second_ok lead (safe_get s 1) then
      if is_cont (safe_get s 2) then (true, 3) else (false, 2)
    else (false, 1)
  else if in_range 240 244 lead then
    if utf8_second_ok lead (safe_get s 1) then
      if is_cont (safe_get s 2) then
        if is_cont (safe_get s 3) then (true, 4) else (false, 3)
      else (false, 2)
    else (false, 1)
  else (false, 1).

(** The encoding of U+FFFD. *)
Definition REPLACEMENT : bytes := [239; 191; 189]%Z.

Fixpoint utf8_lossy (fuel : nat) (s : bytes) : bytes :=
  match fuel, s with
  | _, [] => []
  | 0, _ => []
  | S n, _ =>
      let '(ok, k) := utf8_step s in
      (if ok then take k s else REPLACEMENT) ++ utf8_lossy n (drop k s)
  end.

(** [String::from_utf8_lossy]: each step consumes a byte, so the length is
    enough fuel ([utf8_lossy_fuel]). *)
Definition from_utf8_lossy (s : bytes) : bytes := utf8_lossy (length s) s.

(** The strings that are valid UTF-8 (the type invariant of [String]). *)
Inductive Utf8 : bytes → Prop :=
| Utf8_nil : Utf8 []
| Utf8_step s k : s ≠ [] → utf8_step s = (true, k) → Utf8 (drop k s) → Utf8 s.

(** ** Hash maps

    A [HashMap]/[DashMap] is a [gmap]; the order its iterators follow is
    unspecified, so it is a parameter: some enumeration of the entries. *)
Class HashIter := {
  hm_iter : ∀ {K V : Type} `{Countable K}, gmap K V → list (K * V);
  hm_iter_perm : ∀ {K V : Type} `{Countable K} (m : gmap K V),
    hm_iter m ≡ₚ map_to_list m;
}.

(** The instance used for evaluation. *)
Program Definition list_iter : HashIter := {|
  hm_iter := fun K V _ _ m => map_to_list m;
|}.
Next Obligation. done. Qed.

(** [map.values().flatten()] of a map of vectors. *)
Definition values_flatten `{HashIter} {K V} `{Countable K} (m : gmap K (list V)) : list V :=
  concat ((hm_iter m).*2).

(** [iter.find_map(f)]. *)
Fixpoint find_map {A B} (f : A → option B) (l : list A) : option B :=
  match l with
  | [] => None
  | x :: l' => match f x with Some y => Some y | None => find_map f l' end
  end.

(** ** [sort_by_key(|x| Reverse(key(x)))]: stable, longest key first *)
Section SortDesc.
Context {A : Type} (key : A → nat).

Fixpoint insert_desc (x : A) (l : list A) : list A :=
  match l with
  | [] => [x]
  | y :: l' => if Nat.leb (key y) (key x) then x :: l else y :: insert_desc x l'
  end.

Definition sort_desc (l : list A) : list A := foldr insert_desc [] l.

Definition desc (x y : A) : Prop := key y <= key x.

Lemma insert_desc_perm x l : insert_desc x l ≡ₚ x :: l.
Proof.
  induction l as [|y l IH]; simpl; [done|].
  destruct (Nat.leb (key y) (key x)); [done|].
  rewrite IH. apply Permutation_swap.
Qed.

Lemma sort_desc_perm l : sort_desc l ≡ₚ l.
Proof. induction l as [|x l IH]; simpl; [done|]. by rewrite insert_desc_perm, IH. Qed.

Lemma insert_desc_sorted x l : StronglySorted desc l → StronglySorted desc (insert_desc x l).
Proof.
  induction 1 as [|y l Hs IH Hy]; simpl; [repeat constructor|].
  destruct (Nat.leb_spec (key y) (key x)) as [Hle|Hlt].
  - constructor; [by constructor|]. constructor; [done|].
    eapply Forall_impl; [exact Hy|]. unfold desc. simpl. lia.
  - constructor; [done|]. rewrite insert_desc_perm. constructor; [|done].
    unfold desc. lia.
Qed.

Lemma sort_desc_sorted l : StronglySorted desc (sort_desc l).
Proof. induction l; simpl; [constructor|]. by apply insert_desc_sorted. Qed.

(** The first match of a list sorted longest-first is a longest match. *)
Lemma find_sorted_longest (f : A → bool) l x y :
  StronglySorted desc l → List.find f l = Some x → y ∈ l → f y = true →
  key y <= key x.
Proof.
  induction 1 as [|z l Hs IH Hz]; simpl; [done|].
  destruct (f z) eqn:Hf.
  - intros [= ->] [->|Hy]%elem_of_cons _; [done|].
    rewrite Forall_forall in Hz. by apply Hz.
  - intros Hx [->|Hy]%elem_of_cons Hfy; [congruence|auto].
Qed.

(** Stability: the elements of one key keep their order. *)
Lemma insert_desc_filter k x l :
  StronglySorted desc l →
  filter (fun z => key z = k) (insert_desc x l) = filter (fun z => key z = k) (x :: l).
Proof.
  induction 1 as [|y l Hs IH Hy]; simpl; [done|].
  destruct (Nat.leb_spec (key y) (key x)) as [Hle|Hlt]; [done|].
  rewrite !filter_cons, IH, filter_cons.
  repeat case_decide; try done. lia.
Qed.

Lemma sort_desc_stable k l :
  filter (fun z => key z = k) (sort_desc l) = filter (fun z => key z = k) l.
Proof.
  induction l as [|x l IH]; simpl; [done|].
  rewrite insert_desc_filter by apply sort_desc_sorted.
  rewrite !filter_cons, IH. done.
Qed.

Lemma insert_desc_head x l : Forall (desc x) l → insert_desc x l = x :: l.
Proof.
  destruct l as [|y l]; [done|]. intros [Hy _]%Forall_cons. cbn.
  by rewrite (proj2 (Nat.leb_le (key y) (key x))).
Qed.

Lemma sort_desc_id l : StronglySorted desc l → sort_desc l = l.
Proof.
  induction 1 as [|x l Hs IH Hx]; [done|].
  change (insert_desc x (sort_desc l) = x :: l). rewrite IH. by apply insert_desc_head.
Qed.

End SortDesc.

(** ** [std::net] *)

(** The octets of an [Ipv4Addr] and of an [Ipv6Addr]. *)
Abbreviation Ipv4Addr := (list Z) (only parsing).
Abbreviation Ipv6Addr := (list Z) (only parsing).
Definition wf_ipv4 (a : bytes) : Prop := length a = 4 ∧ wf_bytes a.
Definition wf_ipv6 (a : bytes) : Prop := length a = 16 ∧ wf_bytes a.

Inductive IpAddr :=
| V4 (octets : bytes)
| V6 (octets : bytes).

(** An address and a port; the scope identifier of an IPv6 address, else zero. *)
Record SocketAddr := mkScoped { sa_ip : IpAddr; sa_port : Z; sa_scope : Z }.

(** [SocketAddr::new]. *)
Definition mkSocketAddr (ip : IpAddr) (port : Z) : SocketAddr := mkScoped ip port 0.

#[global] Instance IpAddr_eq_dec : EqDecision IpAddr.
Proof. solve_decision. Defined.
#[global] Instance SocketAddr_eq_dec : EqDecision SocketAddr.
Proof. solve_decision. Defined.
#[global] Program Instance IpAddr_countable : Countable IpAddr :=
  inj_countable'
    (fun a => match a with V4 o => inl o | V6 o => inr o end)
    (fun s => match s with inl o => V4 o | inr o => V6 o end) _.
Next Obligation. by intros []. Qed.
#[global] Program Instance SocketAddr_countable : Countable SocketAddr :=
  inj_countable' (fun a => (sa_ip a, sa_port a, sa_scope a)) (fun p => mkScoped p.1.1 p.1.2 p.2) _.
Next Obligation. by intros []. Qed.

(** ** Lemmas: splitting and joining *)

Lemma split_on_cons_ne c x s : x ≠ c →
  ∃ l ls, split_on c s = l :: ls ∧ split_on c (x :: s) = (x :: l) :: ls.
Proof.
  intros Hx. simpl. rewrite (proj2 (Z.eqb_neq x c)) by done.
  destruct (split_on c s) as [|l ls] eqn:E; [|eauto].
  destruct s as [|y s]; simpl in E; [done|].
  destruct (Z.eqb y c); [done|]. by destruct (split_on c s).
Qed.

Lemma split_on_ne c s : split_on c s ≠ [].
Proof.
  destruct s as [|x s]; simpl; [done|].
  destruct (Z.eqb x c); [done|]. by destruct (split_on c s).
Qed.

Lemma join_on_cons c l ls : ls ≠ [] → join_on c (l :: ls) = l ++ c :: join_on c ls.
Proof. by destruct ls. Qed.

Lemma join_split c s : join_on c (split_on c s) = s.
Proof.
  induction s as [|x s IH]; [done|].
  destruct (decide (x = c)) as [->|Hx].
  - cbn [split_on]. rewrite Z.eqb_refl, join_on_cons by apply split_on_ne. by rewrite IH.
  - destruct (split_on_cons_ne c x s Hx) as (l & ls & Hs & ->).
    rewrite Hs in IH. rewrite <- IH. by destruct ls.
Qed.

Lemma split_on_clean c s : Forall (fun l => c ∉ l) (split_on c s).
Proof.
  induction s as [|x s IH]; [repeat constructor; set_solver|].
  destruct (decide (x = c)) as [->|Hx].
  - cbn [split_on]. rewrite Z.eqb_refl. constructor; [set_solver|done].
  - destruct (split_on_cons_ne c x s Hx) as (l & ls & Hs & ->).
    rewrite Hs in IH. apply Forall_cons in IH as [Hl Hls].
    constructor; [set_solver|done].
Qed.

Lemma split_on_elem_bytes (P : Z → Prop) sep s l : Forall P s → l ∈ split_on sep s → Forall P l.
Proof.
  revert l. induction s as [|c s IH]; intros l Hs; cbn [split_on].
  { intros ->%list_elem_of_singleton. constructor. }
  apply Forall_cons in Hs as [Hc Hs]. destruct (c =? sep)%Z.
  { intros [->|Hl]%elem_of_cons; [constructor|by apply IH]. }
  destruct (split_on sep s) as [|l0 ls]; [intros ->%list_elem_of_singleton; by constructor|].
  intros [->|Hl]%elem_of_cons; [constructor; [done|]; apply IH; [done|by left]|].
  apply IH; [done|by right].
Qed.

Lemma split_on_app_sep c l s : c ∉ l → split_on c (l ++ c :: s) = l :: split_on c s.
Proof.
  induction l as [|x l IH]; intros Hl; cbn [app].
  - cbn [split_on]. by rewrite Z.eqb_refl.
  - destruct (split_on_cons_ne c x (l ++ c :: s)) as (l' & ls & Hs & ->); [set_solver|].
    rewrite IH in Hs by set_solver. by simplify_eq.
Qed.

Lemma split_on_clean_id c l : c ∉ l → split_on c l = [l].
Proof.
  induction l as [|x l IH]; intros Hl; [done|].
  destruct (split_on_cons_ne c x l) as (l' & ls & Hs & ->); [set_solver|].
  rewrite IH in Hs by set_solver. by simplify_eq.
Qed.

Lemma split_join c ls :
  ls ≠ [] → Forall (fun l => c ∉ l) ls → split_on c (join_on c ls) = ls.
Proof.
  induction ls as [|l ls IH]; intros Hne Hc; [done|].
  apply Forall_cons in Hc as [Hl Hls]. destruct ls as [|l' ls].
  - by apply split_on_clean_id.
  - rewrite join_on_cons, split_on_app_sep by done. by rewrite IH.
Qed.

Lemma split_once_Some c s p q :
  split_once c s = Some (p, q) ↔ s = p ++ c :: q ∧ c ∉ p.
Proof.
  revert p. induction s as [|x s IH]; intros p; cbn [split_once].
  - split; [done|]. intros [? _]. by destruct p.
  - destruct (Z.eqb_spec x c) as [->|Hx].
    + split; [intros [= <- <-]; split; [done|set_solver]|].
      intros [He Hp]. destruct p; simplify_list_eq; [done|set_solver].
    + rewrite fmap_Some. split.
      * intros ([p' q'] & Hs & [= -> ->]). apply IH in Hs as [-> ?].
        split; [done|set_solver].
      * intros [He Hp]. destruct p as [|y p]; simplify_list_eq.
        exists (p, q). split; [|done]. apply IH. set_solver.
Qed.

Lemma split_once_None c s : split_once c s = None ↔ c ∉ s.
Proof.
  induction s as [|x s IH]; cbn [split_once]; [set_solver|].
  destruct (Z.eqb_spec x c) as [->|Hx]; [set_solver|].
  rewrite fmap_None, IH. set_solver.
Qed.

Lemma split_on_once c s :
  split_on c s = match split_once c s with
                 | Some (p, q) => p :: split_on c q
                 | None => [s]
                 end.
Proof.
  destruct (split_once c s) as [[p q]|] eqn:E.
  - apply split_once_Some in E as [-> Hp]. by apply split_on_app_sep.
  - apply split_once_None in E. by apply split_on_clean_id.
Qed.

Lemma ends_with_spec s t : ends_with s t = true ↔ t `suffix_of` s.
Proof. apply bool_decide_eq_true. Qed.

(** ** Lemmas: lower case *)

Lemma ascii_lower_idemp b : ascii_lower (ascii_lower b) = ascii_lower b.
Proof. unfold ascii_lower. repeat case_match; lia. Qed.

Lemma split_on_fmap (f : Z → Z) s :
  (∀ c, (f c =? DOT)%Z = (c =? DOT)%Z) →
  split_on DOT (f <$> s : list Z) = (fun l : list Z => f <$> l : list Z) <$> split_on DOT s.
Proof.
  intros Hf. induction s as [|c s IH]; [done|]. cbn [fmap list_fmap split_on].
  rewrite Hf. cbn [fmap list_fmap] in IH |- *. rewrite IH.
  destruct (c =? DOT)%Z; [done|]. by destruct (split_on DOT s).
Qed.

Lemma ascii_lower_dot c : (ascii_lower c =? DOT)%Z = (c =? DOT)%Z.
Proof.
  unfold ascii_lower, DOT.
  repeat match goal with |- context [if ?b then _ else _] => destruct b eqn:? end; lia.
Qed.

Lemma is_ascii_lower s : is_ascii s = true → is_ascii (ascii_lower <$> s) = true.
Proof.
  unfold is_ascii. rewrite !forallb_forall. intros H x Hx.
  apply list_elem_of_In, list_elem_of_fmap in Hx as (y & -> & Hy).
  apply list_elem_of_In in Hy. specialize (H _ Hy).
  unfold ascii_lower. case_match; lia.
Qed.

Lemma to_lowercase_ascii `{Unicode} s :
  is_ascii s = true → to_lowercase s = ascii_lower <$> s.
Proof. unfold to_lowercase. by intros ->. Qed.

Lemma to_lowercase_idemp_ascii `{Unicode} s :
  is_ascii s = true → to_lowercase (to_lowercase s) = to_lowercase s.
Proof.
  intros Hs. rewrite (to_lowercase_ascii s) by done.
  rewrite to_lowercase_ascii by by apply is_ascii_lower.
  rewrite <- list_fmap_compose. apply list_fmap_ext. intros. apply ascii_lower_idemp.
Qed.

(** ** Lemmas: UTF-8 *)

Lemma is_cont_safe_get s i : is_cont (safe_get s i) = true → i < length s.
Proof.
  unfold safe_get. destruct (s !! i) eqn:E; simpl; [|done].
  intros _. by eapply lookup_lt_Some.
Qed.

Lemma utf8_second_safe_get lead s i : utf8_second_ok lead (safe_get s i) = true → i < length s.
Proof.
  unfold safe_get. destruct (s !! i) eqn:E; simpl; [intros _; by eapply lookup_lt_Some|].
  unfold utf8_second_ok. repeat case_match; done.
Qed.

Lemma safe_get_app s t i : i < length s → safe_get (s ++ t) i = safe_get s i.
Proof. intros. unfold safe_get. by rewrite lookup_app_l. Qed.

Ltac utf8_cases :=
  repeat match goal with
  | H : is_cont (safe_get _ _) = true |- _ =>
      pose proof (is_cont_safe_get _ _ H); revert H
  | H : utf8_second_ok _ (safe_get _ _) = true |- _ =>
      pose proof (utf8_second_safe_get _ _ _ H); revert H
  end; intros.

Lemma utf8_step_bounds s ok k : s ≠ [] → utf8_step s = (ok, k) → 1 ≤ k ≤ length s.
Proof.
  intros Hs. assert (0 < length s) by (destruct s; simpl; [done|lia]).
  unfold utf8_step. repeat case_match; intros; simplify_eq; utf8_cases; lia.
Qed.

Lemma utf8_step_app s t k : s ≠ [] → utf8_step s = (true, k) → utf8_step (s ++ t) = (true, k).
Proof.
  intros Hs. assert (0 < length s) by (destruct s; simpl; [done|lia]).
  unfold utf8_step. rewrite (safe_get_app s t 0) by done.
  repeat case_match; intros; simplify_eq; utf8_cases; try done;
    repeat match goal with
    | H : context [safe_get (s ++ t) _] |- _ => rewrite safe_get_app in H by done
    end; congruence.
Qed.

Lemma utf8_lossy_fuel n s : length s ≤ n → utf8_lossy n s = from_utf8_lossy s.
Proof.
  unfold from_utf8_lossy.
  assert (∀ n m s, length s ≤ n → length s ≤ m → utf8_lossy n s = utf8_lossy m s) as H.
  { clear. intros n. induction n as [|n IH]; intros m s Hn Hm.
    - destruct s; [by destruct m|simpl in *; lia].
    - destruct s as [|b s]; [by destruct m|]. destruct m as [|m]; [simpl in *; lia|].
      cbn [utf8_lossy]. destruct (utf8_step (b :: s)) as [ok k] eqn:E.
      apply utf8_step_bounds in E; [|done]. f_equal.
      apply IH; rewrite length_drop; simpl in *; lia. }
  intros. by apply H.
Qed.

Lemma from_utf8_lossy_unfold s ok k :
  s ≠ [] → utf8_step s = (ok, k) →
  from_utf8_lossy s = (if ok then take k s else REPLACEMENT) ++ from_utf8_lossy (drop k s).
Proof.
  intros Hs Hk. pose proof (utf8_step_bounds _ _ _ Hs Hk).
  unfold from_utf8_lossy at 1. destruct s as [|b s]; [done|].
  cbn [length utf8_lossy]. rewrite Hk. f_equal.
  apply utf8_lossy_fuel. rewrite length_drop. simpl in *. lia.
Qed.

Lemma from_utf8_lossy_valid s : Utf8 s → from_utf8_lossy s = s.
Proof.
  induction 1 as [|s k Hs Hk Hr IH]; [done|].
  rewrite (from_utf8_lossy_unfold s true k) by done. by rewrite IH, take_drop.
Qed.

Lemma Utf8_app s t : Utf8 s → Utf8 t → Utf8 (s ++ t).
Proof.
  intros Hs Ht. induction Hs as [|s k Hne Hk Hr IH]; [done|].
  pose proof (utf8_step_bounds _ _ _ Hne Hk).
  apply (Utf8_step (s ++ t) k); [by destruct s|by apply utf8_step_app|].
  by rewrite drop_app_le by lia.
Qed.

Lemma Utf8_ascii s : is_ascii s = true → Forall (fun b => 0 ≤ b)%Z s → Utf8 s.
Proof.
  induction s as [|b s IH]; intros Ha Hp; [constructor|].
  simpl in Ha. apply andb_true_iff in Ha as [Hb Ha]. apply Forall_cons in Hp as [Hb0 Hp].
  apply (Utf8_step (b :: s) 1); [done| |by apply IH].
  unfold utf8_step, safe_get. simpl. by rewrite Hb.
Qed.

Lemma utf8_step_take s k : s ≠ [] → utf8_step s = (true, k) → utf8_step (take k s) = (true, k).
Proof.
  intros Hs Hk. destruct (utf8_step_bounds _ _ _ Hs Hk) as [H1 H2].
  assert (∀ i, i < k → safe_get (take k s) i = safe_get s i) as Hg.
  { intros i Hi. unfold safe_get. by rewrite lookup_take_lt. }
  revert Hk. unfold utf8_step. rewrite (Hg 0) by lia.
  repeat case_match; intros; simplify_eq; try done;
    rewrite ?Hg in * by lia; congruence.
Qed.

Lemma Utf8_lossy s : Utf8 (from_utf8_lossy s).
Proof.
  remember (length s) as n eqn:Hn. revert s Hn.
  induction (lt_wf n) as [n _ IH]. intros s ->.
  destruct (decide (s = [])) as [->|Hs]; [constructor|].
  destruct (utf8_step s) as [ok k] eqn:E.
  pose proof (utf8_step_bounds _ _ _ Hs E).
  rewrite (from_utf8_lossy_unfold s ok k) by done.
  apply Utf8_app; [|eapply IH; [|done]; rewrite length_drop; lia].
  destruct ok.
  - apply (Utf8_step _ k); [destruct s, k; simpl in *; try lia; done|by apply utf8_step_take|].
    rewrite drop_ge by (rewrite length_take; lia). constructor.
  - apply (Utf8_step _ 3); [done|by vm_compute|constructor].
Qed.

Lemma wf_bytes_lossy s : wf_bytes s → wf_bytes (from_utf8_lossy s).
Proof.
  remember (length s) as n eqn:Hn. revert s Hn.
  induction (lt_wf n) as [n _ IH]. intros s -> Hw.
  destruct (decide (s = [])) as [->|Hs]; [constructor|].
  destruct (utf8_step s) as [ok k] eqn:E.
  pose proof (utf8_step_bounds _ _ _ Hs E).
  rewrite (from_utf8_lossy_unfold s ok k) by done.
  apply Forall_app; split.
  - destruct ok; [by apply Forall_take|]. repeat constructor; width_lia.
  - eapply IH; [|done|by apply Forall_drop]. rewrite length_drop. lia.
Qed.
