(* ===== verification/TextParse.v ===== *)
(** * The text parsers of the Rust standard library

    What the configuration code calls: [str::trim], [lines] and
    [split_whitespace], [u8]/[u16]/[u32]::from_str, and the [std::net] parsers of
    [Ipv4Addr], [Ipv6Addr] and [SocketAddr] ([core::net::parser]), over the UTF-8
    bytes of the string. *)

From S2P Require Import Prelude RustStd.

(** ** White space *)

(** The byte length of the white-space character ([char::is_whitespace], the
    Unicode White_Space property) at the head of [s]; zero when there is none. *)
Definition ws_len (s : bytes) : nat :=
  match s with
  | c :: s1 =>
      if in_range 9 13 c || (c =? 32)%Z then 1
      else match s1 with
      | d :: s2 =>
          if (c =? 194)%Z && ((d =? 133) || (d =? 160))%Z then 2
          else match s2 with
          | e :: _ =>
              if ((c =? 225) && (d =? 154) && (e =? 128))%Z
                 || ((c =? 226)%Z && (d =? 128)%Z
                     && (in_range 128 138 e || (e =? 168) || (e =? 169) || (e =? 175))%Z)
                 || ((c =? 226) && (d =? 129) && (e =? 159))%Z
                 || ((c =? 227) && (d =? 128) && (e =? 128))%Z
              then 3 else 0
          | [] => 0
          end
      | [] => 0
      end
  | [] => 0
  end.

(** [str::trim_start]; the length is enough fuel, each step drops a byte. *)
Fixpoint trim_start_n (n : nat) (s : bytes) : bytes :=
  match n with
  | 0 => s
  | S n' => match ws_len s with 0 => s | k => trim_start_n n' (drop k s) end
  end.
Definition trim_start (s : bytes) : bytes := trim_start_n (length s) s.

(** The length of the white-space character that ends [s]. *)
Definition ws_len_end (s : bytes) : nat :=
  let n := length s in
  if ws_len (drop (n - 1) s) =? 1 then 1
  else if ws_len (drop (n - 2) s) =? 2 then 2
  else if ws_len (drop (n - 3) s) =? 3 then 3
  else 0.

Fixpoint trim_end_n (n : nat) (s : bytes) : bytes :=
  match n with
  | 0 => s
  | S n' =>
      match ws_len_end s with 0 => s | k => trim_end_n n' (take (length s - k) s) end
  end.
Definition trim_end (s : bytes) : bytes := trim_end_n (length s) s.

(** [str::trim]. *)
Definition trim (s : bytes) : bytes := trim_end (trim_start s).

(** [str::split_whitespace]: [cur] is the current word, reversed. A byte inside a
    multi-byte character is never the start of a white-space character. *)
Fixpoint words_n (n : nat) (cur s : bytes) : list bytes :=
  let flush := match cur with [] => [] | _ => [rev cur] end in
  match n, s with
  | _, [] => flush
  | 0, _ => flush
  | S n', c :: s' =>
      match ws_len s with
      | 0 => words_n n' (c :: cur) s'
      | k => flush ++ words_n n' [] (drop k s)
      end
  end.
Definition split_whitespace (s : bytes) : list bytes := words_n (length s) [] s.

(** [str::lines]: pieces ended by ["\n"], each without its optional ["\r"]; no
    piece after a final newline. *)
Definition strip_cr (l : bytes) : bytes := default l (strip_suffix_char 13 l).
Definition lines (s : bytes) : list bytes :=
  let ps := split_on 10 s in
  let body := removelast ps in
  let last_piece := List.last ps [] in
  (strip_cr <$> body) ++ (match last_piece with [] => [] | l => [l] end).

(** ** Integers *)

Definition digit (c : Z) : option Z := if in_range 48 57 c then Some (c - 48)%Z else None.

(** [char::to_digit(16)]. *)
Definition hex_digit (c : Z) : option Z :=
  if in_range 48 57 c then Some (c - 48)%Z
  else if in_range 97 102 c then Some (c - 87)%Z
  else if in_range 65 70 c then Some (c - 55)%Z
  else None.

(** Decimal digits to the end, failing above [max]. *)
Fixpoint digits_to (max acc : Z) (s : bytes) : option Z :=
  match s with
  | [] => Some acc
  | c :: s' =>
      d ← digit c;
      let acc' := (acc * 10 + d)%Z in
      if (max <? acc')%Z then None else digits_to max acc' s'
  end.

(** [<unsigned>::from_str] for a type of maximum [max]: an optional plus sign and
    at least one digit. *)
Definition parse_uint (max : Z) (s : bytes) : option Z :=
  let s' := match s with c :: t => if (c =? 43)%Z then t else s | [] => s end in
  match s' with
  | [] => None
  | _ => digits_to max 0 s'
  end.
Definition parse_u8 : bytes → option Z := parse_uint 255.
Definition parse_u16 : bytes → option Z := parse_uint 65535.
Definition parse_u32 : bytes → option Z := parse_uint 4294967295.

(** ** [core::net::parser]

    A parser returns the value and the rest of the input; a failure consumes
    nothing ([read_atomically]). *)
Definition parser (A : Type) : Type := bytes → option (A * bytes).

Definition read_given_char (c : Z) : parser unit := fun s =>
  match s with
  | x :: s' => if (x =? c)%Z then Some (tt, s') else None
  | [] => None
  end.

(** The digits at the head: value, how many, rest; [None] past [max_digits]. *)
Fixpoint read_digits (radix : Z) (dig : Z → option Z) (budget : nat) (acc : Z) (n : nat)
    (s : bytes) {struct s} : option (Z * nat * bytes) :=
  match s with
  | [] => Some (acc, n, [])
  | c :: s' =>
      match dig c with
      | None => Some (acc, n, s)
      | Some d =>
          match budget with
          | 0 => None
          | S b => read_digits radix dig b (acc * radix + d)%Z (S n) s'
          end
      end
  end.

(** [read_number] with a bound on the digits. *)
Definition read_number (radix : Z) (dig : Z → option Z) (max_digits : nat)
    (allow_zero_prefix : bool) (max : Z) : parser Z := fun s =>
  let leading_zero := match s with c :: _ => (c =? 48)%Z | [] => false end in
  '(v, n, rest) ← read_digits radix dig max_digits 0 0 s;
  if n =? 0 then None
  else if negb allow_zero_prefix && leading_zero && (1 <? n) then None
  else if (max <? v)%Z then None
  else Some (v, rest).

(** [read_separator(sep, index, inner)]: the separator before every item but the
    first. *)
Definition read_separator {A} (sep : Z) (index : nat) (p : parser A) : parser A := fun s =>
  if 0 <? index then '(_, s') ← read_given_char sep s; p s' else p s.

Definition read_octet : parser Z := read_number 10 digit 3 false 255.

Definition read_ipv4_addr : parser bytes := fun s =>
  '(a, s) ← read_separator DOT 0 read_octet s;
  '(b, s) ← read_separator DOT 1 read_octet s;
  '(c, s) ← read_separator DOT 2 read_octet s;
  '(d, s) ← read_separator DOT 3 read_octet s;
  Some ([a; b; c; d], s).

(** The [:] character. *)
Definition COLON : Z := 58.

Definition read_group : parser Z := read_number 16 hex_digit 4 true 65535.

(** [read_groups]: up to [limit] 16-bit groups from index [i], the last two
    possibly a dotted quad; whether it ended in one. *)
Fixpoint read_groups (limit i : nat) (s : bytes) : list Z * bool * bytes :=
  match limit with
  | 0 => ([], false, s)
  | S l =>
      let v4 := if 0 <? l then read_separator COLON i read_ipv4_addr s else None in
      match v4 with
      | Some (q, s') =>
          ([u16_from_be_bytes (q !!! 0) (q !!! 1); u16_from_be_bytes (q !!! 2) (q !!! 3)], true, s')
      | None =>
          match read_separator COLON i read_group s with
          | Some (g, s') =>
              let '(gs, v, s'') := read_groups l (S i) s' in (g :: gs, v, s'')
          | None => ([], false, s)
          end
      end
  end.

Definition groups_to_octets (gs : list Z) : bytes := concat (u16_to_be_bytes <$> gs).

Definition read_ipv6_addr : parser bytes := fun s =>
  let '(hd, head_ipv4, s) := read_groups 8 0 s in
  if length hd =? 8 then Some (groups_to_octets hd, s)
  else if head_ipv4 then None
  else
    '(_, s) ← read_given_char COLON s;
    '(_, s) ← read_given_char COLON s;
    let limit := 8 - (length hd + 1) in
    let '(tl, _, s) := read_groups limit 0 s in
    Some (groups_to_octets (hd ++ replicate (8 - length hd - length tl) 0%Z ++ tl), s).

(** The whole input must be consumed. *)
Definition parse_with {A} (p : parser A) (s : bytes) : option A :=
  match p s with Some (a, []) => Some a | _ => None end.

(** [Ipv4Addr::from_str] (at most 15 bytes) and [Ipv6Addr::from_str]. *)
Definition parse_ipv4 (s : bytes) : option bytes :=
  if 15 <? length s then None else parse_with read_ipv4_addr s.
Definition parse_ipv6 (s : bytes) : option bytes := parse_with read_ipv6_addr s.

(** [read_port] and [read_scope_id]: a character, then a number of any length that
    does not overflow. *)
Definition read_any_number (max : Z) : parser Z := fun s => read_number 10 digit (length s) true max s.
Definition read_port : parser Z := fun s =>
  '(_, s) ← read_given_char COLON s; read_any_number 65535 s.
Definition read_scope_id : parser Z := fun s =>
  '(_, s) ← read_given_char 37 s; read_any_number 4294967295 s.

Definition read_socket_addr_v4 : parser SocketAddr := fun s =>
  '(ip, s) ← read_ipv4_addr s;
  '(port, s) ← read_port s;
  Some (mkSocketAddr (V4 ip) port, s).

Definition read_socket_addr_v6 : parser SocketAddr := fun s =>
  '(_, s) ← read_given_char 91 s;
  '(ip, s) ← read_ipv6_addr s;
  let '(scope, s) := default (0%Z, s) (read_scope_id s) in
  '(_, s) ← read_given_char 93 s;
  '(port, s) ← read_port s;
  Some (mkScoped (V6 ip) port scope, s).

(** [SocketAddr::from_str]. *)
Definition parse_socket_addr (s : bytes) : option SocketAddr :=
  parse_with (fun s => match read_socket_addr_v4 s with
                       | Some r => Some r
                       | None => read_socket_addr_v6 s
                       end) s.

(** ** Lemmas *)

Lemma digits_to_bound max acc s v :
  (0 <= acc <= max)%Z → digits_to max acc s = Some v → (0 <= v <= max)%Z.
Proof.
  revert acc. induction s as [|c s IH]; intros acc Ha; cbn [digits_to]; [naive_solver|].
  intros H. apply bind_Some in H as (d & Hd & H). cbn zeta in H.
  destruct (Z.ltb_spec max (acc * 10 + d)); [done|]. eapply IH; [|exact H].
  unfold digit, in_range in Hd. case_match; simplify_eq. lia.
Qed.

Lemma parse_uint_bound max s v : (0 <= max)%Z → parse_uint max s = Some v → (0 <= v <= max)%Z.
Proof. intros Hm. unfold parse_uint. case_match; [done|]. apply digits_to_bound. lia. Qed.

Lemma hex_digit_bound c d : hex_digit c = Some d → (0 <= d < 16)%Z.
Proof. unfold hex_digit, in_range. repeat case_match; intros; simplify_eq; lia. Qed.

Lemma digit_bound c d : digit c = Some d → (0 <= d < 10)%Z.
Proof. unfold digit, in_range. repeat case_match; intros; simplify_eq; lia. Qed.

Lemma read_digits_nonneg radix dig b acc n s v k rest :
  (0 <= radix)%Z → (∀ c d, dig c = Some d → (0 <= d)%Z) → (0 <= acc)%Z →
  read_digits radix dig b acc n s = Some (v, k, rest) → (0 <= v)%Z.
Proof.
  intros Hr Hd. revert b acc n. induction s as [|c s IH]; intros b acc n Ha; cbn [read_digits].
  { by intros [= <-]. }
  destruct (dig c) as [d|] eqn:E; [|by intros [= <-]]. destruct b; [done|].
  apply IH. pose proof (Hd _ _ E). nia.
Qed.

Lemma read_number_bound radix dig k z max s v rest :
  (0 <= radix)%Z → (∀ c d, dig c = Some d → (0 <= d)%Z) →
  read_number radix dig k z max s = Some (v, rest) → (0 <= v <= max)%Z.
Proof.
  intros Hr Hd. unfold read_number. intros H. apply bind_Some in H as ([[v' n] r] & Hv & H).
  apply read_digits_nonneg in Hv; [|done|done|lia].
  destruct (n =? 0); [done|]. destruct (_ && _); [done|].
  destruct (Z.ltb_spec max v'); [done|]. simplify_eq. lia.
Qed.

Lemma read_separator_inv {A} sep i (p : parser A) s a rest :
  read_separator sep i p s = Some (a, rest) → ∃ s', p s' = Some (a, rest).
Proof.
  unfold read_separator. destruct (0 <? i); [|eauto].
  intros H. apply bind_Some in H as ([] & _ & H). eauto.
Qed.

Lemma read_octet_u8 i s v rest : read_separator DOT i read_octet s = Some (v, rest) → is_u8 v.
Proof.
  intros [s' H]%read_separator_inv. apply read_number_bound in H; [width_lia|lia|].
  intros c d Hd%digit_bound. lia.
Qed.

Lemma read_ipv4_wf s a rest : read_ipv4_addr s = Some (a, rest) → wf_ipv4 a.
Proof.
  unfold read_ipv4_addr. intros H.
  repeat (let p := fresh in let E := fresh in
    apply bind_Some in H as (p & E & H); destruct p; apply read_octet_u8 in E).
  simplify_eq. split; [done|]. by repeat apply Forall_cons_2.
Qed.

Lemma wf_groups_to_octets gs : wf_bytes (groups_to_octets gs).
Proof.
  induction gs as [|g gs IH]; [constructor|]. unfold groups_to_octets. cbn.
  do 2 (apply Forall_cons_2; [apply as_u8_u8|]). done.
Qed.

Lemma length_groups_to_octets gs : length (groups_to_octets gs) = 2 * length gs.
Proof. induction gs as [|g gs IH]; [done|]. unfold groups_to_octets in *. cbn in *. lia. Qed.

Lemma read_groups_length limit i s gs v rest :
  read_groups limit i s = (gs, v, rest) → length gs ≤ limit.
Proof.
  revert i s gs v rest. induction limit as [|l IH]; intros i s gs v rest; cbn [read_groups].
  { intros. simplify_eq. cbn. lia. }
  destruct (if 0 <? l then _ else _) as [[q s']|] eqn:E.
  { destruct (Nat.ltb_spec 0 l); [|done]. intros. simplify_eq. cbn. lia. }
  destruct (read_separator COLON i read_group s) as [[g s']|].
  - destruct (read_groups l (S i) s') as [[gs' v'] s''] eqn:E'. apply IH in E'.
    intros. simplify_eq. cbn. lia.
  - intros. simplify_eq. cbn. lia.
Qed.

Lemma read_ipv6_wf s a rest : read_ipv6_addr s = Some (a, rest) → wf_ipv6 a.
Proof.
  unfold read_ipv6_addr. destruct (read_groups 8 0 s) as [[hd v4] s1] eqn:E1.
  apply read_groups_length in E1. destruct (Nat.eqb_spec (length hd) 8) as [H8|H8].
  { intros. simplify_eq. split; [rewrite length_groups_to_octets; lia|apply wf_groups_to_octets]. }
  destruct v4; [done|]. intros H. apply bind_Some in H as ([[] s2] & _ & H).
  apply bind_Some in H as ([[] s3] & _ & H).
  destruct (read_groups (8 - (length hd + 1)) 0 s3) as [[tl v] s4] eqn:E2.
  apply read_groups_length in E2. simplify_eq.
  split; [|apply wf_groups_to_octets].
  rewrite length_groups_to_octets, !length_app, length_replicate. lia.
Qed.

(** Every parsed address is a well-formed octet array. *)
Lemma parse_ipv4_wf s a : parse_ipv4 s = Some a → wf_ipv4 a.
Proof.
  unfold parse_ipv4, parse_with. case_match; [done|].
  destruct (read_ipv4_addr s) as [[a' r]|] eqn:E; [|done]. apply read_ipv4_wf in E.
  case_match; naive_solver.
Qed.

Lemma parse_ipv6_wf s a : parse_ipv6 s = Some a → wf_ipv6 a.
Proof.
  unfold parse_ipv6, parse_with.
  destruct (read_ipv6_addr s) as [[a' r]|] eqn:E; [|done]. apply read_ipv6_wf in E.
  case_match; naive_solver.
Qed.
