(* ===== verification/Message.v ===== *)
(** * The DNS message data model

    Models [src/src/dns/error.rs], [header.rs], [question.rs], [record.rs] and the
    [DnsPacket] structure of [packet.rs]: the parse errors, the header, the
    questions, the fifteen kinds of resource record with their type codes and
    accessors, and the type invariant of each (integers within their width,
    strings valid UTF-8, addresses of the right length). *)

From stdpp Require Import pretty.
From S2P Require Import Prelude RustStd.

(** ** Errors of the wire parser *)
Inductive DnsError :=
| Truncated (what : string)
| InvalidRdata (rtype : Z)
| PointerLoop.

(** [impl Display for DnsError]. *)
Definition display (e : DnsError) : string :=
  match e with
  | Truncated what => "message truncated while reading " +:+ what
  | InvalidRdata rtype => "invalid rdata length for record type " +:+ pretty rtype
  | PointerLoop => "too many compression pointers (possible pointer loop)"
  end.

(** The message of an error identifies it. *)
#[global] Instance display_inj : Inj (=) (=) display.
Proof. intros [w|r|] [w'|r'|] [=]; by simplify_eq. Qed.

Abbreviation presult := (res DnsError).

(** ** Header and questions *)
Record DnsHeader := mkHeader {
  h_id : Z;
  h_flags : Z;
  h_questions : Z;
  h_answers : Z;
  h_authorities : Z;
  h_additionals : Z;
}.

Record DnsQuestion := mkQuestion { qname : bytes; qtype : Z; qclass : Z }.

(** ** Resource records *)
Module DnsRecord.

Inductive t :=
| A (domain : bytes) (addr : Ipv4Addr) (ttl : Z)
| AAAA (domain : bytes) (addr : Ipv6Addr) (ttl : Z)
| CNAME (domain alias : bytes) (ttl : Z)
| MX (domain : bytes) (preference : Z) (exchange : bytes) (ttl : Z)
| TXT (domain text : bytes) (ttl : Z)
| NS (domain nameserver : bytes) (ttl : Z)
| SOA (domain mname rname : bytes) (serial refresh retry expire minimum ttl : Z)
| SRV (domain : bytes) (priority weight port : Z) (target : bytes) (ttl : Z)
| PTR (domain ptrdname : bytes) (ttl : Z)
| CAA (domain : bytes) (flags : Z) (tag value : bytes) (ttl : Z)
| OPT (udp_size : Z)
| DNSKEY (domain : bytes) (flags protocol algorithm : Z) (public_key : bytes) (ttl : Z)
| RRSIG (domain : bytes)
    (type_covered algorithm labels original_ttl signature_expiration
     signature_inception key_tag : Z) (signer_name signature : bytes) (ttl : Z)
| DS (domain : bytes) (key_tag algorithm digest_type : Z) (digest : bytes) (ttl : Z)
| NSEC (domain next_name type_bitmap : bytes) (ttl : Z).

Definition TYPE_A : Z := 1.
Definition TYPE_NS : Z := 2.
Definition TYPE_CNAME : Z := 5.
Definition TYPE_SOA : Z := 6.
Definition TYPE_MX : Z := 15.
Definition TYPE_TXT : Z := 16.
Definition TYPE_AAAA : Z := 28.
Definition TYPE_PTR : Z := 12.
Definition TYPE_SRV : Z := 33.
Definition TYPE_OPT : Z := 41.
Definition TYPE_DS : Z := 43.
Definition TYPE_RRSIG : Z := 46.
Definition TYPE_NSEC : Z := 47.
Definition TYPE_DNSKEY : Z := 48.
Definition TYPE_CAA : Z := 257.
Definition TYPE_AXFR : Z := 252.
Definition TYPE_IXFR : Z := 251.

Definition record_type (r : t) : Z :=
  match r with
  | A _ _ _ => TYPE_A
  | AAAA _ _ _ => TYPE_AAAA
  | CNAME _ _ _ => TYPE_CNAME
  | MX _ _ _ _ => TYPE_MX
  | TXT _ _ _ => TYPE_TXT
  | NS _ _ _ => TYPE_NS
  | SOA _ _ _ _ _ _ _ _ _ => TYPE_SOA
  | SRV _ _ _ _ _ _ => TYPE_SRV
  | PTR _ _ _ => TYPE_PTR
  | CAA _ _ _ _ _ => TYPE_CAA
  | OPT _ => TYPE_OPT
  | DNSKEY _ _ _ _ _ _ => TYPE_DNSKEY
  | RRSIG _ _ _ _ _ _ _ _ _ _ _ => TYPE_RRSIG
  | DS _ _ _ _ _ _ => TYPE_DS
  | NSEC _ _ _ _ => TYPE_NSEC
  end.

(** The TTL; zero for OPT. *)
Definition ttl (r : t) : Z :=
  match r with
  | A _ _ ttl | AAAA _ _ ttl | CNAME _ _ ttl | MX _ _ _ ttl | TXT _ _ ttl
  | NS _ _ ttl | SOA _ _ _ _ _ _ _ _ ttl | SRV _ _ _ _ _ ttl | PTR _ _ ttl
  | CAA _ _ _ _ ttl | DNSKEY _ _ _ _ _ ttl | RRSIG _ _ _ _ _ _ _ _ _ _ ttl
  | DS _ _ _ _ _ ttl | NSEC _ _ _ ttl => ttl
  | OPT _ => 0
  end.

(** The owner name; empty for OPT. *)
Definition domain (r : t) : bytes :=
  match r with
  | A d _ _ | AAAA d _ _ | CNAME d _ _ | MX d _ _ _ | TXT d _ _
  | NS d _ _ | SOA d _ _ _ _ _ _ _ _ | SRV d _ _ _ _ _ | PTR d _ _
  | CAA d _ _ _ _ | DNSKEY d _ _ _ _ _ | RRSIG d _ _ _ _ _ _ _ _ _ _
  | DS d _ _ _ _ _ | NSEC d _ _ _ => d
  | OPT _ => []
  end.

(** The record with its owner name replaced; OPT is returned unchanged. *)
Definition with_domain (r : t) (d : bytes) : t :=
  match r with
  | A _ a ttl => A d a ttl
  | AAAA _ a ttl => AAAA d a ttl
  | CNAME _ al ttl => CNAME d al ttl
  | MX _ p e ttl => MX d p e ttl
  | TXT _ x ttl => TXT d x ttl
  | NS _ n ttl => NS d n ttl
  | SOA _ m r0 s rf rt e mi ttl => SOA d m r0 s rf rt e mi ttl
  | SRV _ p w po ta ttl => SRV d p w po ta ttl
  | PTR _ p ttl => PTR d p ttl
  | CAA _ f ta v ttl => CAA d f ta v ttl
  | OPT u => OPT u
  | DNSKEY _ f p a k ttl => DNSKEY d f p a k ttl
  | RRSIG _ tc a l ot se si kt sn sg ttl => RRSIG d tc a l ot se si kt sn sg ttl
  | DS _ kt a dt dg ttl => DS d kt a dt dg ttl
  | NSEC _ n b ttl => NSEC d n b ttl
  end.

(** [matches!(r, DnsRecord::SOA { .. })] and the same for OPT. *)
Definition is_SOA (r : t) : bool :=
  match r with SOA _ _ _ _ _ _ _ _ _ => true | _ => false end.
Definition is_OPT (r : t) : bool := match r with OPT _ => true | _ => false end.

End DnsRecord.

(** ** Packets *)
Record DnsPacket := mkPacket {
  header : DnsHeader;
  questions : list DnsQuestion;
  answers : list DnsRecord.t;
  authorities : list DnsRecord.t;
  additionals : list DnsRecord.t;
}.

(** ** Type invariants *)

(** A Rust [String]: bytes that are valid UTF-8. *)
Definition wf_string (s : bytes) : Prop := wf_bytes s ∧ Utf8 s.

Definition wf_header (h : DnsHeader) : Prop :=
  is_u16 (h_id h) ∧ is_u16 (h_flags h) ∧ is_u16 (h_questions h) ∧
  is_u16 (h_answers h) ∧ is_u16 (h_authorities h) ∧ is_u16 (h_additionals h).

Definition wf_question (q : DnsQuestion) : Prop :=
  wf_string (qname q) ∧ is_u16 (qtype q) ∧ is_u16 (qclass q).

Definition wf_rdata (r : DnsRecord.t) : Prop :=
  match r with
  | DnsRecord.A _ a _ => wf_ipv4 a
  | DnsRecord.AAAA _ a _ => wf_ipv6 a
  | DnsRecord.CNAME _ n _ | DnsRecord.NS _ n _ | DnsRecord.PTR _ n _
  | DnsRecord.TXT _ n _ => wf_string n
  | DnsRecord.MX _ p e _ => is_u16 p ∧ wf_string e
  | DnsRecord.SOA _ m r s rf rt e mi _ =>
      wf_string m ∧ wf_string r ∧ is_u32 s ∧ is_u32 rf ∧ is_u32 rt ∧ is_u32 e ∧ is_u32 mi
  | DnsRecord.SRV _ p w po ta _ => is_u16 p ∧ is_u16 w ∧ is_u16 po ∧ wf_string ta
  | DnsRecord.CAA _ f ta v _ => is_u8 f ∧ wf_string ta ∧ wf_string v
  | DnsRecord.OPT u => is_u16 u
  | DnsRecord.DNSKEY _ f p a k _ => is_u16 f ∧ is_u8 p ∧ is_u8 a ∧ wf_bytes k
  | DnsRecord.RRSIG _ tc a l ot se si kt sn sg _ =>
      is_u16 tc ∧ is_u8 a ∧ is_u8 l ∧ is_u32 ot ∧ is_u32 se ∧ is_u32 si ∧
      is_u16 kt ∧ wf_string sn ∧ wf_bytes sg
  | DnsRecord.DS _ kt a dt dg _ => is_u16 kt ∧ is_u8 a ∧ is_u8 dt ∧ wf_bytes dg
  | DnsRecord.NSEC _ n b _ => wf_string n ∧ wf_bytes b
  end.

Definition wf_record (r : DnsRecord.t) : Prop :=
  wf_string (DnsRecord.domain r) ∧ is_u32 (DnsRecord.ttl r) ∧ wf_rdata r.

Definition wf_packet (p : DnsPacket) : Prop :=
  wf_header (header p) ∧ Forall wf_question (questions p) ∧
  Forall wf_record (answers p) ∧ Forall wf_record (authorities p) ∧
  Forall wf_record (additionals p).

(** ** Lemmas *)

Lemma with_domain_type r d :
  DnsRecord.record_type (DnsRecord.with_domain r d) = DnsRecord.record_type r.
Proof. by destruct r. Qed.

Lemma with_domain_ttl r d : DnsRecord.ttl (DnsRecord.with_domain r d) = DnsRecord.ttl r.
Proof. by destruct r. Qed.

Lemma with_domain_domain r d :
  DnsRecord.is_OPT r = false → DnsRecord.domain (DnsRecord.with_domain r d) = d.
Proof. by destruct r. Qed.

Lemma wf_with_domain r d : wf_string d → wf_record r → wf_record (DnsRecord.with_domain r d).
Proof. intros Hd (H1 & H2 & H3). destruct r; split_and!; simpl in *; done. Qed.

Lemma wf_string_nil : wf_string [].
Proof. split; constructor. Qed.

Lemma wf_string_app s t : wf_string s → wf_string t → wf_string (s ++ t).
Proof.
  intros [Hs Hs'] [Ht Ht']. split; [by apply Forall_app|by apply Utf8_app].
Qed.

Lemma wf_string_lossy s : wf_bytes s → wf_string (from_utf8_lossy s).
Proof. split; [by apply wf_bytes_lossy|apply Utf8_lossy]. Qed.

Lemma wf_string_ascii s : wf_bytes s → is_ascii s = true → wf_string s.
Proof.
  intros Hw Ha. split; [done|]. apply Utf8_ascii; [done|].
  eapply Forall_impl; [exact Hw|]. intros x ?. width_lia.
Qed.
#[export] Hint Resolve wf_string_nil wf_string_app wf_string_lossy : dns.

(** A check for ASCII strings, used on concrete messages. *)
Definition ascii_stringb (s : bytes) : bool := forallb (fun b => (0 <=? b) && (b <? 128))%Z s.

Lemma ascii_stringb_wf s : ascii_stringb s = true → wf_string s.
Proof.
  unfold ascii_stringb. rewrite forallb_forall. intros H. apply wf_string_ascii.
  - apply Forall_forall. intros x Hx%list_elem_of_In%H. width_lia.
  - apply forallb_forall. intros x Hx%H. lia.
Qed.
