(* ===== verification/Packet.v ===== *)
(** * The wire parser

    Models the parsing half of [src/src/dns/packet.rs]: [DnsPacket::from_bytes],
    [parse_record] with one definition per record type, [parse_qname] with its
    compression pointers, and [parse_character_strings]. Every index and slice
    is checked the way Rust checks it, so a panic is an observable outcome. *)

From S2P Require Import Prelude RustStd Message.

(** ** Big-endian reads: [u16::from_be_bytes([buf[i], buf[i + 1]])], ... *)
Definition u16_at (buf : bytes) (i : nat) : presult Z :=
  a ← idx buf i; b ← idx buf (i + 1); mret (u16_from_be_bytes a b).

Definition u32_at (buf : bytes) (i : nat) : presult Z :=
  a ← idx buf i; b ← idx buf (i + 1); c ← idx buf (i + 2); d ← idx buf (i + 3);
  mret (u32_from_be_bytes a b c d).

(** ** Names *)
Definition MAX_POINTER_JUMPS : nat := 64.

(** [loop] of [parse_qname]; [None] is "out of fuel", which [qname_fuel] rules
    out ([parse_qname_loop_total]). *)
Fixpoint parse_qname_loop (fuel : nat) (buf qname : bytes) (current : nat)
    (jumped : bool) (end_offset jumps : nat) : option (presult (bytes * nat)) :=
  match fuel with
  | 0 => None
  | S fuel =>
      match buf !! current with
      | None => Some (Err (Truncated "qname label length"))
      | Some len =>
          if negb (Z.land len 192 =? 0)%Z then
            match buf !! (current + 1) with
            | None => Some (Err (Truncated "compression pointer"))
            | Some lo =>
                let jumps := jumps + 1 in
                if MAX_POINTER_JUMPS <? jumps then Some (Err PointerLoop)
                else
                  let end_offset := if jumped then end_offset else current + 2 in
                  let pointer_offset :=
                    Z.to_nat (u16_from_be_bytes (Z.land len 63) lo) in
                  parse_qname_loop fuel buf qname pointer_offset true end_offset jumps
            end
          else if (len =? 0)%Z then
            Some (Ok (qname, if jumped then end_offset else current + 1))
          else
            let current := current + 1 in
            let len := Z.to_nat len in
            if length buf <? current + len then
              Some (Err (Truncated "qname label"))
            else
              let label := from_utf8_lossy (take len (drop current buf)) in
              parse_qname_loop fuel buf (qname ++ label ++ [DOT]) (current + len)
                jumped end_offset jumps
      end
  end.

(** A jump lowers the number of jumps left, a label advances [current]. *)
Definition qname_fuel (buf : bytes) : nat := (MAX_POINTER_JUMPS + 1) * (length buf + 1).

(** [if qname.ends_with('.') { qname.pop(); }] *)
Definition pop_dot (s : bytes) : bytes := default s (strip_suffix_char DOT s).

Definition parse_qname (buf : bytes) (offset : nat) : presult (bytes * nat) :=
  match parse_qname_loop (qname_fuel buf) buf [] offset false 0 0 with
  | Some r => '(qname, end_offset) ← r; mret (pop_dot qname, end_offset)
  | None => Panic
  end.

(** ** TXT character-strings *)
Fixpoint parse_character_strings_loop (fuel : nat) (data text : bytes) (i : nat)
    : option (presult bytes) :=
  match fuel with
  | 0 => None
  | S fuel =>
      match data !! i with
      | None => Some (Ok text)
      | Some len =>
          let len := Z.to_nat len in
          let i := i + 1 in
          if length data <? i + len then
            Some (Err (Truncated "TXT character-string"))
          else
            parse_character_strings_loop fuel data
              (text ++ from_utf8_lossy (take len (drop i data))) (i + len)
      end
  end.

Definition parse_character_strings (data : bytes) : presult bytes :=
  match parse_character_strings_loop (length data + 1) data [] 0 with
  | Some r => r
  | None => Panic
  end.

(** ** Record data, one definition per arm of the [match record_type] of
    [parse_record]; [start] is [record_data_start]. *)
Section Rdata.
Context (buf domain : bytes) (ttl : Z) (start data_len : nat).

Definition parse_a : presult DnsRecord.t :=
  if negb (data_len =? 4) then Err (InvalidRdata DnsRecord.TYPE_A)
  else
    a ← idx buf start; b ← idx buf (start + 1);
    c ← idx buf (start + 2); d ← idx buf (start + 3);
    mret (DnsRecord.A domain [a; b; c; d] ttl).

Definition parse_aaaa : presult DnsRecord.t :=
  if negb (data_len =? 16) then Err (InvalidRdata DnsRecord.TYPE_AAAA)
  else octets ← slice buf start (start + 16); mret (DnsRecord.AAAA domain octets ttl).

Definition parse_cname : presult DnsRecord.t :=
  '(alias, _) ← parse_qname buf start; mret (DnsRecord.CNAME domain alias ttl).

Definition parse_mx : presult DnsRecord.t :=
  if data_len <? 3 then Err (InvalidRdata DnsRecord.TYPE_MX)
  else
    preference ← u16_at buf start;
    '(exchange, _) ← parse_qname buf (start + 2);
    mret (DnsRecord.MX domain preference exchange ttl).

Definition parse_txt : presult DnsRecord.t :=
  data ← slice buf start (start + data_len);
  text ← parse_character_strings data;
  mret (DnsRecord.TXT domain text ttl).

Definition parse_ns : presult DnsRecord.t :=
  '(nameserver, _) ← parse_qname buf start; mret (DnsRecord.NS domain nameserver ttl).

Definition parse_soa : presult DnsRecord.t :=
  '(mname, after_mname) ← parse_qname buf start;
  '(rname, after_rname) ← parse_qname buf after_mname;
  if length buf <? after_rname + 20 then Err (Truncated "SOA record")
  else
    serial ← u32_at buf after_rname;
    refresh ← u32_at buf (after_rname + 4);
    retry ← u32_at buf (after_rname + 8);
    expire ← u32_at buf (after_rname + 12);
    minimum ← u32_at buf (after_rname + 16);
    mret (DnsRecord.SOA domain mname rname serial refresh retry expire minimum ttl).

Definition parse_srv : presult DnsRecord.t :=
  if data_len <? 6 then Err (InvalidRdata DnsRecord.TYPE_SRV)
  else
    priority ← u16_at buf start;
    weight ← u16_at buf (start + 2);
    port ← u16_at buf (start + 4);
    '(target, _) ← parse_qname buf (start + 6);
    mret (DnsRecord.SRV domain priority weight port target ttl).

Definition parse_ptr : presult DnsRecord.t :=
  '(ptrdname, _) ← parse_qname buf start; mret (DnsRecord.PTR domain ptrdname ttl).

Definition parse_caa : presult DnsRecord.t :=
  if data_len <? 2 then Err (InvalidRdata DnsRecord.TYPE_CAA)
  else
    flags ← idx buf start;
    tag_len ← Z.to_nat <$> idx buf (start + 1);
    if data_len <? 2 + tag_len then Err (InvalidRdata DnsRecord.TYPE_CAA)
    else
      let tag_start := start + 2 in
      tag ← slice buf tag_start (tag_start + tag_len);
      value ← slice buf (tag_start + tag_len) (start + data_len);
      mret (DnsRecord.CAA domain flags (from_utf8_lossy tag) (from_utf8_lossy value) ttl).

Definition parse_dnskey : presult DnsRecord.t :=
  if data_len <? 4 then Err (InvalidRdata DnsRecord.TYPE_DNSKEY)
  else
    flags ← u16_at buf start;
    protocol ← idx buf (start + 2);
    algorithm ← idx buf (start + 3);
    public_key ← slice buf (start + 4) (start + data_len);
    mret (DnsRecord.DNSKEY domain flags protocol algorithm public_key ttl).

Definition parse_rrsig : presult DnsRecord.t :=
  if data_len <? 18 then Err (InvalidRdata DnsRecord.TYPE_RRSIG)
  else
    type_covered ← u16_at buf start;
    algorithm ← idx buf (start + 2);
    labels ← idx buf (start + 3);
    original_ttl ← u32_at buf (start + 4);
    signature_expiration ← u32_at buf (start + 8);
    signature_inception ← u32_at buf (start + 12);
    key_tag ← u16_at buf (start + 16);
    '(signer_name, after_signer) ← parse_qname buf (start + 18);
    signature ← slice buf after_signer (start + data_len);
    mret (DnsRecord.RRSIG domain type_covered algorithm labels original_ttl
            signature_expiration signature_inception key_tag signer_name signature ttl).

Definition parse_ds : presult DnsRecord.t :=
  if data_len <? 4 then Err (InvalidRdata DnsRecord.TYPE_DS)
  else
    key_tag ← u16_at buf start;
    algorithm ← idx buf (start + 2);
    digest_type ← idx buf (start + 3);
    digest ← slice buf (start + 4) (start + data_len);
    mret (DnsRecord.DS domain key_tag algorithm digest_type digest ttl).

Definition parse_nsec : presult DnsRecord.t :=
  '(next_name, after_name) ← parse_qname buf start;
  type_bitmap ← slice buf after_name (start + data_len);
  mret (DnsRecord.NSEC domain next_name type_bitmap ttl).

(** The [match record_type]; [None] for an unmodelled type. *)
Definition parse_rdata (record_type class : Z) : presult (option DnsRecord.t) :=
  if (record_type =? DnsRecord.TYPE_A)%Z then Some <$> parse_a
  else if (record_type =? DnsRecord.TYPE_AAAA)%Z then Some <$> parse_aaaa
  else if (record_type =? DnsRecord.TYPE_CNAME)%Z then Some <$> parse_cname
  else if (record_type =? DnsRecord.TYPE_MX)%Z then Some <$> parse_mx
  else if (record_type =? DnsRecord.TYPE_TXT)%Z then Some <$> parse_txt
  else if (record_type =? DnsRecord.TYPE_NS)%Z then Some <$> parse_ns
  else if (record_type =? DnsRecord.TYPE_SOA)%Z then Some <$> parse_soa
  else if (record_type =? DnsRecord.TYPE_SRV)%Z then Some <$> parse_srv
  else if (record_type =? DnsRecord.TYPE_PTR)%Z then Some <$> parse_ptr
  else if (record_type =? DnsRecord.TYPE_CAA)%Z then Some <$> parse_caa
  else if (record_type =? DnsRecord.TYPE_OPT)%Z then mret (Some (DnsRecord.OPT class))
  else if (record_type =? DnsRecord.TYPE_DNSKEY)%Z then Some <$> parse_dnskey
  else if (record_type =? DnsRecord.TYPE_RRSIG)%Z then Some <$> parse_rrsig
  else if (record_type =? DnsRecord.TYPE_DS)%Z then Some <$> parse_ds
  else if (record_type =? DnsRecord.TYPE_NSEC)%Z then Some <$> parse_nsec
  else mret None.

End Rdata.

(** ** Records, sections, packets *)

Definition parse_record (buf : bytes) (offset : nat)
    : presult (option DnsRecord.t * nat) :=
  '(domain, new_offset) ← parse_qname buf offset;
  if length buf <? new_offset + 10 then Err (Truncated "record header")
  else
    record_type ← u16_at buf new_offset;
    class ← u16_at buf (new_offset + 2);
    ttl ← u32_at buf (new_offset + 4);
    data_len ← Z.to_nat <$> u16_at buf (new_offset + 8);
    let new_offset := new_offset + 10 in
    if length buf <? new_offset + data_len then Err (Truncated "record data")
    else
      record ← parse_rdata buf domain ttl new_offset data_len record_type class;
      mret (record, new_offset + data_len).

(** [for _ in 0..count] of the [parse_section] closure. *)
Fixpoint parse_section (count : nat) (buf : bytes) (offset : nat)
    : presult (list DnsRecord.t * nat) :=
  match count with
  | 0 => mret ([], offset)
  | S count =>
      '(record, next) ← parse_record buf offset;
      '(out, offset) ← parse_section count buf next;
      mret (match record with Some r => r :: out | None => out end, offset)
  end.

Definition parse_question (buf : bytes) (offset : nat) : presult (DnsQuestion * nat) :=
  '(qname, offset) ← parse_qname buf offset;
  if length buf <? offset + 4 then Err (Truncated "question")
  else
    qtype ← u16_at buf offset;
    qclass ← u16_at buf (offset + 2);
    mret (mkQuestion qname qtype qclass, offset + 4).

(** [for _ in 0..header.questions]. *)
Fixpoint parse_questions (count : nat) (buf : bytes) (offset : nat)
    : presult (list DnsQuestion * nat) :=
  match count with
  | 0 => mret ([], offset)
  | S count =>
      '(q, offset) ← parse_question buf offset;
      '(qs, offset) ← parse_questions count buf offset;
      mret (q :: qs, offset)
  end.

Definition parse_header (buf : bytes) : presult DnsHeader :=
  id ← u16_at buf 0; flags ← u16_at buf 2; questions ← u16_at buf 4;
  answers ← u16_at buf 6; authorities ← u16_at buf 8; additionals ← u16_at buf 10;
  mret (mkHeader id flags questions answers authorities additionals).

Definition from_bytes (buf : bytes) : presult DnsPacket :=
  if length buf <? 12 then Err (Truncated "header")
  else
    header ← parse_header buf;
    '(questions, offset) ← parse_questions (Z.to_nat (h_questions header)) buf 12;
    '(answers, offset) ← parse_section (Z.to_nat (h_answers header)) buf offset;
    '(authorities, offset) ← parse_section (Z.to_nat (h_authorities header)) buf offset;
    '(additionals, offset) ← parse_section (Z.to_nat (h_additionals header)) buf offset;
    mret (mkPacket header questions answers authorities additionals).

(** The UDP payload size of the first OPT record, if any. *)
Definition edns_udp_size (p : DnsPacket) : option Z :=
  find_map (fun r => match r with DnsRecord.OPT udp_size => Some udp_size | _ => None end)
    (additionals p).

(** ** Specification of names on the wire

    [NameAt buf off labels jumps fin]: the bytes at [off] encode the name
    [labels] (raw label bytes), following [jumps] compression pointers, and
    [fin] is the offset just after the name. *)
Inductive NameAt (buf : bytes) : nat → list bytes → nat → nat → Prop :=
| NameAt_root off :
    buf !! off = Some 0%Z → NameAt buf off [] 0 (off + 1)
| NameAt_label off len label ls jumps fin :
    buf !! off = Some len → Z.land len 192 = 0%Z → len ≠ 0%Z →
    off + 1 + Z.to_nat len ≤ length buf →
    label = take (Z.to_nat len) (drop (off + 1) buf) →
    NameAt buf (off + 1 + Z.to_nat len) ls jumps fin →
    NameAt buf off (label :: ls) jumps fin
| NameAt_pointer off hi lo ls jumps fin' :
    buf !! off = Some hi → Z.land hi 192 ≠ 0%Z → buf !! (off + 1) = Some lo →
    NameAt buf (Z.to_nat (u16_from_be_bytes (Z.land hi 63) lo)) ls jumps fin' →
    NameAt buf off ls (S jumps) (off + 2).

(** The text of a name: its decoded labels separated by dots. *)
Definition name_text (ls : list bytes) : bytes := join_on DOT (from_utf8_lossy <$> ls).

(** The text the parser accumulates: each decoded label followed by a dot. *)
Definition dotted (ls : list bytes) : bytes :=
  concat ((fun l => from_utf8_lossy l ++ [DOT]) <$> ls).

(** The malformed records on which the parser panics: the name inside the rdata
    of an RRSIG or NSEC record ends past the rdata. *)
Definition overlong_rdata_name (buf : bytes) (off : nat) : Prop :=
  ∃ domain pos rtype dlen name after,
    parse_qname buf off = Ok (domain, pos) ∧
    u16_at buf pos = Ok rtype ∧ u16_at buf (pos + 8) = Ok dlen ∧
    pos + 10 + Z.to_nat dlen ≤ length buf ∧
    ((rtype = DnsRecord.TYPE_RRSIG ∧ 18 ≤ Z.to_nat dlen ∧
      parse_qname buf (pos + 10 + 18) = Ok (name, after)) ∨
     (rtype = DnsRecord.TYPE_NSEC ∧ parse_qname buf (pos + 10) = Ok (name, after))) ∧
    pos + 10 + Z.to_nat dlen < after.

(** ** Lemmas: names *)

Lemma pop_dot_snoc s : pop_dot (s ++ [DOT]) = s.
Proof.
  unfold pop_dot, strip_suffix_char. rewrite rev_app_distr. simpl.
  by rewrite rev_involutive.
Qed.

Lemma dotted_cons l ls : dotted (l :: ls) = from_utf8_lossy l ++ DOT :: dotted ls.
Proof. unfold dotted. cbn. by rewrite <- (assoc_L (++)). Qed.

Lemma dotted_text ls : pop_dot (dotted ls) = name_text ls.
Proof.
  destruct ls as [|l ls]; [done|].
  assert (∀ l ls, dotted (l :: ls) = name_text (l :: ls) ++ [DOT]) as ->;
    [|apply pop_dot_snoc].
  clear. intros l ls. revert l. induction ls as [|l' ls IH]; intros l; [by rewrite dotted_cons|].
  rewrite dotted_cons, IH. unfold name_text at 2. rewrite fmap_cons, join_on_cons by done.
  by rewrite <- (assoc_L (++)).
Qed.

Lemma parse_qname_loop_total fuel buf q cur j fin jumps :
  jumps ≤ MAX_POINTER_JUMPS →
  (MAX_POINTER_JUMPS - jumps) * (length buf + 1) + (length buf - cur) < fuel →
  parse_qname_loop fuel buf q cur j fin jumps ≠ None.
Proof.
  revert q cur j fin jumps. induction fuel as [|fuel IH]; intros q cur j fin jumps Hj Hf; [by apply Nat.nlt_0_r in Hf|].
  cbn [parse_qname_loop].
  destruct (buf !! cur) as [len|] eqn:Hcur; [|done].
  apply lookup_lt_Some in Hcur.
  destruct (negb (Z.land len 192 =? 0)%Z).
  - destruct (buf !! (cur + 1)); [|done].
    destruct (Nat.ltb_spec MAX_POINTER_JUMPS (jumps + 1)); [done|].
    apply IH; [lia|]. nia.
  - destruct (Z.eqb_spec len 0); [done|].
    destruct (Nat.ltb_spec (length buf) (cur + 1 + Z.to_nat len)); [done|].
    apply IH; lia.
Qed.

Lemma parse_qname_loop_sound fuel buf q cur j fin jumps q' fin' :
  jumps ≤ MAX_POINTER_JUMPS →
  parse_qname_loop fuel buf q cur j fin jumps = Some (Ok (q', fin')) →
  ∃ ls k e, NameAt buf cur ls k e ∧ jumps + k ≤ MAX_POINTER_JUMPS ∧
    q' = q ++ dotted ls ∧ fin' = (if j then fin else e).
Proof.
  revert q cur j fin jumps. induction fuel as [|fuel IH]; intros q cur j fin jumps Hj; [done|].
  cbn [parse_qname_loop].
  destruct (buf !! cur) as [len|] eqn:Hcur; [|done].
  destruct (Z.eqb_spec (Z.land len 192) 0) as [H0|H0]; simpl negb; cbn iota.
  - destruct (Z.eqb_spec len 0) as [->|Hlen].
    + intros [= <- <-]. exists [], 0, (cur + 1). rewrite app_nil_r.
      split_and!; [by constructor|lia|done|done].
    + destruct (Nat.ltb_spec (length buf) (cur + 1 + Z.to_nat len)); [done|].
      intros (ls & k & e & Hn & Hk & -> & ->)%IH; [|done].
      eexists (_ :: ls), k, e. split_and!; [by eapply NameAt_label|done| |done].
      rewrite dotted_cons. by rewrite <- !(assoc_L (++)).
  - destruct (buf !! (cur + 1)) as [lo|] eqn:Hlo; [|done].
    destruct (Nat.ltb_spec MAX_POINTER_JUMPS (jumps + 1)) as [|Hm]; [done|].
    intros (ls & k & e & Hn & Hk & -> & ->)%IH; [|done].
    exists ls, (S k), (cur + 2). split_and!; [by eapply NameAt_pointer|lia|done|by destruct j].
Qed.

Lemma parse_qname_loop_complete buf cur ls k e :
  NameAt buf cur ls k e →
  ∀ fuel q j fin jumps r, jumps + k ≤ MAX_POINTER_JUMPS →
    parse_qname_loop fuel buf q cur j fin jumps = Some r →
    r = Ok (q ++ dotted ls, if j then fin else e).
Proof.
  induction 1 as [off H0|off len label ls k e Hoff Hland Hne Hb -> Hn IH
    |off hi lo ls k e Hoff Hland Hlo Hn IH];
    intros [|fuel] q j fin jumps r Hj; try done; cbn [parse_qname_loop].
  - rewrite H0. cbn. intros [= <-]. by rewrite app_nil_r.
  - rewrite Hoff, Hland. cbn [negb Z.eqb]. rewrite (proj2 (Z.eqb_neq len 0)) by done.
    destruct (Nat.ltb_spec (length buf) (off + 1 + Z.to_nat len)); [lia|].
    intros Hr. apply IH in Hr; [|done]. rewrite Hr, dotted_cons.
    by rewrite <- !(assoc_L (++)).
  - rewrite Hoff, Hlo, (proj2 (Z.eqb_neq _ 0)) by done. cbn [negb].
    destruct (Nat.ltb_spec MAX_POINTER_JUMPS (jumps + 1)); [lia|].
    intros Hr. apply IH in Hr; [|lia]. rewrite Hr. by destruct j.
Qed.

Lemma parse_qname_run buf off :
  ∃ r, parse_qname_loop (qname_fuel buf) buf [] off false 0 0 = Some r.
Proof.
  destruct (parse_qname_loop (qname_fuel buf) buf [] off false 0 0) eqn:E; [eauto|].
  exfalso. revert E. apply parse_qname_loop_total; unfold qname_fuel; lia.
Qed.

Lemma parse_qname_NameAt buf off s fin :
  parse_qname buf off = Ok (s, fin) ↔
  ∃ ls k, NameAt buf off ls k fin ∧ k ≤ MAX_POINTER_JUMPS ∧ s = name_text ls.
Proof.
  unfold parse_qname. destruct (parse_qname_run buf off) as [r Hr]. rewrite Hr. split.
  - intros H. res_inv. destruct x as [q e]. res_inv.
    apply parse_qname_loop_sound in Hr as (ls & k & e & Hn & Hk & -> & ->); [|lia].
    exists ls, k. split_and!; [done|lia|]. by rewrite <- dotted_text.
  - intros (ls & k & Hn & Hk & ->).
    eapply parse_qname_loop_complete in Hr; [|done|lia]. rewrite Hr. cbn.
    by rewrite dotted_text.
Qed.

Lemma parse_qname_loop_no_panic fuel buf q cur j fin jumps r :
  parse_qname_loop fuel buf q cur j fin jumps = Some r → no_panic r.
Proof.
  revert q cur j fin jumps. induction fuel as [|fuel IH]; intros q cur j fin jumps; [done|].
  cbn [parse_qname_loop].
  repeat case_match; intros; simplify_eq; eauto with dns.
Qed.

Lemma parse_qname_no_panic buf off : no_panic (parse_qname buf off).
Proof.
  unfold parse_qname. destruct (parse_qname_run buf off) as [r Hr]. rewrite Hr.
  apply no_panic_bind; [by eapply parse_qname_loop_no_panic|by intros [??] _].
Qed.

Lemma NameAt_bounds buf off ls k fin : NameAt buf off ls k fin → off < fin ≤ length buf.
Proof.
  induction 1; repeat match goal with
    | H : _ !! _ = Some _ |- _ => apply lookup_lt_Some in H end; lia.
Qed.

Lemma parse_qname_bounds buf off s fin :
  parse_qname buf off = Ok (s, fin) → off < fin ≤ length buf.
Proof. intros (ls & k & Hn & _)%parse_qname_NameAt. by eapply NameAt_bounds. Qed.

(** ** Lemmas: absence of panics *)

Lemma no_panic_fmap {E A B} (f : A → B) (c : res E A) : no_panic c → no_panic (f <$> c).
Proof. by destruct c. Qed.

Lemma idx_in_range (buf : bytes) i : i < length buf → ∃ z, idx (E := DnsError) buf i = Ok z.
Proof. intros. unfold idx. destruct (lookup_lt_is_Some_2 buf i) as [x ->]; eauto. Qed.

Lemma u16_at_in_range buf i : i + 2 ≤ length buf → ∃ z, u16_at buf i = Ok z.
Proof.
  intros. unfold u16_at. destruct (idx_in_range buf i) as [x ->]; [lia|].
  destruct (idx_in_range buf (i + 1)) as [y ->]; [lia|]. cbn. eauto.
Qed.

Lemma u32_at_in_range buf i : i + 4 ≤ length buf → ∃ z, u32_at buf i = Ok z.
Proof.
  intros. unfold u32_at. destruct (idx_in_range buf i) as [x ->]; [lia|].
  destruct (idx_in_range buf (i + 1)) as [y ->]; [lia|].
  destruct (idx_in_range buf (i + 2)) as [z ->]; [lia|].
  destruct (idx_in_range buf (i + 3)) as [w ->]; [lia|]. cbn. eauto.
Qed.

Lemma u16_at_no_panic buf i : i + 2 ≤ length buf → no_panic (u16_at buf i).
Proof. by intros (z & ->)%u16_at_in_range. Qed.

Lemma u32_at_no_panic buf i : i + 4 ≤ length buf → no_panic (u32_at buf i).
Proof. by intros (z & ->)%u32_at_in_range. Qed.

Lemma fmap_Ok {E A B} (f : A → B) (c : res E A) b :
  f <$> c = Ok b ↔ ∃ a, c = Ok a ∧ b = f a.
Proof. destruct c; cbn; split; try (intros (?&?&?)); naive_solver. Qed.

Lemma parse_character_strings_total fuel data text i :
  length data - i < fuel →
  ∃ r, parse_character_strings_loop fuel data text i = Some r ∧ no_panic r.
Proof.
  revert text i. induction fuel as [|fuel IH]; intros text i Hf; [lia|].
  cbn [parse_character_strings_loop].
  destruct (data !! i) as [len|] eqn:Hi; [|eauto with dns].
  apply lookup_lt_Some in Hi.
  destruct (Nat.ltb_spec (length data) (i + 1 + Z.to_nat len)); [eauto with dns|].
  apply IH. lia.
Qed.

Lemma parse_character_strings_no_panic data : no_panic (parse_character_strings data).
Proof.
  unfold parse_character_strings.
  destruct (parse_character_strings_total (length data + 1) data [] 0) as (r & -> & Hr);
    [lia|done].
Qed.

(** Walks the monadic steps of a parser, leaving the bounds of its reads to [lia]. *)
Ltac no_panic_step :=
  match goal with
  | |- no_panic (_ ≫= _) => apply no_panic_bind; [|intros ? ?]
  | |- no_panic (_ <$> _) => apply no_panic_fmap
  | |- no_panic (match ?b with _ => _ end) => destruct b eqn:?
  | |- no_panic (idx _ _) => apply idx_no_panic
  | |- no_panic (u16_at _ _) => apply u16_at_no_panic
  | |- no_panic (u32_at _ _) => apply u32_at_no_panic
  | |- no_panic (slice _ _ _) => apply slice_no_panic
  | |- no_panic (parse_qname _ _) => apply parse_qname_no_panic
  | |- no_panic (parse_character_strings _) => apply parse_character_strings_no_panic
  | |- no_panic _ => done
  end.
Ltac no_panic_solve := repeat no_panic_step; try lia.

Section NoPanic.
Context (buf domain : bytes) (ttl : Z) (start data_len : nat).
Context (Hlen : start + data_len ≤ length buf).

Lemma parse_a_no_panic : no_panic (parse_a buf domain ttl start data_len).
Proof using Hlen. unfold parse_a. no_panic_solve. Qed.
Lemma parse_aaaa_no_panic : no_panic (parse_aaaa buf domain ttl start data_len).
Proof using Hlen. unfold parse_aaaa. no_panic_solve. Qed.
Lemma parse_mx_no_panic : no_panic (parse_mx buf domain ttl start data_len).
Proof using Hlen. unfold parse_mx. no_panic_solve. Qed.
Lemma parse_txt_no_panic : no_panic (parse_txt buf domain ttl start data_len).
Proof using Hlen. unfold parse_txt. no_panic_solve. Qed.
Lemma parse_soa_no_panic : no_panic (parse_soa buf domain ttl start).
Proof using. clear Hlen data_len. unfold parse_soa. no_panic_solve. Qed.
Lemma parse_srv_no_panic : no_panic (parse_srv buf domain ttl start data_len).
Proof using Hlen. unfold parse_srv. no_panic_solve. Qed.
Lemma parse_caa_no_panic : no_panic (parse_caa buf domain ttl start data_len).
Proof using Hlen. unfold parse_caa. no_panic_solve. Qed.
Lemma parse_dnskey_no_panic : no_panic (parse_dnskey buf domain ttl start data_len).
Proof using Hlen. unfold parse_dnskey. no_panic_solve. Qed.
Lemma parse_ds_no_panic : no_panic (parse_ds buf domain ttl start data_len).
Proof using Hlen. unfold parse_ds. no_panic_solve. Qed.
Lemma parse_name_no_panic (f : bytes → DnsRecord.t) :
  no_panic ('(n, _) ← parse_qname buf start; mret (f n)).
Proof using. clear Hlen data_len. no_panic_solve. Qed.

Lemma parse_nsec_panic :
  parse_nsec buf domain ttl start data_len = Panic ↔
  ∃ name after, parse_qname buf start = Ok (name, after) ∧ start + data_len < after.
Proof using Hlen.
  unfold parse_nsec. split.
  - intros [H|([n a] & H & [Hs|(?&?&?)]%bind_Panic)]%bind_Panic; [|exists n, a|done].
    + by destruct (parse_qname_no_panic buf start).
    + apply slice_Panic in Hs. split; [done|lia].
  - intros (n & a & -> & Ha). cbn. rewrite (proj2 (slice_Panic _ _ _)) by lia. done.
Qed.

Lemma parse_rrsig_panic :
  parse_rrsig buf domain ttl start data_len = Panic ↔
  18 ≤ data_len ∧ ∃ name after,
    parse_qname buf (start + 18) = Ok (name, after) ∧ start + data_len < after.
Proof using Hlen.
  unfold parse_rrsig. destruct (Nat.ltb_spec data_len 18) as [Hd|Hd]; [split; [done|lia]|].
  destruct (u16_at_in_range buf start) as [? ->]; [lia|].
  destruct (idx_in_range buf (start + 2)) as [? ->]; [lia|].
  destruct (idx_in_range buf (start + 3)) as [? ->]; [lia|].
  destruct (u32_at_in_range buf (start + 4)) as [? ->]; [lia|].
  destruct (u32_at_in_range buf (start + 8)) as [? ->]; [lia|].
  destruct (u32_at_in_range buf (start + 12)) as [? ->]; [lia|].
  destruct (u16_at_in_range buf (start + 16)) as [? ->]; [lia|].
  cbn [mbind res_bind].
  pose proof (parse_qname_no_panic buf (start + 18)) as Hq.
  destruct (parse_qname buf (start + 18)) as [[n a]|e|] eqn:En; cbn [mbind res_bind].
  - split.
    + intros [Hs|(?&?&?)]%bind_Panic; [|done]. apply slice_Panic in Hs.
      split; [done|]. exists n, a. split; [done|lia].
    + intros (_ & ? & ? & [= <- <-] & Ha). rewrite (proj2 (slice_Panic _ _ _)) by lia. done.
  - split; [done|]. by intros (_ & ? & ? & ? & _).
  - done.
Qed.

Lemma parse_rdata_panic rtype class :
  parse_rdata buf domain ttl start data_len rtype class = Panic ↔
  ∃ name after,
    ((rtype = DnsRecord.TYPE_RRSIG ∧ 18 ≤ data_len ∧
      parse_qname buf (start + 18) = Ok (name, after)) ∨
     (rtype = DnsRecord.TYPE_NSEC ∧ parse_qname buf start = Ok (name, after))) ∧
    start + data_len < after.
Proof using Hlen.
  assert (∀ (c : presult DnsRecord.t), Some <$> c = Panic ↔ c = Panic) as Hf
    by (by intros []).
  assert (∀ (c : presult DnsRecord.t) P, no_panic c → ¬ P → (Some <$> c = Panic ↔ P)) as Hn
    by (intros c P; rewrite Hf; unfold no_panic; tauto).
  unfold parse_rdata, parse_cname, parse_ns, parse_ptr.
  repeat match goal with
  | |- context [if (rtype =? ?t)%Z then _ else _] =>
      destruct (Z.eqb_spec rtype t) as [->|];
      [try (apply Hn; [eauto using parse_a_no_panic, parse_aaaa_no_panic, parse_mx_no_panic,
        parse_txt_no_panic, parse_soa_no_panic, parse_srv_no_panic, parse_caa_no_panic,
        parse_dnskey_no_panic, parse_ds_no_panic, parse_name_no_panic
        |intros (?&?&[(?&_)|(?&_)]&_); discriminate])|]
  end.
  - split; [done|]. intros (?&?&[(?&_)|(?&_)]&_); discriminate.
  - rewrite Hf, parse_rrsig_panic. naive_solver.
  - rewrite Hf, parse_nsec_panic. naive_solver.
  - split; [done|]. naive_solver.
Qed.
End NoPanic.

(** ** Lemmas: records, sections and packets do not panic otherwise *)

Lemma parse_record_panic buf off :
  parse_record buf off = Panic ↔ overlong_rdata_name buf off.
Proof.
  unfold parse_record, overlong_rdata_name. split.
  - intros [H|([d pos] & Hq & H)]%bind_Panic; [by destruct (parse_qname_no_panic buf off)|].
    destruct (Nat.ltb_spec (length buf) (pos + 10)) as [|Hpos]; [done|].
    destruct (u16_at_in_range buf pos) as [rt E1]; [lia|].
    destruct (u16_at_in_range buf (pos + 2)) as [cl E2]; [lia|].
    destruct (u32_at_in_range buf (pos + 4)) as [tt E3]; [lia|].
    destruct (u16_at_in_range buf (pos + 8)) as [dl E4]; [lia|].
    rewrite E1, E2, E3, E4 in H. cbn [mbind res_bind fmap res_fmap] in H.
    destruct (Nat.ltb_spec (length buf) (pos + 10 + Z.to_nat dl)) as [|Hdl]; [done|].
    apply bind_Panic in H as [H|(?&?&?)]; [|done].
    apply parse_rdata_panic in H as (n & a & Hc & Ha); [|done].
    by exists d, pos, rt, dl, n, a.
  - intros (d & pos & rt & dl & n & a & Hq & E1 & E4 & Hdl & Hc & Ha).
    rewrite Hq. cbn [mbind res_bind].
    destruct (Nat.ltb_spec (length buf) (pos + 10)); [lia|].
    destruct (u16_at_in_range buf (pos + 2)) as [cl E2]; [lia|].
    destruct (u32_at_in_range buf (pos + 4)) as [tt E3]; [lia|].
    rewrite E1, E2, E3, E4. cbn [mbind res_bind fmap res_fmap].
    destruct (Nat.ltb_spec (length buf) (pos + 10 + Z.to_nat dl)); [lia|].
    rewrite (proj2 (parse_rdata_panic _ _ _ _ _ Hdl _ _)); [done|]. by exists n, a.
Qed.

Lemma parse_section_panic n buf off :
  parse_section n buf off = Panic → ∃ off', overlong_rdata_name buf off'.
Proof.
  revert off. induction n as [|n IH]; intros off; [done|]. cbn [parse_section].
  intros [H|([r nx] & _ & [H|([out o] & _ & H)]%bind_Panic)]%bind_Panic;
    [apply parse_record_panic in H; eauto|eauto|discriminate H].
Qed.

Lemma parse_question_no_panic buf off : no_panic (parse_question buf off).
Proof. unfold parse_question. no_panic_solve. Qed.

Lemma parse_questions_no_panic n buf off : no_panic (parse_questions n buf off).
Proof.
  revert off. induction n as [|n IH]; intros off; [done|]. cbn [parse_questions].
  apply no_panic_bind; [apply parse_question_no_panic|intros [q o] _].
  apply no_panic_bind; [apply IH|by intros [qs o'] _].
Qed.

Lemma parse_header_no_panic buf : 12 ≤ length buf → no_panic (parse_header buf).
Proof. intros. unfold parse_header. no_panic_solve. Qed.

(** ** Lemmas: the results are well formed *)

Section Wf.
Context (buf : bytes) (Hbuf : wf_bytes buf).

Lemma idx_u8 i z : idx (E := DnsError) buf i = Ok z → is_u8 z.
Proof using Hbuf. intros H%idx_Ok. by eapply Forall_lookup_1 in H. Qed.

Lemma u16_at_u16 i z : u16_at buf i = Ok z → is_u16 z.
Proof using Hbuf. unfold u16_at. intros. res_inv. eauto using idx_u8 with dns. Qed.

Lemma u32_at_u32 i z : u32_at buf i = Ok z → is_u32 z.
Proof using Hbuf. unfold u32_at. intros. res_inv. eauto 6 using idx_u8 with dns. Qed.

Lemma slice_wf a b x :
  slice (E := DnsError) buf a b = Ok x → wf_bytes x ∧ length x = b - a.
Proof using Hbuf.
  intros (? & ? & ->)%slice_inv. split; [by apply Forall_take, Forall_drop|].
  rewrite length_take, length_drop. lia.
Qed.

Lemma wf_string_join ls : Forall wf_string ls → wf_string (join_on DOT ls).
Proof using.
  intros Hls. induction Hls as [|l ls Hl Hls IH]; [apply wf_string_nil|].
  destruct ls as [|l' ls]; [done|]. rewrite join_on_cons by done.
  apply wf_string_app; [done|]. apply (wf_string_app [DOT]); [|done].
  apply wf_string_ascii; [|done]. apply Forall_singleton. unfold DOT. width_lia.
Qed.

Lemma NameAt_wf off ls k fin : NameAt buf off ls k fin → Forall wf_bytes ls.
Proof using Hbuf.
  induction 1; [done| |done]. subst. constructor; [|done].
  by apply Forall_take, Forall_drop.
Qed.

Lemma parse_qname_wf off s fin : parse_qname buf off = Ok (s, fin) → wf_string s.
Proof using Hbuf.
  intros (ls & k & Hn & _ & ->)%parse_qname_NameAt.
  apply wf_string_join, Forall_fmap. apply NameAt_wf in Hn.
  eapply Forall_impl; [exact Hn|]. intros; simpl. by apply wf_string_lossy.
Qed.

Lemma parse_character_strings_wf data s :
  wf_bytes data → parse_character_strings data = Ok s → wf_string s.
Proof using.
  intros Hd. unfold parse_character_strings.
  assert (∀ fuel text i s, wf_string text →
    parse_character_strings_loop fuel data text i = Some (Ok s) → wf_string s) as Hl.
  { intros fuel. induction fuel as [|fuel IH]; intros text i s' Ht; [done|].
    cbn [parse_character_strings_loop]. repeat case_match; intros; simplify_eq; [|done].
    eapply IH; [|done]. apply wf_string_app; [done|].
    by apply wf_string_lossy, Forall_take, Forall_drop. }
  case_match eqn:E; [|done]. intros ->. eapply Hl; [apply wf_string_nil|done].
Qed.

(** Collects the typing facts of every read of a successful parse. *)
Ltac wf_facts :=
  repeat match goal with
  | x : (_ * _)%type |- _ => destruct x
  | H : (if ?b then _ else _) = Ok _ |- _ => destruct b; [done|]
  | H : (match ?p with (_, _) => _ end) = Ok _ |- _ => destruct p
  | H : _ <$> _ = Ok _ |- _ => apply fmap_Ok in H as (? & ? & ?); subst
  | _ => progress res_inv
  end;
  repeat match goal with
  | H : idx _ _ = Ok _ |- _ => apply idx_u8 in H
  | H : u16_at _ _ = Ok _ |- _ => apply u16_at_u16 in H
  | H : u32_at _ _ = Ok _ |- _ => apply u32_at_u32 in H
  | H : parse_qname _ _ = Ok _ |- _ => apply parse_qname_wf in H
  | H : slice _ _ _ = Ok _ |- _ => apply slice_wf in H as [? ?]
  end.

Lemma parse_rdata_wf domain ttl start dlen rtype class r :
  wf_string domain → is_u32 ttl → is_u16 class →
  parse_rdata buf domain ttl start dlen rtype class = Ok (Some r) → wf_record r.
Proof using Hbuf.
  intros Hd Ht Hc. unfold parse_rdata.
  repeat match goal with
  | |- (if ?b then _ else _) = _ → _ => destruct b
  end; intros H; try discriminate H;
  unfold parse_a, parse_aaaa, parse_cname, parse_mx, parse_txt, parse_ns, parse_soa,
    parse_srv, parse_ptr, parse_caa, parse_dnskey, parse_rrsig, parse_ds, parse_nsec in H.
  all: wf_facts; simplify_eq; unfold wf_record; cbn; unfold wf_ipv4, wf_ipv6;
    split_and!; eauto using parse_character_strings_wf with dns.
  - by repeat apply Forall_cons_2.
  - lia.
  - width_lia.
Qed.

Lemma parse_record_wf off r next : parse_record buf off = Ok (Some r, next) → wf_record r.
Proof using Hbuf.
  unfold parse_record. intros H. apply bind_Ok in H as ([d pos] & Hq & H). cbn beta iota in H.
  destruct (length buf <? pos + 10); [done|].
  apply bind_Ok in H as (rt & Hrt & H). apply bind_Ok in H as (cl & Hcl & H).
  apply bind_Ok in H as (tt & Htt & H). apply bind_Ok in H as (dl & Hdl & H).
  cbn zeta in H. destruct (length buf <? pos + 10 + dl); [done|].
  apply bind_Ok in H as (o & Ho & H). injection H as -> _.
  eapply parse_rdata_wf in Ho; eauto using parse_qname_wf, u16_at_u16, u32_at_u32.
Qed.

Lemma parse_section_wf n off rs o : parse_section n buf off = Ok (rs, o) → Forall wf_record rs.
Proof using Hbuf.
  revert off rs o. induction n as [|n IH]; intros off rs o; cbn [parse_section].
  - intros [= <- <-]. constructor.
  - intros H. apply bind_Ok in H as ([r nx] & Hr & H).
    apply bind_Ok in H as ([out o'] & Hs & H). injection H as <- <-.
    apply IH in Hs. destruct r; [|done]. constructor; [by eapply parse_record_wf|done].
Qed.

Lemma parse_questions_wf n off qs o :
  parse_questions n buf off = Ok (qs, o) → Forall wf_question qs.
Proof using Hbuf.
  revert off qs o. induction n as [|n IH]; intros off qs o; cbn [parse_questions].
  - intros [= <- <-]. constructor.
  - intros H. apply bind_Ok in H as ([q o'] & Hq & H).
    apply bind_Ok in H as ([qs' o''] & Hs & H). injection H as <- <-.
    constructor; [|by eapply IH]. unfold parse_question in Hq. wf_facts. done.
Qed.

Lemma parse_header_wf h : parse_header buf = Ok h → wf_header h.
Proof using Hbuf. unfold parse_header. intros. wf_facts. done. Qed.

End Wf.

(** ** Properties *)

(** [parse_qname] decodes exactly the names of the wire grammar: it
    returns the text [s] and the end offset [fin] if and only if the bytes at
    [off] form a name in the sense of [NameAt] (labels, at most
    [MAX_POINTER_JUMPS] compression pointers, a zero byte) with that text. *)
Theorem parse_qname_spec (buf : bytes) (off : nat) (s : bytes) (fin : nat) :
  parse_qname buf off = Ok (s, fin) ↔
  ∃ labels jumps, NameAt buf off labels jumps fin ∧
    jumps ≤ MAX_POINTER_JUMPS ∧ s = name_text labels.
Proof. apply parse_qname_NameAt. Qed.

(** C12: the name parser terminates on every input, a pointer cycle included:
    its loop always reaches a result, which is a value or an error, and the
    end offset of a name is past its start and within the buffer. *)
Theorem parse_qname_terminates (buf : bytes) (off : nat) :
  ∃ r, parse_qname_loop (qname_fuel buf) buf [] off false 0 0 = Some r ∧ no_panic r ∧
    ∀ s fin, parse_qname buf off = Ok (s, fin) → off < fin ≤ length buf.
Proof.
  destruct (parse_qname_run buf off) as [r Hr]. exists r.
  eauto using parse_qname_loop_no_panic, parse_qname_bounds.
Qed.

(** C11: a record read panics exactly on an RRSIG or NSEC record whose rdata is
    shorter than the name it starts with; every other input is an [Ok] or an
    [Err]. *)
Theorem parse_record_panics_iff (buf : bytes) (off : nat) :
  parse_record buf off = Panic ↔ overlong_rdata_name buf off.
Proof. apply parse_record_panic. Qed.

(** Parsing a datagram panics only when it holds such a record: without
    one, [from_bytes] returns a packet or a [DnsError] for every byte string. *)
Theorem from_bytes_no_panic (buf : bytes) :
  (∀ off, ¬ overlong_rdata_name buf off) → no_panic (from_bytes buf).
Proof.
  intros Hok. assert (∀ n off, no_panic (parse_section n buf off)) as Hs.
  { intros n off H. apply parse_section_panic in H as [off' H]. by destruct (Hok off'). }
  unfold from_bytes. destruct (Nat.ltb_spec (length buf) 12); [done|].
  apply no_panic_bind; [by apply parse_header_no_panic|intros h _].
  apply no_panic_bind; [apply parse_questions_no_panic|intros [??] _].
  do 3 (apply no_panic_bind; [apply Hs|intros [??] _]). done.
Qed.

(** A query for [a] of type A, identifier 7, RD set. *)
Definition query_bytes : bytes := [0;7; 1;0; 0;1; 0;0; 0;0; 0;0;  1;97;0; 0;1; 0;1]%Z.

Lemma overlong_past_end buf off : length buf ≤ off → ¬ overlong_rdata_name buf off.
Proof.
  intros Hoff H%parse_record_panic. unfold parse_record in H.
  apply bind_Panic in H as [H|([s fin] & H & _)].
  - by apply parse_qname_no_panic in H.
  - apply parse_qname_bounds in H. lia.
Qed.

Lemma from_bytes_no_panic_witness :
  (∀ off, ¬ overlong_rdata_name query_bytes off) ∧ no_panic (from_bytes query_bytes).
Proof.
  assert (∀ off, ¬ overlong_rdata_name query_bytes off) as H.
  { intros off. destruct (decide (length query_bytes ≤ off)) as [|Hlt];
      [by apply overlong_past_end|].
    rewrite <- parse_record_panic. change (length query_bytes) with 19 in Hlt.
    do 19 (destruct off as [|off]; [by vm_compute|]). lia. }
  split; [exact H|]. apply (from_bytes_no_panic query_bytes). exact H.
Defined.

(** A 24-byte datagram: a header announcing one answer, an NSEC record with an
    empty rdata, and one more byte. *)
Definition nsec_empty_rdata : bytes :=
  [0;1; 0;0; 0;0; 0;1; 0;0; 0;0;  0; 0;47; 0;1; 0;0;0;0; 0;0;  0]%Z.

(** Such datagrams exist, and parsing one panics instead of returning an
    error (the slice of the type bitmap starts after its end). *)
Theorem from_bytes_nsec_panics : from_bytes nsec_empty_rdata = Panic.
Proof. by vm_compute. Qed.

(** C13: a parsed packet is well typed: every integer is within its width, every
    string is valid UTF-8, every address has its length. *)
Theorem from_bytes_wf (buf : bytes) (p : DnsPacket) :
  wf_bytes buf → from_bytes buf = Ok p → wf_packet p.
Proof.
  intros Hb. unfold from_bytes. destruct (length buf <? 12); [done|].
  intros H. apply bind_Ok in H as (h & Hh & H).
  apply bind_Ok in H as ([qs o1] & Hq & H). apply bind_Ok in H as ([an o2] & Ha & H).
  apply bind_Ok in H as ([au o3] & Hu & H). apply bind_Ok in H as ([ad o4] & Hd & H).
  injection H as <-. unfold wf_packet. cbn.
  split_and!; eauto using parse_header_wf, parse_questions_wf, parse_section_wf.
Qed.

Lemma from_bytes_wf_witness :
  ∃ p, from_bytes query_bytes = Ok p ∧ questions p ≠ [] ∧ wf_packet p.
Proof.
  eexists. split; [vm_compute; reflexivity|]. split; [done|].
  apply (from_bytes_wf query_bytes); [repeat (constructor; [width_lia|]); constructor|vm_compute; reflexivity].
Defined.
