(* ===== verification/Grammar.v ===== *)
(** * The grammar of messages

    What [DnsPacket::from_bytes] of [src/src/dns/packet.rs] accepts, and what it makes of
    it, stated without the parser: which bytes stand where. [At buf off bs] says that the bytes
    [bs] stand at offset [off]; the grammar of names is [NameAt] of [Packet]. The parser
    accepts exactly these messages. *)

From S2P Require Import Prelude RustStd Message Packet.

(** ** Bytes at an offset *)

Definition At (buf : bytes) (off : nat) (bs : bytes) : Prop :=
  ∃ pre post, buf = pre ++ bs ++ post ∧ length pre = off.

Lemma At_take buf off bs :
  At buf off bs ↔ off + length bs ≤ length buf ∧ take (length bs) (drop off buf) = bs.
Proof.
  split.
  - intros (pre & post & -> & <-). rewrite !length_app. split; [lia|].
    by rewrite drop_app_length, take_app_length.
  - intros [Hl Ht]. exists (take off buf), (drop (length bs) (drop off buf)). split.
    + rewrite <- Ht at 1. by rewrite take_drop, take_drop.
    + rewrite length_take. lia.
Qed.

Lemma At_app buf off xs ys : At buf off (xs ++ ys) ↔ At buf off xs ∧ At buf (off + length xs) ys.
Proof.
  split.
  - intros (pre & post & -> & <-). split.
    + exists pre, (ys ++ post). by rewrite <- (assoc_L (++)).
    + exists (pre ++ xs), post. rewrite <- !(assoc_L (++)), length_app. done.
  - intros [(pre & post & -> & <-) (pre' & post' & E & Hl)]. exists pre, (drop (length ys) post). split; [|done].
    rewrite (assoc_L (++)) in E. apply app_inj_1 in E as [<- ->]; [|by rewrite length_app].
    by rewrite drop_app_length, <- !(assoc_L (++)).
Qed.

Lemma At_length buf off bs : At buf off bs → off + length bs ≤ length buf.
Proof. by intros [? _]%At_take. Qed.

Lemma At_nil buf off : off ≤ length buf → At buf off [].
Proof. intros Hl. apply At_take. cbn. split; [lia|done]. Qed.

Lemma At_inj buf off xs ys : At buf off xs → At buf off ys → length xs = length ys → xs = ys.
Proof. intros [_ Hx]%At_take [_ Hy]%At_take Hl. by rewrite <- Hx, Hl. Qed.

Lemma At_byte buf off z : At buf off [z] ↔ buf !! off = Some z.
Proof.
  split.
  - intros (pre & post & -> & <-). cbn [app]. by apply list_lookup_middle.
  - intros Hz. exists (take off buf), (drop (S off) buf). cbn [app]. rewrite take_drop_middle by done.
    split; [done|]. apply lookup_lt_Some in Hz. rewrite length_take. lia.
Qed.

Lemma At_cons buf off z zs : At buf off (z :: zs) ↔ At buf off [z] ∧ At buf (off + 1) zs.
Proof. apply (At_app buf off [z] zs). Qed.

Lemma At_pair buf off x y : At buf off [x; y] ↔ At buf off [x] ∧ At buf (off + 1) [y].
Proof. apply At_cons. Qed.

(** ** The reads of the parser *)

Section Reads.
Context (buf : bytes).

Lemma idx_At i z : idx (E := DnsError) buf i = Ok z ↔ At buf i [z].
Proof. by rewrite idx_Ok, At_byte. Qed.

Lemma slice_At a b x : slice (E := DnsError) buf a b = Ok x ↔ At buf a x ∧ a + length x = b.
Proof.
  split.
  - intros (Hab & Hb & ->)%slice_inv. rewrite At_take, length_take, length_drop. split_and!; [lia| |lia].
    by rewrite Nat.min_l by lia.
  - intros [[Hl Ht]%At_take <-]. rewrite slice_Ok by lia. f_equal. by replace (a + length x - a) with (length x) by lia.
Qed.

Hypothesis Hbuf : wf_bytes buf.

Lemma At_u8 i z : At buf i [z] → is_u8 z.
Proof using Hbuf. intros Hz%At_byte. by eapply Forall_lookup_1 in Hz. Qed.

Lemma u16_at_At i z : u16_at buf i = Ok z ↔ is_u16 z ∧ At buf i (u16_to_be_bytes z).
Proof using Hbuf.
  unfold u16_at, u16_to_be_bytes. split.
  - intros H. res_inv. match goal with
    | H1 : idx buf i = Ok ?x, H2 : idx buf (i + 1) = Ok ?y |- _ => rename x into a, y into b; apply idx_At in H1 as Ha, H2 as Hb end.
    pose proof (At_u8 _ _ Ha). pose proof (At_u8 _ _ Hb). split; [eauto with dns|].
    replace [as_u8 (u16_from_be_bytes a b / 2 ^ 8); as_u8 (u16_from_be_bytes a b)] with ([a] ++ [b]).
    { by apply At_cons. }
    cbn. f_equal; [|f_equal]; unfold as_u8, u16_from_be_bytes; width_lia.
  - rewrite At_cons. intros (Hz & Ha & Hb). apply idx_At in Ha as ->, Hb as ->. cbn. f_equal. by apply u16_be_bytes_roundtrip.
Qed.

Lemma u32_at_At i z : u32_at buf i = Ok z ↔ is_u32 z ∧ At buf i (u32_to_be_bytes z).
Proof using Hbuf.
  unfold u32_at, u32_to_be_bytes. split.
  - intros H. apply bind_Ok in H as (a & Ha%idx_At & H). apply bind_Ok in H as (b & Hb%idx_At & H).
    apply bind_Ok in H as (c & Hc%idx_At & H). apply bind_Ok in H as (d & Hd%idx_At & H). injection H as <-.
    pose proof (At_u8 _ _ Ha). pose proof (At_u8 _ _ Hb). pose proof (At_u8 _ _ Hc). pose proof (At_u8 _ _ Hd).
    split; [eauto with dns|].
    assert (At buf i ([a] ++ [b] ++ [c] ++ [d])) as Hall.
    { rewrite !At_app. cbn [length]. rewrite <- !Nat.add_assoc. done. }
    replace [_; _; _; _] with ([a] ++ [b] ++ [c] ++ [d]); [done|].
    cbn. unfold as_u8, u32_from_be_bytes. repeat f_equal; width_lia.
  - rewrite (At_cons _ _ _ [_; _; _]), (At_cons _ _ _ [_; _]), (At_cons _ _ _ [_]), <- !Nat.add_assoc.
    cbn [Nat.add].
    intros (Hz & Ha & Hb & Hc & Hd). apply idx_At in Ha as ->, Hb as ->, Hc as ->, Hd as ->.
    cbn. f_equal. by apply u32_be_bytes_roundtrip.
Qed.

End Reads.

(** ** The grammar *)

(** A name in at most [MAX_POINTER_JUMPS] pointers, and its text. *)
Definition Name (buf : bytes) (off : nat) (s : bytes) (fin : nat) : Prop :=
  ∃ labels jumps, NameAt buf off labels jumps fin ∧ jumps ≤ MAX_POINTER_JUMPS ∧ s = name_text labels.

(** Character-strings: each a length byte and that many bytes. *)
Definition char_strings (cs : list bytes) : bytes := concat ((fun c => Z.of_nat (length c) :: c) <$> cs).

(** [Rdata buf domain ttl class start dlen ty o]: the record data of [dlen] bytes at [start], of
    type [ty], is that of the record [o]; of no record when the type is not one of
    those modelled. *)
Section Rdata.
Context (buf domain : bytes) (ttl class : Z) (start dlen : nat).

Inductive Rdata : Z → option DnsRecord.t → Prop :=
| Rdata_A a b c d :
    dlen = 4 → At buf start [a; b; c; d] → Rdata DnsRecord.TYPE_A (Some (DnsRecord.A domain [a; b; c; d] ttl))
| Rdata_AAAA octets :
    dlen = 16 → length octets = 16 → At buf start octets →
    Rdata DnsRecord.TYPE_AAAA (Some (DnsRecord.AAAA domain octets ttl))
| Rdata_CNAME s fin :
    Name buf start s fin → Rdata DnsRecord.TYPE_CNAME (Some (DnsRecord.CNAME domain s ttl))
| Rdata_MX preference s fin :
    3 ≤ dlen → is_u16 preference → At buf start (u16_to_be_bytes preference) → Name buf (start + 2) s fin →
    Rdata DnsRecord.TYPE_MX (Some (DnsRecord.MX domain preference s ttl))
| Rdata_TXT cs :
    At buf start (char_strings cs) → length (char_strings cs) = dlen →
    Rdata DnsRecord.TYPE_TXT (Some (DnsRecord.TXT domain (concat (from_utf8_lossy <$> cs)) ttl))
| Rdata_NS s fin : Name buf start s fin → Rdata DnsRecord.TYPE_NS (Some (DnsRecord.NS domain s ttl))
| Rdata_SOA mname mid rname fin serial refresh retry expire minimum :
    Name buf start mname mid → Name buf mid rname fin →
    Forall is_u32 [serial; refresh; retry; expire; minimum] →
    At buf fin (u32_to_be_bytes serial ++ u32_to_be_bytes refresh ++ u32_to_be_bytes retry
                ++ u32_to_be_bytes expire ++ u32_to_be_bytes minimum) →
    Rdata DnsRecord.TYPE_SOA (Some (DnsRecord.SOA domain mname rname serial refresh retry expire minimum ttl))
| Rdata_SRV priority weight port s fin :
    6 ≤ dlen → Forall is_u16 [priority; weight; port] →
    At buf start (u16_to_be_bytes priority ++ u16_to_be_bytes weight ++ u16_to_be_bytes port) →
    Name buf (start + 6) s fin →
    Rdata DnsRecord.TYPE_SRV (Some (DnsRecord.SRV domain priority weight port s ttl))
| Rdata_PTR s fin : Name buf start s fin → Rdata DnsRecord.TYPE_PTR (Some (DnsRecord.PTR domain s ttl))
| Rdata_CAA flags tag value :
    At buf start ([flags; Z.of_nat (length tag)] ++ tag ++ value) → 2 + length tag + length value = dlen →
    Rdata DnsRecord.TYPE_CAA
      (Some (DnsRecord.CAA domain flags (from_utf8_lossy tag) (from_utf8_lossy value) ttl))
| Rdata_OPT : Rdata DnsRecord.TYPE_OPT (Some (DnsRecord.OPT class))
| Rdata_DNSKEY flags protocol algorithm key :
    is_u16 flags → At buf start (u16_to_be_bytes flags ++ [protocol; algorithm] ++ key) → 4 + length key = dlen →
    Rdata DnsRecord.TYPE_DNSKEY (Some (DnsRecord.DNSKEY domain flags protocol algorithm key ttl))
| Rdata_RRSIG covered algorithm labels original expiration inception tag signer fin signature :
    Forall is_u16 [covered; tag] → Forall is_u32 [original; expiration; inception] →
    At buf start (u16_to_be_bytes covered ++ [algorithm; labels] ++ u32_to_be_bytes original
                  ++ u32_to_be_bytes expiration ++ u32_to_be_bytes inception ++ u16_to_be_bytes tag) →
    Name buf (start + 18) signer fin → At buf fin signature → fin + length signature = start + dlen →
    Rdata DnsRecord.TYPE_RRSIG
      (Some (DnsRecord.RRSIG domain covered algorithm labels original expiration inception tag signer signature ttl))
| Rdata_DS tag algorithm digest_type digest :
    is_u16 tag → At buf start (u16_to_be_bytes tag ++ [algorithm; digest_type] ++ digest) →
    4 + length digest = dlen →
    Rdata DnsRecord.TYPE_DS (Some (DnsRecord.DS domain tag algorithm digest_type digest ttl))
| Rdata_NSEC next fin bitmap :
    Name buf start next fin → At buf fin bitmap → fin + length bitmap = start + dlen →
    Rdata DnsRecord.TYPE_NSEC (Some (DnsRecord.NSEC domain next bitmap ttl))
| Rdata_other ty :
    ty ∉ [DnsRecord.TYPE_A; DnsRecord.TYPE_AAAA; DnsRecord.TYPE_CNAME; DnsRecord.TYPE_MX; DnsRecord.TYPE_TXT;
          DnsRecord.TYPE_NS; DnsRecord.TYPE_SOA; DnsRecord.TYPE_SRV; DnsRecord.TYPE_PTR; DnsRecord.TYPE_CAA;
          DnsRecord.TYPE_OPT; DnsRecord.TYPE_DNSKEY; DnsRecord.TYPE_RRSIG; DnsRecord.TYPE_DS;
          DnsRecord.TYPE_NSEC] → Rdata ty None.
End Rdata.

(** A record: its owner, ten bytes, and its data; the next one starts after the data. *)
Definition RecordAt (buf : bytes) (off : nat) (o : option DnsRecord.t) (fin : nat) : Prop :=
  ∃ domain pos ty class ttl dlen,
    Name buf off domain pos ∧ Forall is_u16 [ty; class; Z.of_nat dlen] ∧ is_u32 ttl ∧
    At buf pos (u16_to_be_bytes ty ++ u16_to_be_bytes class ++ u32_to_be_bytes ttl
                ++ u16_to_be_bytes (Z.of_nat dlen)) ∧
    fin = pos + 10 + dlen ∧ fin ≤ length buf ∧ Rdata buf domain ttl class (pos + 10) dlen ty o.

(** So many records one after the other; those of other types are passed over. *)
Inductive SectionAt (buf : bytes) : nat → nat → list DnsRecord.t → nat → Prop :=
| SectionAt_nil off : SectionAt buf 0 off [] off
| SectionAt_cons n off o mid rs fin :
    RecordAt buf off o mid → SectionAt buf n mid rs fin → SectionAt buf (S n) off (option_list o ++ rs) fin.

Definition QuestionAt (buf : bytes) (off : nat) (q : DnsQuestion) (fin : nat) : Prop :=
  ∃ pos, Name buf off (qname q) pos ∧ is_u16 (qtype q) ∧ is_u16 (qclass q) ∧
    At buf pos (u16_to_be_bytes (qtype q) ++ u16_to_be_bytes (qclass q)) ∧ fin = pos + 4.

Inductive QuestionsAt (buf : bytes) : nat → nat → list DnsQuestion → nat → Prop :=
| QuestionsAt_nil off : QuestionsAt buf 0 off [] off
| QuestionsAt_cons n off q mid qs fin :
    QuestionAt buf off q mid → QuestionsAt buf n mid qs fin → QuestionsAt buf (S n) off (q :: qs) fin.

(** A message: the header, and the sections with the numbers of records it announces. *)
Definition MessageAt (buf : bytes) (p : DnsPacket) : Prop :=
  let h := header p in
  wf_header h ∧
  At buf 0 (u16_to_be_bytes (h_id h) ++ u16_to_be_bytes (h_flags h) ++ u16_to_be_bytes (h_questions h)
            ++ u16_to_be_bytes (h_answers h) ++ u16_to_be_bytes (h_authorities h)
            ++ u16_to_be_bytes (h_additionals h)) ∧
  ∃ o1 o2 o3 o4,
    QuestionsAt buf (Z.to_nat (h_questions h)) 12 (questions p) o1 ∧
    SectionAt buf (Z.to_nat (h_answers h)) o1 (answers p) o2 ∧
    SectionAt buf (Z.to_nat (h_authorities h)) o2 (authorities p) o3 ∧
    SectionAt buf (Z.to_nat (h_additionals h)) o3 (additionals p) o4.

(** ** Character-strings *)

Lemma char_strings_sound fuel data text i t :
  wf_bytes data → i ≤ length data → parse_character_strings_loop fuel data text i = Some (Ok t) →
  ∃ cs, drop i data = char_strings cs ∧ t = text ++ concat (from_utf8_lossy <$> cs).
Proof.
  intros Hwf. revert text i. induction fuel as [|fuel IH]; intros text i Hi; [done|].
  cbn [parse_character_strings_loop]. destruct (data !! i) as [len|] eqn:Hl.
  - destruct (Nat.ltb_spec (length data) (i + 1 + Z.to_nat len)); [done|].
    intros (cs & Hd & ->)%IH; [|lia]. exists (take (Z.to_nat len) (drop (i + 1) data) :: cs). split.
    + assert (is_u8 len) as Hu by by eapply Forall_lookup_1 in Hl.
      unfold char_strings in *. cbn [fmap list_fmap concat app]. rewrite <- Hd.
      rewrite length_take, length_drop, Nat.min_l by lia. rewrite Z2Nat.id by width_lia.
      rewrite <- (drop_drop data _ (i + 1)), take_drop. rewrite (drop_S _ _ _ Hl). by rewrite Nat.add_1_r.
    + cbn. by rewrite <- (assoc_L (++)).
  - intros [= <-]. exists []. apply lookup_ge_None in Hl. rewrite drop_ge by lia. by rewrite app_nil_r.
Qed.

Lemma char_strings_complete fuel cs data text i :
  Forall (fun c => length c < 256) cs → drop i data = char_strings cs → length data - i < fuel → i ≤ length data →
  parse_character_strings_loop fuel data text i = Some (Ok (text ++ concat (from_utf8_lossy <$> cs))).
Proof.
  intros Hcs. revert text i fuel. induction Hcs as [|c cs Hc Hcs IH]; intros text i [|fuel] Hd Hf Hi; try lia;
    cbn [parse_character_strings_loop]; unfold char_strings in Hd; cbn in Hd.
  - rewrite (proj2 (lookup_ge_None data i)); [by rewrite app_nil_r|].
    apply (f_equal length) in Hd. rewrite length_drop in Hd. cbn in Hd. lia.
  - assert (data !! i = Some (Z.of_nat (length c))) as Hl.
    { rewrite <- (Nat.add_0_r i), <- lookup_drop, Hd. done. }
    assert (drop (i + 1) data = c ++ char_strings cs) as Hd'.
    { rewrite <- drop_drop, Hd. done. }
    assert (i + 1 + length c ≤ length data) as Hle.
    { apply (f_equal length) in Hd'. rewrite length_drop, length_app in Hd'. apply lookup_lt_Some in Hl. lia. }
    rewrite Hl, Nat2Z.id. destruct (Nat.ltb_spec (length data) (i + 1 + length c)); [lia|].
    rewrite Hd', take_app_length, IH; [|by rewrite <- drop_drop, Hd', drop_app_length|lia|lia].
    cbn. by rewrite <- (assoc_L (++)).
Qed.

Lemma char_strings_bytes cs : wf_bytes (char_strings cs) → Forall (fun c => length c < 256) cs.
Proof.
  unfold char_strings. induction cs as [|c cs IH]; cbn; [constructor|].
  intros [Hc [_ Hcs]%Forall_app]%Forall_cons. constructor; [width_lia|]. by apply IH.
Qed.

Lemma character_strings_iff data t :
  wf_bytes data →
  parse_character_strings data = Ok t ↔ ∃ cs, data = char_strings cs ∧ t = concat (from_utf8_lossy <$> cs).
Proof.
  intros Hwf. unfold parse_character_strings. split.
  - destruct (parse_character_strings_loop _ _ _ _) as [r|] eqn:E; [|done]. intros ->.
    apply char_strings_sound in E as (cs & Hd & ->); [|done|lia]. by exists cs.
  - intros (cs & -> & ->). rewrite (char_strings_complete _ cs); [done|by apply char_strings_bytes|done|lia|lia].
Qed.

(** ** Record data *)

(** Turns the reads of a successful parse into statements about bytes. *)
Ltac reads_in :=
  repeat match goal with
  | x : (_ * _)%type |- _ => destruct x
  | H : (if ?b then _ else _) = Ok _ |- _ => destruct b eqn:?; [done|]
  | H : (_ <? _) = false |- _ => apply Nat.ltb_ge in H
  | H : negb (_ =? _) = false |- _ => apply negb_false_iff, Nat.eqb_eq in H
  | H : (match ?p with (_, _) => _ end) = Ok _ |- _ => destruct p
  | H : _ <$> _ = Ok _ |- _ => apply fmap_Ok in H as (? & ? & ?); subst
  | _ => progress res_inv
  end;
  repeat match goal with
  | H : idx _ _ = Ok _ |- _ => apply idx_At in H
  | H : u16_at _ _ = Ok _ |- _ => apply u16_at_At in H as [? H]; [|done]
  | H : u32_at _ _ = Ok _ |- _ => apply u32_at_At in H as [? H]; [|done]
  | H : parse_qname _ _ = Ok _ |- _ => apply parse_qname_NameAt in H
  | H : slice _ _ _ = Ok _ |- _ => apply slice_At in H as [H ?]
  end.

Ltac all_typed := repeat (apply Forall_cons_2; [done|]); apply Forall_nil_2.

(** Splits a block of bytes into its fields, at offsets from its start. *)
Ltac fields :=
  repeat match goal with
  | |- context [At _ _ (?x ++ ?y)] => rewrite (At_app _ _ x y)
  | |- context [At _ _ [?x; ?y]] => rewrite (At_pair _ _ x y)
  end;
  rewrite ?length_u16_to_be_bytes, ?length_u32_to_be_bytes; cbn [length];
  rewrite <- ?Nat.add_assoc; cbn [Nat.add].

(** Runs a parser on fields that are known. *)
Ltac read :=
  match goal with
  | |- (idx _ _ ≫= _) = Ok _ => apply bind_Ok; eexists; split; [apply idx_At; eassumption|]
  | |- (u16_at _ _ ≫= _) = Ok _ =>
      apply bind_Ok; eexists; split; [apply u16_at_At; [done|]; split; [|eassumption]; done|]
  | |- (u32_at _ _ ≫= _) = Ok _ =>
      apply bind_Ok; eexists; split; [apply u32_at_At; [done|]; split; [|eassumption]; done|]
  | |- (parse_qname _ _ ≫= _) = Ok _ =>
      apply bind_Ok; eexists (_, _); split; [apply parse_qname_NameAt; eassumption|]; cbn beta iota
  | |- (slice _ _ _ ≫= _) = Ok _ =>
      apply bind_Ok; eexists; split; [apply slice_At; split; [eassumption|lia]|]
  | |- (if ?a <? ?b then _ else _) = Ok _ => destruct (Nat.ltb_spec a b); [lia|]
  | |- mret _ = Ok _ => reflexivity
  end.
Ltac fields_in H := revert H; fields; intros H; destruct_and? H.
Ltac typed_in H := rewrite ?Forall_cons in H; destruct_and? H.
Ltac parse_with f := transitivity (Some <$> f); [reflexivity|]; apply fmap_Ok; eexists; split; [|reflexivity].

Section RdataIff.
Context (buf domain : bytes) (ttl class : Z) (start dlen : nat).
Hypothesis Hbuf : wf_bytes buf.
Hypothesis Hlen : start + dlen ≤ length buf.

Lemma rdata_sound ty o :
  parse_rdata buf domain ttl start dlen ty class = Ok o → Rdata buf domain ttl class start dlen ty o.
Proof using Hbuf Hlen.
  unfold parse_rdata.
  repeat match goal with
  | |- (if (ty =? ?t)%Z then _ else _) = _ → _ => destruct (Z.eqb_spec ty t) as [->|]
  end; intros H;
  unfold parse_a, parse_aaaa, parse_cname, parse_mx, parse_txt, parse_ns, parse_soa,
    parse_srv, parse_ptr, parse_caa, parse_dnskey, parse_rrsig, parse_ds, parse_nsec in H;
  reads_in.
  all: try (econstructor; done).
  - constructor; [done|]. change [?a; ?b; ?c; ?d] with ([a; b] ++ [c; d]). fields. done.
  - constructor; [done|lia|done].
  - match goal with H : parse_character_strings _ = Ok _ |- _ => rename H into Ht end.
    apply character_strings_iff in Ht as (cs & -> & ->); [constructor; [done|lia]|].
    match goal with H : At buf start _ |- _ => apply At_take in H as [_ <-] end.
    by apply Forall_take, Forall_drop.
  - eapply Rdata_SOA; [done|done|all_typed|]. fields. done.
  - eapply Rdata_SRV; [lia|all_typed| |done]. fields. done.
  - match goal with H : At buf (start + 1) [?n] |- _ => assert (is_u8 n) by by eapply At_u8 end.
    match goal with E : start + 2 + length ?t = _ + Z.to_nat ?n |- _ =>
      assert (Z.of_nat (length t) = n) as El by width_lia; rewrite <- El in * end.
    constructor; [|lia]. fields. rewrite Nat2Z.id, <- Nat.add_assoc in *. done.
  - constructor; [done| |lia]. fields. done.
  - eapply Rdata_RRSIG; [all_typed|all_typed| |done|done|done]. fields. done.
  - constructor; [done| |lia]. fields. done.
  - constructor. rewrite !not_elem_of_cons. repeat (split; [done|]). apply not_elem_of_nil.
Qed.

Lemma rdata_complete ty o :
  Rdata buf domain ttl class start dlen ty o → parse_rdata buf domain ttl start dlen ty class = Ok o.
Proof using Hbuf Hlen.
  intros [a b c d Hd H|octets Hd Hl H|s fin Hn|pref s fin Hd Hp H Hn|cs H Hl|s fin Hn
    |mname mid rname fin serial refresh retry expire minimum Hm Hr Ht H|prio weight port s fin Hd Ht H Hn
    |s fin Hn|flags tag value H Hl| |flags protocol algorithm key Hf H Hl
    |covered algorithm labels original expiration inception tag signer fin signature Ht Ht' H Hn Hs Hl
    |tag algorithm digest_type digest Ht H Hl|next fin bitmap Hn H Hl|ty' Hty].
  - parse_with (parse_a buf domain ttl start dlen). unfold parse_a. rewrite Hd. cbn [Nat.eqb negb].
    change [a; b; c; d] with ([a; b] ++ [c; d]) in H. fields_in H. repeat read.
  - parse_with (parse_aaaa buf domain ttl start dlen). unfold parse_aaaa. rewrite Hd. cbn [Nat.eqb negb]. repeat read.
  - parse_with (parse_cname buf domain ttl start). unfold parse_cname. repeat read.
  - parse_with (parse_mx buf domain ttl start dlen). unfold parse_mx. repeat read.
  - parse_with (parse_txt buf domain ttl start dlen). unfold parse_txt. repeat read.
    apply bind_Ok. eexists. split; [|reflexivity]. apply character_strings_iff; [|by exists cs].
    apply At_take in H as [_ <-]. by apply Forall_take, Forall_drop.
  - parse_with (parse_ns buf domain ttl start). unfold parse_ns. repeat read.
  - parse_with (parse_soa buf domain ttl start). unfold parse_soa. typed_in Ht.
    pose proof (At_length _ _ _ H) as Hfin. rewrite !length_app, !length_u32_to_be_bytes in Hfin.
    fields_in H. repeat read.
  - parse_with (parse_srv buf domain ttl start dlen). unfold parse_srv. typed_in Ht. fields_in H. repeat read.
  - parse_with (parse_ptr buf domain ttl start). unfold parse_ptr. repeat read.
  - parse_with (parse_caa buf domain ttl start dlen). unfold parse_caa. fields_in H. repeat read.
    apply bind_Ok. exists (length tag). split; [apply fmap_Ok; eexists; split; [by apply idx_At|by rewrite Nat2Z.id]|].
    replace (start + S (S (length tag))) with (start + 2 + length tag) in * by lia. repeat read.
  - done.
  - parse_with (parse_dnskey buf domain ttl start dlen). unfold parse_dnskey. fields_in H. repeat read.
  - parse_with (parse_rrsig buf domain ttl start dlen). unfold parse_rrsig. typed_in Ht. typed_in Ht'.
    assert (18 ≤ dlen) as Hd by (destruct Hn as (ls & k & Hn%NameAt_bounds & _); lia).
    fields_in H. repeat read.
  - parse_with (parse_ds buf domain ttl start dlen). unfold parse_ds. fields_in H. repeat read.
  - parse_with (parse_nsec buf domain ttl start dlen). unfold parse_nsec. repeat read.
  - rewrite !not_elem_of_cons in Hty. destruct_and! Hty. unfold parse_rdata.
    repeat match goal with H : ty' ≠ ?t |- _ => rewrite (proj2 (Z.eqb_neq ty' t) H); clear H end. done.
Qed.

End RdataIff.

(** ** Records, sections and messages *)

Section MessageIff.
Context (buf : bytes).
Hypothesis Hbuf : wf_bytes buf.

Lemma record_iff off o fin : parse_record buf off = Ok (o, fin) ↔ RecordAt buf off o fin.
Proof using Hbuf.
  unfold parse_record. split.
  - intros H. apply bind_Ok in H as ([domain pos] & Hq%parse_qname_NameAt & H). cbn beta iota in H.
    destruct (Nat.ltb_spec (length buf) (pos + 10)); [done|].
    apply bind_Ok in H as (ty & [Hty Aty]%u16_at_At & H); [|done].
    apply bind_Ok in H as (class & [Hcl Acl]%u16_at_At & H); [|done].
    apply bind_Ok in H as (ttl & [Httl Attl]%u32_at_At & H); [|done].
    apply bind_Ok in H as (dlen & Hdl & H). apply fmap_Ok in Hdl as (z & Hz & ->).
    apply u16_at_At in Hz as [Hz Az]; [|done]. cbn zeta in H.
    destruct (Nat.ltb_spec (length buf) (pos + 10 + Z.to_nat z)); [done|].
    apply bind_Ok in H as (r & Hr & H). injection H as <- <-. apply rdata_sound in Hr; [|done|lia].
    exists domain, pos, ty, class, ttl, (Z.to_nat z). rewrite Z2Nat.id by width_lia.
    split_and!; [done|all_typed|done| |done|lia|done]. fields. done.
  - intros (domain & pos & ty & class & ttl & dlen & Hn & Ht & Httl & H & Hfin & Hle & Hr). typed_in Ht.
    fields_in H. repeat read.
    apply bind_Ok. exists dlen. split.
    { apply fmap_Ok. exists (Z.of_nat dlen). by rewrite Nat2Z.id, u16_at_At. }
    cbn zeta. subst fin. repeat read. apply bind_Ok. exists o. split; [|done]. apply rdata_complete; [done|lia|done].
Qed.

Lemma section_iff n off rs fin : parse_section n buf off = Ok (rs, fin) ↔ SectionAt buf n off rs fin.
Proof using Hbuf.
  split.
  - revert off rs fin. induction n as [|n IH]; intros off rs fin; cbn [parse_section].
    + intros [= <- <-]. constructor.
    + intros H. apply bind_Ok in H as ([o mid] & Hr%record_iff & H).
      apply bind_Ok in H as ([out fin'] & Hs%IH & H). injection H as <- <-.
      replace (match o with Some r => r :: out | None => out end) with (option_list o ++ out) by (by destruct o).
      by econstructor.
  - induction 1 as [off|n off o mid rs fin Hr Hs IH]; [done|]. cbn [parse_section].
    rewrite (proj2 (record_iff _ _ _) Hr). cbn. rewrite IH. cbn. by destruct o.
Qed.

Lemma questions_iff n off qs fin : parse_questions n buf off = Ok (qs, fin) ↔ QuestionsAt buf n off qs fin.
Proof using Hbuf.
  assert (∀ off q fin, parse_question buf off = Ok (q, fin) ↔ QuestionAt buf off q fin) as Hq.
  { clear n off qs fin. intros off q fin. unfold parse_question. split.
    - intros H. reads_in. eexists. split_and!; [done|done|done| |done]. fields. done.
    - intros (pos & Hn & Hty & Hcl & H & ->). destruct q as [s ty cl]. cbn [qname qtype qclass] in *.
      pose proof (At_length _ _ _ H) as Hl. rewrite length_app, !length_u16_to_be_bytes in Hl.
      fields_in H. repeat read. }
  split.
  - revert off qs fin. induction n as [|n IH]; intros off qs fin; cbn [parse_questions].
    + intros [= <- <-]. constructor.
    + intros H. apply bind_Ok in H as ([q mid] & Hr%Hq & H). apply bind_Ok in H as ([out fin'] & Hs%IH & H).
      injection H as <- <-. by econstructor.
  - induction 1 as [off|n off q mid qs fin Hr Hs IH]; [done|]. cbn [parse_questions].
    rewrite (proj2 (Hq _ _ _) Hr). cbn. by rewrite IH.
Qed.

Lemma header_iff h :
  12 ≤ length buf →
  parse_header buf = Ok h ↔
  wf_header h ∧ At buf 0 (u16_to_be_bytes (h_id h) ++ u16_to_be_bytes (h_flags h) ++ u16_to_be_bytes (h_questions h)
    ++ u16_to_be_bytes (h_answers h) ++ u16_to_be_bytes (h_authorities h) ++ u16_to_be_bytes (h_additionals h)).
Proof using Hbuf.
  intros Hl. unfold parse_header. split.
  - intros H. reads_in. split; [done|]. cbn [h_id h_flags h_questions h_answers h_authorities h_additionals].
    fields. done.
  - intros [Hw H]. destruct h as [a b c d e f]. destruct Hw as (?&?&?&?&?&?).
    cbn [h_id h_flags h_questions h_answers h_authorities h_additionals] in *. fields_in H. repeat read.
Qed.

End MessageIff.

Lemma from_bytes_iff (buf : bytes) (p : DnsPacket) :
  wf_bytes buf → from_bytes buf = Ok p ↔ MessageAt buf p.
Proof.
  intros Hbuf. unfold from_bytes, MessageAt. split.
  - destruct (Nat.ltb_spec (length buf) 12); [done|]. intros Hp.
    apply bind_Ok in Hp as (h & [Hw Hh]%header_iff & Hp); [|done|done].
    apply bind_Ok in Hp as ([qs o1] & Hq%questions_iff & Hp); [|done].
    apply bind_Ok in Hp as ([an o2] & Ha%section_iff & Hp); [|done].
    apply bind_Ok in Hp as ([au o3] & Hu%section_iff & Hp); [|done].
    apply bind_Ok in Hp as ([ad o4] & Hd%section_iff & Hp); [|done].
    injection Hp as <-. split_and!; [done|done|]. by exists o1, o2, o3, o4.
  - intros (Hw & Hh & o1 & o2 & o3 & o4 & Hq & Ha & Hu & Hd).
    pose proof (At_length _ _ _ Hh) as Hl. rewrite !length_app, !length_u16_to_be_bytes in Hl. cbn in Hl.
    destruct (Nat.ltb_spec (length buf) 12); [lia|].
    rewrite (proj2 (header_iff buf Hbuf (header p) ltac:(lia)) (conj Hw Hh)). cbn [mbind res_bind].
    apply questions_iff in Hq as ->; [|done]. apply section_iff in Ha as Ea, Hu as Eu, Hd as Ed; [|done..].
    cbn [mbind res_bind]. rewrite Ea. cbn [mbind res_bind]. rewrite Eu. cbn [mbind res_bind]. rewrite Ed. by destruct p.
Qed.

(** ** Properties *)

(** C2: the parser is the grammar: [DnsPacket::from_bytes] returns a packet exactly for the
    messages of [MessageAt], every record type, name compression and the records of other types
    included, and the packet it returns is the one described there. *)
Theorem from_bytes_spec (buf : bytes) (p : DnsPacket) :
  wf_bytes buf → from_bytes buf = Ok p ↔ MessageAt buf p.
Proof. apply from_bytes_iff. Qed.

Lemma from_bytes_spec_witness :
  MessageAt query_bytes (mkPacket (mkHeader 7 256 1 0 0 0) [mkQuestion (str "a") 1 1] [] [] []).
Proof.
  apply (from_bytes_spec query_bytes); [|vm_compute; reflexivity].
  repeat (constructor; [width_lia|]). constructor.
Defined.

(** A message has one meaning, and a message of the grammar is never an error or a panic. *)
Corollary message_unique (buf : bytes) (p p' : DnsPacket) :
  wf_bytes buf → MessageAt buf p → MessageAt buf p' → p = p'.
Proof. intros Hb Hp%from_bytes_iff Hp'%from_bytes_iff; congruence. Qed.

(** The length of the record data does not bound the name inside it: an answer whose CNAME
    data is empty is accepted, with the name that the bytes after the record spell. *)
Definition cname_empty_rdata : bytes :=
  [0;7; 128;0; 0;0; 0;1; 0;0; 0;0;  0; 0;5; 0;1; 0;0;0;60; 0;0;  1;98;0]%Z.

Example name_outside_rdata :
  from_bytes cname_empty_rdata =
    Ok (mkPacket (mkHeader 7 32768 0 1 0 0) [] [DnsRecord.CNAME [] (str "b") 60] [] []).
Proof. vm_compute. reflexivity. Qed.
