(* ===== verification/Encoder.v ===== *)
(** * The wire encoder

    Models [src/src/dns/encoder.rs] ([DnsPacketEncoder] with its buffer and its map
    from name suffixes to offsets) and the encoding half of [packet.rs]
    ([to_bytes], [udp_limit], [to_udp_bytes]). *)

From S2P Require Import Prelude RustStd Message Packet.

(** ** The encoder state *)
Record DnsPacketEncoder := mkEncoder {
  enc_buf : bytes;
  name_offsets : gmap bytes Z;
}.

Definition new_encoder : DnsPacketEncoder := mkEncoder [] ∅.

(** [self.buf.extend_from_slice(bs)] and [self.buf.push(b)]. *)
Definition extend (e : DnsPacketEncoder) (bs : bytes) : DnsPacketEncoder :=
  mkEncoder (enc_buf e ++ bs) (name_offsets e).

(** ** Names *)

(** Only positions a 14-bit pointer can address are remembered. *)
Definition remember_suffix (suffix : bytes) (e : DnsPacketEncoder) : DnsPacketEncoder :=
  if (Z.of_nat (length (enc_buf e)) <=? 16383)%Z then
    mkEncoder (enc_buf e)
      (<[suffix := as_u16 (Z.of_nat (length (enc_buf e)))]> (name_offsets e))
  else e.

(** The loop [for i in 0..labels.len()] of [encode_qname]: [labels] is
    [labels[i..]]. *)
Fixpoint encode_labels (e : DnsPacketEncoder) (labels : list bytes) : DnsPacketEncoder :=
  match labels with
  | [] => extend e [0%Z]
  | label :: rest =>
      let suffix := join_on DOT labels in
      match name_offsets e !! suffix with
      | Some offset => extend e (u16_to_be_bytes (Z.lor 49152 offset))
      | None =>
          let e := remember_suffix suffix e in
          let label_len := length label `min` 63 in
          let e := extend e [as_u8 (Z.of_nat label_len)] in
          let e := extend e (take label_len label) in
          encode_labels e rest
      end
  end.

Definition encode_qname (qname : bytes) (e : DnsPacketEncoder) : DnsPacketEncoder :=
  match qname with
  | [] => extend e [0%Z]
  | _ => encode_labels e (split_on DOT qname)
  end.

Fixpoint encode_labels_uncompressed (e : DnsPacketEncoder) (labels : list bytes)
    : DnsPacketEncoder :=
  match labels with
  | [] => extend e [0%Z]
  | label :: rest =>
      let len := length label `min` 63 in
      let e := extend e [as_u8 (Z.of_nat len)] in
      let e := extend e (take len label) in
      encode_labels_uncompressed e rest
  end.

Definition encode_name_uncompressed (name : bytes) (e : DnsPacketEncoder)
    : DnsPacketEncoder :=
  match name with
  | [] => extend e [0%Z]
  | _ => encode_labels_uncompressed e (split_on DOT name)
  end.

(** ** Character strings: [bytes.chunks(255)], each with its length byte *)
Fixpoint chunks (fuel n : nat) (l : bytes) : list bytes :=
  match fuel, l with
  | S fuel, _ :: _ => take n l :: chunks fuel n (drop n l)
  | _, _ => []
  end.

Definition chunks_255 (l : bytes) : list bytes := chunks (length l) 255 l.

Definition encode_chunk (chunk : bytes) : bytes := as_u8 (Z.of_nat (length chunk)) :: chunk.

Definition encode_character_strings (text : bytes) (e : DnsPacketEncoder)
    : DnsPacketEncoder :=
  match text with
  | [] => extend e [0%Z]
  | _ => extend e (concat (encode_chunk <$> chunks_255 text))
  end.

(** ** Records *)

Definition encode_record_header (domain : bytes) (rtype ttl : Z) (e : DnsPacketEncoder)
    : DnsPacketEncoder :=
  let e := encode_qname domain e in
  let e := extend e (u16_to_be_bytes rtype) in
  let e := extend e (u16_to_be_bytes 1) in
  extend e (u32_to_be_bytes ttl).

(** The length is written as zero, then back-filled. *)
Definition encode_rdata (write_body : DnsPacketEncoder → DnsPacketEncoder)
    (e : DnsPacketEncoder) : DnsPacketEncoder :=
  let len_pos := length (enc_buf e) in
  let e := extend e (u16_to_be_bytes 0) in
  let rdata_start := length (enc_buf e) in
  let e := write_body e in
  let rdlength := as_u16 (Z.of_nat (length (enc_buf e) - rdata_start)) in
  mkEncoder
    (take len_pos (enc_buf e) ++ u16_to_be_bytes rdlength ++ drop (len_pos + 2) (enc_buf e))
    (name_offsets e).

(** The rdata writers of [encode_record]. *)
Definition write_mx (preference : Z) (exchange : bytes) (e : DnsPacketEncoder) :=
  encode_qname exchange (extend e (u16_to_be_bytes preference)).

Definition write_soa (mname rname : bytes) (serial refresh retry expire minimum : Z)
    (e : DnsPacketEncoder) :=
  let e := encode_qname rname (encode_qname mname e) in
  let e := extend e (u32_to_be_bytes serial) in
  let e := extend e (u32_to_be_bytes refresh) in
  let e := extend e (u32_to_be_bytes retry) in
  let e := extend e (u32_to_be_bytes expire) in
  extend e (u32_to_be_bytes minimum).

Definition write_srv (priority weight port : Z) (target : bytes) (e : DnsPacketEncoder) :=
  let e := extend e (u16_to_be_bytes priority) in
  let e := extend e (u16_to_be_bytes weight) in
  let e := extend e (u16_to_be_bytes port) in
  encode_name_uncompressed target e.

Definition write_caa (flags : Z) (tag value : bytes) (e : DnsPacketEncoder) :=
  let e := extend e [flags] in
  let tag_len := length tag `min` 255 in
  let e := extend e [as_u8 (Z.of_nat tag_len)] in
  let e := extend e (take tag_len tag) in
  extend e value.

Definition write_dnskey (flags protocol algorithm : Z) (public_key : bytes)
    (e : DnsPacketEncoder) :=
  let e := extend e (u16_to_be_bytes flags) in
  let e := extend e [protocol] in
  let e := extend e [algorithm] in
  extend e public_key.

Definition write_rrsig
    (type_covered algorithm labels original_ttl signature_expiration
     signature_inception key_tag : Z) (signer_name signature : bytes)
    (e : DnsPacketEncoder) :=
  let e := extend e (u16_to_be_bytes type_covered) in
  let e := extend e [algorithm] in
  let e := extend e [labels] in
  let e := extend e (u32_to_be_bytes original_ttl) in
  let e := extend e (u32_to_be_bytes signature_expiration) in
  let e := extend e (u32_to_be_bytes signature_inception) in
  let e := extend e (u16_to_be_bytes key_tag) in
  let e := encode_name_uncompressed signer_name e in
  extend e signature.

Definition write_ds (key_tag algorithm digest_type : Z) (digest : bytes)
    (e : DnsPacketEncoder) :=
  let e := extend e (u16_to_be_bytes key_tag) in
  let e := extend e [algorithm] in
  let e := extend e [digest_type] in
  extend e digest.

Definition write_nsec (next_name type_bitmap : bytes) (e : DnsPacketEncoder) :=
  extend (encode_name_uncompressed next_name e) type_bitmap.

Definition encode_opt (udp_size : Z) (e : DnsPacketEncoder) : DnsPacketEncoder :=
  let e := extend e [0%Z] in
  let e := extend e (u16_to_be_bytes DnsRecord.TYPE_OPT) in
  let e := extend e (u16_to_be_bytes udp_size) in
  let e := extend e (u32_to_be_bytes 0) in
  extend e (u16_to_be_bytes 0).

Definition encode_record (record : DnsRecord.t) (e : DnsPacketEncoder)
    : DnsPacketEncoder :=
  let header rtype := encode_record_header (DnsRecord.domain record) rtype (DnsRecord.ttl record) in
  match record with
  | DnsRecord.A _ addr _ =>
      let e := header DnsRecord.TYPE_A e in
      extend (extend e (u16_to_be_bytes 4)) addr
  | DnsRecord.AAAA _ addr _ =>
      let e := header DnsRecord.TYPE_AAAA e in
      extend (extend e (u16_to_be_bytes 16)) addr
  | DnsRecord.CNAME _ alias _ =>
      encode_rdata (encode_qname alias) (header DnsRecord.TYPE_CNAME e)
  | DnsRecord.MX _ preference exchange _ =>
      encode_rdata (write_mx preference exchange) (header DnsRecord.TYPE_MX e)
  | DnsRecord.TXT _ text _ =>
      encode_rdata (encode_character_strings text) (header DnsRecord.TYPE_TXT e)
  | DnsRecord.NS _ nameserver _ =>
      encode_rdata (encode_qname nameserver) (header DnsRecord.TYPE_NS e)
  | DnsRecord.SOA _ mname rname serial refresh retry expire minimum _ =>
      encode_rdata (write_soa mname rname serial refresh retry expire minimum)
        (header DnsRecord.TYPE_SOA e)
  | DnsRecord.SRV _ priority weight port target _ =>
      encode_rdata (write_srv priority weight port target) (header DnsRecord.TYPE_SRV e)
  | DnsRecord.PTR _ ptrdname _ =>
      encode_rdata (encode_qname ptrdname) (header DnsRecord.TYPE_PTR e)
  | DnsRecord.CAA _ flags tag value _ =>
      encode_rdata (write_caa flags tag value) (header DnsRecord.TYPE_CAA e)
  | DnsRecord.OPT udp_size => encode_opt udp_size e
  | DnsRecord.DNSKEY _ flags protocol algorithm public_key _ =>
      encode_rdata (write_dnskey flags protocol algorithm public_key)
        (header DnsRecord.TYPE_DNSKEY e)
  | DnsRecord.RRSIG _ tc alg labels ottl sexp sinc ktag signer sg _ =>
      encode_rdata (write_rrsig tc alg labels ottl sexp sinc ktag signer sg)
        (header DnsRecord.TYPE_RRSIG e)
  | DnsRecord.DS _ key_tag algorithm digest_type digest _ =>
      encode_rdata (write_ds key_tag algorithm digest_type digest)
        (header DnsRecord.TYPE_DS e)
  | DnsRecord.NSEC _ next_name type_bitmap _ =>
      encode_rdata (write_nsec next_name type_bitmap) (header DnsRecord.TYPE_NSEC e)
  end.

Definition encode_records (rs : list DnsRecord.t) (e : DnsPacketEncoder) : DnsPacketEncoder :=
  foldl (fun e r => encode_record r e) e rs.

Definition encode_question (q : DnsQuestion) (e : DnsPacketEncoder) : DnsPacketEncoder :=
  let e := encode_qname (qname q) e in
  let e := extend e (u16_to_be_bytes (qtype q)) in
  extend e (u16_to_be_bytes (qclass q)).

Definition encode_questions (qs : list DnsQuestion) (e : DnsPacketEncoder)
    : DnsPacketEncoder :=
  foldl (fun e q => encode_question q e) e qs.

(** The section counts on the wire are the lengths of the vectors, whatever the
    header structure says. *)
Definition encode_header (p : DnsPacket) (e : DnsPacketEncoder) : DnsPacketEncoder :=
  let e := extend e (u16_to_be_bytes (h_id (header p))) in
  let e := extend e (u16_to_be_bytes (h_flags (header p))) in
  let e := extend e (u16_to_be_bytes (len_u16 (questions p))) in
  let e := extend e (u16_to_be_bytes (len_u16 (answers p))) in
  let e := extend e (u16_to_be_bytes (len_u16 (authorities p))) in
  extend e (u16_to_be_bytes (len_u16 (additionals p))).

Definition encode (p : DnsPacket) (e : DnsPacketEncoder) : DnsPacketEncoder :=
  let e := encode_header p e in
  let e := encode_questions (questions p) e in
  let e := encode_records (answers p) e in
  let e := encode_records (authorities p) e in
  encode_records (additionals p) e.

Definition to_bytes (p : DnsPacket) : bytes := enc_buf (encode p new_encoder).

(** ** UDP framing *)

Definition MAX_UDP_SIZE : nat := 512.
Definition MAX_EDNS_UDP : nat := 1232.

(** [x.clamp(lo, hi)] *)
Definition clamp (lo hi x : nat) : nat := lo `max` (x `min` hi).

Definition udp_limit (p : DnsPacket) : nat :=
  match edns_udp_size p with
  | Some s => clamp MAX_UDP_SIZE MAX_EDNS_UDP (Z.to_nat s)
  | None => MAX_UDP_SIZE
  end.

Definition truncated_packet (p : DnsPacket) : DnsPacket :=
  mkPacket
    (mkHeader (h_id (header p)) (Z.lor (h_flags (header p)) 512)
       (h_questions (header p)) 0 0 (len_u16 (additionals p)))
    (questions p) [] [] (additionals p).

Definition to_udp_bytes (p : DnsPacket) : bytes :=
  let bytes := to_bytes p in
  if length bytes <=? udp_limit p then bytes
  else to_bytes (truncated_packet p).
