(* ===== verification/Wire.v ===== *)
(** * Encoding and decoding agree

    The theory relating [Encoder] and [Packet]: the invariant of the encoder's
    suffix table (every entry points at an encoding of its name), that the
    encoder only appends, and the round trip from a packet to its bytes and
    back. *)

From S2P Require Import Prelude RustStd Message Packet Encoder.

(** ** Names and packets the encoding represents *)

(** A label the wire can carry: non-empty, at most 63 bytes, no dot inside,
    and valid UTF-8. *)
Definition label_ok (l : bytes) : Prop :=
  l ≠ [] ∧ length l ≤ 63 ∧ DOT ∉ l ∧ Utf8 l.

(** A name in text form: the root, or at most [MAX_POINTER_JUMPS] good labels. *)
Definition name_ok (s : bytes) : Prop :=
  s = [] ∨ (Forall label_ok (split_on DOT s) ∧
            length (split_on DOT s) ≤ MAX_POINTER_JUMPS).

(** The rdata size without compression, in bytes. *)
Definition rdata_size (r : DnsRecord.t) : nat :=
  match r with
  | DnsRecord.A _ _ _ => 4
  | DnsRecord.AAAA _ _ _ => 16
  | DnsRecord.CNAME _ n _ | DnsRecord.NS _ n _ | DnsRecord.PTR _ n _ => length n + 2
  | DnsRecord.MX _ _ e _ => 2 + (length e + 2)
  | DnsRecord.TXT _ t _ => 1 + length (concat (encode_chunk <$> chunks_255 t))
  | DnsRecord.SOA _ m r _ _ _ _ _ _ => (length m + 2) + (length r + 2) + 20
  | DnsRecord.SRV _ _ _ _ ta _ => 6 + (length ta + 2)
  | DnsRecord.CAA _ _ ta v _ => 2 + length ta + length v
  | DnsRecord.OPT _ => 0
  | DnsRecord.DNSKEY _ _ _ _ k _ => 4 + length k
  | DnsRecord.RRSIG _ _ _ _ _ _ _ _ sn sg _ => 18 + (length sn + 2) + length sg
  | DnsRecord.DS _ _ _ _ dg _ => 4 + length dg
  | DnsRecord.NSEC _ n b _ => (length n + 2) + length b
  end.

(** The names inside a record's rdata are good, and its TXT chunks and CAA tag
    can be decoded one by one. *)
Definition rdata_ok (r : DnsRecord.t) : Prop :=
  match r with
  | DnsRecord.CNAME _ n _ | DnsRecord.NS _ n _ | DnsRecord.PTR _ n _ => name_ok n
  | DnsRecord.MX _ _ n _ | DnsRecord.SRV _ _ _ _ n _ => name_ok n
  | DnsRecord.RRSIG _ _ _ _ _ _ _ _ n _ _ | DnsRecord.NSEC _ n _ _ => name_ok n
  | DnsRecord.SOA _ m r _ _ _ _ _ _ => name_ok m ∧ name_ok r
  | DnsRecord.TXT _ t _ => Forall Utf8 (chunks_255 t)
  | DnsRecord.CAA _ _ ta _ _ => length ta ≤ 255
  | _ => True
  end.

Definition encodable_record (r : DnsRecord.t) : Prop :=
  wf_record r ∧ name_ok (DnsRecord.domain r) ∧ rdata_ok r ∧ (Z.of_nat (rdata_size r) < 65536)%Z.

Definition encodable_question (q : DnsQuestion) : Prop :=
  wf_question q ∧ name_ok (qname q).

(** The header counts are the section lengths. *)
Definition counts_ok (p : DnsPacket) : Prop :=
  h_questions (header p) = Z.of_nat (length (questions p)) ∧
  h_answers (header p) = Z.of_nat (length (answers p)) ∧
  h_authorities (header p) = Z.of_nat (length (authorities p)) ∧
  h_additionals (header p) = Z.of_nat (length (additionals p)).

Definition encodable (p : DnsPacket) : Prop :=
  wf_header (header p) ∧ counts_ok p ∧ Forall encodable_question (questions p) ∧
  Forall encodable_record (answers p) ∧ Forall encodable_record (authorities p) ∧
  Forall encodable_record (additionals p).

(** ** The invariant of the suffix table *)

(** Entry [key ↦ off]: [off] is below [2^14] and the bytes there encode the
    labels of [key], with fewer pointers than labels. *)
Definition entry_ok (buf key : bytes) (off : Z) : Prop :=
  ∃ ls k fin, ls ≠ [] ∧ Forall label_ok ls ∧ key = join_on DOT ls ∧
    (0 <= off < 16384)%Z ∧ NameAt buf (Z.to_nat off) ls k fin ∧ k < length ls.

Definition EncInv (e : DnsPacketEncoder) : Prop :=
  map_Forall (entry_ok (enc_buf e)) (name_offsets e).

(** Writers append to the buffer, and what they append depends on the length of
    the buffer and on the suffix table only. *)
Definition Appends (w : DnsPacketEncoder → DnsPacketEncoder) : Prop :=
  ∀ e1 e2, length (enc_buf e1) = length (enc_buf e2) → name_offsets e1 = name_offsets e2 →
    ∃ s, enc_buf (w e1) = enc_buf e1 ++ s ∧ enc_buf (w e2) = enc_buf e2 ++ s ∧
      name_offsets (w e1) = name_offsets (w e2).

(** ** Reading what was written *)

Lemma idx_shift {E A} (p m : list A) i : idx (E := E) (p ++ m) (length p + i) = idx m i.
Proof. unfold idx. by rewrite lookup_app_at. Qed.

Lemma u16_at_shift (p m : bytes) i : u16_at (p ++ m) (length p + i) = u16_at m i.
Proof. unfold u16_at. by rewrite <- Nat.add_assoc, !idx_shift. Qed.

Lemma u32_at_shift (p m : bytes) i : u32_at (p ++ m) (length p + i) = u32_at m i.
Proof. unfold u32_at. by rewrite <- !Nat.add_assoc, !idx_shift. Qed.

Lemma u16_at_be (p x : bytes) z :
  is_u16 z → u16_at (p ++ u16_to_be_bytes z ++ x) (length p) = Ok z.
Proof.
  intros Hz. rewrite <- (Nat.add_0_r (length p)), u16_at_shift.
  unfold u16_to_be_bytes. cbn. by rewrite u16_be_bytes_roundtrip.
Qed.

Lemma u32_at_be (p x : bytes) z :
  is_u32 z → u32_at (p ++ u32_to_be_bytes z ++ x) (length p) = Ok z.
Proof.
  intros Hz. rewrite <- (Nat.add_0_r (length p)), u32_at_shift.
  unfold u32_to_be_bytes. cbn. by rewrite u32_be_bytes_roundtrip.
Qed.

Lemma slice_mid {E A} (p m x : list A) :
  slice (E := E) (p ++ m ++ x) (length p) (length p + length m) = Ok m.
Proof.
  rewrite slice_Ok; [|lia|rewrite !length_app; lia].
  replace (length p + length m - length p) with (length m) by lia.
  by rewrite take_drop_app_mid.
Qed.

(** ** Names *)

Lemma NameAt_app buf x off ls k fin : NameAt buf off ls k fin → NameAt (buf ++ x) off ls k fin.
Proof.
  induction 1 as [off H0|off len label ls k e Hoff Hland Hne Hb -> Hn IH
    |off hi lo ls k e Hoff Hland Hlo Hn IH].
  - constructor. by apply lookup_app_l_Some.
  - eapply NameAt_label; eauto using lookup_app_l_Some; [rewrite length_app; lia|].
    rewrite drop_app_le, take_app_le by (rewrite ?length_drop; lia). done.
  - eapply NameAt_pointer; eauto using lookup_app_l_Some.
Qed.

Lemma label_byte (n : nat) : n < 64 → Z.land (as_u8 (Z.of_nat n)) 192 = 0%Z.
Proof. intros H. do 64 (destruct n as [|n]; [done|]). lia. Qed.

Lemma pointer_high_byte (h : nat) : h < 64 →
  Z.land (192 + Z.of_nat h) 192 ≠ 0%Z ∧ Z.land (192 + Z.of_nat h) 63 = Z.of_nat h.
Proof. intros H. do 64 (destruct h as [|h]; [done|]). lia. Qed.

Lemma lor_pointer off : (0 <= off < 16384)%Z → Z.lor 49152 off = (49152 + off)%Z.
Proof.
  intros Hoff. assert (Z.land 49152 off = 0%Z) as H0.
  { rewrite <- (Z.mod_small off (2 ^ 14)) by lia. rewrite <- Z.land_ones by lia.
    by rewrite (Z.land_comm off), Z.land_assoc. }
  by rewrite Z.add_nocarry_lxor, Z.lxor_lor.
Qed.

Lemma pointer_bytes off : (0 <= off < 16384)%Z →
  Z.land (as_u8 (Z.lor 49152 off / 2 ^ 8)) 192 ≠ 0%Z ∧
  u16_from_be_bytes (Z.land (as_u8 (Z.lor 49152 off / 2 ^ 8)) 63)
    (as_u8 (Z.lor 49152 off)) = off.
Proof.
  intros Hoff. rewrite lor_pointer by done.
  assert (as_u8 ((49152 + off) / 2 ^ 8) = 192 + Z.of_nat (Z.to_nat (off / 256)))%Z as -> by width_lia.
  assert (as_u8 (49152 + off) = off mod 256)%Z as -> by width_lia.
  destruct (pointer_high_byte (Z.to_nat (off / 256))) as [? ->]; [width_lia|].
  split; [done|]. width_lia.
Qed.

Lemma length_join_suffix t ls : t `suffix_of` ls → length (join_on DOT t) ≤ length (join_on DOT ls).
Proof.
  intros [p ->]. induction p as [|l p IH]; [done|].
  cbn [app]. destruct (p ++ t) as [|l' r] eqn:E; [apply app_nil in E as [-> ->]; simpl; lia|].
  rewrite join_on_cons, length_app, length_cons by done. lia.
Qed.

Lemma join_on_inj ls ls' :
  ls ≠ [] → ls' ≠ [] → Forall label_ok ls → Forall label_ok ls' →
  join_on DOT ls = join_on DOT ls' → ls = ls'.
Proof.
  intros Hn Hn' Hl Hl' He. rewrite <- (split_join DOT ls), <- (split_join DOT ls'), He; try done;
    (eapply Forall_impl; [eassumption|]); intros x (?&?&?&?); done.
Qed.

(** The size of a name on the wire, without compression. *)
Definition name_wire (labels : list bytes) : nat :=
  match labels with [] => 1 | _ => length (join_on DOT labels) + 2 end.

(** What encoding a list of labels achieves. *)
Definition encoded (e e' : DnsPacketEncoder) (labels : list bytes) : Prop :=
  ∃ w k, enc_buf e' = enc_buf e ++ w ∧ length w ≤ name_wire labels ∧
    NameAt (enc_buf e') (length (enc_buf e)) labels k (length (enc_buf e')) ∧
    k ≤ length labels ∧
    ∀ key off, name_offsets e' !! key = Some off →
      name_offsets e !! key = Some off ∨ entry_ok (enc_buf e') key off.

Lemma entry_ok_app buf x key off : entry_ok buf key off → entry_ok (buf ++ x) key off.
Proof.
  intros (ls & k & fin & ? & ? & ? & ? & ? & ?). exists ls, k, fin.
  eauto 10 using NameAt_app.
Qed.

Lemma encoded_pointer e off labels k fin :
  (0 <= off < 16384)%Z → NameAt (enc_buf e) (Z.to_nat off) labels k fin →
  k < length labels →
  encoded e (extend e (u16_to_be_bytes (Z.lor 49152 off))) labels.
Proof.
  intros Hr Hn Hk. destruct (pointer_bytes off Hr) as [Hp1 Hp2].
  eexists _, (S k). cbn [extend enc_buf name_offsets].
  split_and!; [done| | |lia|eauto].
  { rewrite length_u16_to_be_bytes. destruct labels; simpl in *; lia. }
  rewrite length_app, length_u16_to_be_bytes. unfold u16_to_be_bytes.
  eapply NameAt_pointer; [by rewrite list_lookup_middle|exact Hp1|by rewrite lookup_app_at|].
  rewrite Hp2. by apply NameAt_app.
Qed.

Lemma encoded_label e e2 e3 l rest :
  label_ok l →
  enc_buf e2 = enc_buf e ++ as_u8 (Z.of_nat (length l)) :: l →
  (∀ key off, name_offsets e2 !! key = Some off → name_offsets e !! key = Some off ∨
     (key = join_on DOT (l :: rest) ∧ off = Z.of_nat (length (enc_buf e)) ∧
      (Z.of_nat (length (enc_buf e)) < 16384)%Z)) →
  Forall label_ok rest → encoded e2 e3 rest → encoded e e3 (l :: rest).
Proof.
  intros (Hne & H63 & Hdot & Hu) Hb2 Hoffs Hrest (w & k & Hb & Hw & Hn & Hk & Hkeys).
  assert (length l ≠ 0) by by destruct l.
  assert (NameAt (enc_buf e3) (length (enc_buf e)) (l :: rest) k (length (enc_buf e3))) as Hname.
  { assert (enc_buf e3 = enc_buf e ++ as_u8 (Z.of_nat (length l)) :: l ++ w) as HB
      by by rewrite Hb, Hb2, <- (assoc_L (++)).
    assert (Z.to_nat (as_u8 (Z.of_nat (length l))) = length l) as Hlen by width_lia.
    eapply NameAt_label.
    - rewrite HB. by rewrite list_lookup_middle.
    - apply label_byte. lia.
    - width_lia.
    - rewrite Hlen, HB, length_app, length_cons, length_app. lia.
    - rewrite Hlen, HB, <- drop_drop, drop_app_length. symmetry. apply (take_app_length l w).
    - rewrite Hlen. replace (length (enc_buf e) + 1 + length l) with (length (enc_buf e2))
        by (rewrite Hb2, length_app, length_cons; lia). exact Hn. }
  exists ((as_u8 (Z.of_nat (length l)) :: l) ++ w), k. split_and!.
  - by rewrite Hb, Hb2, <- (assoc_L (++)).
  - rewrite length_app, length_cons. unfold name_wire in *.
    destruct rest as [|l' rest']; [cbn in *; lia|].
    rewrite (join_on_cons DOT l), length_app, length_cons by done. lia.
  - done.
  - simpl. lia.
  - intros key off [Hk'|Hk']%Hkeys; [|by right].
    apply Hoffs in Hk' as [Hk'|(-> & -> & Hlt)]; [by left|right].
    exists (l :: rest), k, (length (enc_buf e3)). rewrite Nat2Z.id.
    split_and!; try done; simpl; try lia. constructor; done.
Qed.

Lemma encode_labels_spec labels : ∀ e,
  Forall label_ok labels →
  (∀ t off, t `suffix_of` labels → t ≠ [] → name_offsets e !! join_on DOT t = Some off →
    entry_ok (enc_buf e) (join_on DOT t) off) →
  encoded e (encode_labels e labels) labels.
Proof.
  induction labels as [|l rest IH]; intros e Hl Hinv; cbn [encode_labels].
  { exists [0%Z], 0. cbn. split_and!; [done|lia| |lia|eauto].
    rewrite length_app. apply NameAt_root. by rewrite list_lookup_middle. }
  pose proof Hl as [Hlok Hrest]%Forall_cons. pose proof Hlok as (Hne & H63 & _ & _).
  destruct (name_offsets e !! join_on DOT (l :: rest)) as [off|] eqn:Hoff.
  { apply Hinv in Hoff as (ls & k & fin & Hls & Hlls & He & Hr & Hn & Hk); [|done|done].
    apply join_on_inj in He as <-; [|done..]. by eapply encoded_pointer. }
  rewrite (Nat.min_l (length l) 63), take_ge by lia.
  set (e1 := remember_suffix _ e).
  assert (enc_buf e1 = enc_buf e) as Hb1 by (unfold e1, remember_suffix; by case_match).
  assert (∀ key off, name_offsets e1 !! key = Some off → name_offsets e !! key = Some off ∨
     (key = join_on DOT (l :: rest) ∧ off = Z.of_nat (length (enc_buf e)) ∧
      (Z.of_nat (length (enc_buf e)) < 16384)%Z)) as Hoffs.
  { intros key off. unfold e1, remember_suffix. destruct (Z.leb_spec (Z.of_nat (length (enc_buf e))) 16383); [|by left].
    cbn. rewrite lookup_insert. case_decide; [|by left]. intros [= <-]. right.
    split_and!; [done|width_lia|lia]. }
  eapply (encoded_label e (extend (extend e1 [as_u8 (Z.of_nat (length l))]) l)); [done| |exact Hoffs|done|].
  { cbn [extend enc_buf]. rewrite Hb1, <- (assoc_L (++)). done. }
  apply IH; [done|]. cbn [extend enc_buf name_offsets].
  intros t off Ht Hnt [H|(Hj & _)]%Hoffs.
  - rewrite Hb1. by apply entry_ok_app, entry_ok_app, Hinv; [apply suffix_cons_r|..].
  - apply length_join_suffix in Ht as Hlen. rewrite Hj in Hlen.
    destruct rest as [|l' rest']; [by apply suffix_nil_inv in Ht|].
    rewrite (join_on_cons DOT l) in Hlen by done.
    rewrite length_app, length_cons in Hlen. lia.
Qed.

(** The outcome of writing one name: the buffer grows by [w], the table stays
    good, and the name reads back at the old end, whatever follows. *)
Definition wrote_name (s : bytes) (e e' : DnsPacketEncoder) : Prop :=
  EncInv e' ∧ (∃ w, enc_buf e' = enc_buf e ++ w ∧ 1 ≤ length w ≤ length s + 2) ∧
  ∀ ext, parse_qname (enc_buf e' ++ ext) (length (enc_buf e)) = Ok (s, length (enc_buf e')).

Lemma EncInv_extend e bs : EncInv e → EncInv (extend e bs).
Proof. intros H key off Hk. apply entry_ok_app. by apply H. Qed.

Lemma name_text_ok s :
  Forall label_ok (split_on DOT s) → name_text (split_on DOT s) = s.
Proof.
  intros Hl. unfold name_text. rewrite <- (join_split DOT s) at 2. f_equal.
  induction Hl as [|l ls (_&_&_&Hu) _ IH]; [done|]. cbn. by rewrite IH, from_utf8_lossy_valid.
Qed.

Lemma NameAt_parse buf off ls k fin s ext :
  NameAt buf off ls k fin → k ≤ MAX_POINTER_JUMPS → s = name_text ls →
  parse_qname (buf ++ ext) off = Ok (s, fin).
Proof.
  intros Hn Hk ->. apply parse_qname_NameAt. eexists _, _. eauto using NameAt_app.
Qed.

Lemma encoded_wrote s e e' :
  EncInv e → Forall label_ok (split_on DOT s) →
  length (split_on DOT s) ≤ MAX_POINTER_JUMPS →
  encoded e e' (split_on DOT s) → wrote_name s e e'.
Proof.
  intros Hinv Hl Hm (w & k & Hb & Hw & Hn & Hk & Hkeys). split_and!.
  - intros key off Hko. apply Hkeys in Hko as [Hko|Hko]; [|done].
    rewrite Hb. by apply entry_ok_app, Hinv.
  - exists w. split; [done|]. unfold name_wire in Hw. rewrite join_split in Hw.
    apply NameAt_bounds in Hn as [Hn _]. rewrite Hb, length_app in Hn.
    case_match; [by apply split_on_ne in H|lia].
  - intros ext. eapply NameAt_parse; [done|lia|]. by rewrite name_text_ok.
Qed.

Lemma wrote_root e : EncInv e → wrote_name [] e (extend e [0%Z]).
Proof.
  intros Hinv. split_and!; [by apply EncInv_extend|exists [0%Z]; simpl; split; [done|lia]|].
  intros ext. eapply (NameAt_parse _ _ [] 0); [| |done].
  - cbn. rewrite length_app. apply NameAt_root. by rewrite list_lookup_middle.
  - lia.
Qed.

Lemma encode_qname_wrote s e : EncInv e → name_ok s → wrote_name s e (encode_qname s e).
Proof.
  intros Hinv [->|[Hl Hm]]; [by apply wrote_root|].
  unfold encode_qname. destruct s as [|c s]; [by apply wrote_root|].
  apply encoded_wrote; [done..|]. apply encode_labels_spec; [done|].
  intros t off _ _ Ht. by apply Hinv.
Qed.

Lemma encode_labels_uncompressed_spec labels : ∀ e,
  Forall label_ok labels → encoded e (encode_labels_uncompressed e labels) labels.
Proof.
  induction labels as [|l rest IH]; intros e Hl; cbn [encode_labels_uncompressed].
  { exists [0%Z], 0. cbn. split_and!; [done|lia| |lia|eauto].
    rewrite length_app. apply NameAt_root. by rewrite list_lookup_middle. }
  pose proof Hl as [Hlok Hrest]%Forall_cons. pose proof Hlok as (Hne & H63 & _ & _).
  rewrite (Nat.min_l (length l) 63), take_ge by lia.
  eapply (encoded_label e (extend (extend e [as_u8 (Z.of_nat (length l))]) l));
    [done| |by left|done|by apply IH].
  cbn [extend enc_buf]. rewrite <- (assoc_L (++)). done.
Qed.

Lemma encode_name_uncompressed_wrote s e :
  EncInv e → name_ok s → wrote_name s e (encode_name_uncompressed s e).
Proof.
  intros Hinv [->|[Hl Hm]]; [by apply wrote_root|].
  unfold encode_name_uncompressed. destruct s as [|c s]; [by apply wrote_root|].
  apply encoded_wrote; [done..|]. by apply encode_labels_uncompressed_spec.
Qed.

(** ** Writers append *)

Lemma Appends_id : Appends (fun e => e).
Proof. intros e1 e2 _ Ho. exists []. by rewrite !app_nil_r. Qed.

Lemma Appends_comp w1 w2 : Appends w1 → Appends w2 → Appends (fun e => w2 (w1 e)).
Proof.
  intros H1 H2 e1 e2 Hl Ho. destruct (H1 e1 e2 Hl Ho) as (s1 & Ha & Hb & Hc).
  destruct (H2 (w1 e1) (w1 e2)) as (s2 & Ha' & Hb' & Hc'); [|done|].
  - rewrite Ha, Hb, !length_app. lia.
  - exists (s1 ++ s2). by rewrite Ha', Hb', Ha, Hb, <- !(assoc_L (++)).
Qed.

Lemma Appends_extend w bs : Appends w → Appends (fun e => extend (w e) bs).
Proof.
  intros Hw. apply (Appends_comp w (fun e => extend e bs)); [done|].
  intros e1 e2 Hl Ho. by exists bs.
Qed.

Lemma Appends_remember suffix : Appends (remember_suffix suffix).
Proof.
  intros e1 e2 Hl Ho. exists []. unfold remember_suffix. rewrite Hl, Ho, !app_nil_r.
  by case_match.
Qed.

Lemma Appends_labels labels : Appends (fun e => encode_labels e labels).
Proof.
  induction labels as [|l rest IH]; cbn [encode_labels];
    [by apply (Appends_extend (fun e => e)), Appends_id|].
  intros e1 e2 Hl Ho. rewrite <- Ho.
  destruct (name_offsets e1 !! _) as [off|] eqn:E; [by eexists|].
  refine (Appends_comp (fun e => extend (extend (remember_suffix _ e) _) _) _ _ IH e1 e2 Hl Ho).
  apply Appends_extend, Appends_extend, Appends_remember.
Qed.

Lemma Appends_labels_uncompressed labels : Appends (fun e => encode_labels_uncompressed e labels).
Proof.
  induction labels as [|l rest IH]; cbn [encode_labels_uncompressed];
    [by apply (Appends_extend (fun e => e)), Appends_id|].
  refine (Appends_comp (fun e => extend (extend e _) _) _ _ IH).
  by apply Appends_extend, (Appends_extend (fun e => e)), Appends_id.
Qed.

Lemma Appends_qname w s : Appends w → Appends (fun e => encode_qname s (w e)).
Proof.
  intros Hw. refine (Appends_comp w (encode_qname s) Hw _). unfold encode_qname.
  destruct s; [apply (Appends_extend (fun e => e)), Appends_id|apply Appends_labels].
Qed.

Lemma Appends_name w s : Appends w → Appends (fun e => encode_name_uncompressed s (w e)).
Proof.
  intros Hw. refine (Appends_comp w (encode_name_uncompressed s) Hw _). unfold encode_name_uncompressed.
  destruct s; [apply (Appends_extend (fun e => e)), Appends_id
    |apply Appends_labels_uncompressed].
Qed.

Lemma Appends_character_strings t : Appends (encode_character_strings t).
Proof.
  unfold encode_character_strings.
  destruct t; apply (Appends_extend (fun e => e)), Appends_id.
Qed.

(** The back-filled length is the one that could have been written at once. *)
Lemma encode_rdata_at_once body e :
  Appends body →
  ∃ s e', encode_rdata body e = e' ∧
    e' = body (extend e (u16_to_be_bytes (as_u16 (Z.of_nat (length s))))) ∧
    enc_buf e' = enc_buf e ++ u16_to_be_bytes (as_u16 (Z.of_nat (length s))) ++ s.
Proof.
  intros Hb. destruct (Hb (extend e (u16_to_be_bytes 0)) (extend e (u16_to_be_bytes 0)))
    as (s & Hs & _ & _); [done..|].
  destruct (Hb (extend e (u16_to_be_bytes 0))
    (extend e (u16_to_be_bytes (as_u16 (Z.of_nat (length s))))))
    as (s' & Hs1 & Hs2 & Ho); [cbn; by rewrite !length_app|done|].
  rewrite Hs in Hs1. apply app_inv_head in Hs1 as <-.
  cbn [extend enc_buf] in Hs, Hs2. rewrite <- (assoc_L (++)) in Hs, Hs2.
  eexists s, _. split; [|split; [reflexivity|exact Hs2]].
  unfold encode_rdata. rewrite Hs. cbn [extend enc_buf].
  replace (length (enc_buf e ++ u16_to_be_bytes 0 ++ s) -
    length (enc_buf e ++ u16_to_be_bytes 0)) with (length s) by (rewrite !length_app; lia).
  rewrite take_app_length, <- drop_drop, drop_app_length.
  destruct (body (extend e (u16_to_be_bytes (as_u16 (Z.of_nat (length s)))))) as [b o] eqn:Eb.
  cbn [enc_buf name_offsets] in *. rewrite Hs2. f_equal. by rewrite <- Ho.
Qed.

Ltac solve_appends :=
  repeat first [apply Appends_extend | apply Appends_qname | apply Appends_name
    | apply Appends_character_strings | apply Appends_id].

(** ** Records *)

(** Writing the rdata of [r] with [body] keeps the table good and reads back as
    [r], whatever follows. *)
Definition reads_back (r : DnsRecord.t) (body : DnsPacketEncoder → DnsPacketEncoder) : Prop :=
  ∀ e, EncInv e → EncInv (body e) ∧ ∃ s, enc_buf (body e) = enc_buf e ++ s ∧
    (Z.of_nat (length s) < 65536)%Z ∧
    ∀ ext, parse_rdata (enc_buf (body e) ++ ext) (DnsRecord.domain r) (DnsRecord.ttl r)
      (length (enc_buf e)) (length s) (DnsRecord.record_type r) 1 = Ok (Some r).

(** The outcome of writing a whole record. *)
Definition wrote_record (r : DnsRecord.t) (e e' : DnsPacketEncoder) : Prop :=
  EncInv e' ∧ (∃ w, enc_buf e' = enc_buf e ++ w) ∧
  ∀ ext, parse_record (enc_buf e' ++ ext) (length (enc_buf e)) =
    Ok (Some r, length (enc_buf e')).

Lemma encode_record_header_EncInv domain rtype ttl e :
  EncInv e → name_ok domain → EncInv (encode_record_header domain rtype ttl e).
Proof.
  intros Hinv Hn. unfold encode_record_header. do 3 apply EncInv_extend.
  by apply encode_qname_wrote.
Qed.

Lemma parse_record_header e domain rtype ttl s ext :
  EncInv e → name_ok domain → is_u16 rtype → is_u32 ttl → (Z.of_nat (length s) < 65536)%Z →
  let e1 := encode_record_header domain rtype ttl e in
  let B := enc_buf e1 ++ u16_to_be_bytes (as_u16 (Z.of_nat (length s))) ++ s ++ ext in
  let start := length (enc_buf e1) + 2 in
  parse_record B (length (enc_buf e)) =
    record ← parse_rdata B domain ttl start (length s) rtype 1;
    mret (record, start + length s).
Proof.
  intros Hinv Hn Hrt Httl Hs e1 B start.
  destruct (encode_qname_wrote domain e Hinv Hn) as (_ & _ & Hparse).
  set (en := encode_qname domain e) in *.
  set (M := u16_to_be_bytes rtype ++ u16_to_be_bytes 1 ++ u32_to_be_bytes ttl ++
    u16_to_be_bytes (as_u16 (Z.of_nat (length s))) ++ s ++ ext).
  assert (B = enc_buf en ++ M) as HB.
  { unfold B, e1, M, encode_record_header. fold en. cbn [extend enc_buf].
    by rewrite <- !(assoc_L (++)). }
  assert (start = length (enc_buf en) + 10) as Hst.
  { unfold start, e1, encode_record_header. fold en. cbn [extend enc_buf].
    rewrite !length_app, !length_u16_to_be_bytes, length_u32_to_be_bytes. lia. }
  clearbody start B. subst B start. unfold parse_record. rewrite Hparse. cbn [mbind res_bind].
  assert (length (enc_buf en ++ M) = length (enc_buf en) + 10 + length s + length ext) as HL.
  { unfold M. rewrite !length_app, !length_u16_to_be_bytes, length_u32_to_be_bytes. lia. }
  destruct (Nat.ltb_spec (length (enc_buf en ++ M)) (length (enc_buf en) + 10)); [lia|].
  pose proof (u16_at_shift (enc_buf en) M 0) as E0. rewrite Nat.add_0_r in E0.
  rewrite E0, u16_at_shift, u32_at_shift, u16_at_shift.
  assert (u16_at M 0 = Ok rtype) as ->.
  { unfold M. apply (u16_at_be []). done. }
  assert (u16_at M 2 = Ok 1%Z) as ->.
  { unfold M. apply (u16_at_be (u16_to_be_bytes rtype)). width_lia. }
  assert (u32_at M 4 = Ok ttl) as ->.
  { unfold M. rewrite (assoc_L (++)).
    apply (u32_at_be (u16_to_be_bytes rtype ++ u16_to_be_bytes 1)). done. }
  assert (u16_at M 8 = Ok (Z.of_nat (length s))) as ->.
  { unfold M. rewrite !(assoc_L (++)), <- (assoc_L (++) _ s ext), <- (assoc_L (++) _ _ (s ++ ext)).
    rewrite as_u16_small by width_lia.
    apply (u16_at_be ((u16_to_be_bytes rtype ++ u16_to_be_bytes 1) ++ u32_to_be_bytes ttl)).
    width_lia. }
  cbn [mbind res_bind fmap res_fmap]. rewrite Nat2Z.id.
  destruct (Nat.ltb_spec (length (enc_buf en ++ M)) (length (enc_buf en) + 10 + length s)); [lia|].
  done.
Qed.

Lemma wrote_rdata r body e :
  EncInv e → name_ok (DnsRecord.domain r) → is_u32 (DnsRecord.ttl r) →
  Appends body → reads_back r body →
  wrote_record r e (encode_rdata body
    (encode_record_header (DnsRecord.domain r) (DnsRecord.record_type r) (DnsRecord.ttl r) e)).
Proof.
  intros Hinv Hn Httl Happ Hback.
  set (e1 := encode_record_header _ _ _ e).
  assert (EncInv e1) as Hinv1 by by apply encode_record_header_EncInv.
  destruct (encode_rdata_at_once body e1 Happ) as (s & e' & -> & He' & Hb).
  destruct (Hback (extend e1 (u16_to_be_bytes (as_u16 (Z.of_nat (length s))))))
    as (Hinv' & s' & Hs' & Hlt & Hparse); [by apply EncInv_extend|].
  rewrite <- He' in Hinv', Hs', Hparse. cbn [extend enc_buf] in Hs', Hparse.
  assert (s' = s) as ->.
  { rewrite Hb, (assoc_L (++)) in Hs'. by apply app_inv_head in Hs'. }
  assert (is_u16 (DnsRecord.record_type r)) as Hrt by (destruct r; vm_compute; split; congruence).
  split_and!; [done| |].
  - assert (Appends (encode_record_header (DnsRecord.domain r) (DnsRecord.record_type r)
      (DnsRecord.ttl r))) as Ha.
    { unfold encode_record_header. do 3 apply Appends_extend. apply Appends_qname, Appends_id. }
    destruct (Ha e e) as (w & Hw & _); [done..|]. fold e1 in Hw.
    rewrite Hb, Hw, <- (assoc_L (++)). eauto.
  - intros ext. specialize (Hparse ext).
    pose proof (parse_record_header e _ _ _ s ext Hinv Hn Hrt Httl Hlt) as Hrec.
    cbn zeta in Hrec. fold e1 in Hrec.
    rewrite Hb in *. rewrite <- !(assoc_L (++)) in *. rewrite Hrec.
    rewrite length_app, length_u16_to_be_bytes in Hparse. rewrite Hparse. cbn [mbind res_bind].
    rewrite !length_app, length_u16_to_be_bytes. do 2 f_equal. lia.
Qed.

(** Selects the arm of [parse_rdata] for a concrete record. *)
Ltac pick_arm :=
  unfold parse_rdata; cbn [DnsRecord.record_type DnsRecord.domain DnsRecord.ttl];
  repeat match goal with
  | |- context [(?a =? ?b)%Z] =>
      let v := eval vm_compute in (a =? b)%Z in change (a =? b)%Z with v; cbn iota
  end.

(** Reads of a field [z] that follows a known prefix [h] of the tail [T]. *)
Lemma idx_read {E A} (p T h : list A) z x n :
  T = h ++ z :: x → n = length p + length h → idx (E := E) (p ++ T) n = Ok z.
Proof. intros -> ->. rewrite idx_shift. apply idx_Ok. by rewrite list_lookup_middle. Qed.
Lemma u16_read (p T h : bytes) z x n :
  T = h ++ u16_to_be_bytes z ++ x → n = length p + length h → is_u16 z →
  u16_at (p ++ T) n = Ok z.
Proof. intros -> -> ?. rewrite u16_at_shift. by apply u16_at_be. Qed.
Lemma u32_read (p T h : bytes) z x n :
  T = h ++ u32_to_be_bytes z ++ x → n = length p + length h → is_u32 z →
  u32_at (p ++ T) n = Ok z.
Proof. intros -> -> ?. rewrite u32_at_shift. by apply u32_at_be. Qed.
Lemma slice_read {E A} (p T h m x : list A) a b :
  T = h ++ m ++ x → a = length p + length h → b = a + length m →
  slice (E := E) (p ++ T) a b = Ok m.
Proof.
  intros -> -> ->. rewrite (assoc_L (++)), <- length_app. apply slice_mid.
Qed.

(** Evaluates the read at [n], where the prefix [h] and then [z] follow [p]. *)
Ltac read lem p h z n :=
  erewrite (lem p _ h z _ n); [|reflexivity|cbn; lia|assumption];
  cbn [mbind res_bind fmap res_fmap].

Lemma reads_back_name (r : DnsRecord.t) n :
  name_ok n → (Z.of_nat (length n + 2) < 65536)%Z →
  (∀ B st dl fin, parse_qname B st = Ok (n, fin) →
    parse_rdata B (DnsRecord.domain r) (DnsRecord.ttl r) st dl (DnsRecord.record_type r) 1
    = Ok (Some r)) →
  reads_back r (encode_qname n).
Proof.
  intros Hn Hsz Hp e Hinv.
  destruct (encode_qname_wrote n e Hinv Hn) as (Hinv' & (w & Hw & Hlw) & Hparse).
  split; [done|]. exists w. split_and!; [done|lia|].
  intros ext. eapply Hp, Hparse.
Qed.

(** A fixed prefix followed by a compressed name. *)
Lemma reads_back_mx d p x t :
  is_u16 p → name_ok x → (Z.of_nat (2 + (length x + 2)) < 65536)%Z →
  reads_back (DnsRecord.MX d p x t) (write_mx p x).
Proof.
  intros Hp Hx Hsz e Hinv. unfold write_mx.
  set (e1 := extend e (u16_to_be_bytes p)).
  destruct (encode_qname_wrote x e1) as (Hinv' & (w & Hw & Hlw) & Hparse);
    [by apply EncInv_extend|done|].
  split; [done|]. exists (u16_to_be_bytes p ++ w).
  assert (enc_buf (encode_qname x e1) = enc_buf e ++ u16_to_be_bytes p ++ w) as HB
    by by rewrite Hw, (assoc_L (++)).
  split_and!; [done|rewrite length_app, length_u16_to_be_bytes; lia|].
  intros ext. pick_arm. unfold parse_mx.
  rewrite length_app, length_u16_to_be_bytes.
  destruct (Nat.ltb_spec (2 + length w) 3); [lia|].
  replace (length (enc_buf e) + 2) with (length (enc_buf e1))
    by (cbn; rewrite length_app, length_u16_to_be_bytes; done).
  rewrite Hparse, HB, <- !(assoc_L (++)).
  by read u16_read (enc_buf e) (@nil Z) p (length (enc_buf e)).
Qed.

Lemma reads_back_soa d m r0 s rf rt ex mi t :
  name_ok m → name_ok r0 → is_u32 s → is_u32 rf → is_u32 rt → is_u32 ex → is_u32 mi →
  (Z.of_nat ((length m + 2) + (length r0 + 2) + 20) < 65536)%Z →
  reads_back (DnsRecord.SOA d m r0 s rf rt ex mi t) (write_soa m r0 s rf rt ex mi).
Proof.
  intros Hm Hr H1 H2 H3 H4 H5 Hsz e Hinv. unfold write_soa.
  destruct (encode_qname_wrote m e Hinv Hm) as (Hinv1 & (w1 & Hw1 & Hl1) & Hp1).
  set (e1 := encode_qname m e) in *.
  destruct (encode_qname_wrote r0 e1 Hinv1 Hr) as (Hinv2 & (w2 & Hw2 & Hl2) & Hp2).
  set (e2 := encode_qname r0 e1) in *.
  set (tail := u32_to_be_bytes s ++ u32_to_be_bytes rf ++ u32_to_be_bytes rt ++
    u32_to_be_bytes ex ++ u32_to_be_bytes mi).
  split; [by do 5 apply EncInv_extend|]. exists (w1 ++ w2 ++ tail).
  cbn [extend enc_buf]. split_and!.
  - rewrite Hw2, Hw1. unfold tail. by rewrite <- !(assoc_L (++)).
  - unfold tail. rewrite !length_app, !length_u32_to_be_bytes. lia.
  - intros ext. pick_arm. unfold parse_soa. rewrite <- !(assoc_L (++)).
    rewrite Hw2, <- (assoc_L (++)), Hp1. cbn [mbind res_bind].
    rewrite (assoc_L (++)), <- Hw2, Hp2. cbn [mbind res_bind].
    destruct (Nat.ltb_spec (length (enc_buf e2 ++ u32_to_be_bytes s ++ u32_to_be_bytes rf ++
      u32_to_be_bytes rt ++ u32_to_be_bytes ex ++ u32_to_be_bytes mi ++ ext))
      (length (enc_buf e2) + 20)) as [Hlt|_].
    { rewrite !length_app, !length_u32_to_be_bytes in Hlt. lia. }
    read u32_read (enc_buf e2) (@nil Z) s (length (enc_buf e2)).
    read u32_read (enc_buf e2) (u32_to_be_bytes s) rf (length (enc_buf e2) + 4).
    read u32_read (enc_buf e2) (u32_to_be_bytes s ++ u32_to_be_bytes rf) rt
      (length (enc_buf e2) + 8).
    read u32_read (enc_buf e2) (u32_to_be_bytes s ++ u32_to_be_bytes rf ++
      u32_to_be_bytes rt) ex (length (enc_buf e2) + 12).
    by read u32_read (enc_buf e2) (u32_to_be_bytes s ++ u32_to_be_bytes rf ++
      u32_to_be_bytes rt ++ u32_to_be_bytes ex) mi (length (enc_buf e2) + 16).
Qed.

Lemma reads_back_srv d p w po ta t :
  is_u16 p → is_u16 w → is_u16 po → name_ok ta → (Z.of_nat (6 + (length ta + 2)) < 65536)%Z →
  reads_back (DnsRecord.SRV d p w po ta t) (write_srv p w po ta).
Proof.
  intros Hp Hw Hpo Hta Hsz e Hinv. unfold write_srv.
  set (e1 := extend (extend (extend e (u16_to_be_bytes p)) (u16_to_be_bytes w))
    (u16_to_be_bytes po)).
  destruct (encode_name_uncompressed_wrote ta e1) as (Hinv' & (x & Hx & Hlx) & Hparse);
    [by do 3 apply EncInv_extend|done|].
  set (h := u16_to_be_bytes p ++ u16_to_be_bytes w ++ u16_to_be_bytes po).
  assert (enc_buf e1 = enc_buf e ++ h) as H1.
  { cbn [e1 extend enc_buf]. unfold h. by rewrite <- !(assoc_L (++)). }
  split; [done|]. exists (h ++ x).
  split_and!; [by rewrite Hx, H1, <- (assoc_L (++))|rewrite length_app; cbn; lia|].
  intros ext. pick_arm. unfold parse_srv. rewrite length_app.
  destruct (Nat.ltb_spec (length h + length x) 6) as [Hlt|_]; [cbn in Hlt; lia|].
  replace (length (enc_buf e) + 6) with (length (enc_buf e1))
    by (rewrite H1, length_app; done).
  rewrite Hparse, Hx, H1. unfold h. rewrite <- !(assoc_L (++)).
  read u16_read (enc_buf e) (@nil Z) p (length (enc_buf e)).
  read u16_read (enc_buf e) (u16_to_be_bytes p) w (length (enc_buf e) + 2).
  by read u16_read (enc_buf e) (u16_to_be_bytes p ++ u16_to_be_bytes w) po
    (length (enc_buf e) + 4).
Qed.

(** Raw rdata after fixed fields. *)
Lemma reads_back_raw r bs :
  (Z.of_nat (length bs) < 65536)%Z →
  (∀ p ext, parse_rdata (p ++ bs ++ ext) (DnsRecord.domain r) (DnsRecord.ttl r) (length p)
    (length bs) (DnsRecord.record_type r) 1 = Ok (Some r)) →
  reads_back r (fun e => extend e bs).
Proof.
  intros Hl Hp e Hinv. split; [by apply EncInv_extend|]. exists bs.
  split_and!; [done|done|]. intros ext. cbn [extend enc_buf]. rewrite <- (assoc_L (++)).
  apply Hp.
Qed.

Lemma reads_back_ext r w w' :
  (∀ e, w e = w' e) → reads_back r w' → reads_back r w.
Proof. intros Heq H e He. rewrite Heq. by apply H. Qed.

Lemma reads_back_a d a t : wf_ipv4 a → reads_back (DnsRecord.A d a t) (fun e => extend e a).
Proof.
  intros [Hl _]. apply reads_back_raw; [rewrite Hl; lia|].
  intros p ext. pick_arm. unfold parse_a. rewrite Hl. cbn [Nat.eqb negb].
  destruct a as [|a1 [|a2 [|a3 [|a4 [|]]]]]; try discriminate Hl.
  erewrite (idx_read p _ [] a1 _ (length p)); [|reflexivity|simpl; lia].
  erewrite (idx_read p _ [a1] a2 _ (length p + 1)); [|reflexivity|done].
  erewrite (idx_read p _ [a1; a2] a3 _ (length p + 2)); [|reflexivity|done].
  by erewrite (idx_read p _ [a1; a2; a3] a4 _ (length p + 3)); [|reflexivity|done].
Qed.

Lemma reads_back_aaaa d a t :
  wf_ipv6 a → reads_back (DnsRecord.AAAA d a t) (fun e => extend e a).
Proof.
  intros [Hl _]. apply reads_back_raw; [rewrite Hl; lia|].
  intros p ext. pick_arm. unfold parse_aaaa. rewrite Hl. cbn [Nat.eqb negb].
  by rewrite <- Hl, slice_mid.
Qed.

Lemma reads_back_caa d f ta v t :
  length ta ≤ 255 → wf_string ta → wf_string v →
  (Z.of_nat (2 + length ta + length v) < 65536)%Z →
  reads_back (DnsRecord.CAA d f ta v t) (write_caa f ta v).
Proof.
  intros Hta [_ Hu1] [_ Hu2] Hsz.
  apply (reads_back_ext _ _ (fun e => extend e (f :: as_u8 (Z.of_nat (length ta)) :: ta ++ v))).
  { intros e. unfold write_caa, extend. cbn [enc_buf name_offsets].
    rewrite (Nat.min_l (length ta) 255), take_ge by lia. f_equal. by rewrite <- !(assoc_L (++)). }
  apply reads_back_raw; [cbn; rewrite length_app; lia|].
  intros p ext. pick_arm. unfold parse_caa. cbn [length]. rewrite length_app.
  destruct (Nat.ltb_spec (S (S (length ta + length v))) 2); [lia|]. cbn [app].
  assert (Z.to_nat (as_u8 (Z.of_nat (length ta))) = length ta) as Hlen by width_lia.
  erewrite (idx_read p _ [] f _ (length p)); [|reflexivity|simpl; lia].
  erewrite (idx_read p _ [f] _ _ (length p + 1)); [|reflexivity|done].
  cbn [mbind res_bind fmap res_fmap]. rewrite Hlen.
  destruct (Nat.ltb_spec (S (S (length ta + length v))) (2 + length ta)); [lia|].
  rewrite <- (assoc_L (++)).
  erewrite (slice_read p _ [f; as_u8 (Z.of_nat (length ta))] ta (v ++ ext)
    (length p + 2)); [|done|done|done]. cbn [mbind res_bind].
  erewrite (slice_read p _ (f :: as_u8 (Z.of_nat (length ta)) :: ta) v ext
    (length p + 2 + length ta)); [|done|simpl; lia|simpl; lia].
  cbn [mbind res_bind fmap res_fmap]. by rewrite !from_utf8_lossy_valid.
Qed.

Lemma reads_back_dnskey d f pr al k t :
  is_u16 f → (Z.of_nat (4 + length k) < 65536)%Z →
  reads_back (DnsRecord.DNSKEY d f pr al k t) (write_dnskey f pr al k).
Proof.
  intros Hf Hsz.
  apply (reads_back_ext _ _ (fun e => extend e (u16_to_be_bytes f ++ pr :: al :: k))).
  { intros e. unfold write_dnskey, extend. cbn [enc_buf name_offsets].
    f_equal. by rewrite <- !(assoc_L (++)). }
  apply reads_back_raw; [cbn; lia|].
  intros p ext. pick_arm. unfold parse_dnskey.
  rewrite length_app, length_u16_to_be_bytes. cbn [length Nat.ltb Nat.leb Nat.add].
  rewrite <- (assoc_L (++)).
  read u16_read p (@nil Z) f (length p).
  erewrite (idx_read p _ (u16_to_be_bytes f) pr _ (length p + 2)); [|reflexivity|done].
  erewrite (idx_read p _ (u16_to_be_bytes f ++ [pr]) al _ (length p + 3)); [|reflexivity|done].
  cbn [mbind res_bind].
  by erewrite (slice_read p _ (u16_to_be_bytes f ++ [pr; al]) k ext (length p + 4));
    [|reflexivity|done|lia].
Qed.

Lemma reads_back_ds d kt al dt dg t :
  is_u16 kt → (Z.of_nat (4 + length dg) < 65536)%Z →
  reads_back (DnsRecord.DS d kt al dt dg t) (write_ds kt al dt dg).
Proof.
  intros Hf Hsz.
  apply (reads_back_ext _ _ (fun e => extend e (u16_to_be_bytes kt ++ al :: dt :: dg))).
  { intros e. unfold write_ds, extend. cbn [enc_buf name_offsets].
    f_equal. by rewrite <- !(assoc_L (++)). }
  apply reads_back_raw; [cbn; lia|].
  intros p ext. pick_arm. unfold parse_ds.
  rewrite length_app, length_u16_to_be_bytes. cbn [length Nat.ltb Nat.leb Nat.add].
  rewrite <- (assoc_L (++)).
  read u16_read p (@nil Z) kt (length p).
  erewrite (idx_read p _ (u16_to_be_bytes kt) al _ (length p + 2)); [|reflexivity|done].
  erewrite (idx_read p _ (u16_to_be_bytes kt ++ [al]) dt _ (length p + 3)); [|reflexivity|done].
  cbn [mbind res_bind].
  by erewrite (slice_read p _ (u16_to_be_bytes kt ++ [al; dt]) dg ext (length p + 4));
    [|reflexivity|done|lia].
Qed.

Lemma reads_back_rrsig d tc al lb ot se si kt sn sg t :
  is_u16 tc → is_u32 ot → is_u32 se → is_u32 si → is_u16 kt → name_ok sn →
  (Z.of_nat (18 + (length sn + 2) + length sg) < 65536)%Z →
  reads_back (DnsRecord.RRSIG d tc al lb ot se si kt sn sg t)
    (write_rrsig tc al lb ot se si kt sn sg).
Proof.
  intros Htc Hot Hse Hsi Hkt Hsn Hsz e Hinv.
  set (h := u16_to_be_bytes tc ++ al :: lb :: u32_to_be_bytes ot ++ u32_to_be_bytes se ++
    u32_to_be_bytes si ++ u16_to_be_bytes kt).
  assert (write_rrsig tc al lb ot se si kt sn sg e =
    extend (encode_name_uncompressed sn (extend e h)) sg) as ->.
  { unfold write_rrsig. f_equal. f_equal. unfold extend, h. cbn [enc_buf name_offsets].
    f_equal. by rewrite <- !(assoc_L (++)). }
  set (e1 := extend e h).
  destruct (encode_name_uncompressed_wrote sn e1) as (Hinv' & (w & Hw & Hlw) & Hparse);
    [by apply EncInv_extend|done|].
  set (e2 := encode_name_uncompressed sn e1) in *.
  assert (length h = 18) as Hh by done.
  assert (enc_buf e2 = enc_buf e ++ h ++ w) as HB by by rewrite Hw, (assoc_L (++)).
  split; [by apply EncInv_extend|]. exists (h ++ w ++ sg). cbn [extend enc_buf].
  split_and!; [by rewrite HB, <- !(assoc_L (++))|rewrite !length_app; lia|].
  intros ext. pick_arm. unfold parse_rrsig. rewrite !length_app, Hh.
  destruct (Nat.ltb_spec (18 + (length w + length sg)) 18); [lia|].
  rewrite <- (assoc_L (++)).
  replace (length (enc_buf e) + 18) with (length (enc_buf e1))
    by (cbn; rewrite length_app; done).
  rewrite Hparse. cbn [mbind res_bind].
  erewrite (slice_read (enc_buf e2) _ [] sg ext (length (enc_buf e2)));
    [|reflexivity|simpl; lia|rewrite HB, !length_app; lia].
  rewrite HB, <- (assoc_L (++)). unfold h. rewrite <- (assoc_L (++)). cbn [app].
  read u16_read (enc_buf e) (@nil Z) tc (length (enc_buf e)).
  erewrite (idx_read (enc_buf e) _ (u16_to_be_bytes tc) al _ (length (enc_buf e) + 2));
    [|reflexivity|done].
  erewrite (idx_read (enc_buf e) _ (u16_to_be_bytes tc ++ [al]) lb _ (length (enc_buf e) + 3));
    [|reflexivity|done]. cbn [mbind res_bind].
  read u32_read (enc_buf e) (u16_to_be_bytes tc ++ [al; lb]) ot (length (enc_buf e) + 4).
  read u32_read (enc_buf e) (u16_to_be_bytes tc ++ [al; lb] ++ u32_to_be_bytes ot) se
    (length (enc_buf e) + 8).
  read u32_read (enc_buf e) (u16_to_be_bytes tc ++ [al; lb] ++ u32_to_be_bytes ot ++
    u32_to_be_bytes se) si (length (enc_buf e) + 12).
  by read u16_read (enc_buf e) (u16_to_be_bytes tc ++ [al; lb] ++ u32_to_be_bytes ot ++
    u32_to_be_bytes se ++ u32_to_be_bytes si) kt (length (enc_buf e) + 16).
Qed.

Lemma reads_back_nsec d n b t :
  name_ok n → (Z.of_nat ((length n + 2) + length b) < 65536)%Z →
  reads_back (DnsRecord.NSEC d n b t) (write_nsec n b).
Proof.
  intros Hn Hsz e Hinv. unfold write_nsec.
  destruct (encode_name_uncompressed_wrote n e Hinv Hn) as (Hinv' & (w & Hw & Hlw) & Hparse).
  set (e2 := encode_name_uncompressed n e) in *.
  split; [by apply EncInv_extend|]. exists (w ++ b). cbn [extend enc_buf].
  split_and!; [by rewrite Hw, <- (assoc_L (++))|rewrite length_app; lia|].
  intros ext. pick_arm. unfold parse_nsec. rewrite <- (assoc_L (++)), Hparse.
  cbn [mbind res_bind].
  by erewrite (slice_read (enc_buf e2) _ [] b ext (length (enc_buf e2)));
    [|reflexivity|simpl; lia|rewrite Hw, !length_app; lia].
Qed.

(** ** TXT *)

Lemma chunks_concat fuel l : length l ≤ fuel → concat (chunks fuel 255 l) = l.
Proof.
  revert l. induction fuel as [|fuel IH]; intros l Hl; [by destruct l; [|simpl in Hl; lia]|].
  destruct l as [|x l]; [done|]. cbn [chunks concat].
  rewrite IH by (rewrite length_drop; simpl in *; lia). apply take_drop.
Qed.

Lemma chunks_length fuel l : Forall (fun c => length c ≤ 255) (chunks fuel 255 l).
Proof.
  revert l. induction fuel as [|fuel IH]; intros l; [constructor|].
  destruct l as [|x l]; [constructor|]. cbn [chunks]. constructor; [|apply IH].
  rewrite length_take. lia.
Qed.

Lemma parse_chunks cs : ∀ p text fuel,
  Forall (fun c => length c ≤ 255 ∧ Utf8 c) cs → length cs < fuel →
  parse_character_strings_loop fuel (p ++ concat (encode_chunk <$> cs)) text (length p) =
    Some (Ok (text ++ concat cs)).
Proof.
  induction cs as [|c cs IH]; intros p text fuel Hcs Hf.
  - destruct fuel as [|fuel]; [simpl in Hf; lia|]. cbn [fmap list_fmap concat].
    cbn [parse_character_strings_loop].
    rewrite !app_nil_r, (proj2 (lookup_ge_None _ _)) by done. done.
  - destruct fuel as [|fuel]; [simpl in Hf; lia|].
    apply Forall_cons in Hcs as [[Hc Hu] Hcs].
    cbn [parse_character_strings_loop fmap list_fmap concat].
    set (rest := concat (encode_chunk <$> cs)).
    change (encode_chunk c ++ rest) with (as_u8 (Z.of_nat (length c)) :: c ++ rest).
    assert (Z.to_nat (as_u8 (Z.of_nat (length c))) = length c) as Hlen by width_lia.
    rewrite list_lookup_middle, Hlen by done.
    destruct (Nat.ltb_spec (length (p ++ as_u8 (Z.of_nat (length c)) :: c ++ rest))
      (length p + 1 + length c)) as [Hlt|_].
    { rewrite length_app, length_cons, length_app in Hlt. lia. }
    rewrite <- drop_drop, drop_app_length.
    change (drop 1 (as_u8 (Z.of_nat (length c)) :: c ++ rest)) with (c ++ rest).
    rewrite take_app_length, from_utf8_lossy_valid by done.
    specialize (IH (p ++ as_u8 (Z.of_nat (length c)) :: c) (text ++ c) fuel Hcs).
    rewrite length_app, length_cons, <- !(assoc_L (++)) in IH. cbn [app] in IH. fold rest in IH.
    replace (length p + 1 + length c) with (length p + S (length c)) by lia.
    rewrite IH by (simpl in Hf; lia). done.
Qed.

Lemma parse_character_strings_chunks cs :
  Forall (fun c => length c ≤ 255 ∧ Utf8 c) cs →
  parse_character_strings (concat (encode_chunk <$> cs)) = Ok (concat cs).
Proof.
  intros Hcs. unfold parse_character_strings.
  rewrite (parse_chunks cs [] [] (length (concat (encode_chunk <$> cs)) + 1)); [done|done|].
  enough (length cs ≤ length (concat (encode_chunk <$> cs))) by lia.
  clear Hcs. induction cs as [|c cs IH]; [done|].
  cbn [fmap list_fmap concat]. rewrite length_app. unfold encode_chunk at 1. cbn [length].
  fold (fmap (M := list) encode_chunk cs). simpl. lia.
Qed.

Lemma reads_back_txt d tx t :
  Forall Utf8 (chunks_255 tx) →
  (Z.of_nat (1 + length (concat (encode_chunk <$> chunks_255 tx))) < 65536)%Z →
  reads_back (DnsRecord.TXT d tx t) (encode_character_strings tx).
Proof.
  intros Hu Hsz.
  assert (∃ cs, Forall (fun c => length c ≤ 255 ∧ Utf8 c) cs ∧ concat cs = tx ∧
    (∀ e, encode_character_strings tx e = extend e (concat (encode_chunk <$> cs))) ∧
    (Z.of_nat (length (concat (encode_chunk <$> cs))) < 65536)%Z) as (cs & Hcs & Hc & He & Hlen).
  { destruct tx as [|x tx].
    - exists [[]]. split_and!; [|done|done|done].
      constructor; [split; [simpl; lia|constructor]|constructor].
    - exists (chunks_255 (x :: tx)). split_and!; [|by apply chunks_concat|done|lia].
      apply Forall_and. split; [apply chunks_length|done]. }
  apply (reads_back_ext _ _ (fun e => extend e (concat (encode_chunk <$> cs)))); [done|].
  apply reads_back_raw; [done|]. intros p ext. pick_arm. unfold parse_txt.
  rewrite slice_mid. cbn [mbind res_bind].
  rewrite parse_character_strings_chunks by done. by rewrite Hc.
Qed.

(** ** Whole records *)

Lemma encode_rdata_extend bs e :
  encode_rdata (fun e => extend e bs) e =
    extend (extend e (u16_to_be_bytes (as_u16 (Z.of_nat (length bs))))) bs.
Proof.
  destruct (encode_rdata_at_once (fun e => extend e bs) e) as (s & e' & -> & -> & Hb);
    [apply (Appends_extend (fun e => e)), Appends_id|].
  cbn [extend enc_buf] in Hb. rewrite <- (assoc_L (++)) in Hb.
  apply app_inv_head in Hb. by apply app_inv_head in Hb as <-.
Qed.

Lemma wrote_opt u e : EncInv e → is_u16 u → wrote_record (DnsRecord.OPT u) e (encode_opt u e).
Proof.
  intros Hinv Hu.
  set (T := u16_to_be_bytes DnsRecord.TYPE_OPT ++ u16_to_be_bytes u ++ u32_to_be_bytes 0 ++
    u16_to_be_bytes 0).
  assert (enc_buf (encode_opt u e) = enc_buf (extend e [0%Z]) ++ T) as HB.
  { unfold encode_opt, T. cbn [extend enc_buf]. by rewrite <- !(assoc_L (++)). }
  destruct (wrote_root e Hinv) as (_ & _ & Hparse).
  split_and!.
  - unfold encode_opt. by do 5 apply EncInv_extend.
  - rewrite HB. cbn [extend enc_buf]. rewrite <- (assoc_L (++)). eauto.
  - intros ext. rewrite HB, <- (assoc_L (++)). unfold parse_record. rewrite Hparse.
    cbn [mbind res_bind]. set (e1 := extend e [0%Z]).
    assert (length (enc_buf e1 ++ T ++ ext) = length (enc_buf e1) + 10 + length ext) as HL
      by (rewrite !length_app; change (length T) with 10; lia).
    destruct (Nat.ltb_spec (length (enc_buf e1 ++ T ++ ext)) (length (enc_buf e1) + 10)); [lia|].
    unfold T. rewrite <- !(assoc_L (++)).
    assert (is_u16 DnsRecord.TYPE_OPT) by (unfold DnsRecord.TYPE_OPT; width_lia).
    assert (is_u32 0 ∧ is_u16 0) as [H32 H16] by width_lia.
    read u16_read (enc_buf e1) (@nil Z) DnsRecord.TYPE_OPT (length (enc_buf e1)).
    read u16_read (enc_buf e1) (u16_to_be_bytes DnsRecord.TYPE_OPT) u (length (enc_buf e1) + 2).
    read u32_read (enc_buf e1) (u16_to_be_bytes DnsRecord.TYPE_OPT ++ u16_to_be_bytes u) 0%Z
      (length (enc_buf e1) + 4).
    read u16_read (enc_buf e1) (u16_to_be_bytes DnsRecord.TYPE_OPT ++ u16_to_be_bytes u ++
      u32_to_be_bytes 0) 0%Z (length (enc_buf e1) + 8).
    rewrite Nat.add_0_r. unfold T in HL. rewrite <- !(assoc_L (++)) in HL. rewrite HL.
    destruct (Nat.ltb_spec (length (enc_buf e1) + 10 + length ext) (length (enc_buf e1) + 10)); [lia|].
    pick_arm. cbn [mbind res_bind]. by rewrite !length_app.
Qed.

(** A record whose rdata is one address, and one whose rdata is one name. *)
Ltac wrote_address r len addr Hrd lem :=
  let Hl := fresh in
  pose proof Hrd as [Hl _];
  replace len with (as_u16 (Z.of_nat (length addr))) by (rewrite Hl; done);
  rewrite <- encode_rdata_extend;
  apply (wrote_rdata r);
  [done..|apply (Appends_extend (fun e => e)), Appends_id|by apply lem].
Ltac wrote_alias r parse :=
  let Hp := fresh in
  apply (wrote_rdata r);
  [done..|apply (Appends_qname (fun e => e)), Appends_id|];
  apply reads_back_name; [done..|];
  intros ? ? ? ? Hp; pick_arm; unfold parse; by rewrite Hp.

Lemma encode_record_wrote r e :
  EncInv e → encodable_record r → wrote_record r e (encode_record r e).
Proof.
  intros Hinv ((_ & Httl & Hrd) & Hdom & Hok & Hsz).
  destruct r; unfold encode_record.
  - wrote_address (DnsRecord.A domain addr ttl) 4%Z addr Hrd reads_back_a.
  - wrote_address (DnsRecord.AAAA domain addr ttl) 16%Z addr Hrd reads_back_aaaa.
  - wrote_alias (DnsRecord.CNAME domain alias ttl) parse_cname.
  - destruct Hrd as [Hp _].
    apply (wrote_rdata (DnsRecord.MX domain preference exchange ttl));
      [done..|unfold write_mx; solve_appends|by apply reads_back_mx].
  - apply (wrote_rdata (DnsRecord.TXT domain text ttl)); [done..| |by apply reads_back_txt].
    apply Appends_character_strings.
  - wrote_alias (DnsRecord.NS domain nameserver ttl) parse_ns.
  - destruct Hrd as (_ & _ & ? & ? & ? & ? & ?), Hok as [? ?].
    apply (wrote_rdata (DnsRecord.SOA domain mname rname serial refresh retry expire minimum ttl));
      [done..|unfold write_soa; solve_appends|by apply reads_back_soa].
  - destruct Hrd as (? & ? & ? & _).
    apply (wrote_rdata (DnsRecord.SRV domain priority weight port target ttl));
      [done..|unfold write_srv; solve_appends|by apply reads_back_srv].
  - wrote_alias (DnsRecord.PTR domain ptrdname ttl) parse_ptr.
  - destruct Hrd as (? & ? & ?).
    apply (wrote_rdata (DnsRecord.CAA domain flags tag value ttl));
      [done..|unfold write_caa; solve_appends|by apply reads_back_caa].
  - by apply wrote_opt.
  - destruct Hrd as (? & ? & ? & ?).
    apply (wrote_rdata (DnsRecord.DNSKEY domain flags protocol algorithm public_key ttl));
      [done..|unfold write_dnskey; solve_appends|by apply reads_back_dnskey].
  - destruct Hrd as (? & ? & ? & ? & ? & ? & ? & _ & _).
    apply (wrote_rdata (DnsRecord.RRSIG domain type_covered algorithm labels original_ttl
      signature_expiration signature_inception key_tag signer_name signature ttl));
      [done..|unfold write_rrsig; solve_appends|by apply reads_back_rrsig].
  - destruct Hrd as (? & ? & ? & ?).
    apply (wrote_rdata (DnsRecord.DS domain key_tag algorithm digest_type digest ttl));
      [done..|unfold write_ds; solve_appends|by apply reads_back_ds].
  - apply (wrote_rdata (DnsRecord.NSEC domain next_name type_bitmap ttl));
      [done..|unfold write_nsec; solve_appends|by apply reads_back_nsec].
Qed.

(** ** Sections and packets *)

Lemma encode_records_wrote rs : ∀ e,
  EncInv e → Forall encodable_record rs →
  EncInv (encode_records rs e) ∧ (∃ w, enc_buf (encode_records rs e) = enc_buf e ++ w) ∧
  ∀ ext, parse_section (length rs) (enc_buf (encode_records rs e) ++ ext) (length (enc_buf e)) =
    Ok (rs, length (enc_buf (encode_records rs e))).
Proof.
  induction rs as [|r rs IH]; intros e Hinv Hrs.
  { split_and!; [done|exists []; by rewrite app_nil_r|done]. }
  apply Forall_cons in Hrs as [Hr Hrs].
  destruct (encode_record_wrote r e Hinv Hr) as (Hinv1 & (w1 & Hw1) & Hp1).
  change (encode_records (r :: rs) e) with (encode_records rs (encode_record r e)).
  destruct (IH (encode_record r e) Hinv1 Hrs) as (Hinv2 & (w2 & Hw2) & Hp2).
  split_and!; [done|exists (w1 ++ w2); by rewrite Hw2, Hw1, <- (assoc_L (++))|].
  intros ext. cbn [length parse_section]. rewrite Hw2 at 1. rewrite <- (assoc_L (++)), Hp1.
  cbn [mbind res_bind]. by rewrite Hp2.
Qed.

Lemma encode_question_wrote q e :
  EncInv e → encodable_question q →
  EncInv (encode_question q e) ∧ (∃ w, enc_buf (encode_question q e) = enc_buf e ++ w) ∧
  ∀ ext, parse_question (enc_buf (encode_question q e) ++ ext) (length (enc_buf e)) =
    Ok (q, length (enc_buf (encode_question q e))).
Proof.
  intros Hinv ((_ & Ht & Hc) & Hn). unfold encode_question.
  destruct (encode_qname_wrote (qname q) e Hinv Hn) as (Hinv1 & (w & Hw & _) & Hp).
  set (e1 := encode_qname (qname q) e) in *. split_and!; [by do 2 apply EncInv_extend| |].
  { cbn [extend enc_buf]. rewrite Hw, <- !(assoc_L (++)). eauto. }
  intros ext. cbn [extend enc_buf]. rewrite <- !(assoc_L (++)). unfold parse_question.
  rewrite Hp. cbn [mbind res_bind].
  set (B := enc_buf e1 ++ _ ++ _ ++ ext).
  assert (length B = length (enc_buf e1) + 4 + length ext) as HB
    by (unfold B; rewrite !length_app; simpl; lia).
  destruct (Nat.ltb_spec (length B) (length (enc_buf e1) + 4)); [lia|]. unfold B.
  read u16_read (enc_buf e1) (@nil Z) (qtype q) (length (enc_buf e1)).
  read u16_read (enc_buf e1) (u16_to_be_bytes (qtype q)) (qclass q) (length (enc_buf e1) + 2).
  rewrite !length_app. destruct q. cbn. do 2 f_equal.
Qed.

Lemma encode_questions_wrote qs : ∀ e,
  EncInv e → Forall encodable_question qs →
  EncInv (encode_questions qs e) ∧ (∃ w, enc_buf (encode_questions qs e) = enc_buf e ++ w) ∧
  ∀ ext, parse_questions (length qs) (enc_buf (encode_questions qs e) ++ ext)
    (length (enc_buf e)) = Ok (qs, length (enc_buf (encode_questions qs e))).
Proof.
  induction qs as [|q qs IH]; intros e Hinv Hqs.
  { split_and!; [done|exists []; by rewrite app_nil_r|done]. }
  apply Forall_cons in Hqs as [Hq Hqs].
  destruct (encode_question_wrote q e Hinv Hq) as (Hinv1 & (w1 & Hw1) & Hp1).
  change (encode_questions (q :: qs) e) with (encode_questions qs (encode_question q e)).
  destruct (IH (encode_question q e) Hinv1 Hqs) as (Hinv2 & (w2 & Hw2) & Hp2).
  split_and!; [done|exists (w1 ++ w2); by rewrite Hw2, Hw1, <- (assoc_L (++))|].
  intros ext. cbn [length parse_questions]. rewrite Hw2 at 1. rewrite <- (assoc_L (++)), Hp1.
  cbn [mbind res_bind]. by rewrite Hp2.
Qed.

(** The twelve header bytes. *)
Definition header_bytes (p : DnsPacket) : bytes :=
  u16_to_be_bytes (h_id (header p)) ++ u16_to_be_bytes (h_flags (header p)) ++
  u16_to_be_bytes (len_u16 (questions p)) ++ u16_to_be_bytes (len_u16 (answers p)) ++
  u16_to_be_bytes (len_u16 (authorities p)) ++ u16_to_be_bytes (len_u16 (additionals p)).

Lemma encode_header_buf p : enc_buf (encode_header p new_encoder) = header_bytes p.
Proof. done. Qed.

Lemma parse_header_bytes p ext :
  is_u16 (h_id (header p)) → is_u16 (h_flags (header p)) →
  parse_header (header_bytes p ++ ext) =
    Ok (mkHeader (h_id (header p)) (h_flags (header p)) (len_u16 (questions p))
      (len_u16 (answers p)) (len_u16 (authorities p)) (len_u16 (additionals p))).
Proof.
  intros Hid Hfl. unfold parse_header, header_bytes, u16_at.
  cbn [idx lookup list_lookup app u16_to_be_bytes mbind res_bind Nat.add].
  assert (∀ A (l : list A), is_u16 (len_u16 l)) by (intros; apply as_u16_u16).
  by rewrite !u16_be_bytes_roundtrip.
Qed.

Lemma EncInv_new : EncInv new_encoder.
Proof. apply map_Forall_empty. Qed.

Lemma from_bytes_to_bytes p : encodable p → from_bytes (to_bytes p) = Ok p.
Proof.
  intros ((Hid & Hfl & Hh1 & Hh2 & Hh3 & Hh4) & (Hc1 & Hc2 & Hc3 & Hc4) & Hq & Han & Hau & Had).
  unfold to_bytes, encode. set (e0 := encode_header p new_encoder).
  assert (EncInv e0) as Hinv0 by (by do 6 apply EncInv_extend; apply EncInv_new).
  destruct (encode_questions_wrote _ e0 Hinv0 Hq) as (Hi1 & (w1 & Hw1) & Hp1).
  set (e1 := encode_questions _ e0) in *.
  destruct (encode_records_wrote _ e1 Hi1 Han) as (Hi2 & (w2 & Hw2) & Hp2).
  set (e2 := encode_records _ e1) in *.
  destruct (encode_records_wrote _ e2 Hi2 Hau) as (Hi3 & (w3 & Hw3) & Hp3).
  set (e3 := encode_records _ e2) in *.
  destruct (encode_records_wrote _ e3 Hi3 Had) as (Hi4 & (w4 & Hw4) & Hp4).
  set (e4 := encode_records _ e3) in *.
  assert (enc_buf e0 = header_bytes p) as He0 by done.
  unfold from_bytes.
  assert (enc_buf e4 = header_bytes p ++ w1 ++ w2 ++ w3 ++ w4) as HB
    by by rewrite Hw4, Hw3, Hw2, Hw1, He0, <- !(assoc_L (++)).
  destruct (Nat.ltb_spec (length (enc_buf e4)) 12) as [Hlt|_].
  { rewrite HB, length_app in Hlt. change (length (header_bytes p)) with 12 in Hlt. lia. }
  rewrite HB at 1. rewrite parse_header_bytes by done. cbn [mbind res_bind h_questions
    h_answers h_authorities h_additionals].
  assert (∀ A (l : list A) z, z = Z.of_nat (length l) → is_u16 z →
    len_u16 l = z ∧ Z.to_nat z = length l) as Hlen.
  { intros A l z -> ?. split; [by apply as_u16_small|lia]. }
  destruct (Hlen _ _ _ Hc1 Hh1) as [-> ->], (Hlen _ _ _ Hc2 Hh2) as [-> ->],
    (Hlen _ _ _ Hc3 Hh3) as [-> ->], (Hlen _ _ _ Hc4 Hh4) as [-> ->].
  change 12 with (length (enc_buf e0)).
  rewrite Hw4, Hw3, Hw2 at 1. rewrite <- !(assoc_L (++)), Hp1. cbn [mbind res_bind].
  rewrite Hw4, Hw3 at 1. rewrite <- !(assoc_L (++)), Hp2. cbn [mbind res_bind].
  rewrite Hw4 at 1. rewrite Hp3. cbn [mbind res_bind].
  specialize (Hp4 []). rewrite app_nil_r in Hp4. rewrite Hp4. cbn.
  destruct p as [[]]. cbn in *. done.
Qed.

(** ** Every message starts with its header *)

Lemma Appends_prefix w e : Appends w → enc_buf e `prefix_of` enc_buf (w e).
Proof. intros Hw. destruct (Hw e e eq_refl eq_refl) as (s & -> & _). by exists s. Qed.

Lemma Appends_rdata w body : Appends w → Appends body → Appends (fun e => encode_rdata body (w e)).
Proof.
  intros Hw Hb. apply (Appends_comp w (encode_rdata body)); [done|]. intros e1 e2 Hl Ho.
  destruct (encode_rdata_at_once body e1 Hb) as (s1 & e1' & -> & E1 & B1).
  destruct (encode_rdata_at_once body e2 Hb) as (s2 & e2' & -> & E2 & B2).
  destruct (Hb (extend e1 (u16_to_be_bytes (as_u16 (Z.of_nat (length s1)))))
    (extend e2 (u16_to_be_bytes (as_u16 (Z.of_nat (length s2)))))) as (s & H1 & H2 & H3);
    [cbn; rewrite !length_app; cbn; lia|done|].
  rewrite <- E1 in H1, H3. rewrite <- E2 in H2, H3. rewrite B1 in H1. rewrite B2 in H2.
  cbn [extend enc_buf] in H1, H2. rewrite <- (assoc_L (++)) in H1, H2.
  apply app_inv_head, app_inv_head in H1, H2. subst s1 s2.
  eexists. split_and!; [exact B1|exact B2|done].
Qed.

Lemma Appends_record_header w d t ttl : Appends w → Appends (fun e => encode_record_header d t ttl (w e)).
Proof. intros Hw. unfold encode_record_header. do 3 apply Appends_extend. by apply Appends_qname. Qed.

Lemma Appends_record r : Appends (encode_record r).
Proof.
  destruct r; unfold encode_record; cbv zeta;
    first [ apply Appends_rdata; [apply Appends_record_header, Appends_id|];
            unfold write_mx, write_soa, write_srv, write_caa, write_dnskey, write_rrsig, write_ds,
              write_nsec; cbv zeta; solve_appends; fail
          | do 2 apply Appends_extend; apply Appends_record_header, Appends_id
          | unfold encode_opt; solve_appends ].
Qed.

Lemma Appends_foldl {A} (f : A → DnsPacketEncoder → DnsPacketEncoder) w l :
  (∀ x, Appends (f x)) → Appends w → Appends (fun e => foldl (fun e x => f x e) (w e) l).
Proof.
  intros Hf. revert w. induction l as [|x l IH]; intros w Hw; [done|]. cbn [foldl].
  apply (IH (fun e => f x (w e))). by apply Appends_comp.
Qed.

Lemma Appends_question q : Appends (encode_question q).
Proof. unfold encode_question. do 2 apply Appends_extend. apply Appends_qname, Appends_id. Qed.

(** Everything after the header. *)
Definition encode_sections (p : DnsPacket) (e : DnsPacketEncoder) : DnsPacketEncoder :=
  encode_records (additionals p) (encode_records (authorities p) (encode_records (answers p)
    (encode_questions (questions p) e))).

Lemma Appends_sections p : Appends (encode_sections p).
Proof.
  do 3 (apply (Appends_foldl encode_record); [apply Appends_record|]).
  apply (Appends_foldl encode_question (fun e => e)); [apply Appends_question|apply Appends_id].
Qed.

(** The bytes after the header depend on the sections only. *)
Lemma to_bytes_sections p h :
  ∃ s, to_bytes p = header_bytes p ++ s ∧
    to_bytes (mkPacket h (questions p) (answers p) (authorities p) (additionals p)) =
      header_bytes (mkPacket h (questions p) (answers p) (authorities p) (additionals p)) ++ s.
Proof.
  set (p' := mkPacket h _ _ _ _).
  destruct (Appends_sections p (encode_header p new_encoder) (encode_header p' new_encoder))
    as (s & Hs & Hs' & _); [done..|].
  exists s. split; [exact Hs|exact Hs'].
Qed.

Lemma to_bytes_header p : ∃ s, to_bytes p = header_bytes p ++ s.
Proof. destruct (to_bytes_sections p (header p)) as (s & Hs & _). eauto. Qed.

(** The first two bytes are the identifier. *)
Lemma to_bytes_id p : take 2 (to_bytes p) = u16_to_be_bytes (h_id (header p)).
Proof. destruct (to_bytes_header p) as [s ->]. done. Qed.

Lemma to_udp_bytes_id p : take 2 (to_udp_bytes p) = u16_to_be_bytes (h_id (header p)).
Proof. unfold to_udp_bytes. case_match; by rewrite to_bytes_id. Qed.

(** ** UDP framing *)

Lemma udp_limit_range p : MAX_UDP_SIZE ≤ udp_limit p ≤ MAX_EDNS_UDP.
Proof.
  unfold udp_limit, clamp, MAX_UDP_SIZE, MAX_EDNS_UDP.
  destruct (edns_udp_size p); lia.
Qed.

Lemma encodable_truncated p : encodable p → encodable (truncated_packet p).
Proof.
  intros ((Hid & Hfl & Hh1 & Hh2 & Hh3 & Hh4) & (Hc1 & Hc2 & Hc3 & Hc4) & Hq & Han & Hau & Had).
  assert (len_u16 (additionals p) = h_additionals (header p)) as Hlen.
  { unfold len_u16. rewrite <- Hc4. by apply as_u16_small. }
  unfold truncated_packet. rewrite Hlen.
  split_and!; cbn; try done.
  unfold wf_header. cbn. split_and!; try done; try width_lia.
  apply lor_u16; [done|width_lia].
Qed.

Lemma length_encode_qname s e :
  EncInv e → name_ok s → length (enc_buf (encode_qname s e)) ≤ length (enc_buf e) + length s + 2.
Proof.
  intros Hi Hn. destruct (encode_qname_wrote s e Hi Hn) as (_ & (w & -> & ?) & _).
  rewrite length_app. lia.
Qed.

(** The size of a message without answers: one question, at most one OPT. *)
Lemma length_to_bytes_small p q ad :
  questions p = [q] → answers p = [] → authorities p = [] → additionals p = ad →
  (ad = [] ∨ ∃ u, ad = [DnsRecord.OPT u]) → name_ok (qname q) →
  length (to_bytes p) ≤ 12 + (length (qname q) + 2 + 4) + 11.
Proof.
  intros Hq Ha Hu Had Hopt Hn. unfold to_bytes, encode. rewrite Hq, Ha, Hu, Had.
  set (e0 := encode_header p new_encoder).
  assert (EncInv e0) as Hinv0 by (by do 6 apply EncInv_extend; apply EncInv_new).
  assert (length (enc_buf e0) = 12) as H12 by done.
  pose proof (length_encode_qname (qname q) e0 Hinv0 Hn) as Hlen.
  destruct Hopt as [->|[u ->]]; cbn [encode_questions encode_records encode_question foldl
    encode_record encode_opt extend enc_buf]; rewrite !length_app;
    cbn [length u16_to_be_bytes u32_to_be_bytes]; lia.
Qed.

(** ** A concrete message, for the witnesses *)

(** A check for ASCII names. *)
Definition name_okb (s : bytes) : bool :=
  bool_decide (s = []) ||
  (forallb (fun l => negb (bool_decide (l = [])) && (length l <=? 63) && ascii_stringb l)
     (split_on DOT s) && (length (split_on DOT s) <=? MAX_POINTER_JUMPS)).

Lemma name_okb_ok s : name_okb s = true → name_ok s.
Proof.
  unfold name_okb. intros [H|[H1 H2]%andb_true_iff]%orb_true_iff.
  - left. by apply bool_decide_eq_true in H.
  - right. split; [|by apply Nat.leb_le]. rewrite forallb_forall in H1.
    apply Forall_forall. intros l Hl. pose proof (split_on_clean DOT s) as Hc.
    rewrite Forall_forall in Hc. specialize (Hc _ Hl). apply list_elem_of_In, H1 in Hl.
    apply andb_true_iff in Hl as [[Hn Hlen]%andb_true_iff Ha].
    apply negb_true_iff, bool_decide_eq_false in Hn. apply Nat.leb_le in Hlen.
    apply ascii_stringb_wf in Ha as [_ Ha]. done.
Qed.

(** A response to a query for [www.example.com]: a CNAME chain, the zone's SOA
    and an OPT record. *)
Definition sample_packet : DnsPacket :=
  mkPacket (mkHeader 4660 33920 1 2 1 1)
    [mkQuestion (str "www.example.com") 1 1]
    [DnsRecord.CNAME (str "www.example.com") (str "web.example.com") 300;
     DnsRecord.A (str "web.example.com") [192; 0; 2; 1]%Z 300]
    [DnsRecord.SOA (str "example.com") (str "ns1.example.com") (str "root.example.com")
       1 3600 600 86400 300 300]
    [DnsRecord.OPT 1232].

(** The same with a TXT record of 600 bytes, which does not fit in 512. *)
Definition large_packet : DnsPacket :=
  mkPacket (mkHeader 4660 33920 1 1 0 0)
    [mkQuestion (str "www.example.com") 16 1]
    [DnsRecord.TXT (str "www.example.com") (replicate 600 97%Z) 300] [] [].

Ltac concrete :=
  repeat match goal with
  | |- _ ∧ _ => split
  | |- Forall _ [] => constructor
  | |- Forall _ (_ :: _) => constructor
  | |- Forall Utf8 (chunks_255 ?s) => let l := eval vm_compute in (chunks_255 s) in
      change (Forall Utf8 l)
  | |- wf_string _ => apply ascii_stringb_wf; vm_compute; reflexivity
  | |- Utf8 ?s => refine (proj2 (ascii_stringb_wf s _)); vm_compute; reflexivity
  | |- name_ok _ => apply name_okb_ok; vm_compute; reflexivity
  | |- wf_rdata _ => unfold wf_rdata
  | |- rdata_ok _ => unfold rdata_ok
  | |- _ => progress unfold wf_header, counts_ok, encodable_question, encodable_record,
      wf_question, wf_record, wf_ipv4, wf_bytes
  end; try (by vm_compute).

Lemma sample_packet_encodable : encodable sample_packet.
Proof. unfold encodable, sample_packet. cbn [header questions answers authorities additionals]. concrete. Qed.

Lemma large_packet_encodable : encodable large_packet.
Proof. unfold encodable, large_packet. cbn [header questions answers authorities additionals]. concrete. Qed.

(** ** Properties *)

(** C1: decoding inverts encoding: for every encodable packet (well-typed
    fields, counts that match the sections, names of at most 64 labels of 1 to
    63 bytes, rdata under 64 KiB), parsing its bytes gives the packet back, with
    all its name compression. *)
Theorem packet_roundtrip (p : DnsPacket) : encodable p → from_bytes (to_bytes p) = Ok p.
Proof. apply from_bytes_to_bytes. Qed.

Lemma packet_roundtrip_witness : from_bytes (to_bytes sample_packet) = Ok sample_packet.
Proof. apply (packet_roundtrip sample_packet). apply sample_packet_encodable. Defined.

(** C14: the suffix table invariant holds for a fresh encoder and is preserved by
    every name, question and record written: each entry points below 2^14 at a
    complete encoding of its suffix that uses fewer pointers than labels, so a
    compression pointer always decodes to the suffix it replaces. *)
Theorem suffix_table_invariant :
  EncInv new_encoder ∧
  (∀ s e, EncInv e → name_ok s → EncInv (encode_qname s e)) ∧
  (∀ q e, EncInv e → encodable_question q → EncInv (encode_question q e)) ∧
  (∀ r e, EncInv e → encodable_record r → EncInv (encode_record r e)).
Proof.
  split_and!; [apply EncInv_new|..]; intros.
  - by apply encode_qname_wrote.
  - by apply encode_question_wrote.
  - by apply encode_record_wrote.
Qed.

Lemma suffix_table_invariant_witness :
  EncInv (encode_qname (str "www.example.com") (encode_qname (str "example.com") new_encoder)).
Proof.
  destruct suffix_table_invariant as (Hnew & Hname & _).
  apply Hname; [apply Hname; [exact Hnew|]|]; apply name_okb_ok; vm_compute; reflexivity.
Defined.



(** A response to one question of a name of at most 253 bytes, with no
    additional record but an OPT, never exceeds the negotiated UDP size, which
    lies between 512 and 1232 bytes. *)
Theorem to_udp_bytes_bounded (p : DnsPacket) (q : DnsQuestion) :
  questions p = [q] → name_ok (qname q) → length (qname q) ≤ 253 →
  (additionals p = [] ∨ ∃ u, additionals p = [DnsRecord.OPT u]) →
  length (to_udp_bytes p) ≤ udp_limit p ∧ 512 ≤ udp_limit p ≤ 1232.
Proof.
  intros Hq Hn Hlen Had. pose proof (udp_limit_range p) as Hr.
  unfold MAX_UDP_SIZE, MAX_EDNS_UDP in Hr. split; [|done]. unfold to_udp_bytes.
  destruct (Nat.leb_spec (length (to_bytes p)) (udp_limit p)); [done|].
  pose proof (length_to_bytes_small (truncated_packet p) q _ Hq eq_refl eq_refl eq_refl Had Hn).
  lia.
Qed.

Lemma to_udp_bytes_bounded_witness : length (to_udp_bytes large_packet) ≤ udp_limit large_packet.
Proof.
  apply (to_udp_bytes_bounded large_packet (mkQuestion (str "www.example.com") 16 1)).
  - reflexivity.
  - apply name_okb_ok. vm_compute. reflexivity.
  - apply Nat.leb_le. vm_compute. reflexivity.
  - left. reflexivity.
Defined.

(** A name of [n] one-byte labels. *)
Definition nested_name (n : nat) : bytes := join_on DOT (replicate n (str "a")).

(** Questions for [a], [a.a], ..., up to [n] labels. *)
Definition nested_questions (n : nat) : DnsPacket :=
  mkPacket (mkHeader 1 0 (Z.of_nat n) 0 0 0)
    ((fun i => mkQuestion (nested_name (S i)) 1 1) <$> seq 0 n) [] [] [].

(** The 64-label bound of the round trip is needed: a message of 66
    questions whose names grow by one label (the longest has 131 bytes, well
    under the 255 of RFC 1035) encodes to a chain of 65 pointers that the parser
    rejects as a pointer loop, while 65 questions round-trip. *)
Theorem deep_compression_rejected :
  from_bytes (to_bytes (nested_questions 66)) = Err PointerLoop ∧
  length (nested_name 66) = 131 ∧
  from_bytes (to_bytes (nested_questions 65)) = Ok (nested_questions 65).
Proof. by vm_compute. Qed.

(** A TXT record of 254 letters followed by a two-byte character. *)
Definition txt_across_chunks : DnsPacket :=
  mkPacket (mkHeader 1 0 0 1 0 0) []
    [DnsRecord.TXT (str "a") (replicate 254 97 ++ [195; 169])%Z 60] [] [].

(** The requirement on TXT chunks is needed: a character that straddles
    the 255-byte boundary of two character-strings does not survive encoding
    and decoding, because the parser decodes each string on its own. *)
Theorem txt_across_chunks_corrupted :
  from_bytes (to_bytes txt_across_chunks) ≠ Ok txt_across_chunks ∧
  no_panic (from_bytes (to_bytes txt_across_chunks)) ∧ wf_string (replicate 254 97 ++ [195; 169])%Z.
Proof.
  split_and!; [by vm_compute|by vm_compute|].
  apply wf_string_app; [|].
  - apply wf_string_ascii; [apply Forall_replicate; width_lia|by vm_compute].
  - split; [repeat constructor; width_lia|].
    apply (Utf8_step _ 2); [done|done|constructor].
Qed.
