(* ===== verification/Codec.v ===== *)
(** * The encoder against the grammar

    What [src/src/dns/encoder.rs] writes are bytes, and for an encodable packet they are a
    message of the grammar of [Grammar] that means that packet and no other. *)

From S2P Require Import Prelude RustStd Message Packet Grammar Encoder Wire.

(** ** Every write is of bytes *)

Create HintDb octets.

(** A writer that leaves a buffer of bytes one. *)
Definition Octets (w : DnsPacketEncoder → DnsPacketEncoder) : Prop :=
  ∀ e, wf_bytes (enc_buf e) → wf_bytes (enc_buf (w e)).

Lemma u16_octets z : wf_bytes (u16_to_be_bytes z).
Proof. repeat constructor; unfold as_u8; width_lia. Qed.
Lemma u32_octets z : wf_bytes (u32_to_be_bytes z).
Proof. repeat constructor; unfold as_u8; width_lia. Qed.
Lemma u8_octets z : is_u8 z → wf_bytes [z].
Proof. intros Hz. by apply Forall_singleton. Qed.
Lemma as_u8_octets z : wf_bytes [as_u8 z].
Proof. apply u8_octets. unfold as_u8. width_lia. Qed.
Lemma string_octets s : wf_string s → wf_bytes s.
Proof. by intros [? _]. Qed.
Lemma take_octets n s : wf_bytes s → wf_bytes (take n s).
Proof. apply Forall_take. Qed.
#[export] Hint Resolve u16_octets u32_octets u8_octets as_u8_octets string_octets take_octets : octets.

Lemma Octets_extend w bs : Octets w → wf_bytes bs → Octets (fun e => extend (w e) bs).
Proof. intros Hw Hb e He. apply Forall_app. split; [by apply Hw|done]. Qed.

Lemma Octets_id : Octets (fun e => e).
Proof. by intros e. Qed.

Lemma labels_octets e ls :
  Forall wf_bytes ls → wf_bytes (enc_buf e) → wf_bytes (enc_buf (encode_labels e ls)).
Proof.
  intros Hls. revert e. induction Hls as [|l ls Hl Hls IH]; intros e He; cbn [encode_labels].
  { apply (Octets_extend _ [0%Z] Octets_id); [apply u8_octets; width_lia|done]. }
  destruct (name_offsets e !! _).
  { apply (Octets_extend _ _ Octets_id); [apply u16_octets|done]. }
  apply IH. apply (Octets_extend (fun e => extend e _)); [|by apply take_octets|].
  - apply (Octets_extend (fun e => e)); [apply Octets_id|apply as_u8_octets].
  - unfold remember_suffix. by case_match.
Qed.

Lemma labels_uncompressed_octets e ls :
  Forall wf_bytes ls → wf_bytes (enc_buf e) → wf_bytes (enc_buf (encode_labels_uncompressed e ls)).
Proof.
  intros Hls. revert e. induction Hls as [|l ls Hl Hls IH]; intros e He; cbn [encode_labels_uncompressed].
  { apply (Octets_extend _ [0%Z] Octets_id); [apply u8_octets; width_lia|done]. }
  apply IH. apply (Octets_extend (fun e => extend e _)); [|by apply take_octets|done].
  apply (Octets_extend (fun e => e)); [apply Octets_id|apply as_u8_octets].
Qed.

Lemma split_octets s : wf_bytes s → Forall wf_bytes (split_on DOT s).
Proof. intros Hs. apply Forall_forall. intros l Hl. by eapply split_on_elem_bytes. Qed.

Lemma Octets_qname w s : Octets w → wf_bytes s → Octets (fun e => encode_qname s (w e)).
Proof.
  intros Hw Hs e He%Hw. unfold encode_qname. destruct s eqn:E.
  - apply (Octets_extend _ [0%Z] Octets_id); [apply u8_octets; width_lia|done].
  - rewrite <- E in *. apply labels_octets; [by apply split_octets|done].
Qed.

Lemma Octets_name w s : Octets w → wf_bytes s → Octets (fun e => encode_name_uncompressed s (w e)).
Proof.
  intros Hw Hs e He%Hw. unfold encode_name_uncompressed. destruct s eqn:E.
  - apply (Octets_extend _ [0%Z] Octets_id); [apply u8_octets; width_lia|done].
  - rewrite <- E in *. apply labels_uncompressed_octets; [by apply split_octets|done].
Qed.

Lemma chunks_octets s : wf_bytes s → wf_bytes (concat (encode_chunk <$> chunks_255 s)).
Proof.
  unfold chunks_255. generalize (length s) as fuel. intros fuel. revert s.
  induction fuel as [|fuel IH]; intros [|c s] Hs; cbn [chunks]; [constructor..|].
  change (wf_bytes (encode_chunk (take 255 (c :: s)) ++ concat (encode_chunk <$> chunks fuel 255 (drop 255 (c :: s))))).
  apply Forall_app. split; [|apply IH; by apply Forall_drop].
  constructor; [unfold as_u8; width_lia|]. by apply take_octets.
Qed.

Lemma Octets_character_strings t : wf_bytes t → Octets (encode_character_strings t).
Proof.
  intros Ht. unfold encode_character_strings. destruct t eqn:E.
  - apply (Octets_extend _ [0%Z] Octets_id). apply u8_octets. width_lia.
  - rewrite <- E in *. apply (Octets_extend (fun e => e)); [apply Octets_id|by apply chunks_octets].
Qed.

Lemma Octets_rdata w body : Octets w → Octets body → Octets (fun e => encode_rdata body (w e)).
Proof.
  intros Hw Hb e He%Hw. unfold encode_rdata. cbn [enc_buf].
  set (e1 := extend (w e) _). assert (wf_bytes (enc_buf (body e1))) as H1.
  { apply Hb. apply Forall_app. split; [done|apply u16_octets]. }
  apply Forall_app. split; [by apply Forall_take|]. apply Forall_app. split; [apply u16_octets|by apply Forall_drop].
Qed.

(** Follows the writes of an encoder, leaving what is written to the hints. *)
Ltac octets :=
  repeat first
    [ apply Octets_id
    | apply Octets_extend; [|solve [eauto with octets]]
    | apply Octets_qname; [|solve [eauto with octets]]
    | apply Octets_name; [|solve [eauto with octets]]
    | apply Octets_character_strings; solve [eauto with octets] ].

Lemma Octets_record_header d ty ttl : wf_string d → Octets (encode_record_header d ty ttl).
Proof. intros Hd. unfold encode_record_header. octets. Qed.

Lemma Octets_record r : wf_record r → Octets (encode_record r).
Proof.
  intros (Hd & Ht & Hr).
  assert (∀ ty, Octets (encode_record_header (DnsRecord.domain r) ty (DnsRecord.ttl r))) as Hh
    by (intros ty; by apply Octets_record_header).
  destruct r; cbn [wf_rdata encode_record DnsRecord.domain DnsRecord.ttl] in *;
    unfold write_mx, write_soa, write_srv, write_caa, write_dnskey, write_rrsig, write_ds, write_nsec, encode_opt,
      wf_ipv4, wf_ipv6 in *;
    destruct_and? Hr; try (apply Octets_rdata; [apply Hh|]; octets); try (octets; apply Hh).
Qed.

Lemma foldl_octets {A} (f : A → DnsPacketEncoder → DnsPacketEncoder) xs e :
  Forall (fun x => Octets (f x)) xs → wf_bytes (enc_buf e) → wf_bytes (enc_buf (foldl (fun e x => f x e) e xs)).
Proof. intros Hxs. revert e. induction Hxs as [|x xs Hx Hxs IH]; intros e He; [done|]. by apply IH, Hx. Qed.

Lemma records_octets rs e :
  Forall wf_record rs → wf_bytes (enc_buf e) → wf_bytes (enc_buf (encode_records rs e)).
Proof.
  intros Hrs. apply foldl_octets. eapply Forall_impl; [exact Hrs|]. apply Octets_record.
Qed.

Lemma questions_octets qs e :
  Forall wf_question qs → wf_bytes (enc_buf e) → wf_bytes (enc_buf (encode_questions qs e)).
Proof.
  intros Hqs. apply foldl_octets. eapply Forall_impl; [exact Hqs|]. intros q (Hn & _). unfold encode_question. octets.
Qed.

(** A well-typed packet is written as bytes. *)
Lemma to_bytes_octets p : wf_packet p → wf_bytes (to_bytes p).
Proof.
  intros (_ & Hq & Ha & Hu & Hd). unfold to_bytes, encode.
  repeat (apply records_octets; [done|]). apply questions_octets; [done|].
  unfold encode_header. cbn. repeat (constructor; [unfold as_u8; width_lia|]). constructor.
Qed.

Lemma encodable_wf p : encodable p → wf_packet p.
Proof.
  intros (Hh & _ & Hq & Ha & Hu & Hd). split_and!; [done|..];
    (eapply Forall_impl; [done|]); by intros x [? _].
Qed.

(** What the encoder writes for an encodable packet is a message of the grammar, and
    the packet is the only one it can be read as. *)
Theorem to_bytes_message (p : DnsPacket) :
  encodable p → wf_bytes (to_bytes p) ∧ MessageAt (to_bytes p) p ∧ ∀ p', MessageAt (to_bytes p) p' → p' = p.
Proof.
  intros He. pose proof (to_bytes_octets p (encodable_wf p He)) as Hb.
  assert (MessageAt (to_bytes p) p) as Hm by by apply from_bytes_iff, from_bytes_to_bytes.
  split_and!; [done|done|]. intros p' Hp'. by eapply message_unique.
Qed.

Lemma to_bytes_message_witness : encodable sample_packet ∧ MessageAt (to_bytes sample_packet) sample_packet.
Proof.
  split; [exact sample_packet_encodable|]. destruct (to_bytes_message sample_packet sample_packet_encodable) as (_ & Hm & _). exact Hm.
Defined.
