(* ===== verification/Zones.v ===== *)
(** * Authoritative zones and forwarding rules

    Models the [ZoneSet] and [ForwardRules] parts of [src/src/config.rs]: the two
    longest-suffix tables the server consults, one to find the zone that is
    authoritative for a name, the other to find the upstream resolver of a
    name. Both are built by sorting on decreasing length and searched from the
    front. *)

From S2P Require Import Prelude RustStd Message.

(** [Zone]: records keyed by owner name. *)
Abbreviation Zone := (gmap bytes (list DnsRecord.t)).

Record AuthZone := mkAuthZone { origin : bytes; records : Zone }.

(** [name == s || name.ends_with(format!(".{s}"))]: the test both tables use. *)
Definition under (name s : bytes) : bool :=
  bool_decide (name = s) || ends_with name (DOT :: s).

Module ZoneSet.

Definition t := list AuthZone.

Definition new (zones : list AuthZone) : t :=
  sort_desc (fun z => length (origin z)) zones.

Definition from_single (o : bytes) (rs : Zone) : t := new [mkAuthZone o rs].

(** The origin of the first SOA record that [values().flatten()] meets. *)
Definition soa_domain (r : DnsRecord.t) : option bytes :=
  match r with DnsRecord.SOA d _ _ _ _ _ _ _ _ => Some d | _ => None end.

Definition inferred_origin `{HashIter} (rs : Zone) : bytes :=
  default [] (find_map soa_domain (values_flatten rs)).

Definition from_records `{HashIter} (rs : Zone) : t := from_single (inferred_origin rs) rs.

Definition empty : t := [].
Definition is_empty (zs : t) : bool := bool_decide (zs = []).
Definition len (zs : t) : nat := length zs.

Definition matches (name : bytes) (z : AuthZone) : bool :=
  bool_decide (origin z = []) || under name (origin z).

Definition find (zs : t) (name : bytes) : option AuthZone := List.find (matches name) zs.

Definition zone_record_count `{HashIter} (z : AuthZone) : nat :=
  list_sum (length <$> (hm_iter (records z)).*2).
Definition record_count `{HashIter} (zs : t) : nat := list_sum (zone_record_count <$> zs).

End ZoneSet.

Record ForwardRule := mkForwardRule { suffix : bytes; upstream : SocketAddr }.

Module ForwardRules.

Record t := mk { rules : list ForwardRule; default_upstream : option SocketAddr }.

Definition new (d : option SocketAddr) (rs : list ForwardRule) : t :=
  mk (sort_desc (fun r => length (suffix r)) rs) d.

Definition single (d : SocketAddr) : t := new (Some d) [].
Definition none : t := mk [] None.

(** The loop over the rules, then the default. *)
Fixpoint match_rules (rs : list ForwardRule) (name : bytes) : option SocketAddr :=
  match rs with
  | [] => None
  | r :: rs' => if under name (suffix r) then Some (upstream r) else match_rules rs' name
  end.

Definition match_name (f : t) (name : bytes) : option SocketAddr :=
  match match_rules (rules f) name with
  | Some u => Some u
  | None => default_upstream f
  end.

Definition is_enabled (f : t) : bool :=
  bool_decide (is_Some (default_upstream f)) || negb (bool_decide (rules f = [])).

Definition with_default (f : t) (d : SocketAddr) : t := new (Some d) (rules f).

End ForwardRules.

(** ** The domain hierarchy *)

(** [name] is [s] or a descendant of it: the labels of [s] end those of [name]. *)
Definition Subdomain (name s : bytes) : Prop :=
  ∃ ls, split_on DOT name = ls ++ split_on DOT s.

Lemma split_on_app_dot l s : split_on DOT (l ++ DOT :: s) = split_on DOT l ++ split_on DOT s.
Proof.
  revert s. induction l as [|x l IH]; intros s; cbn [app split_on]; [done|].
  destruct (Z.eqb x DOT); [by rewrite IH|]. rewrite IH.
  pose proof (split_on_ne DOT l). by destruct (split_on DOT l).
Qed.

Lemma join_on_app c ls ms :
  ls ≠ [] → ms ≠ [] → join_on c (ls ++ ms) = join_on c ls ++ c :: join_on c ms.
Proof.
  intros Hl Hm. induction ls as [|l ls IH]; [done|]. cbn [app].
  rewrite join_on_cons by (destruct ls; [done|by cbn]).
  destruct ls as [|l' ls]; [done|].
  rewrite IH by done. rewrite (join_on_cons c l) by done. by rewrite <- (assoc_L (++)).
Qed.

Lemma Subdomain_text name s : Subdomain name s ↔ name = s ∨ ∃ p, name = p ++ DOT :: s.
Proof.
  split.
  - intros [ls H]. destruct (decide (ls = [])) as [->|Hne].
    + left. rewrite <- (join_split DOT name), H. apply join_split.
    + right. exists (join_on DOT ls). rewrite <- (join_split DOT name), H.
      by rewrite join_on_app, join_split by (done || apply split_on_ne).
  - intros [->|[p ->]]; [by exists []|]. exists (split_on DOT p). apply split_on_app_dot.
Qed.

(** The textual test decides the label-wise relation. *)
Lemma under_Subdomain name s : under name s = true ↔ Subdomain name s.
Proof.
  unfold under. rewrite Subdomain_text, orb_true_iff, bool_decide_eq_true, ends_with_spec.
  done.
Qed.

#[global] Instance Subdomain_dec name s : Decision (Subdomain name s).
Proof. refine (cast_if (decide (under name s = true))); by rewrite <- under_Subdomain. Defined.

Lemma Subdomain_refl s : Subdomain s s.
Proof. by exists []. Qed.

Lemma Subdomain_trans a b c : Subdomain a b → Subdomain b c → Subdomain a c.
Proof. intros [l1 H1] [l2 H2]. exists (l1 ++ l2). by rewrite H1, H2, (assoc_L (++)). Qed.

(** Two ancestors of one name are ordered by their length. *)
Lemma Subdomain_linear name s t :
  Subdomain name s → Subdomain name t → length s ≤ length t → Subdomain t s.
Proof.
  rewrite !Subdomain_text. intros [->|[p Hp]] [Ht|[q Hq]] Hle.
  - auto.
  - subst. rewrite length_app in Hle. cbn in Hle. lia.
  - subst. right. by exists p.
  - subst name. assert (length q ≤ length p) as Hl.
    { apply (f_equal length) in Hq. rewrite !length_app in Hq. cbn in Hq. lia. }
    destruct (app_eq_inv p (DOT :: s) q (DOT :: t) Hq) as [(k & -> & Hk)|(k & -> & Hk)].
    + destruct k as [|x k]; cbn in Hk; [left; congruence|]. right. exists k. congruence.
    + assert (k = []) as -> by (destruct k; [done|]; rewrite length_app in Hl; cbn in Hl; lia).
      left. cbn in Hk. congruence.
Qed.

(** The text ["*."] of a wildcard label. *)
Definition STAR_DOT : bytes := [42; 46]%Z.

(** The proper ancestors of a name, closest first. *)
Fixpoint ancestors (name : bytes) : list bytes :=
  match name with
  | [] => []
  | c :: rest => if Z.eqb c DOT then rest :: ancestors rest else ancestors rest
  end.

Lemma ancestors_elem name s : s ∈ ancestors name ↔ ∃ p, name = p ++ DOT :: s.
Proof.
  induction name as [|c name IH]; cbn.
  { split; [set_solver|]. intros [p Hp]. by destruct p. }
  split.
  - destruct (Z.eqb_spec c DOT) as [->|_].
    + intros [->|Hs]%elem_of_cons; [by exists []|]. apply IH in Hs as [p ->]. by exists (DOT :: p).
    + intros Hs. apply IH in Hs as [p ->]. by exists (c :: p).
  - intros [[|x p] Hp]; cbn in Hp; injection Hp as -> ->; [rewrite Z.eqb_refl; set_solver|].
    case_match; [apply elem_of_cons; right|]; apply IH; eauto.
Qed.

Lemma ancestors_length name : Forall (fun s => length s < length name) (ancestors name).
Proof.
  apply Forall_forall. intros s [p ->]%ancestors_elem. rewrite length_app. cbn. lia.
Qed.

(** ** Lemmas on the two tables *)

Lemma matches_spec name z :
  ZoneSet.matches name z = true ↔ origin z = [] ∨ Subdomain name (origin z).
Proof.
  unfold ZoneSet.matches. by rewrite orb_true_iff, bool_decide_eq_true, under_Subdomain.
Qed.

Lemma find_None_forall {A} (f : A → bool) l : List.find f l = None ↔ ∀ x, x ∈ l → f x = false.
Proof.
  split.
  - intros H x Hx. apply list_elem_of_In in Hx. by eapply find_none.
  - intros H. destruct (List.find f l) as [x|] eqn:E; [|done].
    apply find_some in E as [Hi Hf]. apply list_elem_of_In in Hi. rewrite H in Hf; done.
Qed.

Lemma find_Some_elem {A} (f : A → bool) l x : List.find f l = Some x → x ∈ l ∧ f x = true.
Proof. intros [H ?]%find_some. by apply list_elem_of_In in H. Qed.

Lemma match_rules_find rs name :
  ForwardRules.match_rules rs name =
  upstream <$> List.find (fun r => under name (suffix r)) rs.
Proof. induction rs as [|r rs IH]; cbn; [done|]. by destruct (under name (suffix r)). Qed.

(** ** Properties *)

(** [ZoneSet::find] returns a zone of the set that covers the name (its
    origin is an ancestor of the name, or empty) and every other covering zone
    has an origin above that one: the most specific zone wins. It returns
    nothing exactly when no zone covers the name. *)
Theorem find_longest_suffix (zs : list AuthZone) (name : bytes) :
  match ZoneSet.find (ZoneSet.new zs) name with
  | Some z =>
      z ∈ zs ∧ (origin z = [] ∨ Subdomain name (origin z)) ∧
      ∀ z', z' ∈ zs → Subdomain name (origin z') → origin z' ≠ [] →
        Subdomain (origin z) (origin z')
  | None => ∀ z, z ∈ zs → origin z ≠ [] ∧ ¬ Subdomain name (origin z)
  end.
Proof.
  unfold ZoneSet.find, ZoneSet.new.
  pose proof (sort_desc_perm (fun z => length (origin z)) zs) as Hp.
  pose proof (sort_desc_sorted (fun z => length (origin z)) zs) as Hs.
  destruct (List.find _ _) as [z|] eqn:E.
  - pose proof (find_Some_elem _ _ _ E) as [Hin Hm]. apply matches_spec in Hm.
    split_and!; [by rewrite Hp in Hin|done|].
    intros z' Hz' Hsub Hne.
    assert (length (origin z') ≤ length (origin z)) as Hle.
    { eapply (find_sorted_longest (fun z => length (origin z))); [exact Hs|exact E| |].
      - by rewrite Hp.
      - apply matches_spec. by right. }
    destruct Hm as [He|Hm]; [|by eapply Subdomain_linear].
    rewrite He in Hle. destruct (origin z'); [done|cbn in Hle; lia].
  - intros z Hz. rewrite find_None_forall in E. rewrite <- Hp in Hz. apply E in Hz.
    apply not_true_iff_false in Hz. rewrite matches_spec in Hz. tauto.
Qed.

(** [ForwardRules::match_name] returns the upstream of a matching rule with
    the longest suffix, the default when no rule matches; and [with_default]
    changes nothing but the default. *)
Theorem match_name_longest_suffix (d : option SocketAddr) (rs : list ForwardRule) (name : bytes) :
  ((∀ r, r ∈ rs → ¬ Subdomain name (suffix r)) ∧
     ForwardRules.match_name (ForwardRules.new d rs) name = d ∨
   ∃ r, r ∈ rs ∧ Subdomain name (suffix r) ∧
     (∀ r', r' ∈ rs → Subdomain name (suffix r') → Subdomain (suffix r) (suffix r')) ∧
     ForwardRules.match_name (ForwardRules.new d rs) name = Some (upstream r)) ∧
  ∀ u, ForwardRules.with_default (ForwardRules.new d rs) u = ForwardRules.new (Some u) rs.
Proof.
  split; [|intros u; unfold ForwardRules.with_default, ForwardRules.new; cbn [ForwardRules.rules];
    by rewrite (sort_desc_id _ _ (sort_desc_sorted _ _))].
  unfold ForwardRules.match_name, ForwardRules.new. cbn. rewrite match_rules_find.
  pose proof (sort_desc_perm (fun r => length (suffix r)) rs) as Hp.
  pose proof (sort_desc_sorted (fun r => length (suffix r)) rs) as Hs.
  destruct (List.find _ _) as [r|] eqn:E; cbn.
  - right. exists r. pose proof (find_Some_elem _ _ _ E) as [Hin Hm].
    apply under_Subdomain in Hm. split_and!; [by rewrite Hp in Hin|done| |done].
    intros r' Hr' Hsub. apply (Subdomain_linear name); [done|done|].
    eapply (find_sorted_longest (fun r => length (suffix r))); [exact Hs|exact E| |].
    + by rewrite Hp.
    + by apply under_Subdomain.
  - left. split; [|done]. intros r Hr Hsub. rewrite find_None_forall in E.
    rewrite <- Hp in Hr. apply E in Hr. apply under_Subdomain in Hsub. congruence.
Qed.
