(* ===== verification/ZoneFile.v ===== *)
(** * Zone files

    Models the zone-file parser of [src/src/config.rs]: [parse_line],
    [load_zone_file] and [load_zone_with_inferred_origin], over the text of the
    file. *)

From S2P Require Import Prelude RustStd TextParse Message Zones.

(** [name.strip_suffix('.').unwrap_or(name)]. *)
Definition strip_trailing_dot (name : bytes) : bytes := default name (strip_suffix_char DOT name).

(** The double quote character, and the space. *)
Definition QUOTE : Z := 34.
Definition SPACE : Z := 32.

Abbreviation lresult := (res string).

(** [s.parse().context(msg)?]. *)
Definition parse_ctx {A} (msg : string) (o : option A) : lresult A :=
  match o with Some a => Ok a | None => Err msg end.

Definition parse_mx (parts : list bytes) (domain : bytes) (ttl : Z) : lresult DnsRecord.t :=
  if length parts <? 5 then Err "MX record requires a preference and an exchange"%string
  else
    p ← idx parts 3; preference ← parse_ctx "invalid preference for MX record" (parse_u16 p);
    e ← idx parts 4;
    Ok (DnsRecord.MX domain preference (strip_trailing_dot e) ttl).

Definition parse_srv (parts : list bytes) (domain : bytes) (ttl : Z) : lresult DnsRecord.t :=
  if length parts <? 7 then Err "SRV record requires priority, weight, port and target"%string
  else
    p ← idx parts 3; priority ← parse_ctx "invalid SRV priority" (parse_u16 p);
    w ← idx parts 4; weight ← parse_ctx "invalid SRV weight" (parse_u16 w);
    o ← idx parts 5; port ← parse_ctx "invalid SRV port" (parse_u16 o);
    t ← idx parts 6;
    Ok (DnsRecord.SRV domain priority weight port (strip_trailing_dot t) ttl).

Definition parse_caa (parts : list bytes) (domain : bytes) (ttl : Z) : lresult DnsRecord.t :=
  if length parts <? 6 then Err "CAA record requires flags, tag and value"%string
  else
    f ← idx parts 3; flags ← parse_ctx "invalid CAA flags" (parse_u8 f);
    tag ← idx parts 4;
    Ok (DnsRecord.CAA domain flags tag (trim_matches QUOTE (join_on SPACE (drop 5 parts))) ttl).

Definition parse_soa (parts : list bytes) (domain : bytes) (ttl : Z) : lresult DnsRecord.t :=
  if length parts <? 10 then Err "SOA record requires 7 fields"%string
  else
    m ← idx parts 3; r ← idx parts 4;
    s5 ← idx parts 5; serial ← parse_ctx "invalid SOA serial" (parse_u32 s5);
    s6 ← idx parts 6; refresh ← parse_ctx "invalid SOA refresh" (parse_u32 s6);
    s7 ← idx parts 7; retry ← parse_ctx "invalid SOA retry" (parse_u32 s7);
    s8 ← idx parts 8; expire ← parse_ctx "invalid SOA expire" (parse_u32 s8);
    s9 ← idx parts 9; minimum ← parse_ctx "invalid SOA minimum" (parse_u32 s9);
    Ok (DnsRecord.SOA domain (strip_trailing_dot m) (strip_trailing_dot r) serial refresh retry
          expire minimum ttl).

(** The [match record_type]: [Ok None] for an unsupported type. *)
Definition parse_typed (rtype : bytes) (parts : list bytes) (domain : bytes) (ttl : Z) (data : bytes)
    : lresult (option DnsRecord.t) :=
  if bool_decide (rtype = str "A") then
    a ← parse_ctx "invalid IPv4 address for A record" (parse_ipv4 data);
    Ok (Some (DnsRecord.A domain a ttl))
  else if bool_decide (rtype = str "AAAA") then
    a ← parse_ctx "invalid IPv6 address for AAAA record" (parse_ipv6 data);
    Ok (Some (DnsRecord.AAAA domain a ttl))
  else if bool_decide (rtype = str "CNAME") then
    Ok (Some (DnsRecord.CNAME domain (strip_trailing_dot data) ttl))
  else if bool_decide (rtype = str "NS") then
    Ok (Some (DnsRecord.NS domain (strip_trailing_dot data) ttl))
  else if bool_decide (rtype = str "MX") then Some <$> parse_mx parts domain ttl
  else if bool_decide (rtype = str "TXT") then
    Ok (Some (DnsRecord.TXT domain (trim_matches QUOTE data) ttl))
  else if bool_decide (rtype = str "PTR") then
    Ok (Some (DnsRecord.PTR domain (strip_trailing_dot data) ttl))
  else if bool_decide (rtype = str "SRV") then Some <$> parse_srv parts domain ttl
  else if bool_decide (rtype = str "CAA") then Some <$> parse_caa parts domain ttl
  else if bool_decide (rtype = str "SOA") then Some <$> parse_soa parts domain ttl
  else Ok None.

Definition parse_line `{Unicode} (line : bytes) : lresult (option (bytes * DnsRecord.t)) :=
  let parts := split_whitespace line in
  if length parts <? 4 then Err "expected at least 4 fields (domain ttl type data)"%string
  else
    p0 ← idx parts 0;
    let domain := strip_trailing_dot (to_lowercase p0) in
    p1 ← idx parts 1; ttl ← parse_ctx "invalid TTL" (parse_u32 p1);
    rtype ← idx parts 2;
    let data := join_on SPACE (drop 3 parts) in
    record ← parse_typed rtype parts domain ttl data;
    Ok (match record with Some r => Some (domain, r) | None => None end).

(** What a line adds to the zone: blank lines, comments, unsupported types and
    malformed lines add nothing. *)
Definition zone_line `{Unicode} (line : bytes) : lresult (option (bytes * DnsRecord.t)) :=
  let line := trim line in
  match line with
  | [] => Ok None
  | c :: _ => if (c =? 59)%Z then Ok None else parse_line line
  end.

(** [zone.entry(domain).or_default().push(record)]. *)
Definition push_record (zone : Zone) (d : bytes) (r : DnsRecord.t) : Zone :=
  <[d := default [] (zone !! d) ++ [r]]> zone.

Definition add_zone_line `{Unicode} (zone : Zone) (line : bytes) : Zone :=
  match zone_line line with
  | Ok (Some (d, r)) => push_record zone d r
  | _ => zone
  end.

(** [load_zone_file]: [fs] is the file system. *)
Definition load_zone_file `{Unicode} (fs : bytes → option bytes) (path : bytes) : lresult Zone :=
  match fs path with
  | None => Err "Failed to read zone file"%string
  | Some content => Ok (foldl add_zone_line ∅ (lines content))
  end.

Definition load_zone_with_inferred_origin `{Unicode, HashIter} (fs : bytes → option bytes)
    (path : bytes) : lresult AuthZone :=
  rs ← load_zone_file fs path; Ok (mkAuthZone (ZoneSet.inferred_origin rs) rs).

(** ** Lemmas *)

Lemma parse_ctx_no_panic {A} msg (o : option A) : no_panic (parse_ctx msg o).
Proof. by destruct o. Qed.

(** Discharges the reads of a line whose number of fields was checked. *)
Ltac line_total :=
  repeat first
    [ apply no_panic_bind; [apply parse_ctx_no_panic|intros ? ?]
    | apply no_panic_bind; [apply idx_no_panic; lia|intros ? ?]
    | done ].

Lemma fmap_no_panic {E A B} (f : A → B) (c : res E A) : no_panic c → no_panic (f <$> c).
Proof. by destruct c. Qed.

Lemma parse_typed_no_panic rtype parts domain ttl data :
  no_panic (parse_typed rtype parts domain ttl data).
Proof.
  unfold parse_typed. repeat (case_bool_decide; [|]); line_total; apply fmap_no_panic;
    unfold parse_mx, parse_srv, parse_caa, parse_soa;
    match goal with |- context [length parts <? ?n] =>
      destruct (Nat.ltb_spec (length parts) n) end; line_total.
Qed.

Lemma parse_line_no_panic `{Unicode} line : no_panic (parse_line line).
Proof.
  unfold parse_line. cbv zeta. destruct (Nat.ltb_spec (length (split_whitespace line)) 4); [done|].
  line_total. apply no_panic_bind; [apply parse_typed_no_panic|done].
Qed.

(** The fields of a parsed record are within their widths, addresses included. *)
Definition line_record_ok (domain : bytes) (ttl : Z) (r : DnsRecord.t) : Prop :=
  DnsRecord.domain r = domain ∧ DnsRecord.ttl r = ttl ∧
  match r with
  | DnsRecord.A _ a _ => wf_ipv4 a
  | DnsRecord.AAAA _ a _ => wf_ipv6 a
  | DnsRecord.MX _ p _ _ => is_u16 p
  | DnsRecord.SRV _ p w o _ _ => is_u16 p ∧ is_u16 w ∧ is_u16 o
  | DnsRecord.CAA _ f _ _ _ => is_u8 f
  | DnsRecord.SOA _ _ _ s rf rt e m _ => is_u32 s ∧ is_u32 rf ∧ is_u32 rt ∧ is_u32 e ∧ is_u32 m
  | DnsRecord.CNAME _ _ _ | DnsRecord.NS _ _ _ | DnsRecord.TXT _ _ _ | DnsRecord.PTR _ _ _ => True
  | DnsRecord.OPT _ | DnsRecord.DNSKEY _ _ _ _ _ _ | DnsRecord.RRSIG _ _ _ _ _ _ _ _ _ _ _
  | DnsRecord.DS _ _ _ _ _ _ | DnsRecord.NSEC _ _ _ _ => False
  end.

Lemma parse_u8_u8 s v : parse_u8 s = Some v → is_u8 v.
Proof. intros H%parse_uint_bound; [width_lia|lia]. Qed.
Lemma parse_u16_u16 s v : parse_u16 s = Some v → is_u16 v.
Proof. intros H%parse_uint_bound; [width_lia|lia]. Qed.
Lemma parse_u32_u32 s v : parse_u32 s = Some v → is_u32 v.
Proof. intros H%parse_uint_bound; [width_lia|lia]. Qed.

Lemma parse_ctx_Ok {A} msg (o : option A) a : parse_ctx msg o = Ok a → o = Some a.
Proof. destruct o; naive_solver. Qed.

Ltac line_inv :=
  repeat match goal with
  | H : (if _ <? _ then _ else _) = Ok _ |- _ => case_match; [discriminate H|]
  | H : Some <$> ?c = Ok (Some _) |- _ =>
      let E := fresh in destruct c eqn:E; [injection H as ->|discriminate H|discriminate H]
  | H : (_ ≫= _) = Ok _ |- _ => apply bind_Ok in H as (? & ? & H)
  | H : parse_ctx _ _ = Ok _ |- _ => apply parse_ctx_Ok in H
  | H : Ok _ = Ok _ |- _ => injection H as H; subst
  end.

Lemma parse_typed_ok rtype parts domain ttl data r :
  parse_typed rtype parts domain ttl data = Ok (Some r) → line_record_ok domain ttl r.
Proof.
  unfold parse_typed, parse_mx, parse_srv, parse_caa, parse_soa. intros H.
  repeat (case_bool_decide; [line_inv; (discriminate || (split_and!; cbn;
    eauto using parse_ipv4_wf, parse_ipv6_wf, parse_u8_u8, parse_u16_u16, parse_u32_u32; fail))|]).
  discriminate H.
Qed.

Lemma parse_line_ok `{Unicode} line d r :
  parse_line line = Ok (Some (d, r)) → ∃ ttl, is_u32 ttl ∧ line_record_ok d ttl r.
Proof.
  unfold parse_line. cbv zeta. intros H0. case_match; [done|].
  apply bind_Ok in H0 as (p0 & _ & H0). apply bind_Ok in H0 as (p1 & _ & H0).
  apply bind_Ok in H0 as (ttl & Ht%parse_ctx_Ok & H0). apply bind_Ok in H0 as (rt & _ & H0).
  apply bind_Ok in H0 as (o & Ho & H0). destruct o as [r'|]; [|done].
  injection H0 as <- ->. exists ttl. split; [by eapply parse_u32_u32|by eapply parse_typed_ok].
Qed.

(** The records of the lines with a given owner, in order. *)
Definition records_of `{Unicode} (ls : list bytes) (k : bytes) : list DnsRecord.t :=
  omap (fun l => match zone_line l with
                 | Ok (Some (d, r)) => if decide (d = k) then Some r else None
                 | _ => None
                 end) ls.

Lemma load_lines_lookup `{Unicode} ls (k : bytes) :
  (foldl add_zone_line ∅ ls : Zone) !! k =
  if decide (records_of ls k = []) then None else Some (records_of ls k).
Proof.
  induction ls as [|l ls IH] using rev_ind; [done|].
  rewrite foldl_app. cbn [foldl]. set (z := foldl add_zone_line ∅ ls) in *.
  unfold records_of in *. rewrite omap_app. cbn [omap list_omap].
  unfold add_zone_line. destruct (zone_line l) as [[[d r]|]|e|]; rewrite ?app_nil_r; try done.
  unfold push_record. destruct (decide (d = k)) as [->|Hne].
  - rewrite lookup_insert_eq, IH. set (rs := omap _ ls).
    rewrite (decide_False (P := rs ++ [r] = [])) by by destruct rs.
    destruct (decide (rs = [])) as [->|]; done.
  - rewrite lookup_insert_ne, app_nil_r by done. done.
Qed.

(** ** Properties *)

Section Properties.
Context `{Unicode}.

(** Loading a zone file is robust and exact: every line parses to a record or
    an error without a panic, and each name of the zone maps to exactly the
    records of its lines, in file order; so a malformed line only loses itself. *)
Theorem load_zone_exact (fs : bytes → option bytes) (path content : bytes) (k : bytes) :
  fs path = Some content →
  ∃ zone, load_zone_file fs path = Ok zone ∧
    (∀ l, no_panic (zone_line l)) ∧
    zone !! k = (if decide (records_of (lines content) k = []) then None
                 else Some (records_of (lines content) k)).
Proof.
  intros Hf. unfold load_zone_file. rewrite Hf. eexists. split; [done|]. split.
  - intros l. unfold zone_line. destruct (trim l) as [|c l']; [done|].
    case_match; [done|apply parse_line_no_panic].
  - apply load_lines_lookup.
Qed.

(** A loaded zone is well formed: no name has an empty record list, every record
    is filed under its own owner name, and its TTL, its integers and its address
    are within their types; only the ten supported kinds occur. *)
Theorem load_zone_wf (fs : bytes → option bytes) (path : bytes) (zone : Zone) :
  load_zone_file fs path = Ok zone →
  ∀ k rs, zone !! k = Some rs → rs ≠ [] ∧
    ∀ r, r ∈ rs → ∃ ttl, is_u32 ttl ∧ line_record_ok k ttl r.
Proof.
  unfold load_zone_file. destruct (fs path) as [content|]; [|done]. intros [= <-] k rs.
  rewrite load_lines_lookup. case_decide as Hne; [done|]. intros [= <-]. split; [done|].
  intros r (l & _ & Hr)%list_elem_of_omap.
  destruct (zone_line l) as [[[d r']|]|e|] eqn:Hz; try done. case_decide; [|done].
  simplify_eq. unfold zone_line in Hz. destruct (trim l) as [|c l']; [done|].
  destruct (c =? 59)%Z; [done|]. by eapply parse_line_ok.
Qed.

End Properties.

(** ** Witnesses *)

Definition zone_text : bytes :=
  str "; a comment" ++ [10%Z]
  ++ str "Example.com. 3600 SOA ns1.example.com. admin.example.com. 1 7200 3600 1209600 3600" ++ [10%Z]
  ++ str "example.com. 3600 A 192.0.2.1" ++ [10%Z]
  ++ str "example.com. x A 192.0.2.2" ++ [10%Z]
  ++ str "example.com. 60 MX 10 mail.example.com." ++ [13%Z; 10%Z].

Definition zone_fs (p : bytes) : option bytes :=
  if bool_decide (p = str "example.zone") then Some zone_text else None.

Lemma load_zone_exact_witness :
  ∃ zone, @load_zone_file ascii_unicode zone_fs (str "example.zone") = Ok zone ∧
    zone !! str "example.com" =
      Some [DnsRecord.SOA (str "example.com") (str "ns1.example.com") (str "admin.example.com")
              1 7200 3600 1209600 3600 3600;
            DnsRecord.A (str "example.com") [192; 0; 2; 1]%Z 3600;
            DnsRecord.MX (str "example.com") 10 (str "mail.example.com") 60].
Proof.
  destruct (@load_zone_exact ascii_unicode zone_fs (str "example.zone") zone_text
    (str "example.com")) as (zone & Hz & _ & Hk); [vm_compute; reflexivity|].
  exists zone. split; [exact Hz|]. rewrite Hk. vm_compute. reflexivity.
Defined.

Lemma load_zone_wf_witness :
  ∃ zone rs, @load_zone_file ascii_unicode zone_fs (str "example.zone") = Ok zone ∧
    zone !! str "example.com" = Some rs ∧ rs ≠ [].
Proof.
  assert (∃ zone, @load_zone_file ascii_unicode zone_fs (str "example.zone") = Ok zone ∧
    ∃ rs, zone !! str "example.com" = Some rs) as (zone & Hz & rs & Hr).
  { eexists. split; [reflexivity|]. eexists. vm_compute. reflexivity. }
  exists zone, rs. split; [exact Hz|]. split; [exact Hr|].
  apply (@load_zone_wf ascii_unicode zone_fs (str "example.zone") zone Hz _ _ Hr).
Defined.
