(* ===== verification/ZonePrint.v ===== *)
(** * Writing zone files

    The zone-file parser of [src/src/config.rs] against a specification of the text
    it reads: [render] writes a record as a line (names with their final dot, integers
    in decimal, addresses in dotted and colon form, texts in quotes), [zone_text_of]
    a list of records as a file. What is written is read back: line by line
    ([parse_line]), and as a zone ([load_zone_file]). *)

From S2P Require Import Prelude RustStd TextParse Message Zones ZoneFile.

(** ** Words *)

(** Printable ASCII characters, without and with the space. *)
Definition printable (c : Z) : bool := in_range 33 126 c.
Definition textual (c : Z) : bool := in_range 32 126 c.

(** A word of a line. *)
Definition word (w : bytes) : bool := negb (bool_decide (w = [])) && forallb printable w.

Lemma printable_textual c : printable c = true → textual c = true.
Proof. unfold printable, textual, in_range. lia. Qed.

Lemma ws_len_textual (c : Z) s : textual c = true → ws_len (c :: s) = if (c =? 32)%Z then 1 else 0.
Proof.
  unfold textual, in_range. intros Hc. cbn [ws_len]. unfold in_range.
  destruct (Z.eqb_spec c 32) as [->|Hne]; [done|].
  replace ((9 <=? c) && (c <=? 13))%Z with false by lia. cbn [orb].
  destruct s as [|d s]; [done|]. replace (c =? 194)%Z with false by lia. cbn [andb].
  destruct s as [|e s]; [done|].
  replace (c =? 225)%Z with false by lia. replace (c =? 226)%Z with false by lia.
  replace (c =? 227)%Z with false by lia. done.
Qed.

Lemma ws_len_printable (c : Z) s : printable c = true → ws_len (c :: s) = 0.
Proof.
  intros Hc. rewrite ws_len_textual by by apply printable_textual.
  unfold printable, in_range in Hc. replace (c =? 32)%Z with false by lia. done.
Qed.

Lemma words_word w n cur s :
  forallb printable w = true → words_n (length w + n) cur (w ++ s) = words_n n (rev w ++ cur) s.
Proof.
  revert cur. induction w as [|c w IH]; intros cur Hw; [done|]. cbn [forallb] in Hw.
  apply andb_true_iff in Hw as [Hc Hw]. cbn [app length Nat.add words_n].
  rewrite ws_len_printable by done. rewrite IH by done. cbn. by rewrite <- app_assoc.
Qed.

Lemma words_join ws :
  Forall (fun w => word w = true) ws →
  words_n (length (join_on SPACE ws)) [] (join_on SPACE ws) = ws.
Proof.
  induction 1 as [|w ws Hw Hws IH]; [done|].
  unfold word in Hw. apply andb_true_iff in Hw as [Hne Hw].
  apply negb_true_iff, bool_decide_eq_false in Hne.
  assert (∀ l, match rev w ++ [] with [] => [] | _ => [rev (rev w ++ [])] end ++ l = w :: l) as Hflush.
  { intros l. rewrite app_nil_r. destruct (rev w) eqn:Hr; [|by rewrite <- Hr, rev_involutive].
    destruct Hne. by rewrite <- (rev_involutive w), Hr. }
  destruct ws as [|w' ws].
  - cbn [join_on]. rewrite <- (app_nil_r w) at 2. replace (length w) with (length w + 0) by lia.
    rewrite words_word by done. specialize (Hflush []). rewrite app_nil_r in Hflush at 1. exact Hflush.
  - rewrite join_on_cons by done. rewrite length_app. cbn [length].
    rewrite words_word by done. set (s := join_on SPACE (w' :: ws)) in *.
    cbn [words_n]. rewrite ws_len_textual by done.
    change (if (SPACE =? 32)%Z then 1 else 0) with 1. cbn iota. change (drop 1 (SPACE :: s)) with s.
    rewrite IH. apply Hflush.
Qed.

Lemma split_whitespace_join ws :
  Forall (fun w => word w = true) ws → split_whitespace (join_on SPACE ws) = ws.
Proof. apply words_join. Qed.

(** ** Numbers *)

(** The value of a run of digits. *)
Definition digits_value (radix : Z) (dig : Z → option Z) (acc : Z) (ds : bytes) : Z :=
  foldl (fun a c => (a * radix + default 0 (dig c))%Z) acc ds.

Lemma digits_value_mono radix dig acc ds :
  (1 <= radix)%Z → (∀ c d, dig c = Some d → (0 <= d)%Z) → (0 <= acc)%Z →
  (acc <= digits_value radix dig acc ds)%Z.
Proof.
  intros Hr Hd. revert acc. induction ds as [|c ds IH]; intros acc Ha; cbn; [lia|].
  assert (0 <= default 0 (dig c))%Z by (destruct (dig c) eqn:E; cbn; [eauto|lia]).
  etrans; [|apply IH; nia]. nia.
Qed.

Lemma digits_to_value max acc ds :
  Forall (fun c => is_Some (digit c)) ds → (0 <= acc)%Z → (digits_value 10 digit acc ds <= max)%Z →
  digits_to max acc ds = Some (digits_value 10 digit acc ds).
Proof.
  intros Hds. revert acc. induction Hds as [|c ds [d Hd] _ IH]; intros acc Ha Hm; [done|].
  cbn [digits_to]. rewrite Hd. cbn. rewrite Hd in *. unfold digits_value in Hm. cbn in Hm. rewrite Hd in Hm.
  cbn in Hm. pose proof (digit_bound _ _ Hd). fold (digits_value 10 digit (acc * 10 + d) ds) in *.
  pose proof (digits_value_mono 10 digit (acc * 10 + d) ds ltac:(lia)
    ltac:(intros ?? ?%digit_bound; lia) ltac:(lia)).
  destruct (Z.ltb_spec max (acc * 10 + d)); [lia|]. apply IH; [lia|done].
Qed.

Lemma read_digits_value radix dig b acc n ds rest :
  Forall (fun c => is_Some (dig c)) ds → length ds ≤ b →
  match rest with [] => True | c :: _ => dig c = None end →
  read_digits radix dig b acc n (ds ++ rest) = Some (digits_value radix dig acc ds, n + length ds, rest).
Proof.
  intros Hds. revert b acc n. induction Hds as [|c ds [d Hd] _ IH]; intros b acc n Hb Hrest.
  - cbn. rewrite Nat.add_0_r. destruct rest as [|c rest]; [done|]. cbn. by rewrite Hrest.
  - cbn in Hb. cbn. rewrite Hd. destruct b as [|b]; [lia|]. rewrite IH by (lia || done).
    f_equal. f_equal. f_equal. lia.
Qed.

(** A number in decimal, of at most [n] digits. *)
Definition digit_char (d : Z) : Z := if (d <? 10)%Z then (48 + d)%Z else (87 + d)%Z.

Fixpoint decimal_n (n : nat) (z : Z) : bytes :=
  match n with
  | 0 => []
  | S n => if (z <? 10)%Z then [digit_char z] else decimal_n n (z / 10) ++ [digit_char (z mod 10)]
  end.

(** Ten digits hold every 32-bit number. *)
Definition decimal (z : Z) : bytes := decimal_n 10 z.

Lemma digit_digit_char d : (0 <= d < 10)%Z → digit (digit_char d) = Some d.
Proof.
  intros Hd. unfold digit_char, digit, in_range. replace (d <? 10)%Z with true by lia.
  replace ((48 <=? 48 + d) && (48 + d <=? 57))%Z with true by lia. f_equal. lia.
Qed.

Lemma decimal_n_spec n z :
  (0 <= z < 10 ^ Z.of_nat n)%Z →
  Forall (fun c => is_Some (digit c)) (decimal_n n z) ∧ digits_value 10 digit 0 (decimal_n n z) = z ∧
  (0 < n → decimal_n n z ≠ []).
Proof.
  revert z. induction n as [|n IH]; intros z Hz.
  { cbn in *. split_and!; [constructor|lia|lia]. }
  cbn [decimal_n]. destruct (Z.ltb_spec z 10).
  - split_and!; [|cbn; rewrite digit_digit_char by lia; cbn; lia|done].
    constructor; [|constructor]. rewrite digit_digit_char by lia. eauto.
  - assert (10 ^ Z.of_nat (S n) = 10 * 10 ^ Z.of_nat n)%Z as Hp by (rewrite Nat2Z.inj_succ, Z.pow_succ_r; lia).
    assert (0 <= z / 10 < 10 ^ Z.of_nat n)%Z as Hq.
    { split; [apply Z.div_pos; lia|]. apply Z.div_lt_upper_bound; lia. }
    pose proof (Z.mod_pos_bound z 10 ltac:(lia)). destruct (IH _ Hq) as (Hf & Hv & _).
    split_and!; [| |by destruct (decimal_n n (z / 10))].
    + apply Forall_app. split; [done|]. constructor; [|constructor]. rewrite digit_digit_char by lia. eauto.
    + unfold digits_value in *. rewrite foldl_app. rewrite Hv. cbn. rewrite digit_digit_char by lia. cbn.
      pose proof (Z.div_mod z 10 ltac:(lia)). lia.
Qed.

Lemma digit_printable c : is_Some (digit c) → printable c = true ∧ (c ≠ 43)%Z ∧ c ≠ DOT ∧ c ≠ COLON.
Proof.
  intros [d Hd]. unfold digit, printable, in_range, DOT, COLON in *. case_match; simplify_eq. lia.
Qed.

Lemma decimal_spec z :
  is_u32 z → Forall (fun c => is_Some (digit c)) (decimal z) ∧ digits_value 10 digit 0 (decimal z) = z ∧
    decimal z ≠ [].
Proof.
  intros Hz. destruct (decimal_n_spec 10 z) as (Hf & Hv & Hn); [|by eauto with lia].
  change (10 ^ Z.of_nat 10)%Z with 10000000000%Z. width_lia.
Qed.

Lemma parse_uint_decimal max z :
  is_u32 z → (z <= max)%Z → parse_uint max (decimal z) = Some z.
Proof.
  intros Hz Hm. destruct (decimal_spec z Hz) as (Hf & Hv & Hn).
  destruct (decimal z) as [|c ds]; [done|]. unfold parse_uint.
  replace (c =? 43)%Z with false by (inv Hf as [|? ? Hc _]; apply digit_printable in Hc; lia).
  rewrite digits_to_value by (done || lia). by rewrite Hv.
Qed.

Lemma digits_word ds : Forall (fun c => is_Some (digit c)) ds → ds ≠ [] → word ds = true.
Proof.
  intros Hf Hn. unfold word. rewrite bool_decide_false by done. cbn. apply forallb_forall.
  intros c Hc%list_elem_of_In. eapply Forall_forall in Hf; [|done]. by apply digit_printable.
Qed.

Lemma word_decimal z : is_u32 z → word (decimal z) = true.
Proof. intros (Hf & _ & Hn)%decimal_spec. by apply digits_word. Qed.

(** ** Addresses *)

(** An IPv4 address in dotted decimal. *)
Definition ipv4_text (a : bytes) : bytes := join_on DOT (decimal_n 3 <$> a).

Lemma digit_char_nonzero d : (1 <= d < 10)%Z → (digit_char d =? 48)%Z = false.
Proof. intros Hd. unfold digit_char. replace (d <? 10)%Z with true by lia. lia. Qed.

Lemma read_octet_decimal o rest :
  is_u8 o → match rest with [] => True | c :: _ => digit c = None end →
  read_octet (decimal_n 3 o ++ rest) = Some (o, rest).
Proof.
  intros Ho Hrest. destruct (decimal_n_spec 3 o) as (Hf & Hv & Hn); [cbn; width_lia|].
  specialize (Hn ltac:(lia)). unfold read_octet, read_number.
  assert (length (decimal_n 3 o) ≤ 3) as Hl.
  { cbn [decimal_n]. repeat case_match; cbn; lia. }
  rewrite read_digits_value by done. cbn [mbind option_bind Nat.add].
  rewrite (proj2 (Nat.eqb_neq _ _)) by (destruct (decimal_n 3 o); cbn; [done|lia]).
  rewrite Hv. cbn [negb].
  assert ((match decimal_n 3 o ++ rest with c :: _ => (c =? 48)%Z | [] => false end) &&
    (1 <? length (decimal_n 3 o)) = false) as Hz.
  { cbn [decimal_n]. destruct (Z.ltb_spec o 10); [by rewrite andb_false_r|]. apply andb_false_iff. left.
    destruct (Z.ltb_spec (o / 10) 10).
    - apply digit_char_nonzero. pose proof (Z.div_le_lower_bound o 10 1). lia.
    - destruct (Z.ltb_spec (o / 10 / 10) 10); cbn.
      + apply digit_char_nonzero. pose proof (Z.div_le_lower_bound (o / 10) 10 1). lia.
      + exfalso. pose proof (Z.div_lt_upper_bound o 10 26). pose proof (Z.div_lt_upper_bound (o / 10) 10 3).
        width_lia. }
  cbn zeta. rewrite andb_true_l, Hz. replace (255 <? o)%Z with false by width_lia. done.
Qed.

(** A separator that was written is read. *)
Lemma read_separator_app {A} sep i (p : parser A) s :
  read_separator sep (S i) p (sep :: s) = p s.
Proof. unfold read_separator, read_given_char. cbn. by rewrite Z.eqb_refl. Qed.

Lemma parse_ipv4_text a : wf_ipv4 a → parse_ipv4 (ipv4_text a) = Some a.
Proof.
  intros [Hl Hw]. destruct a as [|a [|b [|c [|d [|]]]]]; try done.
  unfold wf_bytes in Hw. rewrite !Forall_cons in Hw. destruct Hw as (Ha & Hb & Hc & Hd & _).
  assert (∀ o, length (decimal_n 3 o) ≤ 3) as H3 by (intros o; cbn [decimal_n]; repeat case_match; cbn; lia).
  unfold parse_ipv4, ipv4_text. cbn [fmap list_fmap join_on].
  destruct (Nat.ltb_spec 15 (length (decimal_n 3 a ++ DOT :: decimal_n 3 b ++ DOT :: decimal_n 3 c ++
    DOT :: decimal_n 3 d))) as [Hlt|_].
  { repeat (rewrite length_app in Hlt; cbn [length] in Hlt).
    pose proof (H3 a). pose proof (H3 b). pose proof (H3 c). pose proof (H3 d). lia. }
  unfold parse_with, read_ipv4_addr.
  change (read_separator DOT 0 read_octet) with read_octet. rewrite read_octet_decimal by done. cbn [mbind option_bind].
  do 2 (rewrite read_separator_app, read_octet_decimal by done; cbn [mbind option_bind]).
  rewrite read_separator_app. rewrite <- (app_nil_r (decimal_n 3 d)), read_octet_decimal by done. done.
Qed.

(** An IPv6 address as eight groups of four hexadecimal digits. *)
Definition hex4 (g : Z) : bytes :=
  [digit_char (g / 4096); digit_char (g / 256 mod 16); digit_char (g / 16 mod 16); digit_char (g mod 16)].

Fixpoint octets_to_groups (a : bytes) : list Z :=
  match a with
  | x :: y :: a => u16_from_be_bytes x y :: octets_to_groups a
  | _ => []
  end.

Fixpoint groups_text (i : nat) (gs : list Z) : bytes :=
  match gs with
  | [] => []
  | g :: gs => (if 0 <? i then [COLON] else []) ++ hex4 g ++ groups_text (S i) gs
  end.

Definition ipv6_text (a : bytes) : bytes := groups_text 0 (octets_to_groups a).

Lemma hex_digit_char d : (0 <= d < 16)%Z → hex_digit (digit_char d) = Some d.
Proof.
  intros Hd. unfold digit_char, hex_digit, in_range. destruct (Z.ltb_spec d 10).
  - replace ((48 <=? 48 + d) && (48 + d <=? 57))%Z with true by lia. f_equal. lia.
  - replace ((48 <=? 87 + d) && (87 + d <=? 57))%Z with false by lia.
    replace ((97 <=? 87 + d) && (87 + d <=? 102))%Z with true by lia. f_equal. lia.
Qed.

Lemma digit_char_printable d : (0 <= d < 16)%Z → printable (digit_char d) = true ∧ digit_char d ≠ DOT.
Proof. intros Hd. unfold digit_char, printable, in_range, DOT. destruct (Z.ltb_spec d 10); lia. Qed.

Lemma nibbles g :
  is_u16 g →
  (0 <= g / 4096 < 16 ∧ 0 <= g / 256 mod 16 < 16 ∧ 0 <= g / 16 mod 16 < 16 ∧ 0 <= g mod 16 < 16)%Z ∧
  (((g / 4096 * 16 + g / 256 mod 16) * 16 + g / 16 mod 16) * 16 + g mod 16 = g)%Z.
Proof.
  intros Hg. unfold is_u16 in Hg. split; [split_and!; try (apply Z.mod_pos_bound; lia)|].
  - apply Z.div_pos; lia.
  - apply Z.div_lt_upper_bound; lia.
  - replace 4096%Z with (16 * 16 * 16)%Z by lia. replace 256%Z with (16 * 16)%Z by lia.
    rewrite <- !Z.div_div by lia. pose proof (Z.div_mod g 16). pose proof (Z.div_mod (g / 16) 16).
    pose proof (Z.div_mod (g / 16 / 16) 16). lia.
Qed.

Lemma read_group_hex4 g rest :
  is_u16 g → match rest with [] => True | c :: _ => hex_digit c = None end →
  read_group (hex4 g ++ rest) = Some (g, rest).
Proof.
  intros Hg Hrest. destruct (nibbles g Hg) as ((H1 & H2 & H3 & H4) & Hv).
  assert (digits_value 16 hex_digit 0 (hex4 g) = g) as Hd.
  { unfold digits_value, hex4. cbn [foldl]. rewrite !hex_digit_char by done. cbn [default from_option id]. lia. }
  unfold read_group, read_number. rewrite read_digits_value; [|..|done].
  - rewrite Hd. unfold is_u16 in Hg. cbn [mbind option_bind]. replace (65535 <? g)%Z with false by lia.
    done.
  - unfold hex4. repeat (constructor; [rewrite hex_digit_char by done; eauto|]). constructor.
  - done.
Qed.

(** Text without a dot is no IPv4 address. *)
Lemma read_digits_suffix radix dig b acc n s v k rest :
  read_digits radix dig b acc n s = Some (v, k, rest) → ∃ pre, s = pre ++ rest.
Proof.
  revert b acc n. induction s as [|c s IH]; intros b acc n; cbn [read_digits]; [intros [= _ _ <-]; by exists []|].
  destruct (dig c); [|intros [= _ _ <-]; by exists []]. destruct b; [done|].
  intros (pre & ->)%IH. by exists (c :: pre).
Qed.

Lemma read_ipv4_no_dot s : DOT ∉ s → read_ipv4_addr s = None.
Proof.
  intros Hs. unfold read_ipv4_addr. change (read_separator DOT 0 read_octet s) with (read_octet s).
  destruct (read_octet s) as [[a s1]|] eqn:Ha; [|done]. cbn [mbind option_bind].
  assert (DOT ∉ s1) as Hs1.
  { unfold read_octet, read_number in Ha. apply bind_Some in Ha as ([[v n] r] & Hd & Ha).
    apply read_digits_suffix in Hd as [pre ->].
    destruct (n =? 0); [done|]. destruct (_ && _); [done|]. destruct (255 <? v)%Z; [done|]. simplify_eq.
    intros Hin. apply Hs, elem_of_app. by right. }
  replace (read_separator DOT 1 read_octet s1) with (@None (Z * bytes)); [done|].
  unfold read_separator, read_given_char. destruct s1 as [|c s1]; [done|]. cbn.
  destruct (Z.eqb_spec c DOT) as [->|]; [|done]. destruct Hs1. by left.
Qed.

Lemma hex4_no_dot g : is_u16 g → DOT ∉ hex4 g.
Proof.
  intros [(H1 & H2 & H3 & H4) _]%nibbles.
  apply digit_char_printable in H1, H2, H3, H4. unfold hex4. rewrite !not_elem_of_cons.
  split_and!; (naive_solver || apply not_elem_of_nil).
Qed.

Lemma groups_text_no_dot i gs : Forall is_u16 gs → DOT ∉ groups_text i gs.
Proof.
  intros Hgs. revert i. induction Hgs as [|g gs Hg _ IH]; intros i; [apply not_elem_of_nil|].
  cbn [groups_text]. rewrite !not_elem_of_app. split_and!; [|by apply hex4_no_dot|apply IH].
  destruct (0 <? i); [|apply not_elem_of_nil]. by rewrite not_elem_of_cons; split; [|apply not_elem_of_nil].
Qed.

Lemma read_groups_text gs i :
  Forall is_u16 gs → read_groups (length gs) i (groups_text i gs) = (gs, false, []).
Proof.
  intros Hgs. revert i. induction Hgs as [|g gs Hg Hgs IH]; intros i; [done|].
  assert (∀ {A} (p : parser A), read_separator COLON i p (groups_text i (g :: gs)) =
    p (hex4 g ++ groups_text (S i) gs)) as Hsep.
  { intros A p. cbn [groups_text]. destruct i as [|i]; [done|]. apply read_separator_app. }
  cbn [length read_groups]. rewrite !Hsep.
  rewrite read_ipv4_no_dot by (rewrite not_elem_of_app; auto using hex4_no_dot, groups_text_no_dot).
  replace (if 0 <? length gs then None else None) with (@None (bytes * bytes)) by (by destruct (0 <? length gs)).
  rewrite read_group_hex4, IH by (done || by destruct gs). done.
Qed.

Lemma u16_to_from_be_bytes x y : is_u8 x → is_u8 y → u16_to_be_bytes (u16_from_be_bytes x y) = [x; y].
Proof.
  intros Hx Hy. unfold u16_to_be_bytes, u16_from_be_bytes, as_u8, is_u8 in *.
  rewrite Z.div_add_l, (Z.div_small y) by lia. rewrite Z.add_0_r, Z.mod_small by lia.
  rewrite (Z.add_comm (x * 2 ^ 8)), Z.mod_add, Z.mod_small by lia. done.
Qed.

Lemma octets_to_groups_spec a n :
  length a = 2 * n → wf_bytes a →
  length (octets_to_groups a) = n ∧ Forall is_u16 (octets_to_groups a) ∧
  groups_to_octets (octets_to_groups a) = a.
Proof.
  revert a. induction n as [|n IH]; intros a Hl Hw; [by destruct a|].
  destruct a as [|x [|y a]]; [cbn in Hl; lia..|]. cbn in Hl.
  unfold wf_bytes in Hw. rewrite !Forall_cons in Hw. destruct Hw as (Hx & Hy & Hw).
  destruct (IH a) as (H1 & H2 & H3); [lia|done|]. cbn [octets_to_groups length]. split_and!.
  - by rewrite H1.
  - constructor; [|done]. by apply u16_from_be_bytes_u16.
  - unfold groups_to_octets in *. cbn [fmap list_fmap concat]. rewrite H3.
    by rewrite u16_to_from_be_bytes.
Qed.

Lemma parse_ipv6_text a : wf_ipv6 a → parse_ipv6 (ipv6_text a) = Some a.
Proof.
  intros [Hl Hw]. destruct (octets_to_groups_spec a 8 Hl Hw) as (Hn & Hf & Ho).
  unfold parse_ipv6, parse_with, read_ipv6_addr, ipv6_text.
  replace (read_groups 8) with (read_groups (length (octets_to_groups a))) by (by rewrite Hn).
  rewrite read_groups_text by done. rewrite Hn. cbn [Nat.eqb]. by rewrite Ho.
Qed.

(** ** Lines *)

Definition name_field (n : bytes) : bytes := n ++ [DOT].
Definition quoted (t : bytes) : bytes := QUOTE :: t ++ [QUOTE].

(** The type and data of a record; only the ten kinds of a zone file have them. *)
Definition fields (r : DnsRecord.t) : list bytes :=
  match r with
  | DnsRecord.A _ a _ => [str "A"; ipv4_text a]
  | DnsRecord.AAAA _ a _ => [str "AAAA"; ipv6_text a]
  | DnsRecord.CNAME _ n _ => [str "CNAME"; name_field n]
  | DnsRecord.NS _ n _ => [str "NS"; name_field n]
  | DnsRecord.PTR _ n _ => [str "PTR"; name_field n]
  | DnsRecord.MX _ p n _ => [str "MX"; decimal p; name_field n]
  | DnsRecord.TXT _ t _ => str "TXT" :: split_on SPACE (quoted t)
  | DnsRecord.SRV _ p w o n _ => [str "SRV"; decimal p; decimal w; decimal o; name_field n]
  | DnsRecord.CAA _ f tag v _ => [str "CAA"; decimal f; tag] ++ split_on SPACE (quoted v)
  | DnsRecord.SOA _ m n s rf rt e mi _ =>
      [str "SOA"; name_field m; name_field n; decimal s; decimal rf; decimal rt; decimal e; decimal mi]
  | _ => []
  end.

Definition line_fields (r : DnsRecord.t) : list bytes :=
  name_field (DnsRecord.domain r) :: decimal (DnsRecord.ttl r) :: fields r.

Definition render (r : DnsRecord.t) : bytes := join_on SPACE (line_fields r).

(** What can be written: names of printable characters, the owner in lower case and
    not like a comment; texts of printable characters and single spaces that neither
    start nor end with a quote; numbers and addresses within their types. *)
Definition name_ok (n : bytes) : Prop := forallb printable n = true.
Definition owner_ok (n : bytes) : Prop := name_ok n ∧ ascii_lower <$> n = n ∧ head n ≠ Some 59%Z.
Definition text_ok (t : bytes) : Prop :=
  forallb textual t = true ∧ Forall (fun w => w ≠ []) (split_on SPACE (quoted t)) ∧
  head t ≠ Some QUOTE ∧ last t ≠ Some QUOTE.

Definition writable (r : DnsRecord.t) : Prop :=
  owner_ok (DnsRecord.domain r) ∧ is_u32 (DnsRecord.ttl r) ∧
  match r with
  | DnsRecord.A _ a _ => wf_ipv4 a
  | DnsRecord.AAAA _ a _ => wf_ipv6 a
  | DnsRecord.CNAME _ n _ | DnsRecord.NS _ n _ | DnsRecord.PTR _ n _ => name_ok n
  | DnsRecord.MX _ p n _ => is_u16 p ∧ name_ok n
  | DnsRecord.TXT _ t _ => text_ok t
  | DnsRecord.SRV _ p w o n _ => is_u16 p ∧ is_u16 w ∧ is_u16 o ∧ name_ok n
  | DnsRecord.CAA _ f tag v _ => is_u8 f ∧ word tag = true ∧ text_ok v
  | DnsRecord.SOA _ m n s rf rt e mi _ =>
      name_ok m ∧ name_ok n ∧ is_u32 s ∧ is_u32 rf ∧ is_u32 rt ∧ is_u32 e ∧ is_u32 mi
  | _ => False
  end.

Lemma word_name n : name_ok n → word (name_field n) = true.
Proof.
  unfold name_ok, word, name_field. intros Hn. rewrite bool_decide_false by (by destruct n).
  rewrite forallb_app, Hn. done.
Qed.

Lemma strip_name n : strip_trailing_dot (name_field n) = n.
Proof. unfold strip_trailing_dot, strip_suffix_char, name_field. rewrite rev_app_distr. cbn. apply rev_involutive. Qed.

Lemma owner_lower `{Unicode} n : owner_ok n → to_lowercase (name_field n) = name_field n.
Proof.
  intros (Hn & Hl & _). rewrite to_lowercase_ascii.
  - unfold name_field. by rewrite fmap_app, Hl.
  - unfold is_ascii, name_field. rewrite forallb_app. apply andb_true_iff. split; [|done].
    unfold name_ok in Hn. rewrite forallb_forall in Hn |- *. intros c Hc%Hn.
    unfold printable, in_range in Hc. lia.
Qed.

Lemma split_on_textual c t :
  forallb textual t = true → Forall (fun w => forallb textual w = true) (split_on c t).
Proof.
  induction t as [|x t IH]; intros Ht; [by repeat constructor|]. cbn [forallb] in Ht.
  apply andb_true_iff in Ht as [Hx Ht]. specialize (IH Ht). cbn [split_on].
  destruct (x =? c)%Z; [by constructor|]. destruct (split_on c t) as [|l ls]; [by constructor; cbn; rewrite ?Hx|].
  inv IH as [|? ? Hl Hls]. constructor; [|done]. cbn. by rewrite Hx.
Qed.

Lemma word_pieces t :
  forallb textual t = true → Forall (fun w => w ≠ []) (split_on SPACE t) →
  Forall (fun w => word w = true) (split_on SPACE t).
Proof.
  intros Ht Hne. pose proof (split_on_clean SPACE t) as Hc. apply (split_on_textual SPACE) in Ht as Hx.
  rewrite Forall_forall in *. intros w Hw. specialize (Hne w Hw). specialize (Hc w Hw). specialize (Hx w Hw).
  unfold word. rewrite bool_decide_false by done. apply forallb_forall. intros c Hcw.
  rewrite forallb_forall in Hx. specialize (Hx c Hcw). apply list_elem_of_In in Hcw.
  assert (c ≠ 32%Z) by (intros ->; done). unfold textual, printable, in_range in *. lia.
Qed.

Lemma word_quoted t : text_ok t → Forall (fun w => word w = true) (split_on SPACE (quoted t)).
Proof.
  intros (Ht & Hne & _). apply word_pieces; [|done]. unfold quoted. cbn. by rewrite forallb_app, Ht.
Qed.

Lemma trim_quoted t : head t ≠ Some QUOTE → last t ≠ Some QUOTE → trim_matches QUOTE (quoted t) = t.
Proof.
  intros Hh Hl. destruct t as [|x t]; [done|].
  unfold trim_matches, trim_start_matches, trim_end_matches, quoted. cbn [app drop_while].
  rewrite Z.eqb_refl. destruct (Z.eqb_spec QUOTE x) as [<-|_]; [done|].
  change (x :: t ++ [QUOTE]) with ((x :: t) ++ [QUOTE]). rewrite rev_app_distr. cbn [rev app drop_while].
  rewrite Z.eqb_refl. change (rev t ++ [x]) with (rev (x :: t)).
  destruct (x :: t) as [|y l _] using rev_ind; [done|]. rewrite rev_app_distr. cbn [rev app drop_while].
  destruct (Z.eqb_spec QUOTE y) as [<-|_]; [by rewrite last_snoc in Hl|].
  cbn. by rewrite rev_involutive.
Qed.

Lemma printable_join c ls :
  printable c = true → Forall (fun l => forallb printable l = true) ls → forallb printable (join_on c ls) = true.
Proof.
  intros Hc. induction 1 as [|l ls Hl Hls IH]; [done|]. destruct ls as [|l' ls]; [done|].
  rewrite join_on_cons, forallb_app, Hl by done. cbn [forallb]. by rewrite Hc, IH.
Qed.

Lemma word_ipv4 a : wf_ipv4 a → word (ipv4_text a) = true.
Proof.
  intros [Hl Hw]. assert (∀ o, is_u8 o → word (decimal_n 3 o) = true) as Ho.
  { intros o Ho. destruct (decimal_n_spec 3 o) as (Hf & _ & Hn); [cbn; width_lia|].
    apply digits_word; [done|apply Hn; lia]. }
  unfold word, ipv4_text. apply andb_true_iff. split.
  - destruct a as [|x [|y a]]; [done..|]. inv Hw as [|? ? Hx _]. specialize (Ho x Hx).
    cbn [fmap list_fmap]. rewrite join_on_cons by done. rewrite bool_decide_false; [done|].
    destruct (decimal_n 3 x); done.
  - apply printable_join; [done|]. apply Forall_fmap. eapply Forall_impl; [exact Hw|]. intros o Hx%Ho.
    by apply andb_true_iff in Hx as [_ Hx].
Qed.

Lemma printable_groups i gs : Forall is_u16 gs → forallb printable (groups_text i gs) = true.
Proof.
  intros Hgs. revert i. induction Hgs as [|g gs Hg _ IH]; intros i; [done|]. cbn [groups_text].
  rewrite !forallb_app, IH, andb_true_r. apply nibbles in Hg as [(H1 & H2 & H3 & H4) _].
  apply digit_char_printable in H1, H2, H3, H4. destruct H1 as [H1 _], H2 as [H2 _], H3 as [H3 _], H4 as [H4 _].
  unfold hex4. cbn [forallb]. rewrite H1, H2, H3, H4. by destruct (0 <? i).
Qed.

Lemma word_ipv6 a : wf_ipv6 a → word (ipv6_text a) = true.
Proof.
  intros [Hl Hw]. destruct (octets_to_groups_spec a 8 Hl Hw) as (Hn & Hf & _). unfold word, ipv6_text.
  rewrite printable_groups by done. by destruct (octets_to_groups a).
Qed.

Create HintDb line.
#[export] Hint Resolve word_name word_decimal word_ipv4 word_ipv6 word_quoted : line.

Lemma u16_u32 z : is_u16 z → is_u32 z.
Proof. width_lia. Qed.
Lemma u8_u32 z : is_u8 z → is_u32 z.
Proof. width_lia. Qed.
#[export] Hint Resolve u16_u32 u8_u32 : line.

Lemma word_fields r : writable r → Forall (fun w => word w = true) (line_fields r).
Proof.
  intros ((Hn & _) & Ht & Hr). unfold line_fields. do 2 (constructor; [auto with line|]).
  destruct r; try done; cbn [fields]; destruct_and?; try (repeat (constructor; [auto with line|]); constructor; fail).
  - constructor; [done|]. by apply word_quoted.
  - repeat (constructor; [auto with line; done|]). by apply word_quoted.
Qed.

Lemma split_render r : writable r → split_whitespace (render r) = line_fields r.
Proof. intros Hr. by apply split_whitespace_join, word_fields. Qed.

(** Selects the branch of [parse_typed] for a given type. *)
Ltac choose_type :=
  unfold parse_typed;
  repeat (rewrite bool_decide_false by (intros Hty; vm_compute in Hty; discriminate Hty));
  rewrite bool_decide_true by reflexivity.

Lemma parse_u16_decimal z : is_u16 z → parse_u16 (decimal z) = Some z.
Proof. intros Hz. apply parse_uint_decimal; width_lia. Qed.
Lemma parse_u32_decimal z : is_u32 z → parse_u32 (decimal z) = Some z.
Proof. intros Hz. apply parse_uint_decimal; width_lia. Qed.
Lemma parse_u8_decimal z : is_u8 z → parse_u8 (decimal z) = Some z.
Proof. intros Hz. apply parse_uint_decimal; width_lia. Qed.

(** One field of the line at a time. *)
Ltac read_fields :=
  repeat first
    [ rewrite parse_u8_decimal by done | rewrite parse_u16_decimal by done | rewrite parse_u32_decimal by done
    | rewrite strip_name | rewrite parse_ipv4_text by done | rewrite parse_ipv6_text by done
    | progress cbn -[decimal name_field ipv4_text ipv6_text split_on strip_trailing_dot parse_u8 parse_u16
                     parse_u32 parse_ipv4 parse_ipv6 trim_matches quoted str] ].

Lemma caa_fields parts domain ttl f tag v ws :
  parts = name_field domain :: decimal ttl :: str "CAA" :: decimal f :: tag :: ws → ws ≠ [] → is_u8 f →
  trim_matches QUOTE (join_on SPACE ws) = v →
  parse_caa parts domain ttl = Ok (DnsRecord.CAA domain f tag v ttl).
Proof.
  intros -> Hws Hf <-. destruct ws as [|w ws]; [done|]. unfold parse_caa. cbn [length Nat.ltb Nat.leb].
  unfold idx. cbn [lookup list_lookup mbind res_bind]. by rewrite parse_u8_decimal.
Qed.

Lemma parse_typed_fields r rtype :
  writable r → line_fields r !! 2 = Some rtype →
  parse_typed rtype (line_fields r) (DnsRecord.domain r) (DnsRecord.ttl r)
    (join_on SPACE (drop 3 (line_fields r))) = Ok (Some r).
Proof.
  intros (_ & _ & Hr) Hty. unfold line_fields in *.
  destruct r; try done; cbn in Hty; injection Hty as <-; cbn [fields DnsRecord.domain DnsRecord.ttl];
    choose_type; destruct_and?; try (by read_fields); cbn [drop app].
  - destruct Hr as (_ & _ & Hh & Hl). by rewrite drop_0, join_split, trim_quoted.
  - match goal with H : text_ok _ |- _ => destruct H as (_ & _ & Hh & Hl) end.
    erewrite caa_fields; [done|reflexivity|apply split_on_ne|done|]. by rewrite join_split, trim_quoted.
Qed.

Lemma length_fields r : writable r → 4 ≤ length (line_fields r).
Proof.
  intros (_ & _ & Hr). unfold line_fields. destruct r; try done; cbn [fields length app]; try lia.
  pose proof (split_on_ne SPACE (quoted text)). destruct (split_on SPACE (quoted text)); [done|cbn; lia].
Qed.

(** What is written is read back. *)
Lemma parse_line_writes `{Unicode} r : writable r → parse_line (render r) = Ok (Some (DnsRecord.domain r, r)).
Proof.
  intros Hr. unfold parse_line. rewrite split_render by done. cbn zeta.
  pose proof (length_fields r Hr) as Hl.
  rewrite (proj2 (Nat.ltb_ge _ _)) by done. destruct Hr as (Ho & Ht & Hr).
  destruct (line_fields r !! 2) as [rtype|] eqn:Hty; [|apply lookup_ge_None in Hty; lia].
  unfold idx. rewrite Hty. cbn [line_fields lookup list_lookup mbind res_bind].
  rewrite owner_lower, strip_name, parse_u32_decimal by done. cbn [parse_ctx mbind res_bind].
  by rewrite parse_typed_fields.
Qed.

(** ** Files *)

(** A zone file: a line for each record. *)
Definition zone_text_of (rs : list DnsRecord.t) : bytes := concat ((fun r => render r ++ [10%Z]) <$> rs).

(** The records of a name. *)
Definition owned_by (k : bytes) (rs : list DnsRecord.t) : list DnsRecord.t :=
  filter (fun r => DnsRecord.domain r = k) rs.

Lemma textual_join ws :
  Forall (fun w => word w = true) ws → forallb textual (join_on SPACE ws) = true.
Proof.
  induction 1 as [|w ws Hw _ IH]; [done|].
  assert (forallb textual w = true) as Hx.
  { apply andb_true_iff in Hw as [_ Hw]. rewrite forallb_forall in *. intros c Hc. by apply printable_textual, Hw. }
  destruct ws as [|w' ws]; [done|]. rewrite join_on_cons, forallb_app, Hx by done. cbn [forallb]. by rewrite IH.
Qed.

Lemma render_textual r : writable r → forallb textual (render r) = true.
Proof. intros Hr. by apply textual_join, word_fields. Qed.

(** The last character of words joined by spaces is printable. *)
Lemma last_join ws :
  Forall (fun w => word w = true) ws → ws ≠ [] →
  ∃ s c, join_on SPACE ws = s ++ [c] ∧ printable c = true.
Proof.
  induction 1 as [|w ws Hw Hws IH]; [done|]. intros _. destruct ws as [|w' ws].
  - cbn. unfold word in Hw. apply andb_true_iff in Hw as [Hne Hw].
    destruct w as [|c s _] using rev_ind; [done|]. exists s, c. split; [done|].
    rewrite forallb_app in Hw. apply andb_true_iff in Hw as [_ Hc]. cbn in Hc. by rewrite andb_true_r in Hc.
  - destruct IH as (s & c & He & Hc); [done|]. rewrite join_on_cons by done. rewrite He.
    exists (w ++ SPACE :: s), c. split; [by rewrite <- app_assoc|done].
Qed.

Lemma ws_len_le1 s : forallb textual s = true → ws_len s ≤ 1.
Proof.
  destruct s as [|c s]; [cbn; lia|]. cbn [forallb]. intros [Hc _]%andb_true_iff.
  rewrite ws_len_textual by done. destruct (c =? 32)%Z; lia.
Qed.

Lemma forallb_drop {A} (P : A → bool) n s : forallb P s = true → forallb P (drop n s) = true.
Proof. rewrite !forallb_forall. intros Hs c Hc. apply Hs. rewrite <- (firstn_skipn n s). apply in_app_iff. by right. Qed.

(** A line that starts and ends with a printable character is trimmed already. *)
Lemma trim_textual s c d t :
  forallb textual s = true → s = c :: t → printable c = true → (∃ s', s = s' ++ [d]) → printable d = true →
  trim s = s.
Proof.
  intros Hs Hc Hpc (s' & Hd) Hpd. unfold trim.
  assert (trim_start s = s) as ->.
  { unfold trim_start. rewrite Hc. cbn [length trim_start_n]. by rewrite ws_len_printable. }
  unfold trim_end. assert (ws_len_end s = 0) as He.
  { unfold ws_len_end. pose proof (ws_len_le1 (drop (length s - 2) s) (forallb_drop _ _ _ Hs)).
    pose proof (ws_len_le1 (drop (length s - 3) s) (forallb_drop _ _ _ Hs)).
    replace (drop (length s - 1) s) with [d].
    - rewrite ws_len_printable by done. cbn [Nat.eqb].
      rewrite (proj2 (Nat.eqb_neq (ws_len (drop (length s - 2) s)) 2)) by lia.
      by rewrite (proj2 (Nat.eqb_neq (ws_len (drop (length s - 3) s)) 3)) by lia.
    - rewrite Hd, length_app. cbn. rewrite Nat.add_sub, drop_app_length. done. }
  rewrite Hc at 1. cbn [length trim_end_n]. by rewrite He.
Qed.

Lemma zone_line_writes `{Unicode} r : writable r → zone_line (render r) = Ok (Some (DnsRecord.domain r, r)).
Proof.
  intros Hr. pose proof (parse_line_writes r Hr) as Hp. pose proof (word_fields r Hr) as Hw.
  assert (∃ c t, render r = c :: t ∧ printable c = true ∧ (c ≠ 59)%Z) as (c & t & Hc & Hpc & H59).
  { destruct Hr as ((Hn & _ & Hh) & _). unfold render, line_fields. rewrite join_on_cons by done.
    unfold name_field. destruct (DnsRecord.domain r) as [|x n]; cbn; [by eexists _, _|].
    unfold name_ok in Hn. cbn in Hn. apply andb_true_iff in Hn as [Hx _]. eexists _, _. split_and!; [done..|].
    intros ->. by apply Hh. }
  destruct (last_join (line_fields r) Hw) as (s & d & Hd & Hpd); [done|].
  unfold zone_line. erewrite (trim_textual (render r) c d t); eauto using render_textual.
  rewrite Hc in *. by rewrite (proj2 (Z.eqb_neq c 59)).
Qed.

Lemma split_zone_text rs :
  Forall writable rs → split_on 10 (zone_text_of rs) = (render <$> rs) ++ [[]].
Proof.
  induction 1 as [|r rs Hr _ IH]; [done|]. unfold zone_text_of in *. cbn [fmap list_fmap concat app].
  rewrite <- app_assoc. cbn [app]. rewrite split_on_app_sep, IH; [done|].
  intros Hin%list_elem_of_In. apply render_textual in Hr. rewrite forallb_forall in Hr. by apply Hr in Hin.
Qed.

Lemma strip_cr_render r : writable r → strip_cr (render r) = render r.
Proof.
  intros Hr. destruct (last_join (line_fields r) (word_fields r Hr)) as (s & d & Hd & Hpd); [done|].
  unfold strip_cr, strip_suffix_char, render. rewrite Hd, rev_app_distr. cbn.
  destruct (Z.eqb_spec d 13) as [->|]; done.
Qed.

Lemma lines_zone_text rs : Forall writable rs → lines (zone_text_of rs) = render <$> rs.
Proof.
  intros Hrs. unfold lines. rewrite split_zone_text by done. cbv zeta.
  rewrite removelast_last, List.last_last, app_nil_r, <- list_fmap_compose.
  apply list_fmap_ext. intros i r Hi. apply strip_cr_render. by eapply Forall_lookup_1 in Hi.
Qed.

(** The lines of a name are its records. *)
Lemma records_of_render `{Unicode} rs k : Forall writable rs → records_of (render <$> rs) k = owned_by k rs.
Proof.
  unfold records_of, owned_by. induction 1 as [|r rs Hr _ IH]; [done|].
  cbn [fmap list_fmap omap list_omap]. rewrite zone_line_writes by done. rewrite filter_cons.
  destruct (decide (DnsRecord.domain r = k)); by rewrite IH.
Qed.

Section Properties.
Context `{Unicode}.

(** A zone file that was written is read back: the lines of any list of writable
    records (all ten kinds, every number, address and text their types allow)
    load as the zone that maps each name to exactly its records, in order. *)
Theorem zone_file_roundtrip (fs : bytes → option bytes) (path : bytes) (rs : list DnsRecord.t) :
  Forall writable rs → fs path = Some (zone_text_of rs) →
  ∃ zone, load_zone_file fs path = Ok zone ∧
    ∀ k, zone !! k = if decide (owned_by k rs = []) then None else Some (owned_by k rs).
Proof.
  intros Hrs Hf. unfold load_zone_file. rewrite Hf. eexists. split; [done|]. intros k.
  by rewrite load_lines_lookup, lines_zone_text, records_of_render.
Qed.

(** A quoted text loses its runs of spaces: the line is split before the quotes are
    looked at. *)
Theorem quoted_spaces_collapse :
  parse_line (str "a. 60 TXT " ++ quoted (str "x" ++ [SPACE; SPACE] ++ str "y")) =
  Ok (Some (str "a", DnsRecord.TXT (str "a") (str "x y") 60)).
Proof. vm_compute. reflexivity. Qed.

End Properties.

(** ** Witnesses *)

Definition sample_zone_records : list DnsRecord.t :=
  [DnsRecord.SOA (str "b") (str "ns.b") (str "admin.b") 2024010101 7200 3600 1209600 300 3600;
   DnsRecord.AAAA (str "www.b") [32; 1; 13; 184; 0; 0; 0; 0; 0; 0; 0; 0; 0; 0; 0; 255]%Z 60;
   DnsRecord.TXT (str "www.b") (str "v=spf1 -all") 60;
   DnsRecord.CAA (str "b") 0 (str "issue") (str "ca.example") 4294967295].

Lemma zone_file_roundtrip_witness :
  ∃ zone, @load_zone_file ascii_unicode
    (fun p => if bool_decide (p = str "z") then Some (zone_text_of sample_zone_records) else None) (str "z")
    = Ok zone ∧ zone !! str "b" = Some (owned_by (str "b") sample_zone_records).
Proof.
  destruct (@zone_file_roundtrip ascii_unicode
    (fun p => if bool_decide (p = str "z") then Some (zone_text_of sample_zone_records) else None) (str "z")
    sample_zone_records) as (zone & Hz & Hk).
  - unfold sample_zone_records, writable, owner_ok, name_ok, text_ok, wf_ipv6, wf_bytes, is_u8, is_u16, is_u32.
    repeat constructor; vm_compute; (reflexivity || congruence || discriminate || lia).
  - vm_compute. reflexivity.
  - exists zone. split; [exact Hz|]. rewrite Hk. vm_compute. reflexivity.
Defined.
