(* ===== verification/Resolver.v ===== *)
(** * Authoritative resolution

    Models [src/src/dns/resolver.rs]: [build_response] turns a query into a
    response from the authoritative zones, with wildcard lookup, CNAME chasing,
    the NXDOMAIN/NODATA decision, the SOA of negative answers and the EDNS echo.
    The chase is related to a declarative account of CNAME chains ([Chain]). *)

From S2P Require Import Prelude RustStd Message Packet Encoder Zones.

Definition MAX_CNAME_CHAIN : nat := 16.

(** The [while let Some(pos) = remainder.find('.')] loop: each parent suffix, from
    most to least specific. *)
Fixpoint lookup_wildcard (rs : Zone) (remainder : bytes) : option (list DnsRecord.t) :=
  match remainder with
  | [] => None
  | c :: rest =>
      if Z.eqb c DOT then
        match rs !! (STAR_DOT ++ rest) with
        | Some r => Some r
        | None => lookup_wildcard rs rest
        end
      else lookup_wildcard rs rest
  end.

Definition lookup (rs : Zone) (name : bytes) : option (list DnsRecord.t) :=
  match rs !! name with
  | Some r => Some r
  | None => lookup_wildcard rs name
  end.

Definition zone_soa `{HashIter} (rs : Zone) : option DnsRecord.t :=
  List.find DnsRecord.is_SOA (values_flatten rs).

(** The local variables of [build_response] during the chase. *)
Record chase_state := mkChase {
  cs_name : bytes;
  cs_seen : gset bytes;
  cs_answers : list DnsRecord.t;
  cs_rcode : Z;
  cs_authoritative : bool;
  cs_zone : option AuthZone;
}.

Definition of_type (qtype : Z) (r : DnsRecord.t) : bool :=
  Z.eqb (DnsRecord.record_type r) qtype.

(** One pass of the loop body: the new state, and whether the loop goes on. *)
Definition chase_step `{Unicode} (zones : ZoneSet.t) (qt : Z) (c : chase_state)
    : chase_state * bool :=
  let name := cs_name c in
  if bool_decide (name ∈ cs_seen c) then (c, false)
  else
  let seen := {[ name ]} ∪ cs_seen c in
  let missing :=
    if bool_decide (cs_answers c = []) then 3%Z else cs_rcode c in
  match ZoneSet.find zones name with
  | None =>
      (mkChase name seen (cs_answers c) missing (cs_authoritative c) (cs_zone c), false)
  | Some zone =>
      let mz := match cs_zone c with None => Some zone | Some z => Some z end in
      match lookup (records zone) name with
      | None => (mkChase name seen (cs_answers c) missing (cs_authoritative c) mz, false)
      | Some rs =>
          let direct := List.filter (of_type qt) rs in
          if negb (bool_decide (direct = [])) then
            (mkChase name seen
               (cs_answers c ++ ((fun r => DnsRecord.with_domain r name) <$> direct))
               (cs_rcode c) true mz, false)
          else
            match List.find (of_type DnsRecord.TYPE_CNAME) rs with
            | Some cname =>
                let ans := cs_answers c ++ [DnsRecord.with_domain cname name] in
                match cname with
                | DnsRecord.CNAME _ alias _ =>
                    (mkChase (to_lowercase alias) seen ans (cs_rcode c) true mz, true)
                | _ => (mkChase name seen ans (cs_rcode c) true mz, false)
                end
            | None => (mkChase name seen (cs_answers c) (cs_rcode c) true mz, false)
            end
      end
  end.

(** [for _ in 0..n] with [break]. *)
Fixpoint chase `{Unicode} (zones : ZoneSet.t) (qt : Z) (n : nat) (c : chase_state)
    : chase_state :=
  match n with
  | 0 => c
  | S n' =>
      let '(c', go) := chase_step zones qt c in
      if go then chase zones qt n' c' else c'
  end.

(** The state when the chase is over. *)
Definition chase_question `{Unicode} (request : DnsPacket) (zones : ZoneSet.t) : chase_state :=
  match head (questions request) with
  | None => mkChase [] ∅ [] 0 false None
  | Some q =>
      let name := to_lowercase (qname q) in
      chase zones (qtype q) MAX_CNAME_CHAIN
        (mkChase name ∅ [] 0 false (ZoneSet.find zones name))
  end.

(** The SOA of a negative answer. *)
Definition negative_soa `{HashIter} (c : chase_state) : option DnsRecord.t :=
  if bool_decide (cs_answers c = []) then
    zone ← cs_zone c; zone_soa (records zone)
  else None.

(** The OPT record echoed to an EDNS client. *)
Definition edns_echo (request : DnsPacket) : list DnsRecord.t :=
  match edns_udp_size request with
  | Some s => [DnsRecord.OPT ((Z.of_nat MAX_UDP_SIZE) `max` (s `min` Z.of_nat MAX_EDNS_UDP))]
  | None => []
  end.

Definition response_flags (request_flags rcode : Z) (authoritative : bool) : Z :=
  let flags := Z.lor (Z.lor 32768 (Z.land request_flags 256)) rcode in
  if authoritative then Z.lor flags 1024 else flags.

Definition build_response `{Unicode, HashIter} (request : DnsPacket) (zones : ZoneSet.t)
    : DnsPacket :=
  let c := chase_question request zones in
  let authorities := match negative_soa c with Some soa => [soa] | None => [] end in
  let authoritative := match negative_soa c with Some _ => true | None => cs_authoritative c end in
  let flags := response_flags (h_flags (header request)) (cs_rcode c) authoritative in
  let additionals := edns_echo request in
  mkPacket
    (mkHeader (h_id (header request)) flags (len_u16 (questions request))
       (len_u16 (cs_answers c)) (len_u16 authorities) (len_u16 additionals))
    (questions request) (cs_answers c) authorities additionals.

(** ** The declarative account *)

Section Spec.
Context `{Unicode} (zones : ZoneSet.t) (qt : Z).

(** The records at a name: those of the zone that covers it. *)
Definition node (name : bytes) : option (list DnsRecord.t) :=
  zone ← ZoneSet.find zones name; lookup (records zone) name.

(** The records of the requested type at a name, with that name as owner. *)
Definition direct_answers (name : bytes) : list DnsRecord.t :=
  match node name with
  | Some rs => (fun r => DnsRecord.with_domain r name) <$> List.filter (of_type qt) rs
  | None => []
  end.

(** [name] is an alias: it has no record of the requested type, and its first
    CNAME record points at [alias]. *)
Definition alias_of (name : bytes) : option (bytes * Z) :=
  rs ← node name;
  if bool_decide (List.filter (of_type qt) rs = []) then
    r ← List.find (of_type DnsRecord.TYPE_CNAME) rs;
    match r with DnsRecord.CNAME _ alias ttl => Some (alias, ttl) | _ => None end
  else None.

(** [CnameChain name cn last]: the CNAME records [cn] lead from [name] to [last]. *)
Inductive CnameChain : bytes → list DnsRecord.t → bytes → Prop :=
| Chain_nil name : CnameChain name [] name
| Chain_cons name alias ttl cn last :
    alias_of name = Some (alias, ttl) →
    CnameChain (to_lowercase alias) cn last →
    CnameChain name (DnsRecord.CNAME name alias ttl :: cn) last.

Lemma cname_type r : of_type DnsRecord.TYPE_CNAME r = true →
  ∃ d alias ttl, r = DnsRecord.CNAME d alias ttl.
Proof. destruct r; try done; eauto. Qed.

(** The step of the loop, in terms of [node] and [alias_of]. *)
Lemma chase_step_cases c :
  (cs_name c ∈ cs_seen c ∧ chase_step zones qt c = (c, false)) ∨
  (cs_name c ∉ cs_seen c ∧ ∃ mz,
    (mz = cs_zone c ∨ (cs_zone c = None ∧ mz = ZoneSet.find zones (cs_name c))) ∧
    let seen := {[ cs_name c ]} ∪ cs_seen c in
    match node (cs_name c), alias_of (cs_name c) with
    | None, _ =>
        chase_step zones qt c =
          (mkChase (cs_name c) seen (cs_answers c)
             (if bool_decide (cs_answers c = []) then 3%Z else cs_rcode c)
             (cs_authoritative c) mz, false)
    | Some _, Some (alias, ttl) =>
        chase_step zones qt c =
          (mkChase (to_lowercase alias) seen
             (cs_answers c ++ [DnsRecord.CNAME (cs_name c) alias ttl])
             (cs_rcode c) true mz, true)
    | Some _, None =>
        chase_step zones qt c =
          (mkChase (cs_name c) seen (cs_answers c ++ direct_answers (cs_name c))
             (cs_rcode c) true mz, false)
    end).
Proof.
  unfold chase_step, alias_of, direct_answers, node.
  case_bool_decide as Hs; [by left|right; split; [done|]].
  destruct (ZoneSet.find zones (cs_name c)) as [zone|] eqn:Hz; cbn; [|by exists (cs_zone c); auto].
  exists (match cs_zone c with None => Some zone | Some z => Some z end).
  split; [destruct (cs_zone c); auto|].
  destruct (lookup (records zone) (cs_name c)) as [rs|] eqn:Hl; cbn; [|done].
  destruct (bool_decide_reflect (List.filter (of_type qt) rs = [])) as [Hd|Hd]; cbn; [|done].
  rewrite Hd. destruct (List.find _ rs) as [r|] eqn:Hr; cbn; [|by rewrite app_nil_r].
  apply find_Some_elem in Hr as [_ (d & al & tt & ->)%cname_type]. done.
Qed.

Lemma alias_no_direct name a : alias_of name = Some a → direct_answers name = [].
Proof.
  unfold alias_of, direct_answers. destruct (node name) as [rs|]; cbn; [|done].
  case_bool_decide as Hd; [by rewrite Hd|done].
Qed.

Lemma missing_no_direct name : node name = None → direct_answers name = [] ∧ alias_of name = None.
Proof. unfold alias_of, direct_answers. by intros ->. Qed.

(** The chase from any state whose visited names have no direct answer. *)
Lemma chase_answers n c :
  (∀ o, o ∈ cs_seen c → direct_answers o = []) →
  ∃ cn last,
    CnameChain (cs_name c) cn last ∧ length cn ≤ n ∧
    NoDup (DnsRecord.domain <$> cn) ∧
    (∀ o, o ∈ DnsRecord.domain <$> cn → o ∉ cs_seen c) ∧
    cs_answers (chase zones qt n c) =
      cs_answers c ++ cn ++ (if length cn <? n then direct_answers last else []) ∧
    (length cn < n →
     last ∈ cs_seen c ∨ last ∈ DnsRecord.domain <$> cn ∨ alias_of last = None).
Proof.
  revert c. induction n as [|n IH]; intros c Hseen.
  { exists [], (cs_name c). cbn. rewrite app_nil_r.
    split_and!; [constructor|lia|constructor|set_solver|done|lia]. }
  cbn [chase].
  destruct (chase_step_cases c) as [[Hin ->]|[Hnin (mz & _ & Hc)]].
  { exists [], (cs_name c). cbn. rewrite Hseen, app_nil_r by done.
    split_and!; [constructor|lia|constructor|set_solver|done|auto]. }
  cbn in Hc. destruct (node (cs_name c)) as [rs|] eqn:Hn.
  2:{ rewrite Hc. exists [], (cs_name c). cbn.
      destruct (missing_no_direct _ Hn) as [-> ->]. rewrite app_nil_r.
      split_and!; [constructor|lia|constructor|set_solver|done|auto]. }
  destruct (alias_of (cs_name c)) as [[alias ttl]|] eqn:Ha; rewrite Hc.
  2:{ exists [], (cs_name c). cbn. split_and!; [constructor|lia|constructor|set_solver|done|auto]. }
  edestruct IH as (cn & last & Hch & Hlen & Hnd & Hout & Hans & Hstop).
  2:{ exists (DnsRecord.CNAME (cs_name c) alias ttl :: cn), last.
      cbn in Hout |- *. rewrite Hans. cbn [cs_answers cs_name cs_seen] in *.
      rewrite <- (assoc_L (++)). split_and!.
      - by constructor.
      - lia.
      - constructor; [|done]. intros Hi%Hout. set_solver.
      - intros o [->|Ho]%elem_of_cons; [done|]. apply Hout in Ho. set_solver.
      - done.
      - intros Hlt. destruct Hstop as [Hs|[Hs|Hs]]; [lia|set_solver..]. }
  cbn. intros o [->%elem_of_singleton|Ho]%elem_of_union; [by eapply alias_no_direct|auto].
Qed.

(** Once an answer is recorded, the response code is settled. *)
Lemma chase_rcode n c :
  cs_answers c ≠ [] → cs_rcode (chase zones qt n c) = cs_rcode c.
Proof.
  revert c. induction n as [|n IH]; intros c Hne; [done|]. cbn [chase].
  destruct (chase_step_cases c) as [[_ ->]|[_ (mz & _ & Hc)]]; [done|]. cbn in Hc.
  destruct (node (cs_name c)); [|rewrite Hc; by rewrite bool_decide_false].
  destruct (alias_of (cs_name c)) as [[??]|]; rewrite Hc; [|done].
  rewrite IH; [done|]. cbn. by destruct (cs_answers c).
Qed.

Lemma chase_authoritative n c :
  cs_authoritative c = true → cs_authoritative (chase zones qt n c) = true.
Proof.
  revert c. induction n as [|n IH]; intros c Hne; [done|]. cbn [chase].
  destruct (chase_step_cases c) as [[_ ->]|[_ (mz & _ & Hc)]]; [done|]. cbn in Hc.
  destruct (node (cs_name c)); [|by rewrite Hc].
  destruct (alias_of (cs_name c)) as [[??]|]; rewrite Hc; [by apply IH|done].
Qed.

Lemma chase_zone n c z : cs_zone c = Some z → cs_zone (chase zones qt n c) = Some z.
Proof.
  revert c. induction n as [|n IH]; intros c Hz; [done|]. cbn [chase].
  destruct (chase_step_cases c) as [[_ ->]|[_ (mz & Hmz & Hc)]]; [done|]. cbn in Hc.
  assert (mz = Some z) as -> by naive_solver.
  destruct (node (cs_name c)); [|by rewrite Hc].
  destruct (alias_of (cs_name c)) as [[??]|]; rewrite Hc; [by apply IH|done].
Qed.

End Spec.

(** ** Lookup with wildcards *)

Lemma lookup_wildcard_ancestors (rs : Zone) name :
  lookup_wildcard rs name = find_map (fun s => rs !! (STAR_DOT ++ s)) (ancestors name).
Proof.
  induction name as [|c name IH]; cbn [lookup_wildcard ancestors find_map]; [done|].
  destruct (Z.eqb c DOT); [|done]. cbn [find_map]. by rewrite IH.
Qed.

Lemma find_map_ancestors (rs : Zone) name :
  match find_map (fun s => rs !! (STAR_DOT ++ s)) (ancestors name) with
  | Some r => ∃ s, s ∈ ancestors name ∧ rs !! (STAR_DOT ++ s) = Some r ∧
      ∀ s', s' ∈ ancestors name → length s < length s' → rs !! (STAR_DOT ++ s') = None
  | None => ∀ s, s ∈ ancestors name → rs !! (STAR_DOT ++ s) = None
  end.
Proof.
  induction name as [|c name IH]; cbn [ancestors]; [cbn; set_solver|].
  destruct (Z.eqb c DOT); [|done]. cbn [find_map].
  destruct (rs !! (STAR_DOT ++ name)) as [r|] eqn:E.
  - exists name. split_and!; [set_solver|done|].
    intros s' [->|Hs]%elem_of_cons Hlt; [lia|].
    pose proof (ancestors_length name) as Hl. rewrite Forall_forall in Hl.
    apply Hl in Hs. lia.
  - destruct (find_map _ (ancestors name)) as [r|]; set_solver.
Qed.

(** ** Response flags *)

Lemma land_bit z n : (0 <= n)%Z → Z.land z (2 ^ n) = if Z.testbit z n then (2 ^ n)%Z else 0%Z.
Proof.
  intros Hn. apply Z.bits_inj'. intros m Hm. rewrite Z.land_spec, Z.pow2_bits_eqb by done.
  destruct (Z.eqb_spec n m) as [->|Hne].
  - destruct (Z.testbit z m) eqn:E; [by rewrite Z.pow2_bits_true|by rewrite Z.bits_0].
  - rewrite andb_false_r. destruct (Z.testbit z n); [|by rewrite Z.bits_0].
    by rewrite Z.pow2_bits_false.
Qed.

(** Header bits (RFC 1035 section 4.1.1): QR 15, AA 10, TC 9, RD 8, RA 7, RCODE 0-3. *)
Definition rcode (p : DnsPacket) : Z := Z.land (h_flags (header p)) 15.
Definition flag (i : Z) (p : DnsPacket) : bool := Z.testbit (h_flags (header p)) i.

Lemma response_flags_bits f rc aa :
  rc = 0%Z ∨ rc = 3%Z →
  let w := response_flags f rc aa in
  Z.land w 15 = rc ∧ Z.testbit w 15 = true ∧ Z.testbit w 10 = aa ∧
  Z.testbit w 8 = Z.testbit f 8 ∧ Z.testbit w 9 = false ∧ Z.testbit w 7 = false ∧
  Z.land w 30720 = 0%Z ∧ is_u16 w.
Proof.
  unfold response_flags. change 256%Z with (2 ^ 8)%Z. rewrite (land_bit f 8) by lia.
  intros [-> | ->]; destruct (Z.testbit f 8), aa; vm_compute; split_and!; done.
Qed.

(** ** Properties *)

Section Properties.
Context `{Unicode, HashIter}.
Implicit Types (request : DnsPacket) (zones : ZoneSet.t) (q : DnsQuestion).

Lemma chase_question_facts request zones q :
  head (questions request) = Some q →
  let name := to_lowercase (qname q) in
  let c := chase_question request zones in
  cs_rcode c = (if node zones name then 0%Z else 3%Z) ∧
  cs_authoritative c = (if node zones name then true else false) ∧
  (∀ z, ZoneSet.find zones name = Some z → cs_zone c = Some z) ∧
  (ZoneSet.find zones name = None → cs_zone c = None ∧ cs_answers c = []).
Proof.
  intros Hq. cbn. unfold chase_question. rewrite Hq. cbn zeta.
  set (name := to_lowercase (qname q)). 
  assert (∃ n, MAX_CNAME_CHAIN = S n) as [n ->] by (by exists 15). cbn [chase].
  set (c := mkChase name ∅ [] 0 false (ZoneSet.find zones name)).
  destruct (chase_step_cases zones (qtype q) c) as [[Hin _]|[_ (mz & Hmz & Hc)]]; [set_solver|].
  cbn [cs_name cs_zone c] in Hmz. assert (mz = ZoneSet.find zones name) as -> by naive_solver.
  cbn [cs_name cs_answers cs_seen cs_rcode cs_authoritative cs_zone c] in Hc. cbn zeta in Hc.
  destruct (node zones name) as [rs|] eqn:Hn.
  2:{ rewrite Hc. cbn. split_and!; try done. }
  assert (ZoneSet.find zones name ≠ None) as Hf.
  { unfold node in Hn. by destruct (ZoneSet.find zones name). }
  destruct (alias_of zones (qtype q) name) as [[alias ttl]|]; rewrite Hc; [|done].
  cbn iota beta. split_and!; [by rewrite chase_rcode|by apply chase_authoritative|by intros; apply chase_zone|done].
Qed.

Lemma chase_rcode_values request zones :
  cs_rcode (chase_question request zones) = 0%Z ∨ cs_rcode (chase_question request zones) = 3%Z.
Proof.
  destruct (head (questions request)) as [q|] eqn:Hq.
  - destruct (chase_question_facts request zones q Hq) as (-> & _).
    destruct (node _ _); auto.
  - left. unfold chase_question. by rewrite Hq.
Qed.



(** Every response echoes the identifier, the questions and the RD bit, has
    QR set, TC, RA and the opcode clear, a response code of 0 or 3, section counts
    that match the sections modulo [2^16], and an OPT record (with the
    negotiated size, between 512 and 1232) exactly when the client sent one. *)
Theorem build_response_header request zones :
  let p := build_response request zones in
  h_id (header p) = h_id (header request) ∧ questions p = questions request ∧
  flag 15 p = true ∧ flag 8 p = flag 8 request ∧ flag 9 p = false ∧ flag 7 p = false ∧
  Z.land (h_flags (header p)) 30720 = 0%Z ∧ (rcode p = 0 ∨ rcode p = 3)%Z ∧
  h_questions (header p) = len_u16 (questions p) ∧ h_answers (header p) = len_u16 (answers p) ∧
  h_authorities (header p) = len_u16 (authorities p) ∧
  h_additionals (header p) = len_u16 (additionals p) ∧
  match edns_udp_size request with
  | Some _ => ∃ u, additionals p = [DnsRecord.OPT u] ∧ (512 <= u <= 1232)%Z ∧
                   Z.to_nat u = udp_limit request
  | None => additionals p = []
  end.
Proof.
  cbn zeta. pose proof (chase_rcode_values request zones) as Hv.
  unfold rcode, flag, build_response. cbn -[response_flags Z.land Z.testbit edns_echo len_u16].
  destruct (response_flags_bits (h_flags (header request)) _
    (match negative_soa (chase_question request zones) with
     | Some _ => true | None => cs_authoritative (chase_question request zones) end) Hv)
    as (Hrc & H15 & _ & H8 & H9 & H7 & Hop & _).
  rewrite Hrc. split_and!; try done.
  unfold edns_echo, udp_limit, clamp, MAX_UDP_SIZE, MAX_EDNS_UDP.
  destruct (edns_udp_size request) as [s|]; [|done].
  eexists; split_and!; [done|lia..].
Qed.

(** A lookup returns the exact entry when there is one, else the entry of
    the closest ancestor that has a wildcard, and nothing when no ancestor has
    one. *)
Theorem lookup_spec (rs : Zone) (name : bytes) :
  match lookup rs name with
  | Some r =>
      rs !! name = Some r ∨
      rs !! name = None ∧ ∃ s p, name = p ++ DOT :: s ∧ rs !! (STAR_DOT ++ s) = Some r ∧
        ∀ s' p', name = p' ++ DOT :: s' → length s < length s' → rs !! (STAR_DOT ++ s') = None
  | None => rs !! name = None ∧ ∀ s p, name = p ++ DOT :: s → rs !! (STAR_DOT ++ s) = None
  end.
Proof.
  unfold lookup. destruct (rs !! name) as [r|]; [by left|].
  rewrite lookup_wildcard_ancestors. pose proof (find_map_ancestors rs name) as Hf.
  destruct (find_map _ _) as [r|].
  - right. split; [done|]. destruct Hf as (s & [p Hp]%ancestors_elem & Hs & Hmin).
    exists s, p. split_and!; [done..|]. intros s' p' Hn. apply Hmin, ancestors_elem. eauto.
  - split; [done|]. intros s p Hn. apply Hf, ancestors_elem. eauto.
Qed.

End Properties.

(** ** A concrete zone, for the witnesses *)

Definition sample_soa : DnsRecord.t :=
  DnsRecord.SOA (str "example.com") (str "ns1.example.com") (str "root.example.com")
    1 3600 600 86400 300 300.

Definition sample_zone : Zone :=
  {[ str "example.com" := [sample_soa];
     str "www.example.com" := [DnsRecord.CNAME (str "www.example.com") (str "web.example.com") 300];
     str "web.example.com" := [DnsRecord.A (str "web.example.com") [192; 0; 2; 1]%Z 300];
     str "*.dyn.example.com" := [DnsRecord.A (str "*.dyn.example.com") [192; 0; 2; 9]%Z 60] ]}.

Definition sample_zones : ZoneSet.t := ZoneSet.from_single (str "example.com") sample_zone.

Definition query (name : bytes) (t : Z) : DnsPacket :=
  mkPacket (mkHeader 7 256 1 0 0 0) [mkQuestion name t 1] [] [] [].


