(* ===== verification/Cache.v ===== *)
(** * The response cache

    Models [src/src/cache.rs]: a bounded map from a lower-cased name and a type to
    the raw bytes of an upstream response, with an expiry time per entry. An
    [Instant] is a number of nanoseconds; every [Instant::now()] of an operation
    is an argument of its definition. The cache is related to an ideal,
    unbounded one that only remembers the last insertion of each key. *)

From S2P Require Import Prelude RustStd.

(** [Duration::from_secs]. *)
Definition from_secs (s : Z) : Z := (s * 1000000000)%Z.

Abbreviation Key := (bytes * Z)%type.

Record Entry := mkEntry { response : bytes; expires_at : Z }.

Record Cache := mkCache { map : gmap Key Entry; capacity : nat }.

Module Cache_ops.

Definition new (capacity : nat) : Cache := mkCache ∅ capacity.

Definition key `{Unicode} (name : bytes) (qtype : Z) : Key := (to_lowercase name, qtype).

(** [get]: a live entry is returned; an expired one is removed. *)
Definition get `{Unicode} (name : bytes) (qtype now : Z) (c : Cache) : option bytes * Cache :=
  match map c !! key name qtype with
  | Some e =>
      if (now <? expires_at e)%Z then (Some (response e), c)
      else (None, mkCache (delete (key name qtype) (map c)) (capacity c))
  | None => (None, c)
  end.

Definition len (c : Cache) : nat := size (map c).
Definition is_empty (c : Cache) : bool := bool_decide (map c = ∅).

(** [evict_if_full]: reclaim the expired entries, then, if still full, drop the
    first entry the iterator gives. *)
Definition evict_if_full `{HashIter} (now : Z) (c : Cache) : Cache :=
  if len c <? capacity c then c
  else
    let m := filter (fun kv => (now < expires_at kv.2)%Z) (map c) in
    if capacity c <=? size m then
      match head (hm_iter m) with
      | Some (victim, _) => mkCache (delete victim m) (capacity c)
      | None => mkCache m (capacity c)
      end
    else mkCache m (capacity c).

(** [insert]: [now1] is the time [evict_if_full] reads, [now2] the time the
    expiry is counted from. *)
Definition insert `{Unicode, HashIter} (name : bytes) (qtype : Z) (resp : bytes) (ttl_secs : Z)
    (now1 now2 : Z) (c : Cache) : Cache :=
  if bool_decide (resp = []) || (ttl_secs =? 0)%Z then c
  else
    let k := key name qtype in
    let c := if bool_decide (is_Some (map c !! k)) then c else evict_if_full now1 c in
    mkCache (<[k := mkEntry resp (now2 + from_secs ttl_secs)%Z]> (map c)) (capacity c).

End Cache_ops.
Import Cache_ops.

(** ** Lemmas *)

Section Lemmas.
Context `{Unicode, HashIter}.
Implicit Types c : Cache.

Lemma evict_capacity now c : capacity (evict_if_full now c) = capacity c.
Proof. unfold evict_if_full. repeat case_match; done. Qed.

Lemma evict_sub now c : map (evict_if_full now c) ⊆ map c.
Proof.
  unfold evict_if_full. case_match; [done|].
  pose proof (map_filter_subseteq (fun kv => (now < expires_at kv.2)%Z) (map c)).
  case_match; [|done]. destruct (head _) as [[v ?]|]; [|done].
  cbn. etrans; [apply delete_subseteq|done].
Qed.

Lemma head_hm_iter {K V} `{Countable K} (m : gmap K V) k v :
  head (hm_iter m) = Some (k, v) → m !! k = Some v.
Proof.
  intros Hh. apply elem_of_map_to_list. rewrite <- hm_iter_perm.
  destruct (hm_iter m); [done|]. injection Hh as ->. set_solver.
Qed.

Lemma head_hm_iter_None {K V} `{Countable K} (m : gmap K V) : head (hm_iter m) = None → m = ∅.
Proof.
  intros Hh. apply map_to_list_empty_iff, Permutation_nil_r.
  rewrite <- hm_iter_perm. by destruct (hm_iter m).
Qed.

(** There is room for one more entry, or the cache is empty. *)
Lemma evict_room now c :
  len c ≤ 1 `max` capacity c →
  S (len (evict_if_full now c)) ≤ 1 `max` capacity c.
Proof.
  intros Hle. unfold evict_if_full, len in *.
  destruct (Nat.ltb_spec (size (map c)) (capacity c)); [lia|].
  set (m := filter _ _).
  assert (size m ≤ size (map c)) as Hm by apply map_size_filter.
  destruct (Nat.leb_spec (capacity c) (size m)); cbn; [|lia].
  destruct (head (hm_iter m)) as [[v e]|] eqn:Hh; cbn.
  - apply head_hm_iter in Hh. rewrite map_size_delete_Some by done.
    assert (size m ≠ 0) by (intros He%map_size_empty_inv; rewrite He in Hh; by rewrite lookup_empty in Hh).
    lia.
  - apply head_hm_iter_None in Hh. rewrite Hh, map_size_empty. lia.
Qed.

(** Eviction removes at most one live entry, and none below capacity. *)
Lemma evict_live now c :
  (len c < capacity c → evict_if_full now c = c) ∧
  ∃ victim, ∀ k e, map c !! k = Some e → (now < expires_at e)%Z → k ≠ victim →
    map (evict_if_full now c) !! k = Some e.
Proof.
  split; [intros Hlt; unfold evict_if_full; by rewrite (proj2 (Nat.ltb_lt _ _))|].
  unfold evict_if_full. destruct (len c <? capacity c); [by exists ([], 0%Z)|].
  set (m := filter _ _).
  assert (∀ k e, map c !! k = Some e → (now < expires_at e)%Z → m !! k = Some e) as Hm.
  { intros k e Hk He. by apply map_lookup_filter_Some. }
  destruct (capacity c <=? size m); [|by exists ([], 0%Z); eauto].
  destruct (head (hm_iter m)) as [[v e0]|]; [|by exists ([], 0%Z); eauto].
  exists v. intros k e Hk He Hne. cbn. rewrite lookup_delete_ne by done. eauto.
Qed.

End Lemmas.

(** ** Traces and the ideal cache *)

Inductive op :=
| Insert (name : bytes) (qtype : Z) (resp : bytes) (ttl_secs now1 now2 : Z)
| Get (name : bytes) (qtype now : Z).

Definition step `{Unicode, HashIter} (c : Cache) (o : op) : Cache :=
  match o with
  | Insert n t r ttl now1 now2 => insert n t r ttl now1 now2 c
  | Get n t now => (get n t now c).2
  end.

Definition run `{Unicode, HashIter} (cap : nat) (os : list op) : Cache := foldl step (new cap) os.

(** The ideal cache: the last accepted insertion of each key, never evicted. *)
Definition ideal_step `{Unicode} (m : gmap Key Entry) (o : op) : gmap Key Entry :=
  match o with
  | Insert n t r ttl _ now2 =>
      if bool_decide (r = []) || (ttl =? 0)%Z then m
      else <[key n t := mkEntry r (now2 + from_secs ttl)%Z]> m
  | Get _ _ _ => m
  end.

Definition ideal `{Unicode} (os : list op) : gmap Key Entry := foldl ideal_step ∅ os.

Section Trace.
Context `{Unicode, HashIter}.

Lemma step_capacity c o : capacity (step c o) = capacity c.
Proof.
  destruct o; cbn; unfold insert, get; repeat case_match; cbn; try done.
  by rewrite evict_capacity.
Qed.

Lemma step_refines c o m : map c ⊆ m → map (step c o) ⊆ ideal_step m o.
Proof.
  intros Hs. destruct o; cbn; unfold insert, get.
  - case_match; [done|]. cbn. apply insert_mono. case_match; [done|].
    etrans; [apply evict_sub|done].
  - repeat case_match; cbn; [done| |done]. etrans; [apply delete_subseteq|done].
Qed.

Lemma step_bounded c o : len c ≤ 1 `max` capacity c → len (step c o) ≤ 1 `max` capacity c.
Proof.
  intros Hle. destruct o as [n t r ttl now1 now2|n t now]; cbn; unfold insert, get.
  - destruct (bool_decide (r = []) || (ttl =? 0)%Z); [done|]. unfold len. cbn.
    case_bool_decide as Hk.
    + rewrite map_size_insert. destruct Hk as [e ->]. done.
    + pose proof (evict_room now1 c Hle). unfold len in *. rewrite map_size_insert.
      destruct (map (evict_if_full now1 c) !! key n t); unfold id; lia.
  - repeat case_match; cbn; [done| |done]. unfold len in *. cbn.
    rewrite map_size_delete. case_match; unfold id; lia.
Qed.

(** The last accepted insertion of a key in a trace. *)
Lemma ideal_last os k e :
  ideal os !! k = Some e →
  ∃ pre n t r ttl now1 now2 post,
    os = pre ++ Insert n t r ttl now1 now2 :: post ∧ key n t = k ∧
    e = mkEntry r (now2 + from_secs ttl)%Z ∧ r ≠ [] ∧ ttl ≠ 0%Z ∧
    ideal (pre ++ [Insert n t r ttl now1 now2]) !! k = ideal os !! k.
Proof.
  revert e. induction os as [|o os IH] using rev_ind; intros e.
  { unfold ideal. cbn. by rewrite lookup_empty. }
  unfold ideal. rewrite foldl_app. cbn [foldl]. fold (ideal os).
  destruct o as [n t r ttl now1 now2|n t now]; cbn [ideal_step].
  - destruct (bool_decide (r = []) || (ttl =? 0)%Z) eqn:Hg.
    + intros He. destruct (IH e He) as (pre & n' & t' & r' & ttl' & a & b & post & -> & Hp).
      exists pre, n', t', r', ttl', a, b, (post ++ [Insert n t r ttl now1 now2]).
      split; [by rewrite <- (assoc_L (++))|]. done.
    + destruct (decide (key n t = k)) as [<-|Hne].
      * rewrite lookup_insert_eq. intros [= <-]. apply orb_false_iff in Hg as [Hg1 Hg2].
        apply bool_decide_eq_false in Hg1. apply Z.eqb_neq in Hg2.
        exists os, n, t, r, ttl, now1, now2, []. split_and!; try done.
        rewrite foldl_app. cbn. rewrite bool_decide_false, (proj2 (Z.eqb_neq ttl 0)) by done.
        cbn. by rewrite lookup_insert_eq.
      * rewrite lookup_insert_ne by done. intros He.
        destruct (IH e He) as (pre & n' & t' & r' & ttl' & a & b & post & -> & Hp).
        exists pre, n', t', r', ttl', a, b, (post ++ [Insert n t r ttl now1 now2]).
        split; [by rewrite <- (assoc_L (++))|]. done.
  - intros He. destruct (IH e He) as (pre & n' & t' & r' & ttl' & a & b & post & -> & Hp).
    exists pre, n', t', r', ttl', a, b, (post ++ [Get n t now]).
    split; [by rewrite <- (assoc_L (++))|]. done.
Qed.

Lemma run_refines cap os : map (run cap os) ⊆ ideal os ∧ capacity (run cap os) = cap.
Proof.
  unfold run, ideal. induction os as [|o os IH] using rev_ind; [done|].
  rewrite !foldl_app. cbn. destruct IH as [IH1 IH2].
  split; [by apply step_refines|by rewrite step_capacity].
Qed.

(** ** Properties *)

(** Cache soundness, for every sequence of operations from an empty cache: a
    hit returns the bytes of an insertion for the same name (up to case) and type
    that is still live at the time of the read, and no later insertion of that
    key replaced it. *)
Theorem cache_hit_sound (cap : nat) (os : list op) (name : bytes) (qt now : Z) (r : bytes) :
  (get name qt now (run cap os)).1 = Some r →
  ∃ pre n t ttl now1 now2 post,
    os = pre ++ Insert n t r ttl now1 now2 :: post ∧
    to_lowercase n = to_lowercase name ∧ t = qt ∧ r ≠ [] ∧
    (now < now2 + from_secs ttl)%Z ∧
    ideal (pre ++ [Insert n t r ttl now1 now2]) !! key name qt = ideal os !! key name qt.
Proof.
  unfold get. destruct (map (run cap os) !! key name qt) as [e|] eqn:He; [|done].
  destruct (Z.ltb_spec now (expires_at e)) as [Hlt|]; [|done]. intros [= <-].
  pose proof (run_refines cap os) as [Hsub _].
  pose proof (lookup_weaken _ _ _ _ He Hsub) as Hi.
  destruct (ideal_last os _ _ Hi) as (pre & n & t & r & ttl & a & b & post & -> & Hk & -> & Hr & _ & Hl).
  cbn in *. unfold key in Hk. simplify_eq.
  exists pre, n, qt, ttl, a, b, post. split_and!; done.
Qed.

(** The cache stays within its capacity (one entry for a capacity of zero)
    under every sequence of operations. *)
Theorem cache_bounded (cap : nat) (os : list op) : len (run cap os) ≤ 1 `max` cap.
Proof.
  induction os as [|o os IH] using rev_ind.
  { unfold run, len. cbn. rewrite map_size_empty. lia. }
  pose proof (run_refines cap os) as [_ Hc]. rewrite <- Hc in IH at 2.
  apply (step_bounded _ o) in IH. rewrite Hc in IH.
  unfold run in *. by rewrite foldl_app.
Qed.

(** An accepted insertion is served until it expires, whatever the case of
    the name, and it costs the other live entries at most one victim (none when
    the cache was below its capacity). *)
Theorem cache_insert_served (c : Cache) (name name' : bytes) (qt ttl now1 now2 : Z) (r : bytes) :
  r ≠ [] → ttl ≠ 0%Z → to_lowercase name' = to_lowercase name →
  let c' := insert name qt r ttl now1 now2 c in
  (∀ now, (now < now2 + from_secs ttl)%Z → (get name' qt now c').1 = Some r) ∧
  (∃ victim, ∀ k e, map c !! k = Some e → (now1 < expires_at e)%Z → k ≠ key name qt →
     k ≠ victim → map c' !! k = Some e) ∧
  (len c < capacity c → ∀ k, k ≠ key name qt → map c' !! k = map c !! k).
Proof.
  intros Hr Ht Hn. cbn zeta. unfold insert.
  rewrite bool_decide_false, (proj2 (Z.eqb_neq ttl 0)) by done. cbn.
  destruct (evict_live now1 c) as [Hroom [victim Hv]]. split_and!.
  - intros now Hnow. unfold get, key. cbn. rewrite Hn, lookup_insert_eq. cbn.
    by rewrite (proj2 (Z.ltb_lt _ _)).
  - exists victim. intros k e Hk He Hne Hnv. rewrite lookup_insert_ne by done.
    case_bool_decide; [done|]. by apply Hv.
  - intros Hlt k Hne. rewrite lookup_insert_ne by done.
    case_bool_decide; [done|]. by rewrite Hroom.
Qed.

End Trace.

(** ** Witnesses *)

Definition sample_ops : list op :=
  [Insert (str "Example.com") 1 [1; 2; 3]%Z 3600 0 0;
   Insert (str "other.com") 1 [4]%Z 60 5 5;
   Get (str "other.com") 1 60000000006].

Lemma cache_hit_sound_witness :
  (@get ascii_unicode (str "EXAMPLE.com") 1 10 (@run ascii_unicode list_iter 8 sample_ops)).1
    = Some [1; 2; 3]%Z ∧
  ∃ pre n t ttl now1 now2 post,
    sample_ops = pre ++ Insert n t [1; 2; 3]%Z ttl now1 now2 :: post ∧
    (10 < now2 + from_secs ttl)%Z.
Proof.
  assert ((@get ascii_unicode (str "EXAMPLE.com") 1 10
    (@run ascii_unicode list_iter 8 sample_ops)).1 = Some [1; 2; 3]%Z) as H
    by (vm_compute; reflexivity).
  split; [exact H|].
  destruct (@cache_hit_sound ascii_unicode list_iter 8 sample_ops _ _ _ _ H)
    as (pre & n & t & ttl & a & b & post & He & _ & _ & _ & Hl & _).
  exists pre, n, t, ttl, a, b, post. split; [exact He|exact Hl].
Defined.

Lemma cache_insert_served_witness :
  (@get ascii_unicode (str "a.com") 1 59
    (@insert ascii_unicode list_iter (str "A.com") 1 [9]%Z 60 0 0 (new 1))).1 = Some [9]%Z.
Proof.
  apply (@cache_insert_served ascii_unicode list_iter (new 1) (str "A.com") (str "a.com")
    1 60 0 0 [9]%Z); [discriminate|discriminate|vm_compute; reflexivity|vm_compute; reflexivity].
Defined.
