(* ===== verification/CacheRace.v ===== *)
(** * The response cache under concurrency

    [Cache] models each operation of [src/src/cache.rs] as one step. The code runs
    them from many tasks at once on a shared [DashMap], and an insertion makes up to
    seven calls on it, a lookup up to two. Here a call in progress is a thread that
    stands before its next call on the map; [advance] is one call, and the threads
    interleave between calls ([step]). [DashMap] makes the calls on single keys
    atomic, while [len], [retain] and [iter] visit its shards one by one, with
    other threads running in between: [shard_step] adds what they may then
    see and do. What is shown possible uses whole calls only; what is shown
    impossible is shown with the shards.

    Shown: alone, a call does what [Cache] says it does (so that the sequential
    theorems are about this code); a hit is sound under every interleaving; the
    capacity bound is not kept: two overlapping insertions that pick the same
    victim leave one entry too many, and insertions that do not overlap never make up for
    it while the entries are live. *)

From S2P Require Import Prelude RustStd Cache.
Import Cache_ops.

(** The calls of [insert] and [evict_if_full], each named by the call on the map that is
    next: [contains_key], [len], [retain], [len] again, [iter().next()], [remove] and
    [insert]. *)
Inductive pos := Contains | Full | Retain | Recheck | Pick | Remove (victim : Key) | Store.

Inductive thread :=
| Inserting (k : Key) (resp : bytes) (ttl_secs : Z) (p : pos)
| Getting (k : Key)
| Stale (k : Key)
| Finished (r : option bytes).

#[global] Instance pos_eq_dec : EqDecision pos.
Proof. solve_decision. Defined.

(** The two calls up to their first access to the map. *)
Definition insert_call `{Unicode} (name : bytes) (qtype : Z) (resp : bytes) (ttl_secs : Z) : thread :=
  if bool_decide (resp = []) || (ttl_secs =? 0)%Z then Finished None
  else Inserting (key name qtype) resp ttl_secs Contains.
Definition get_call `{Unicode} (name : bytes) (qtype : Z) : thread := Getting (key name qtype).

Definition with_map (m : gmap Key Entry) (c : Cache) : Cache := mkCache m (capacity c).

(** One call on the map of an insertion; [now] is the time it may read. *)
Definition advance_insert `{HashIter} (now : Z) (k : Key) (resp : bytes) (ttl_secs : Z) (p : pos)
    (c : Cache) : Cache * thread :=
  let at_ p := Inserting k resp ttl_secs p in
  match p with
  | Contains => (c, at_ (if bool_decide (is_Some (map c !! k)) then Store else Full))
  | Full => (c, at_ (if len c <? capacity c then Store else Retain))
  | Retain => (with_map (filter (fun kv => (now < expires_at kv.2)%Z) (map c)) c, at_ Recheck)
  | Recheck => (c, at_ (if capacity c <=? len c then Pick else Store))
  | Pick => (c, at_ (match head (hm_iter (map c)) with Some (v, _) => Remove v | None => Store end))
  | Remove v => (with_map (delete v (map c)) c, at_ Store)
  | Store =>
      (with_map (<[k := mkEntry resp (now + from_secs ttl_secs)%Z]> (map c)) c, Finished None)
  end.

(** One call on the map of a thread. *)
Definition advance `{HashIter} (now : Z) (th : thread) (c : Cache) : Cache * thread :=
  match th with
  | Inserting k resp ttl_secs p => advance_insert now k resp ttl_secs p c
  | Getting k =>
      match map c !! k with
      | Some e => (c, if (now <? expires_at e)%Z then Finished (Some (response e)) else Stale k)
      | None => (c, Finished None)
      end
  | Stale k => (with_map (delete k (map c)) c, Finished None)
  | Finished r => (c, Finished r)
  end.

(** A thread on its own: [now1] is the time [evict_if_full] reads, [now2] the one
    the expiry is counted from. *)
Fixpoint solo `{HashIter} (fuel : nat) (now1 now2 : Z) (th : thread) (c : Cache) : Cache * thread :=
  match fuel with
  | 0 => (c, th)
  | S fuel =>
      let now := match th with Inserting _ _ _ Store => now2 | _ => now1 end in
      let '(c, th) := advance now th c in solo fuel now1 now2 th c
  end.

(** No call makes more than seven calls on the map. *)
Definition MAX_CALLS : nat := 7.

(** ** The system *)

(** The cache, the threads, the time, and every entry ever stored, the last one
    first. *)
Record sys := mkSys {
  cache : Cache;
  threads : gmap nat thread;
  clock : Z;
  stored : list (Key * Entry);
}.

Definition stores (now : Z) (th : thread) : list (Key * Entry) :=
  match th with
  | Inserting k resp ttl_secs Store => [(k, mkEntry resp (now + from_secs ttl_secs)%Z)]
  | _ => []
  end.

Definition spawn (i : nat) (th : thread) (g : sys) : sys :=
  mkSys (cache g) (<[i := th]> (threads g)) (clock g) (stored g).

Definition advance_thread `{HashIter} (i : nat) (now : Z) (th : thread) (g : sys) : sys :=
  let '(c, th') := advance now th (cache g) in
  mkSys c (<[i := th']> (threads g)) now (stores now th ++ stored g).

Section Race.
Context `{UNI : Unicode, HAS : HashIter}.

Inductive step : sys → sys → Prop :=
| Call_insert g i name qtype resp ttl_secs :
    threads g !! i = None → step g (spawn i (insert_call name qtype resp ttl_secs) g)
| Call_get g i name qtype :
    threads g !! i = None → step g (spawn i (get_call name qtype) g)
| Advance g i th now :
    threads g !! i = Some th → (clock g <= now)%Z → step g (advance_thread i now th g).

(** The calls that visit the shards one by one: [len] may count a mixture of past and
    present, [iter().next()] may find any key it saw or none, and [retain] removes
    expired entries one after the other. *)
Definition observes (p p' : pos) : Prop :=
  match p with
  | Full => p' = Store ∨ p' = Retain
  | Recheck => p' = Store ∨ p' = Pick
  | Pick => p' = Store ∨ ∃ v, p' = Remove v
  | _ => False
  end.

Inductive shard_step : sys → sys → Prop :=
| Whole_call g g' : step g g' → shard_step g g'
| Observe g i k resp ttl_secs p p' now :
    threads g !! i = Some (Inserting k resp ttl_secs p) → observes p p' → (clock g <= now)%Z →
    shard_step g (mkSys (cache g) (<[i := Inserting k resp ttl_secs p']> (threads g)) now (stored g))
| Retain_entry g i k resp ttl_secs now k' e :
    threads g !! i = Some (Inserting k resp ttl_secs Retain) → (now <= clock g)%Z →
    map (cache g) !! k' = Some e → (expires_at e <= now)%Z →
    shard_step g (mkSys (with_map (delete k' (map (cache g))) (cache g)) (threads g) (clock g) (stored g))
| Retain_done g i k resp ttl_secs :
    threads g !! i = Some (Inserting k resp ttl_secs Retain) →
    shard_step g (spawn i (Inserting k resp ttl_secs Recheck) g).

Definition initial (cap : nat) : sys := mkSys (new cap) ∅ 0 [].

(** ** Alone *)

(** Alone, a call is the operation [Cache] models: within [MAX_CALLS] calls on the
    map an insertion is [Cache_ops.insert] and a lookup [Cache_ops.get], with the
    same result and the same map left behind. *)
Theorem uninterrupted_calls (c : Cache) (name : bytes) (qtype : Z) :
  (∀ resp ttl_secs now1 now2,
     solo MAX_CALLS now1 now2 (insert_call name qtype resp ttl_secs) c =
     (insert name qtype resp ttl_secs now1 now2 c, Finished None)) ∧
  (∀ now, solo MAX_CALLS now now (get_call name qtype) c =
     ((get name qtype now c).2, Finished (get name qtype now c).1)).
Proof.
  split.
  - intros resp ttl now1 now2. unfold insert_call, insert.
    destruct (bool_decide (resp = []) || (ttl =? 0)%Z); [done|].
    cbn [solo MAX_CALLS advance advance_insert]. case_bool_decide; [done|]. cbn [advance advance_insert].
    unfold evict_if_full. destruct (len c <? capacity c); [done|]. cbn [advance advance_insert].
    unfold len. cbn [with_map capacity map]. set (m := filter _ _).
    destruct (capacity c <=? size m); [|done]. cbn [advance advance_insert with_map map].
    by destruct (head (hm_iter m)) as [[v e]|].
  - intros now. unfold get_call, get. cbn [solo MAX_CALLS advance].
    destruct (map c !! key name qtype) as [e|]; [|done]. by destruct (now <? expires_at e)%Z.
Qed.

(** ** Hits *)

(** The last entry stored for a key. *)
Definition last_stored (k : Key) (log : list (Key * Entry)) : option Entry :=
  snd <$> find (fun ke => bool_decide (ke.1 = k)) log.

Definition sound (g : sys) : Prop := ∀ k e, map (cache g) !! k = Some e → last_stored k (stored g) = Some e.

Lemma sound_sub g m th t :
  m ⊆ map (cache g) → sound g → sound (mkSys (with_map m (cache g)) th t (stored g)).
Proof. intros Hs Hi k e He. apply Hi. cbn in He. by eapply lookup_weaken. Qed.

Lemma sound_advance i now th g : sound g → sound (advance_thread i now th g).
Proof.
  intros Hi. destruct g as [[m cap] ths t log]. unfold advance_thread.
  destruct th as [k resp ttl p|k|k|r]; cbn.
  - destruct p; cbn; try exact Hi.
    + by eapply (sound_sub (mkSys (mkCache m cap) ths t log)), Hi; apply map_filter_subseteq.
    + by eapply (sound_sub (mkSys (mkCache m cap) ths t log)), Hi; apply delete_subseteq.
    + intros k' e He. cbn in *. unfold last_stored. cbn.
      case_bool_decide as Hk; [subst k'|].
      * rewrite lookup_insert_eq in He. by injection He as <-.
      * rewrite lookup_insert_ne in He by done. by apply Hi.
  - destruct (m !! k); exact Hi.
  - by eapply (sound_sub (mkSys (mkCache m cap) ths t log)), Hi; apply delete_subseteq.
  - exact Hi.
Qed.

Lemma sound_shard_step g g' : shard_step g g' → sound g → sound g'.
Proof.
  intros Hs Hi. destruct Hs as [g g' Hs| | |]; [|exact Hi| |exact Hi].
  - destruct Hs; [exact Hi..|]. by apply sound_advance.
  - apply (sound_sub g); [apply delete_subseteq|done].
Qed.

Lemma sound_reached cap g : rtc shard_step (initial cap) g → sound g.
Proof.
  intros Hr. assert (sound (initial cap)) as H0 by (intros k e; cbn; by rewrite lookup_empty).
  induction Hr; eauto using sound_shard_step.
Qed.

(** C27: a hit is sound however insertions, evictions and lookups interleave, shard by
    shard: the bytes a lookup returns are those of the last entry stored for its name
    (up to case) and type, and that entry is live when it is read. *)
Theorem race_hit_sound cap g name qtype now r c :
  rtc shard_step (initial cap) g →
  advance now (get_call name qtype) (cache g) = (c, Finished (Some r)) →
  ∃ expiry, last_stored (key name qtype) (stored g) = Some (mkEntry r expiry) ∧ (now < expiry)%Z.
Proof.
  intros Hr%sound_reached Ha. cbn in Ha.
  destruct (map (cache g) !! key name qtype) as [[r' expiry]|] eqn:He; [|done].
  cbn in Ha. destruct (Z.ltb_spec now expiry); [|done]. injection Ha as _ ->. eauto.
Qed.

(** ** Overshoot *)

(** All entries are live, and no call is in progress. *)
Definition live_at (now : Z) (c : Cache) : Prop := map_Forall (fun _ e => (now < expires_at e)%Z) (map c).
Definition at_rest (g : sys) : Prop := map_Forall (fun _ th => ∃ r, th = Finished r) (threads g).

Lemma live_filter now c :
  live_at now c → filter (fun kv => (now < expires_at kv.2)%Z) (map c) = map c.
Proof. intros Hl. apply map_filter_id. intros k e He. by apply (Hl k). Qed.

(** One call of thread [i], at the present time. *)
Lemma thread_step i th c' th' g :
  advance (clock g) th (cache g) = (c', th') →
  step (spawn i th g) (mkSys c' (<[i := th']> (threads g)) (clock g) (stores (clock g) th ++ stored g)).
Proof.
  intros Ha. replace (mkSys _ _ _ _) with (advance_thread i (clock g) th (spawn i th g)).
  - apply Advance; [|done]. cbn. by rewrite lookup_insert_eq.
  - unfold advance_thread. cbn. rewrite Ha. by rewrite insert_insert_eq.
Qed.

Lemma spawn_comm i j a b g : i ≠ j → spawn i a (spawn j b g) = spawn j b (spawn i a g).
Proof. intros Hij. unfold spawn. cbn. by rewrite insert_insert_ne. Qed.

(** A call that only looks. *)
Lemma look_step i k resp ttl p p' g :
  p ≠ Store → advance (clock g) (Inserting k resp ttl p) (cache g) = (cache g, Inserting k resp ttl p') →
  step (spawn i (Inserting k resp ttl p) g) (spawn i (Inserting k resp ttl p') g).
Proof. intros Hp Ha. apply (thread_step i) in Ha as Hs. by destruct p. Qed.

(** Inserting a new key into a full cache of live entries: the thread comes to its
    victim without changing anything. *)
Lemma pick_victim i k resp ttl v e g :
  map (cache g) !! k = None → capacity (cache g) ≤ len (cache g) → live_at (clock g) (cache g) →
  head (hm_iter (map (cache g))) = Some (v, e) →
  rtc step (spawn i (Inserting k resp ttl Contains) g) (spawn i (Inserting k resp ttl (Remove v)) g).
Proof.
  intros Hk Hf Hl Hv.
  eapply rtc_l; [apply (look_step i k resp ttl Contains Full); [done|]|].
  { cbn [advance advance_insert]. rewrite Hk. by rewrite bool_decide_false by (by intros [? ?]). }
  eapply rtc_l; [apply (look_step i k resp ttl Full Retain); [done|]|].
  { cbn [advance advance_insert]. by rewrite (proj2 (Nat.ltb_ge _ _)). }
  eapply rtc_l; [apply (look_step i k resp ttl Retain Recheck); [done|]|].
  { cbn [advance advance_insert]. rewrite live_filter by done. by destruct (cache g). }
  eapply rtc_l; [apply (look_step i k resp ttl Recheck Pick); [done|]|].
  { cbn [advance advance_insert]. by rewrite (proj2 (Nat.leb_le _ _)). }
  apply rtc_once, look_step; [done|]. cbn. by rewrite Hv.
Qed.

(** A thread with its victim removes it and stores its entry. *)
Lemma replace_victim i k resp ttl v g :
  rtc step (spawn i (Inserting k resp ttl (Remove v)) g)
    (mkSys (with_map (<[k := mkEntry resp (clock g + from_secs ttl)]> (delete v (map (cache g)))) (cache g))
       (<[i := Finished None]> (threads g)) (clock g)
       ((k, mkEntry resp (clock g + from_secs ttl)) :: stored g)).
Proof.
  eapply rtc_l; [by eapply thread_step|]. cbn.
  apply rtc_once.
  exact (thread_step i (Inserting k resp ttl Store) _ _
    (mkSys (with_map (delete v (map (cache g))) (cache g)) (threads g) (clock g) (stored g)) eq_refl).
Qed.

(** Names no entry has: a run of one letter, longer than all of them. *)
Definition long_name (n : nat) : bytes := replicate n 97%Z.

Lemma long_name_key n : key (long_name n) 1 = (long_name n, 1%Z).
Proof.
  unfold key, to_lowercase. replace (is_ascii (long_name n)) with true.
  - unfold long_name. by rewrite fmap_replicate.
  - symmetry. unfold long_name, is_ascii. by induction n.
Qed.

Lemma long_name_fresh (m : gmap Key Entry) : ∃ n, ∀ n', n ≤ n' → m !! key (long_name n') 1 = None.
Proof.
  exists (S (max_list ((fun k => length k.1) <$> elements (dom m)))). intros n' Hn.
  rewrite long_name_key. destruct (m !! _) as [e|] eqn:He; [|done].
  assert (length (long_name n') ≤ max_list ((fun k : Key => length k.1) <$> elements (dom m))) as Hle.
  { apply max_list_elem_of_le, list_elem_of_fmap. exists (long_name n', 1%Z). split; [done|].
    apply elem_of_elements, elem_of_dom. by eexists. }
  unfold long_name in Hle. rewrite length_replicate in Hle. lia.
Qed.

(** Below capacity, a new entry is one more. *)
Lemma grow_below g :
  at_rest g → live_at (clock g) (cache g) → len (cache g) < capacity (cache g) →
  ∃ g', rtc step g g' ∧ at_rest g' ∧ live_at (clock g') (cache g') ∧
    capacity (cache g') = capacity (cache g) ∧ len (cache g') = S (len (cache g)).
Proof.
  intros Hr Hl Hlt. destruct (long_name_fresh (map (cache g))) as [n Hn]. specialize (Hn n (le_n n)).
  set (i := fresh (dom (threads g))). set (k := key (long_name n) 1) in *.
  assert (threads g !! i = None) as Hi by (apply not_elem_of_dom, is_fresh).
  eexists. split.
  - eapply rtc_l; [by apply (Call_insert g i (long_name n) 1 [1%Z] 60)|].
    change (insert_call _ _ _ _) with (Inserting k [1%Z] 60 Contains).
    eapply rtc_l; [apply (look_step i k _ _ Contains Full); [done|]|].
    { cbn [advance advance_insert]. rewrite Hn. by rewrite bool_decide_false by (by intros [? ?]). }
    eapply rtc_l; [apply (look_step i k _ _ Full Store); [done|]|].
    { cbn [advance advance_insert]. by rewrite (proj2 (Nat.ltb_lt _ _)). }
    apply rtc_once. by eapply thread_step.
  - unfold at_rest, live_at, len. cbn. rewrite map_size_insert_None by done. split_and!; try done.
    + apply map_Forall_insert; [done|]. eauto.
    + apply map_Forall_insert; [done|]. split; [|done]. cbn. unfold from_secs. lia.
Qed.

(** At capacity, two overlapping insertions with the same victim are one more. *)
Lemma grow_pair g :
  at_rest g → live_at (clock g) (cache g) → 0 < len (cache g) → capacity (cache g) ≤ len (cache g) →
  ∃ g', rtc step g g' ∧ at_rest g' ∧ live_at (clock g') (cache g') ∧
    capacity (cache g') = capacity (cache g) ∧ len (cache g') = S (len (cache g)).
Proof.
  intros Hr Hl Hpos Hf. destruct (long_name_fresh (map (cache g))) as [n Hn].
  set (i := fresh (dom (threads g))). set (k1 := key (long_name n) 1). set (k2 := key (long_name (S n)) 1).
  assert (threads g !! i = None) as Hi by (apply not_elem_of_dom, is_fresh).
  set (j := fresh (dom (<[i := Finished None]> (threads g)))).
  assert (<[i := Finished None]> (threads g) !! j = None) as Hj by (apply not_elem_of_dom, is_fresh).
  apply lookup_insert_None in Hj as [Hj Hij].
  assert (map (cache g) !! k1 = None) as Hk1 by (apply Hn; lia).
  assert (map (cache g) !! k2 = None) as Hk2 by (apply Hn; lia).
  assert (k1 ≠ k2) as Hk.
  { unfold k1, k2. rewrite !long_name_key. intros [= He]. apply (f_equal length) in He.
    unfold long_name in He. rewrite !length_replicate in He. lia. }
  destruct (head (hm_iter (map (cache g)))) as [[v e]|] eqn:Hv.
  2:{ apply head_hm_iter_None in Hv. unfold len in Hpos. rewrite Hv, map_size_empty in Hpos. lia. }
  pose proof (head_hm_iter _ _ _ Hv) as Hve.
  set (g1 := spawn i (Inserting k1 [1%Z] 60 (Remove v)) g).
  eexists. split.
  - eapply rtc_l; [by apply (Call_insert g i (long_name n) 1 [1%Z] 60)|].
    etrans; [by eapply (pick_victim i k1)|]. fold g1.
    eapply rtc_l; [apply (Call_insert g1 j (long_name (S n)) 1 [1%Z] 60)|].
    { cbn. by rewrite lookup_insert_ne. }
    etrans; [by eapply (pick_victim j k2)|]. unfold g1. rewrite spawn_comm by done.
    etrans; [apply replace_victim|].
    change (threads (spawn j ?b ?g0)) with (<[j := b]> (threads g0)).
    rewrite insert_insert_ne by done.
    exact (replace_victim j k2 [1%Z] 60 v (mkSys _ (<[i := Finished None]> (threads g)) _ _)).
  - unfold at_rest, live_at, len. cbn.
    assert (k1 ≠ v ∧ k2 ≠ v) as [Hv1 Hv2] by (split; intros ->; congruence).
    rewrite delete_insert_ne, delete_delete_eq by done.
    assert (delete v (map (cache g)) !! k1 = None) as H1 by (by rewrite lookup_delete_ne).
    assert (<[k1 := mkEntry [1%Z] (clock g + from_secs 60)]> (delete v (map (cache g))) !! k2 = None) as H2
      by (by rewrite lookup_insert_ne, lookup_delete_ne).
    split_and!; try done.
    + apply map_Forall_insert; [by rewrite lookup_insert_ne|]. split; [eauto|].
      apply map_Forall_insert; [done|]. eauto.
    + apply map_Forall_insert; [done|]. split; [cbn; unfold from_secs; lia|].
      apply map_Forall_insert; [done|]. split; [cbn; unfold from_secs; lia|].
      by apply map_Forall_delete.
    + rewrite !map_size_insert_None, map_size_delete_Some by eauto. unfold len in Hpos. lia.
Qed.

Lemma reach_size cap n :
  1 ≤ cap →
  ∃ g, rtc step (initial cap) g ∧ at_rest g ∧ live_at (clock g) (cache g) ∧ capacity (cache g) = cap ∧
    len (cache g) = n.
Proof.
  intros Hcap. induction n as [|n (g & Hr & Hq & Hl & Hc & Hn)].
  - exists (initial cap). unfold at_rest, live_at. cbn. split_and!; done || apply map_Forall_empty.
  - assert (∃ g', rtc step g g' ∧ at_rest g' ∧ live_at (clock g') (cache g') ∧
      capacity (cache g') = capacity (cache g) ∧ len (cache g') = S (len (cache g)))
      as (g' & Hr' & Hq' & Hl' & Hc' & Hn').
    { destruct (decide (n < cap)); [apply grow_below|apply grow_pair]; try done; lia. }
    exists g'. split_and!; [by etrans|done|done|lia|lia].
Qed.

(** An insertion gives back no more room than it takes. *)
Lemma insert_keeps_size name qtype resp ttl now1 now2 c :
  capacity c ≤ len c → live_at now1 c → len c ≤ len (insert name qtype resp ttl now1 now2 c).
Proof.
  intros Hf Hl. unfold insert. destruct (_ || _); [done|]. case_bool_decide as Hk.
  { unfold len. cbn. rewrite map_size_insert. destruct Hk as [? ->]. done. }
  apply eq_None_not_Some in Hk. unfold evict_if_full. rewrite (proj2 (Nat.ltb_ge _ _)) by done.
  rewrite live_filter by done. unfold len in *. rewrite (proj2 (Nat.leb_le _ _)) by done.
  destruct (head (hm_iter (map c))) as [[v e]|] eqn:Hv; cbn [map].
  - apply head_hm_iter in Hv as Hve.
    assert (size (map c) ≠ 0) by (intros He%map_size_empty_inv; rewrite He in Hve; by rewrite lookup_empty in Hve).
    rewrite map_size_insert_None, map_size_delete_Some by (eauto || by apply lookup_delete_None; right). lia.
  - rewrite map_size_insert_None by done. lia.
Qed.

(** An insertion that runs without interruption, all entries being live when it looks
    for room: what its calls on the map leave. *)
Inductive alone (c : Cache) : Cache → Prop :=
| Alone name qtype resp ttl_secs now1 now2 :
    live_at now1 c → alone c (solo MAX_CALLS now1 now2 (insert_call name qtype resp ttl_secs) c).1.

Lemma alone_size c c' : alone c c' → capacity c ≤ len c → capacity c' = capacity c ∧ len c ≤ len c'.
Proof.
  intros [name qtype resp ttl now1 now2 Hl] Hf. rewrite (proj1 (uninterrupted_calls c name qtype)). cbn [fst].
  split; [|by apply insert_keeps_size]. unfold insert. destruct (_ || _); [done|]. cbn [capacity].
  destruct (bool_decide _); [done|]. apply evict_capacity.
Qed.

(** C28: the capacity does not bound the cache: for every excess [n] there is a run of
    insertions, every call on the map atomic, that ends at rest with [cap + n]
    entries, all live; and no sequence of insertions that run one after the other, each finding
    the entries live, ever makes the cache smaller again. *)
Theorem race_overshoots cap n :
  1 ≤ cap →
  ∃ g, rtc step (initial cap) g ∧ at_rest g ∧ capacity (cache g) = cap ∧ len (cache g) = cap + n ∧
    live_at (clock g) (cache g) ∧ ∀ c, rtc alone (cache g) c → cap + n ≤ len c.
Proof.
  intros Hcap. destruct (reach_size cap (cap + n) Hcap) as (g & Hr & Hq & Hl & Hc & Hn).
  exists g. split_and!; try done. intros c Ha. rewrite <- Hn.
  assert (capacity (cache g) ≤ len (cache g)) as Hf by lia. clear - Ha Hf.
  induction Ha as [|c c1 c2 Hs _ IH]; [done|]. destruct (alone_size _ _ Hs Hf) as [Hc1 Hl1].
  specialize (IH ltac:(lia)). lia.
Qed.

End Race.

(** ** Witnesses *)

(** A server with room for one response can be made to hold eight. *)
Lemma race_overshoots_witness :
  ∃ g, rtc (@step ascii_unicode list_iter) (initial 1) g ∧ len (cache g) = 8.
Proof.
  destruct (@race_overshoots ascii_unicode list_iter 1 7 (le_n 1)) as (g & Hr & _ & _ & Hn & _).
  exists g. split; [exact Hr|exact Hn].
Defined.

(** An insertion run to its end. *)
Definition sample_race : sys :=
  mkSys (mkCache {[ (str "a", 1%Z) := mkEntry [7%Z] 60000000000 ]} 1) {[ 0 := Finished None ]} 0
    [((str "a", 1%Z), mkEntry [7%Z] 60000000000)].

Lemma sample_race_reached : rtc (@shard_step ascii_unicode list_iter) (@initial 1) sample_race.
Proof.
  apply (rtc_l _ _ (spawn 0 (Inserting (str "a", 1%Z) [7%Z] 60 Contains) (initial 1))).
  { apply Whole_call. by apply (Call_insert (initial 1) 0 (str "A") 1 [7%Z] 60). }
  apply (rtc_l _ _ (spawn 0 (Inserting (str "a", 1%Z) [7%Z] 60 Full) (initial 1))).
  { apply Whole_call, look_step; [done|]. by vm_compute. }
  apply (rtc_l _ _ (spawn 0 (Inserting (str "a", 1%Z) [7%Z] 60 Store) (initial 1))).
  { apply Whole_call, look_step; [done|]. by vm_compute. }
  apply rtc_once, Whole_call.
  apply (thread_step 0 (Inserting (str "a", 1%Z) [7%Z] 60 Store) _ _ (initial 1)). by vm_compute.
Qed.

Lemma race_hit_sound_witness :
  ∃ expiry, last_stored (str "a", 1%Z) (stored sample_race) = Some (mkEntry [7%Z] expiry) ∧ (5 < expiry)%Z.
Proof.
  apply (@race_hit_sound ascii_unicode list_iter 1 sample_race (str "A") 1 5 [7%Z] (cache sample_race)).
  - exact sample_race_reached.
  - vm_compute. reflexivity.
Defined.
