(* ===== verification/RateLimit.v ===== *)
(** * The per-client rate limiter

    Models [src/src/ratelimit.rs]: a fixed window per client address. [allow]
    counts a query and tells whether it is within the limit; [cleanup] drops
    the clients whose window has elapsed. Times are nanoseconds, each
    [Instant::now()] an argument; the [u32] counter wraps as in a release
    build. *)

From S2P Require Import Prelude RustStd.

Record Window := mkWindow { started_at : Z; count : Z }.

#[global] Instance Window_eq_dec : EqDecision Window.
Proof. solve_decision. Defined.

Record RateLimiter := mkLimiter {
  max_per_window : Z;
  window : Z;
  clients : gmap IpAddr Window;
}.

Module RateLimiter_ops.

Definition new (max w : Z) : RateLimiter := mkLimiter max w ∅.
Definition disabled : RateLimiter := new 0 1000000000.

(** [now.checked_duration_since(w.started_at).is_some_and(|d| d >= window)] *)
Definition elapsed (now w started : Z) : bool := ((started <=? now) && (w <=? now - started))%Z.

Definition allow (now : Z) (ip : IpAddr) (rl : RateLimiter) : bool * RateLimiter :=
  if (max_per_window rl =? 0)%Z then (true, rl)
  else
    let w := default (mkWindow now 0) (clients rl !! ip) in
    let w := if elapsed now (window rl) (started_at w) then mkWindow now 0 else w in
    let w := mkWindow (started_at w) (as_u32 (count w + 1)) in
    ((count w <=? max_per_window rl)%Z,
     mkLimiter (max_per_window rl) (window rl) (<[ip := w]> (clients rl))).

Definition tracked_clients (rl : RateLimiter) : nat := size (clients rl).

(** [retain(|w| now.duration_since(w.started_at) < window)]; [duration_since]
    saturates at zero. *)
Definition cleanup (now : Z) (rl : RateLimiter) : RateLimiter :=
  mkLimiter (max_per_window rl) (window rl)
    (filter (fun kv => (0 `max` (now - started_at kv.2) < window rl)%Z) (clients rl)).

End RateLimiter_ops.
Import RateLimiter_ops.

(** The decisions for a sequence of queries. *)
Fixpoint decisions (rl : RateLimiter) (evs : list (Z * IpAddr)) : list bool :=
  match evs with
  | [] => []
  | (now, ip) :: evs' =>
      let '(b, rl') := allow now ip rl in b :: decisions rl' evs'
  end.

(** The limiter after a sequence of queries. *)
Definition after (rl : RateLimiter) (evs : list (Z * IpAddr)) : RateLimiter :=
  foldl (fun rl e => (allow e.1 e.2 rl).2) rl evs.

(** How many queries of [ip] are allowed. *)
Fixpoint allowed (ip : IpAddr) (rl : RateLimiter) (evs : list (Z * IpAddr)) : Z :=
  match evs with
  | [] => 0
  | (now, ip') :: evs' =>
      let '(b, rl') := allow now ip' rl in
      ((if b && bool_decide (ip' = ip) then 1 else 0) + allowed ip rl' evs')%Z
  end.

(** The clock does not go back. *)
Definition monotone (evs : list (Z * IpAddr)) : Prop := StronglySorted (fun a b => a.1 <= b.1)%Z evs.

(** ** Lemmas *)

(** The window of [ip] after its query at [now], before counting it. *)
Definition window_at (now : Z) (ip : IpAddr) (rl : RateLimiter) : Window :=
  let w := default (mkWindow now 0) (clients rl !! ip) in
  if elapsed now (window rl) (started_at w) then mkWindow now 0 else w.

Lemma allow_params now ip rl :
  max_per_window (allow now ip rl).2 = max_per_window rl ∧ window (allow now ip rl).2 = window rl.
Proof. unfold allow. by case_match. Qed.

Lemma allow_enabled now ip rl : max_per_window rl ≠ 0%Z →
  let w := window_at now ip rl in
  (allow now ip rl).1 = (as_u32 (count w + 1) <=? max_per_window rl)%Z ∧
  clients (allow now ip rl).2 = <[ip := mkWindow (started_at w) (as_u32 (count w + 1))]> (clients rl).
Proof. intros Hm%Z.eqb_neq. unfold allow. rewrite Hm. done. Qed.

Lemma allow_other now ip ip' rl : ip ≠ ip' → clients (allow now ip' rl).2 !! ip = clients rl !! ip.
Proof.
  intros Hne. destruct (decide (max_per_window rl = 0%Z)) as [Hm|Hm].
  - unfold allow. by rewrite Hm.
  - destruct (allow_enabled now ip' rl Hm) as [_ ->]. by rewrite lookup_insert_ne.
Qed.

Lemma decisions_cons rl now ip evs :
  decisions rl ((now, ip) :: evs) = (allow now ip rl).1 :: decisions (allow now ip rl).2 evs.
Proof. cbn. by destruct (allow now ip rl). Qed.

Lemma allowed_cons ip rl now ip' evs :
  allowed ip rl ((now, ip') :: evs) =
  ((if (allow now ip' rl).1 && bool_decide (ip' = ip) then 1 else 0)
   + allowed ip (allow now ip' rl).2 evs)%Z.
Proof. cbn. by destruct (allow now ip' rl). Qed.

(** Two limiters that agree but for windows already elapsed at [t]. *)
Definition agree (t : Z) (r1 r2 : RateLimiter) : Prop :=
  max_per_window r1 = max_per_window r2 ∧ window r1 = window r2 ∧
  ∀ ip, clients r1 !! ip = clients r2 !! ip ∨
    (clients r2 !! ip = None ∧
     ∃ w, clients r1 !! ip = Some w ∧ elapsed t (window r1) (started_at w) = true).

Lemma elapsed_later t t' w s : (t <= t')%Z → elapsed t w s = true → elapsed t' w s = true.
Proof. unfold elapsed. rewrite !andb_true_iff. lia. Qed.

Lemma agree_window t now ip r1 r2 :
  agree t r1 r2 → (t <= now)%Z → window_at now ip r1 = window_at now ip r2.
Proof.
  intros (_ & Hw & Hc) Ht. unfold window_at. destruct (Hc ip) as [->|(-> & w & -> & He)].
  - by rewrite Hw.
  - cbn. rewrite (elapsed_later t now) by done. by case_match.
Qed.

Lemma agree_allow t now ip r1 r2 :
  agree t r1 r2 → (t <= now)%Z →
  (allow now ip r1).1 = (allow now ip r2).1 ∧ agree now (allow now ip r1).2 (allow now ip r2).2.
Proof.
  intros Ha Ht. pose proof (agree_window t now ip r1 r2 Ha Ht) as Hwin.
  destruct Ha as (Hm & Hw & Hc). unfold agree.
  destruct (allow_params now ip r1) as [-> ->], (allow_params now ip r2) as [-> ->].
  destruct (decide (max_per_window r1 = 0%Z)) as [H0|H0].
  - unfold allow. rewrite <- Hm, H0. cbn. split_and!; [done..|]. intros i.
    destruct (Hc i) as [?|(? & w & ? & ?)]; [by left|right].
    eauto using elapsed_later.
  - destruct (allow_enabled now ip r1) as [-> ->]; [done|].
    destruct (allow_enabled now ip r2) as [-> ->]; [congruence|].
    rewrite Hwin, Hm. split_and!; [done..|]. intros i.
    destruct (decide (ip = i)) as [->|Hne]; [left; by rewrite !lookup_insert_eq|].
    rewrite !lookup_insert_ne by done.
    destruct (Hc i) as [?|(? & w & ? & ?)]; [by left|right].
    eauto using elapsed_later.
Qed.

Lemma agree_decisions evs t r1 r2 :
  agree t r1 r2 → monotone evs → Forall (fun e => t <= e.1)%Z evs →
  decisions r1 evs = decisions r2 evs.
Proof.
  revert t r1 r2. induction evs as [|[now ip] evs IH]; intros t r1 r2 Ha Hmo Ht; [done|].
  rewrite !decisions_cons. apply Forall_cons in Ht as [Ht _].
  destruct (agree_allow t now ip r1 r2 Ha Ht) as [-> Ha'].
  apply StronglySorted_inv in Hmo as [Hmo Hall]. f_equal. by eapply IH.
Qed.

(** Every window started in the past. *)
Definition past (t : Z) (rl : RateLimiter) : Prop :=
  map_Forall (fun _ w => started_at w <= t)%Z (clients rl).

Lemma past_allow t now ip rl : past t rl → (t <= now)%Z → past now (allow now ip rl).2.
Proof.
  intros Hp Ht. destruct (decide (max_per_window rl = 0%Z)) as [H0|H0].
  { unfold allow. rewrite H0. cbn. intros i w Hw%Hp. lia. }
  unfold past. destruct (allow_enabled now ip rl H0) as [_ ->].
  apply map_Forall_insert_2; [|intros i w Hw%Hp; lia]. cbn. unfold window_at.
  destruct (clients rl !! ip) as [w|] eqn:Hw; cbn; [apply Hp in Hw|]; case_match; cbn; lia.
Qed.

Lemma past_after evs t rl :
  past t rl → monotone evs → Forall (fun e => t <= e.1)%Z evs →
  ∀ t', (t <= t')%Z → Forall (fun e => e.1 <= t')%Z evs → past t' (after rl evs).
Proof.
  revert t rl. induction evs as [|[now ip] evs IH]; intros t rl Hp Hmo Ht t' Hle Ht'.
  { intros i w Hw%Hp. lia. }
  apply Forall_cons in Ht as [Ht _], Ht' as [Ht1 Ht'].
  apply StronglySorted_inv in Hmo as [Hmo Hall]. cbn in *.
  apply (IH now); [by apply (past_allow t)|done|done|done|done].
Qed.

Lemma cleanup_agree now rl : past now rl → agree now rl (cleanup now rl).
Proof.
  intros Hp. unfold agree, cleanup. cbn. split_and!; [done..|]. intros ip.
  destruct (clients rl !! ip) as [w|] eqn:Hw.
  2:{ left. symmetry. apply map_lookup_filter_None. by left. }
  pose proof (Hp _ _ Hw) as Hs. cbn in Hs.
  destruct (decide (0 `max` (now - started_at w) < window rl)%Z) as [Hlt|Hge].
  - left. symmetry. by apply map_lookup_filter_Some.
  - right. split; [apply map_lookup_filter_None; right; naive_solver|].
    exists w. split; [done|]. unfold elapsed. lia.
Qed.

(** The queries allowed while the window of [ip] stays open. *)
Lemma allowed_same_window evs ip rl s c :
  (0 < max_per_window rl)%Z → clients rl !! ip = Some (mkWindow s c) →
  Forall (fun e => e.1 < s + window rl)%Z evs →
  (0 <= c)%Z → (c + Z.of_nat (length evs) < 2 ^ 32)%Z →
  (allowed ip rl evs <= 0 `max` (max_per_window rl - c))%Z.
Proof.
  revert rl c. induction evs as [|[now ip'] evs IH]; intros rl c Hm Hc Ht H0 Hlen; [cbn; lia|].
  apply Forall_cons in Ht as [Ht Hts]. cbn in Ht. rewrite allowed_cons. cbn [length] in Hlen.
  destruct (allow_params now ip' rl) as [Hm' Hw'].
  destruct (decide (ip' = ip)) as [->|Hne].
  - rewrite bool_decide_true, andb_true_r by done.
    destruct (allow_enabled now ip rl) as [Hb Hcl]; [lia|].
    assert (window_at now ip rl = mkWindow s c) as Hwin.
    { unfold window_at. rewrite Hc. cbn. unfold elapsed. case_match; [lia|done]. }
    rewrite Hwin in Hb, Hcl. cbn in Hb, Hcl.
    assert (as_u32 (c + 1) = c + 1)%Z as Hu by (apply Z.mod_small; lia). rewrite Hu in Hb, Hcl.
    rewrite Hb. pose proof (IH (allow now ip rl).2 (c + 1)%Z) as Hr.
    rewrite Hm', Hw', Hcl, lookup_insert_eq in Hr.
    specialize (Hr Hm eq_refl Hts ltac:(lia) ltac:(lia)).
    destruct (Z.leb_spec (c + 1) (max_per_window rl)); lia.
  - rewrite bool_decide_false, andb_false_r by done.
    pose proof (IH (allow now ip' rl).2 c) as Hr.
    rewrite Hm', Hw', allow_other in Hr by congruence.
    specialize (Hr Hm Hc Hts H0 ltac:(lia)). lia.
Qed.

(** The count left in the current window of [ip]. *)
Definition left_in_window (ip : IpAddr) (rl : RateLimiter) : Z :=
  match clients rl !! ip with
  | Some w => 0 `max` (max_per_window rl - count w)
  | None => 0
  end.

Definition count_of (ip : IpAddr) (rl : RateLimiter) : Z :=
  match clients rl !! ip with Some w => count w | None => 0 end.

(** A query that opens a new window leaves at most [max - 1] more. *)
Lemma allowed_new_window evs ip now rl a :
  (0 < max_per_window rl)%Z → window_at now ip rl = mkWindow now 0 →
  (a <= now)%Z → Forall (fun e => a <= e.1 < a + window rl)%Z evs →
  (Z.of_nat (S (length evs)) < 2 ^ 32)%Z →
  (allowed ip rl ((now, ip) :: evs) <= max_per_window rl)%Z.
Proof.
  intros Hm Hwin Ha Ht Hlen. rewrite allowed_cons, bool_decide_true, andb_true_r by done.
  destruct (allow_enabled now ip rl) as [_ Hcl]; [lia|].
  destruct (allow_params now ip rl) as [Hm' Hw'].
  rewrite Hwin in Hcl. cbn in Hcl.
  pose proof (allowed_same_window evs ip (allow now ip rl).2 now 1) as Hr.
  rewrite Hm', Hw', Hcl, lookup_insert_eq in Hr.
  assert (Forall (fun e => e.1 < now + window rl)%Z evs) as Ht'
    by (eapply Forall_impl; [exact Ht|]; cbn; intros; lia).
  specialize (Hr Hm eq_refl Ht' ltac:(lia) ltac:(lia)). case_match; lia.
Qed.

Lemma allowed_interval evs ip rl a :
  (0 < max_per_window rl)%Z → (0 <= count_of ip rl)%Z →
  Forall (fun e => a <= e.1 < a + window rl)%Z evs →
  (count_of ip rl + Z.of_nat (length evs) < 2 ^ 32)%Z →
  (allowed ip rl evs <= left_in_window ip rl + max_per_window rl)%Z.
Proof.
  revert rl. induction evs as [|[now ip'] evs IH]; intros rl Hm H0 Ht Hlen.
  { unfold left_in_window. cbn. case_match; lia. }
  apply Forall_cons in Ht as [Ht Hts]. cbn in Ht. cbn [length] in Hlen.
  destruct (allow_params now ip' rl) as [Hm' Hw'].
  destruct (decide (ip' = ip)) as [->|Hne].
  - destruct (decide (window_at now ip rl = mkWindow now 0)) as [Hnew|Hold].
    { pose proof (allowed_new_window evs ip now rl a Hm Hnew) as Hn.
      unfold left_in_window, count_of in *. specialize (Hn ltac:(lia) Hts ltac:(lia)).
      case_match; lia. }
    destruct (clients rl !! ip) as [[s c]|] eqn:Hc.
    2:{ destruct Hold. unfold window_at. rewrite Hc. cbn. by case_match. }
    assert (window_at now ip rl = mkWindow s c) as Hwin.
    { unfold window_at in *. rewrite Hc in *. cbn in *. by case_match. }
    unfold left_in_window, count_of in *. rewrite Hc in *. cbn [count] in *.
    rewrite allowed_cons, bool_decide_true, andb_true_r by done.
    destruct (allow_enabled now ip rl) as [Hb Hcl]; [lia|].
    rewrite Hwin in Hb, Hcl. cbn in Hb, Hcl.
    assert (as_u32 (c + 1) = c + 1)%Z as Hu by (apply Z.mod_small; lia). rewrite Hu in Hb, Hcl.
    pose proof (IH (allow now ip rl).2) as Hr.
    rewrite Hm', Hw', Hcl, lookup_insert_eq in Hr. cbn in Hr.
    specialize (Hr Hm ltac:(lia) Hts ltac:(lia)).
    rewrite Hb. destruct (Z.leb_spec (c + 1) (max_per_window rl)); lia.
  - rewrite allowed_cons, bool_decide_false, andb_false_r by done.
    pose proof (IH (allow now ip' rl).2) as Hr. unfold left_in_window, count_of in *.
    rewrite Hm', Hw', allow_other in Hr by congruence.
    specialize (Hr Hm H0 Hts ltac:(lia)). lia.
Qed.

(** The counter of a client never exceeds the number of queries seen. *)
Lemma count_after evs ip rl n :
  (0 <= count_of ip rl <= n)%Z →
  (0 <= count_of ip (after rl evs) <= n + Z.of_nat (length evs))%Z.
Proof.
  revert rl n. induction evs as [|[now ip'] evs IH]; intros rl n Hc; [cbn; lia|].
  cbn [after foldl length fst snd].
  enough (0 <= count_of ip (allow now ip' rl).2 <= n + 1)%Z as Hn by (apply IH in Hn; unfold after in *; lia).
  destruct (decide (max_per_window rl = 0%Z)) as [H0|H0]; [unfold allow; rewrite H0; cbn; lia|].
  destruct (decide (ip' = ip)) as [->|Hne].
  - unfold count_of in *. destruct (allow_enabled now ip rl H0) as [_ ->].
    rewrite lookup_insert_eq. cbn. unfold window_at.
    destruct (clients rl !! ip) as [w|]; cbn; case_match; cbn; width_lia.
  - unfold count_of in *. by rewrite allow_other by congruence; lia.
Qed.

Lemma after_params evs rl :
  max_per_window (after rl evs) = max_per_window rl ∧ window (after rl evs) = window rl.
Proof.
  revert rl. induction evs as [|[now ip] evs IH]; intros rl; [done|].
  cbn [after foldl fst snd]. destruct (allow_params now ip rl) as [<- <-]. apply IH.
Qed.

(** ** Properties *)

(** C35: the flood bound: in any time interval as long as a window, a client gets
    at most twice [max_per_window] queries allowed, after any history (as long
    as the [u32] counter cannot have wrapped). *)
Theorem rate_limit_flood_bound (max w a : Z) (ip : IpAddr) (pre evs : list (Z * IpAddr)) :
  (0 < max)%Z → (Z.of_nat (length pre + length evs) < 2 ^ 32)%Z →
  Forall (fun e => a <= e.1 < a + w)%Z evs →
  (allowed ip (after (new max w) pre) evs <= 2 * max)%Z.
Proof.
  intros Hm Hlen Ht. destruct (after_params pre (new max w)) as [Hm' Hw'].
  assert (0 <= count_of ip (new max w) <= 0)%Z as H0.
  { unfold count_of. cbn. by rewrite lookup_empty. }
  pose proof (count_after pre ip (new max w) 0 H0) as Hc.
  pose proof (allowed_interval evs ip (after (new max w) pre) a) as Hi.
  rewrite Hm', Hw' in Hi. cbn in Hi. specialize (Hi Hm ltac:(lia) Ht ltac:(lia)).
  assert (left_in_window ip (after (new max w) pre) <= max)%Z as Hl.
  { unfold left_in_window, count_of in *. rewrite Hm'.
    destruct (clients (after _ _) !! ip); cbn [max_per_window new] in *; lia. }
  lia.
Qed.

(** A decision is exact for the client's window: a query is allowed exactly
    when fewer than [max_per_window] were counted in the window it falls into,
    and the state of every other client is untouched. A limit of zero allows
    everything. *)
Theorem allow_spec (now : Z) (ip : IpAddr) (rl : RateLimiter) :
  let '(b, rl') := allow now ip rl in
  (max_per_window rl = 0%Z → b = true ∧ rl' = rl) ∧
  ((0 < max_per_window rl)%Z →
    (0 <= count (window_at now ip rl) < 2 ^ 32 - 1)%Z →
    (b = true ↔ (count (window_at now ip rl) < max_per_window rl)%Z) ∧
    (∃ s, clients rl' !! ip = Some (mkWindow s (count (window_at now ip rl) + 1)%Z) ∧
      s = started_at (window_at now ip rl))) ∧
  (∀ ip', ip' ≠ ip → clients rl' !! ip' = clients rl !! ip').
Proof.
  destruct (allow now ip rl) as [b rl'] eqn:Ha. split_and!.
  - intros H0. unfold allow in Ha. rewrite H0 in Ha. cbn in Ha. by simplify_eq.
  - intros Hm Hc. destruct (allow_enabled now ip rl) as [Hb Hcl]; [lia|].
    rewrite Ha in Hb, Hcl. cbn in Hb, Hcl.
    assert (as_u32 (count (window_at now ip rl) + 1) = count (window_at now ip rl) + 1)%Z as Hu
      by (apply Z.mod_small; lia).
    rewrite Hu in Hb, Hcl. rewrite Hcl, lookup_insert_eq. split; [rewrite Hb; lia|eauto].
  - intros ip' Hne. pose proof (allow_other now ip' ip rl Hne) as Ho. by rewrite Ha in Ho.
Qed.

(** [cleanup] is invisible: run at any moment between two queries of a
    monotone history, it changes none of the later decisions. *)
Theorem cleanup_neutral (max w t : Z) (pre post : list (Z * IpAddr)) :
  monotone pre → monotone post →
  Forall (fun e => 0 <= e.1 <= t)%Z pre → Forall (fun e => t <= e.1)%Z post → (0 <= t)%Z →
  decisions (cleanup t (after (new max w) pre)) post = decisions (after (new max w) pre) post.
Proof.
  intros Hm1 Hm2 Ht1 Ht2 H0. symmetry. apply (agree_decisions post t); [|done|done].
  apply cleanup_agree, (past_after pre 0); [|done| |done|].
  - intros i x. cbn. by rewrite lookup_empty.
  - eapply Forall_impl; [exact Ht1|]. cbn. lia.
  - eapply Forall_impl; [exact Ht1|]. cbn. lia.
Qed.

(** Across queries in flight it is not: a query that read the clock before the
    clean-up did, and counts after it, is allowed though its window is full. *)
Theorem cleanup_stale_query (now t : Z) (ip : IpAddr) (rl : RateLimiter) (w : Window) :
  clients rl !! ip = Some w → (0 < max_per_window rl)%Z → (max_per_window rl <= count w < 2 ^ 32 - 1)%Z →
  (started_at w <= now < started_at w + window rl)%Z → (started_at w + window rl <= t)%Z → (0 < window rl)%Z →
  (allow now ip rl).1 = false ∧ (allow now ip (cleanup t rl)).1 = true.
Proof.
  intros Hw Hm Hc Hnow Ht Hwin. split.
  - destruct (allow_enabled now ip rl) as [-> _]; [lia|].
    assert (window_at now ip rl = w) as ->.
    { unfold window_at. rewrite Hw. cbn. unfold elapsed. case_match; [lia|done]. }
    apply Z.leb_gt. unfold as_u32. rewrite Z.mod_small; lia.
  - destruct (allow_enabled now ip (cleanup t rl)) as [-> _]; [cbn; lia|].
    assert (window_at now ip (cleanup t rl) = mkWindow now 0) as ->.
    { unfold window_at, cleanup. cbn [clients window]. rewrite (proj2 (map_lookup_filter_None _ _ _)).
      - cbn. by case_match.
      - right. intros w' Hw'. rewrite Hw in Hw'. injection Hw' as <-. cbn. lia. }
    apply Z.leb_le. cbn. change (as_u32 (0 + 1)) with 1%Z. lia.
Qed.

(** ** Witnesses *)

Definition localhost (n : Z) : IpAddr := V4 [127; 0; 0; n]%Z.

Definition sample_history : list (Z * IpAddr) := [(8%Z, localhost 1); (9%Z, localhost 1)].
Definition sample_burst : list (Z * IpAddr) :=
  [(10%Z, localhost 1); (17%Z, localhost 2); (18%Z, localhost 1); (19%Z, localhost 1)].

Lemma rate_limit_flood_bound_witness :
  allowed (localhost 1) (after (new 2 10) sample_history) sample_burst = 2%Z ∧
  (allowed (localhost 1) (after (new 2 10) sample_history) sample_burst <= 2 * 2)%Z.
Proof.
  split; [vm_compute; reflexivity|].
  apply (rate_limit_flood_bound 2 10 10); [lia|cbn; lia|].
  repeat constructor; cbn; lia.
Defined.

Lemma cleanup_neutral_witness :
  decisions (cleanup 19 (after (new 1 10) sample_history))
    [(19%Z, localhost 1); (20%Z, localhost 1)] = [true; false] ∧
  decisions (after (new 1 10) sample_history)
    [(19%Z, localhost 1); (20%Z, localhost 1)] = [true; false].
Proof.
  split; [|vm_compute; reflexivity].
  rewrite (cleanup_neutral 1 10 19); [vm_compute; reflexivity|..|lia];
    repeat (constructor; cbn; try lia).
Defined.

Lemma allow_spec_witness :
  (allow 5 (localhost 1) (new 1 10)).1 = true ∧
  clients (allow 5 (localhost 1) (new 1 10)).2 !! localhost 1 = Some (mkWindow 5 1).
Proof.
  pose proof (allow_spec 5 (localhost 1) (new 1 10)) as H.
  split; [vm_compute; reflexivity|].
  destruct (allow 5 (localhost 1) (new 1 10)) as [b rl'] eqn:E. destruct H as (_ & H & _).
  destruct H as [_ (s & Hs & ->)]; [vm_compute; reflexivity|vm_compute; split; congruence|].
  cbn [snd]. rewrite Hs. vm_compute. reflexivity.
Defined.

Lemma cleanup_stale_query_witness :
  let rl := after (new 1 10) [(0%Z, localhost 1)] in
  (allow 9 (localhost 1) rl).1 = false ∧ (allow 9 (localhost 1) (cleanup 10 rl)).1 = true.
Proof. intros rl. apply (cleanup_stale_query 9 10 (localhost 1) rl (mkWindow 0 1)); cbn; [reflexivity|lia..]. Defined.
