(* ===== verification/Acl.v ===== *)
(** * Access control lists

    Models [src/src/acl.rs]: the CIDR list that authorises zone transfers, from
    its text form to the decision for a client address. *)

From S2P Require Import Prelude RustStd TextParse.

Inductive Cidr :=
| CidrV4 (addr : bytes) (prefix : Z)
| CidrV6 (addr : bytes) (prefix : Z).

Record Acl := mkAcl { entries : list Cidr }.

(** The [/] character. *)
Definition SLASH : Z := 47.

Definition parse_cidr (s : bytes) : res string Cidr :=
  match split_once SLASH s with
  | Some (addr_part, prefix_part) =>
      match parse_u8 prefix_part with
      | None => Err "invalid prefix length"%string
      | Some prefix =>
          match parse_ipv4 addr_part with
          | Some v4 =>
              if (32 <? prefix)%Z then Err "IPv4 prefix length > 32"%string
              else Ok (CidrV4 v4 prefix)
          | None =>
              match parse_ipv6 addr_part with
              | Some v6 =>
                  if (128 <? prefix)%Z then Err "IPv6 prefix length > 128"%string
                  else Ok (CidrV6 v6 prefix)
              | None => Err "not a valid IP address"%string
              end
          end
      end
  | None =>
      match parse_ipv4 s with
      | Some v4 => Ok (CidrV4 v4 32)
      | None =>
          match parse_ipv6 s with
          | Some v6 => Ok (CidrV6 v6 128)
          | None => Err "not a valid CIDR or IP"%string
          end
      end
  end.

Module Acl_ops.

Fixpoint parse_entries (specs : list bytes) : res string (list Cidr) :=
  match specs with
  | [] => Ok []
  | s :: specs' =>
      let s := trim s in
      if bool_decide (s = []) then parse_entries specs'
      else c ← parse_cidr s; cs ← parse_entries specs'; Ok (c :: cs)
  end.

Definition parse (specs : list bytes) : res string Acl := mkAcl <$> parse_entries specs.

Definition deny_all : Acl := mkAcl [].

End Acl_ops.

(** [matches_v4] and [matches_v6], which differ in the array length only. *)
Definition matches_net (net : bytes) (prefix : Z) (ip : bytes) : res string bool :=
  let bits := Z.to_nat prefix in
  let full_bytes := bits `div` 8 in
  let rem := bits `mod` 8 in
  i ← slice ip 0 full_bytes; n ← slice net 0 full_bytes;
  if negb (bool_decide (i = n)) then Ok false
  else if rem =? 0 then Ok true
  else
    let mask := as_u8 (Z.shiftl 255 (Z.of_nat (8 - rem))) in
    a ← idx ip full_bytes; b ← idx net full_bytes;
    Ok (Z.land a mask =? Z.land b mask)%Z.
Definition matches_v4 : bytes → Z → bytes → res string bool := matches_net.
Definition matches_v6 : bytes → Z → bytes → res string bool := matches_net.

Definition entry_matches (c : Cidr) (ip : IpAddr) : res string bool :=
  match c, ip with
  | CidrV4 addr prefix, V4 v4 => matches_v4 addr prefix v4
  | CidrV6 addr prefix, V6 v6 => matches_v6 addr prefix v6
  | _, _ => Ok false
  end.

Fixpoint any_allowed (cs : list Cidr) (ip : IpAddr) : res string bool :=
  match cs with
  | [] => Ok false
  | c :: cs' => b ← entry_matches c ip; if (b : bool) then Ok true else any_allowed cs' ip
  end.

Definition is_allowed (acl : Acl) (ip : IpAddr) : res string bool := any_allowed (entries acl) ip.

(** ** Specification: equality of the first [prefix] bits *)

(** Bit [i] of an address, the most significant of the first octet first. *)
Definition addr_bit (a : bytes) (i : nat) : bool :=
  Z.testbit (default 0%Z (a !! (i `div` 8))) (7 - Z.of_nat (i `mod` 8)).

Definition wf_cidr (c : Cidr) : Prop :=
  match c with
  | CidrV4 a p => wf_ipv4 a ∧ (0 <= p <= 32)%Z
  | CidrV6 a p => wf_ipv6 a ∧ (0 <= p <= 128)%Z
  end.

Definition wf_ip (ip : IpAddr) : Prop :=
  match ip with V4 a => wf_ipv4 a | V6 a => wf_ipv6 a end.

(** [ip] belongs to the network. *)
Definition in_network (c : Cidr) (ip : IpAddr) : Prop :=
  match c, ip with
  | CidrV4 net p, V4 a | CidrV6 net p, V6 a =>
      ∀ i, (Z.of_nat i < p)%Z → addr_bit a i = addr_bit net i
  | _, _ => False
  end.

(** ** Lemmas *)

Lemma u8_high_bits a j : is_u8 a → (8 <= j)%Z → Z.testbit a j = false.
Proof.
  intros Ha Hj. destruct (decide (a = 0%Z)) as [->|Hne]; [apply Z.bits_0|].
  apply Z.bits_above_log2; [unfold is_u8 in Ha; lia|].
  enough (Z.log2 a < 8)%Z by lia. apply Z.log2_lt_pow2; unfold is_u8 in Ha; lia.
Qed.

(** Two octets agree on their top [rem] bits exactly when they agree under the mask. *)
Lemma mask_bits a b rem :
  is_u8 a → is_u8 b → rem ≤ 8 →
  Z.land a (as_u8 (Z.shiftl 255 (Z.of_nat (8 - rem)))) =
  Z.land b (as_u8 (Z.shiftl 255 (Z.of_nat (8 - rem)))) ↔
  ∀ j, j < rem → Z.testbit a (7 - Z.of_nat j) = Z.testbit b (7 - Z.of_nat j).
Proof.
  intros Ha Hb Hr. set (m := as_u8 _).
  assert (∀ j, (0 <= j)%Z → Z.testbit m j = (bool_decide (Z.of_nat (8 - rem) <= j < 8)%Z)) as Hm.
  { intros j Hj. unfold m, as_u8. destruct (decide (j < 8)%Z).
    - rewrite Z.mod_pow2_bits_low, Z.shiftl_spec by lia. change 255%Z with (Z.ones 8).
      destruct (decide (Z.of_nat (8 - rem) ≤ j)%Z).
      + rewrite Z.ones_spec_low by lia. by rewrite bool_decide_true by lia.
      + rewrite Z.testbit_neg_r by lia. by rewrite bool_decide_false by lia.
    - rewrite Z.mod_pow2_bits_high by lia. by rewrite bool_decide_false by lia. }
  split.
  - intros He j Hj. apply (f_equal (fun z => Z.testbit z (7 - Z.of_nat j))) in He.
    rewrite !Z.land_spec, Hm, bool_decide_true, !andb_true_r in He by lia. done.
  - intros Hj. apply Z.bits_inj'. intros k Hk. rewrite !Z.land_spec, Hm by done.
    case_bool_decide; [|by rewrite !andb_false_r]. rewrite !andb_true_r.
    specialize (Hj (Z.to_nat (7 - k))). replace (7 - Z.of_nat (Z.to_nat (7 - k)))%Z with k in Hj by lia.
    apply Hj. lia.
Qed.

Lemma octet_eq_bits a b :
  is_u8 a → is_u8 b →
  a = b ↔ ∀ j, j < 8 → Z.testbit a (7 - Z.of_nat j) = Z.testbit b (7 - Z.of_nat j).
Proof.
  intros Ha Hb. split; [by intros ->|]. intros Hj. apply Z.bits_inj'. intros k Hk.
  destruct (decide (k < 8)%Z); [|by rewrite !u8_high_bits by (done || lia)].
  specialize (Hj (Z.to_nat (7 - k))). replace (7 - Z.of_nat (Z.to_nat (7 - k)))%Z with k in Hj by lia.
  apply Hj. lia.
Qed.

Lemma take_eq_iff {A} (l k : list A) n :
  n ≤ length l → n ≤ length k → take n l = take n k ↔ ∀ i, i < n → l !! i = k !! i.
Proof.
  intros Hl Hk. split.
  - intros He i Hi. rewrite <- (lookup_take_lt l n i), <- (lookup_take_lt k n i) by done.
    by rewrite He.
  - intros Hi. apply list_eq. intros i. destruct (decide (i < n)).
    + rewrite !lookup_take_lt by done. auto.
    + rewrite !lookup_take_ge by lia. done.
Qed.

(** Bits of an address, octet by octet. *)
Lemma addr_bit_octet a k j : j < 8 →
  addr_bit a (8 * k + j) = Z.testbit (default 0%Z (a !! k)) (7 - Z.of_nat j).
Proof.
  intros Hj. unfold addr_bit.
  replace ((8 * k + j) `div` 8) with k by (apply (Nat.div_unique _ 8 k j); lia).
  replace ((8 * k + j) `mod` 8) with j by (apply (Nat.mod_unique _ 8 k j); lia).
  done.
Qed.

Lemma matches_net_spec net ip p len :
  length net = len → length ip = len → wf_bytes net → wf_bytes ip →
  (0 <= p <= 8 * Z.of_nat len)%Z →
  ∃ b, matches_net net p ip = Ok b ∧
    (b = true ↔ ∀ i, (Z.of_nat i < p)%Z → addr_bit ip i = addr_bit net i).
Proof.
  intros Hn Hi Hwn Hwi Hp. unfold matches_net. set (bits := Z.to_nat p).
  set (full := bits `div` 8). set (rem := bits `mod` 8).
  assert (bits = 8 * full + rem ∧ rem < 8) as [Hb Hr].
  { split; [apply Nat.div_mod_eq|apply Nat.mod_upper_bound; lia]. }
  assert (bits ≤ 8 * len ∧ ∀ i, i < bits ↔ (Z.of_nat i < p)%Z) as [Hbl Hbp] by (unfold bits; split; lia).
  clearbody full rem bits. setoid_rewrite <- Hbp.
  rewrite !slice_Ok by lia. cbn [mbind res_bind].
  assert (∀ (l : bytes) i, wf_bytes l → i < length l → ∃ x, l !! i = Some x ∧ is_u8 x) as Hget.
  { intros l i Hl Hlt. destruct (lookup_lt_is_Some_2 l i Hlt) as [x Hx]. exists x.
    split; [done|]. by eapply Forall_lookup_1 in Hl. }
  assert (take (full - 0) (drop 0 ip) = take (full - 0) (drop 0 net) ↔
    ∀ i, i < 8 * full → addr_bit ip i = addr_bit net i) as Hfull.
  { rewrite !drop_0, Nat.sub_0_r, take_eq_iff by lia. split.
    - intros He i Hlt. unfold addr_bit. rewrite He; [done|]. apply Nat.Div0.div_lt_upper_bound; lia.
    - intros He k Hk. destruct (Hget ip k Hwi ltac:(lia)) as (x & Hx & Hux).
      destruct (Hget net k Hwn ltac:(lia)) as (y & Hy & Huy).
      rewrite Hx, Hy. f_equal. apply octet_eq_bits; [done..|]. intros j Hj.
      specialize (He (8 * k + j)). rewrite !addr_bit_octet, Hx, Hy in He by done. apply He. lia. }
  case_bool_decide as He; cbn [negb].
  2:{ exists false. split; [done|]. split; [done|]. intros Hall. destruct He. apply Hfull.
      intros i Hlt. apply Hall. lia. }
  rewrite Hfull in He. destruct (Nat.eqb_spec rem 0) as [H0|H0].
  { exists true. split; [done|]. split; [|done]. intros _ i Hlt. apply He. lia. }
  destruct (Hget ip full Hwi ltac:(lia)) as (x & Hx & Hux).
  destruct (Hget net full Hwn ltac:(lia)) as (y & Hy & Huy).
  unfold idx. rewrite Hx, Hy. cbn [mbind res_bind]. eexists. split; [done|].
  rewrite Z.eqb_eq, mask_bits by (done || lia). split.
  - intros Hj i Hlt. destruct (decide (i < 8 * full)); [auto|].
    replace i with (8 * full + (i - 8 * full)) by lia.
    rewrite !addr_bit_octet, Hx, Hy by lia. apply Hj. lia.
  - intros Hall j Hj. specialize (Hall (8 * full + j)).
    rewrite !addr_bit_octet, Hx, Hy in Hall by lia. apply Hall. lia.
Qed.

Lemma entry_matches_spec c ip :
  wf_cidr c → wf_ip ip → ∃ b, entry_matches c ip = Ok b ∧ (b = true ↔ in_network c ip).
Proof.
  destruct c as [net p|net p], ip as [a|a]; cbn; intros [[Hl Hw] Hp] [Hl' Hw'].
  - by apply (matches_net_spec net a p 4).
  - by exists false.
  - by exists false.
  - by apply (matches_net_spec net a p 16).
Qed.

Lemma any_allowed_spec cs ip :
  Forall wf_cidr cs → wf_ip ip →
  ∃ b, any_allowed cs ip = Ok b ∧ (b = true ↔ Exists (fun c => in_network c ip) cs).
Proof.
  intros Hc Hip. induction Hc as [|c cs Hc Hcs (b & IH & IHb)]; cbn [any_allowed].
  { exists false. split; [done|]. rewrite Exists_nil. done. }
  destruct (entry_matches_spec c ip Hc Hip) as (b' & -> & Hb'). cbn [mbind res_bind].
  destruct b'; [exists true|exists b]; (split; [done|]); rewrite Exists_cons, <- Hb', <- IHb;
    naive_solver.
Qed.

Lemma parse_cidr_wf s c : parse_cidr s = Ok c → wf_cidr c.
Proof.
  unfold parse_cidr. destruct (split_once SLASH s) as [[ap pp]|].
  - destruct (parse_u8 pp) as [p|] eqn:Hp; [|done]. apply parse_uint_bound in Hp; [|lia].
    destruct (parse_ipv4 ap) as [v4|] eqn:H4.
    + apply parse_ipv4_wf in H4. destruct (Z.ltb_spec 32 p); [done|].
      intros [= <-]. split; [done|lia].
    + destruct (parse_ipv6 ap) as [v6|] eqn:H6; [|done]. apply parse_ipv6_wf in H6.
      destruct (Z.ltb_spec 128 p); [done|]. intros [= <-]. split; [done|lia].
  - destruct (parse_ipv4 s) as [v4|] eqn:H4.
    + apply parse_ipv4_wf in H4. intros [= <-]. split; [done|lia].
    + destruct (parse_ipv6 s) as [v6|] eqn:H6; [|done]. apply parse_ipv6_wf in H6.
      intros [= <-]. split; [done|lia].
Qed.

Lemma parse_entries_wf specs cs : Acl_ops.parse_entries specs = Ok cs → Forall wf_cidr cs.
Proof.
  revert cs. induction specs as [|s specs IH]; intros cs; cbn [Acl_ops.parse_entries].
  { intros [= <-]. constructor. }
  case_bool_decide as Ht; [auto|]. intros H. apply bind_Ok in H as (c & Hc & H).
  apply bind_Ok in H as (cs' & Hcs & H). injection H as <-.
  constructor; [by eapply parse_cidr_wf|by apply IH].
Qed.

(** ** Properties *)

(** C36: a configured ACL never panics on a client address, and allows it
    exactly when one of its networks contains it: same family, and the first
    [prefix] bits equal. *)
Theorem acl_allows_iff (specs : list bytes) (acl : Acl) (ip : IpAddr) :
  Acl_ops.parse specs = Ok acl → wf_ip ip →
  ∃ b, is_allowed acl ip = Ok b ∧ (b = true ↔ ∃ c, c ∈ entries acl ∧ in_network c ip).
Proof.
  intros Hp Hip. unfold Acl_ops.parse in Hp.
  destruct (Acl_ops.parse_entries specs) as [cs| |] eqn:E; simplify_eq/=.
  apply parse_entries_wf in E. destruct (any_allowed_spec cs ip E Hip) as (b & Hb & Hiff).
  exists b. split; [done|]. rewrite Hiff, Exists_exists. done.
Qed.

(** A bare address permits that host only; and an empty list of
    specifications denies everybody. *)
Theorem acl_single_host (s : bytes) (a ip : bytes) :
  SLASH ∉ s → parse_ipv4 s = Some a → wf_ipv4 ip → trim s = s →
  ∃ acl, Acl_ops.parse [s] = Ok acl ∧
    is_allowed acl (V4 ip) = Ok (bool_decide (ip = a)) ∧
    is_allowed Acl_ops.deny_all (V4 ip) = Ok false.
Proof.
  intros Hs Ha Hip Ht. exists (mkAcl [CidrV4 a 32]). split_and!; [| |done].
  - unfold Acl_ops.parse. cbn [Acl_ops.parse_entries]. rewrite Ht, bool_decide_false.
    + unfold parse_cidr. rewrite (proj2 (split_once_None SLASH s) Hs), Ha. done.
    + intros ->. by vm_compute in Ha.
  - unfold is_allowed. pose proof (parse_ipv4_wf _ _ Ha) as Hwa.
    destruct (any_allowed_spec [CidrV4 a 32] (V4 ip)) as (b & Hb & Hiff); [|done|].
    { constructor; [split; [done|lia]|constructor]. }
    cbn [entries]. rewrite Hb. f_equal. apply eq_bool_prop_intro.
    rewrite !Is_true_true, bool_decide_eq_true, Hiff, Exists_cons, Exists_nil. cbn.
    destruct Hip as [Hl Hw], Hwa as [Hla Hwa]. split.
    + intros [Hbits|[]]. apply list_eq. intros k. destruct (decide (k < 4)) as [Hk|Hk].
      * destruct (lookup_lt_is_Some_2 ip k) as [x Hx]; [lia|].
        destruct (lookup_lt_is_Some_2 a k) as [y Hy]; [lia|]. rewrite Hx, Hy. f_equal.
        apply octet_eq_bits; [by eapply Forall_lookup_1 in Hx|by eapply Forall_lookup_1 in Hy|].
        intros j Hj. specialize (Hbits (8 * k + j)).
        rewrite !addr_bit_octet, Hx, Hy in Hbits by done. apply Hbits. lia.
      * by rewrite !lookup_ge_None_2 by lia.
    + intros ->. by left.
Qed.

(** ** Witnesses *)

Definition sample_acl : Acl :=
  mkAcl [CidrV4 [10; 0; 0; 0]%Z 8;
         CidrV6 [32; 1; 13; 184; 0; 0; 0; 0; 0; 0; 0; 0; 0; 0; 0; 0]%Z 33].

Lemma acl_allows_iff_witness :
  Acl_ops.parse [str "10.0.0.0/8"; str " 2001:db8::/33 "] = Ok sample_acl ∧
  ∃ c, c ∈ entries sample_acl ∧ in_network c (V4 [10; 1; 2; 3]%Z).
Proof.
  assert (Acl_ops.parse [str "10.0.0.0/8"; str " 2001:db8::/33 "] = Ok sample_acl) as Hp
    by (vm_compute; reflexivity).
  split; [exact Hp|].
  destruct (acl_allows_iff _ sample_acl (V4 [10; 1; 2; 3]%Z) Hp) as (b & Hb & Hiff).
  - split; [reflexivity|]. repeat (constructor; [width_lia|]). constructor.
  - apply Hiff. vm_compute in Hb. congruence.
Defined.

Lemma acl_single_host_witness :
  ∃ acl, Acl_ops.parse [str "192.168.1.5"] = Ok acl ∧
    is_allowed acl (V4 [192; 168; 1; 6]%Z) = Ok false.
Proof.
  destruct (acl_single_host (str "192.168.1.5") [192; 168; 1; 5]%Z [192; 168; 1; 6]%Z)
    as (acl & Hp & Hd & _).
  - apply split_once_None. vm_compute. reflexivity.
  - vm_compute. reflexivity.
  - split; [reflexivity|]. repeat (constructor; [width_lia|]). constructor.
  - vm_compute. reflexivity.
  - exists acl. split; [exact Hp|exact Hd].
Defined.
