(* ===== verification/Blocklist.v ===== *)
(** * The domain blocklist

    Models [src/src/blocklist.rs]: the set of blocked names, loaded from a file and
    reloaded at run time, and the test a query name goes through. The file
    system is a function from a path to the content of the file, [None] when
    [fs::read_to_string] fails. *)

From S2P Require Import Prelude RustStd TextParse Message Zones.

Record Blocklist := mkBlocklist { bl_entries : gset bytes; path : option bytes }.

(** The [while let] loop over the parent suffixes. *)
Fixpoint blocked_wildcard (entries : gset bytes) (remainder : bytes) : bool :=
  match remainder with
  | [] => false
  | c :: rest =>
      if Z.eqb c DOT then
        if bool_decide (STAR_DOT ++ rest ∈ entries) then true
        else blocked_wildcard entries rest
      else blocked_wildcard entries rest
  end.

(** ASCII letters, digits and the hyphen. *)
Definition label_char (c : Z) : bool :=
  in_range 48 57 c || in_range 65 90 c || in_range 97 122 c || (c =? 45)%Z.

Definition valid_label (label : bytes) : bool :=
  if bool_decide (label = []) then false
  else
    let check := match label with c :: l => if (c =? 42)%Z then l else label | [] => label end in
    if bool_decide (check = []) then true else forallb label_char check.

Definition is_valid_domain (domain : bytes) : bool :=
  if bool_decide (domain = []) then false else forallb valid_label (split_on DOT domain).

(** [line.starts_with(';')] or [starts_with('#')]. *)
Definition is_comment (line : bytes) : bool :=
  match line with c :: _ => ((c =? 59) || (c =? 35))%Z | [] => false end.

(** What one line adds. *)
Definition line_entry `{Unicode} (line : bytes) : option bytes :=
  let line := trim line in
  if bool_decide (line = []) || is_comment line then None
  else
    let domain := to_lowercase line in
    if bool_decide (domain = []) then None
    else if is_valid_domain domain then Some domain else None.

Definition add_line `{Unicode} (set : gset bytes) (line : bytes) : gset bytes :=
  match line_entry line with Some d => {[ d ]} ∪ set | None => set end.

Definition load_blocklist_file `{Unicode} (fs : bytes → option bytes) (p : bytes)
    : res string (gset bytes) :=
  match fs p with
  | None => Err "reading blocklist"%string
  | Some content => Ok (foldl add_line ∅ (lines content))
  end.

Module Blocklist_ops.

Definition empty : Blocklist := mkBlocklist ∅ None.

Definition from_file `{Unicode} (fs : bytes → option bytes) (p : bytes) : res string Blocklist :=
  set ← load_blocklist_file fs p; Ok (mkBlocklist set (Some p)).

Definition from_domains `{Unicode} (domains : list bytes) : Blocklist :=
  mkBlocklist (list_to_set (to_lowercase <$> domains)) None.

Definition is_active (b : Blocklist) : bool := negb (bool_decide (bl_entries b = ∅)).

Definition is_blocked `{Unicode} (b : Blocklist) (name : bytes) : bool :=
  let name := to_lowercase name in
  if bool_decide (name ∈ bl_entries b) then true else blocked_wildcard (bl_entries b) name.

(** [reload]: the new state, and the result. *)
Definition reload `{Unicode} (fs : bytes → option bytes) (b : Blocklist)
    : Blocklist * res string unit :=
  match path b with
  | None => (b, Ok tt)
  | Some p =>
      match load_blocklist_file fs p with
      | Ok set => (mkBlocklist set (path b), Ok tt)
      | Err e => (b, Err e)
      | Panic => (b, Panic)
      end
  end.

End Blocklist_ops.
Import Blocklist_ops.

(** ** Lemmas *)

Lemma blocked_wildcard_spec entries name :
  blocked_wildcard entries name = true ↔ ∃ s, s ∈ ancestors name ∧ STAR_DOT ++ s ∈ entries.
Proof.
  induction name as [|c name IH]; cbn [blocked_wildcard ancestors]; [set_solver|].
  destruct (Z.eqb c DOT); [|done]. case_bool_decide as Hin; [set_solver|].
  rewrite IH. set_solver.
Qed.

Lemma elem_of_foldl_add `{Unicode} (ls : list bytes) (set : gset bytes) (d : bytes) :
  d ∈ foldl add_line set ls ↔ d ∈ set ∨ ∃ l, l ∈ ls ∧ line_entry l = Some d.
Proof.
  revert set. induction ls as [|l ls IH]; intros set; cbn [foldl]; [set_solver|].
  rewrite IH. unfold add_line. destruct (line_entry l) eqn:E; set_solver.
Qed.

(** ** Properties *)

Section Properties.
Context `{Unicode}.

(** A name is blocked exactly when its lower-cased form is an entry, or one
    of its proper ancestors [s] has a wildcard entry [*.s]; in particular a
    wildcard does not block the apex itself. *)
Theorem is_blocked_iff (b : Blocklist) (name : bytes) :
  is_blocked b name = true ↔
  to_lowercase name ∈ bl_entries b ∨
  ∃ p s, to_lowercase name = p ++ DOT :: s ∧ STAR_DOT ++ s ∈ bl_entries b.
Proof.
  unfold is_blocked. case_bool_decide as Hin; [tauto|].
  rewrite blocked_wildcard_spec. setoid_rewrite ancestors_elem. set_solver.
Qed.

(** Loading keeps exactly the lower-cased valid lines that are neither blank
    nor comments; a reload replaces the whole set, and leaves the previous one in
    force when the file cannot be read. *)
Theorem load_and_reload (fs : bytes → option bytes) (b : Blocklist) (p : bytes) :
  (∀ set d, load_blocklist_file fs p = Ok set →
    (d ∈ set ↔ ∃ content l, fs p = Some content ∧ l ∈ lines content ∧ line_entry l = Some d)) ∧
  (path b = Some p → fs p = None → (reload fs b).1 = b ∧ (reload fs b).2 ≠ Ok tt) ∧
  (∀ b', path b = Some p → from_file fs p = Ok b' → reload fs b = (b', Ok tt)).
Proof.
  unfold load_blocklist_file, from_file, reload, load_blocklist_file. split_and!.
  - intros set d. destruct (fs p) as [content|]; [|done]. intros [= <-].
    rewrite elem_of_foldl_add. set_solver.
  - by intros -> ->.
  - intros b' ->. destruct (fs p) as [content|]; [|done]. by intros [= <-].
Qed.

End Properties.

(** ** Witnesses *)

Definition blocklist_text : bytes :=
  str "# ads" ++ [10%Z] ++ str " Ads.Example.com " ++ [10%Z] ++ str "*.tracker.net" ++ [10%Z]
  ++ str "bad domain".

Definition blocklist_fs (p : bytes) : option bytes :=
  if bool_decide (p = str "block.txt") then Some blocklist_text else None.

Lemma load_and_reload_witness :
  (@reload ascii_unicode blocklist_fs (mkBlocklist {[ str "x" ]} (Some (str "gone.txt")))).1
    = mkBlocklist {[ str "x" ]} (Some (str "gone.txt")) ∧
  ∃ set, @load_blocklist_file ascii_unicode blocklist_fs (str "block.txt") = Ok set ∧
    str "ads.example.com" ∈ set.
Proof.
  pose proof (@load_and_reload ascii_unicode blocklist_fs
    (mkBlocklist {[ str "x" ]} (Some (str "gone.txt"))) (str "gone.txt")) as (_ & H & _).
  split; [apply H; vm_compute; reflexivity|].
  eexists. split; [reflexivity|].
  apply (proj1 (@load_and_reload ascii_unicode blocklist_fs empty (str "block.txt"))); [reflexivity|].
  exists blocklist_text, (str " Ads.Example.com ").
  split; [vm_compute; reflexivity|]. split; [|vm_compute; reflexivity].
  apply list_elem_of_In. vm_compute. right. left. reflexivity.
Defined.

(** The validity check accepts a wildcard in any label, not the first only:
    such an entry is kept, and blocks no name below it but the literal one. *)
Theorem inner_wildcard_accepted :
  is_valid_domain (str "ads.*.example.com") = true ∧
  @is_blocked ascii_unicode (@from_domains ascii_unicode [str "ads.*.example.com"])
    (str "ads.x.example.com") = false.
Proof. by vm_compute. Qed.
