(* ===== verification/Metrics.v ===== *)
(** * Sharded counters

    Models [src/src/metrics.rs]: eight [AtomicU64] counters, each split over
    [SHARDS] shards; a thread bumps its own shard, reads sum over the shards.
    The index of the calling thread's shard is an argument; [fetch_add] and
    the sum wrap modulo [2^64]. *)

From stdpp Require Import pretty.
From S2P Require Import Prelude RustStd.

Definition as_u64 (z : Z) : Z := (z mod 2 ^ 64)%Z.

Definition SHARDS : nat := 32.

Record Counters := mkCounters {
  c_total : Z; c_authoritative : Z; c_cache_hits : Z; c_forwarded : Z;
  c_coalesced : Z; c_rate_limited : Z; c_blocked : Z; c_errors : Z;
}.

(** The fields, as the [select] closures name them. *)
Inductive counter :=
  Total | Authoritative | CacheHits | Forwarded | Coalesced | RateLimited | Blocked | Errors.

#[global] Instance counter_eq_dec : EqDecision counter.
Proof. solve_decision. Defined.

Definition select (k : counter) (c : Counters) : Z :=
  match k with
  | Total => c_total c | Authoritative => c_authoritative c | CacheHits => c_cache_hits c
  | Forwarded => c_forwarded c | Coalesced => c_coalesced c | RateLimited => c_rate_limited c
  | Blocked => c_blocked c | Errors => c_errors c
  end.

(** [select(c).fetch_add(1)]. *)
Definition fetch_add (k : counter) (c : Counters) : Counters :=
  let 'mkCounters t a h f co r b e := c in
  match k with
  | Total => mkCounters (as_u64 (t + 1)) a h f co r b e
  | Authoritative => mkCounters t (as_u64 (a + 1)) h f co r b e
  | CacheHits => mkCounters t a (as_u64 (h + 1)) f co r b e
  | Forwarded => mkCounters t a h (as_u64 (f + 1)) co r b e
  | Coalesced => mkCounters t a h f (as_u64 (co + 1)) r b e
  | RateLimited => mkCounters t a h f co (as_u64 (r + 1)) b e
  | Blocked => mkCounters t a h f co r (as_u64 (b + 1)) e
  | Errors => mkCounters t a h f co r b (as_u64 (e + 1))
  end.

Record Metrics := mkMetrics { shards : list Counters }.

Module Metrics_ops.

Definition default_metrics : Metrics := mkMetrics (replicate SHARDS (mkCounters 0 0 0 0 0 0 0 0)).

(** The thread-local shard of the [n]-th thread to touch the metrics. *)
Definition shard_index (n : nat) : nat := n `mod` SHARDS.

(** [bump]: indexing the vector panics out of range; [shard_index] never is. *)
Definition bump (k : counter) (shard : nat) (m : Metrics) : Metrics :=
  mkMetrics (alter (fetch_add k) shard (shards m)).

Definition sum (k : counter) (m : Metrics) : Z :=
  as_u64 (foldr Z.add 0%Z (select k <$> shards m)).

Definition inc_total := bump Total.
Definition inc_authoritative := bump Authoritative.
Definition inc_cache_hit := bump CacheHits.
Definition inc_forwarded := bump Forwarded.
Definition inc_coalesced := bump Coalesced.
Definition inc_rate_limited := bump RateLimited.
Definition inc_blocked := bump Blocked.
Definition inc_error := bump Errors.

(** The Prometheus name and help text of a counter. *)
Definition metric_name (k : counter) : string :=
  match k with
  | Total => "mini_dns_queries_total"
  | Authoritative => "mini_dns_authoritative_total"
  | CacheHits => "mini_dns_cache_hits_total"
  | Forwarded => "mini_dns_forwarded_total"
  | Coalesced => "mini_dns_coalesced_total"
  | RateLimited => "mini_dns_rate_limited_total"
  | Blocked => "mini_dns_blocked_total"
  | Errors => "mini_dns_errors_total"
  end.

Definition metric_help (k : counter) : string :=
  match k with
  | Total => "Total queries received"
  | Authoritative => "Queries answered from the local zone"
  | CacheHits => "Queries answered from the cache"
  | Forwarded => "Queries forwarded upstream"
  | Coalesced => "Queries coalesced by single-flight"
  | RateLimited => "Queries dropped by the rate limiter"
  | Blocked => "Queries blocked by the blocklist"
  | Errors => "Packets that failed to parse or forward"
  end.

Definition all_counters : list counter :=
  [Total; Authoritative; CacheHits; Forwarded; Coalesced; RateLimited; Blocked; Errors].

(** The newline character. *)
Definition NL : bytes := [10%Z].

Definition prometheus_lines (m : Metrics) (k : counter) : bytes :=
  str "# HELP " ++ str (metric_name k) ++ str " " ++ str (metric_help k) ++ NL
  ++ str "# TYPE " ++ str (metric_name k) ++ str " counter" ++ NL
  ++ str (metric_name k) ++ str " " ++ str (pretty (sum k m)) ++ NL.

Definition prometheus (m : Metrics) : bytes := concat (prometheus_lines m <$> all_counters).

Definition summary_name (k : counter) : string :=
  match k with
  | Total => "total=" | Authoritative => " authoritative=" | CacheHits => " cache_hits="
  | Forwarded => " forwarded=" | Coalesced => " coalesced=" | RateLimited => " rate_limited="
  | Blocked => " blocked=" | Errors => " errors="
  end.

Definition summary (m : Metrics) : bytes :=
  concat ((fun k => str (summary_name k) ++ str (pretty (sum k m))) <$> all_counters).

End Metrics_ops.
Import Metrics_ops.

(** ** Lemmas *)

Lemma shard_index_lt n : shard_index n < SHARDS.
Proof. apply Nat.mod_upper_bound. done. Qed.

Lemma length_shards_bump k s m : length (shards (bump k s m)) = length (shards m).
Proof. apply length_alter. Qed.

Lemma select_fetch_add k k' c :
  select k (fetch_add k' c) =
  if decide (k = k') then as_u64 (select k c + 1) else select k c.
Proof. destruct c, k, k'; done. Qed.

Lemma sum_alter_other k k' (l : list Counters) (s : nat) : k ≠ k' → select k <$> alter (fetch_add k') s l = select k <$> l.
Proof.
  intros Hne. revert s. induction l as [|c l IH]; intros [|s]; [done..| |].
  - cbn. rewrite select_fetch_add, decide_False by done. done.
  - change (alter (fetch_add k') (S s) (c :: l)) with (c :: alter (fetch_add k') s l).
    cbn. by rewrite IH.
Qed.

Lemma sum_alter_same k (l : list Counters) (s : nat) : s < length l →
  ((foldr Z.add 0 (select k <$> alter (fetch_add k) s l)) mod 2 ^ 64 =
   (foldr Z.add 0 (select k <$> l) + 1) mod 2 ^ 64)%Z.
Proof.
  revert s. induction l as [|c l IH]; intros [|s] Hs; cbn [length] in Hs; [lia..| |].
  - cbn [alter list_alter fmap list_fmap foldr]. rewrite select_fetch_add, decide_True by done.
    unfold as_u64. rewrite Zplus_mod_idemp_l. f_equal. lia.
  - change (alter (fetch_add k) (S s) (c :: l)) with (c :: alter (fetch_add k) s l).
    cbn [fmap list_fmap foldr]. rewrite <- Zplus_mod_idemp_r, IH, Zplus_mod_idemp_r by lia.
    f_equal. lia.
Qed.

(** ** Properties *)

(** Whatever shards the threads write to and in whatever order, a counter
    reads as the number of its increments, modulo [2^64]. *)
Theorem metrics_exact (k : counter) (evs : list (counter * nat)) :
  sum k (foldl (fun m e => bump e.1 (shard_index e.2) m) default_metrics evs) =
  as_u64 (Z.of_nat (length (filter (fun e => e.1 = k) evs))).
Proof.
  assert (length (shards (foldl (fun m e => bump e.1 (shard_index e.2) m) default_metrics evs))
    = SHARDS ∧ sum k (foldl (fun m e => bump e.1 (shard_index e.2) m) default_metrics evs) =
  as_u64 (Z.of_nat (length (filter (fun e => e.1 = k) evs)))) as [_ H]; [|exact H].
  induction evs as [|[k' n] evs [IHl IH]] using rev_ind; [by destruct k|].
  rewrite !foldl_app, filter_app, length_app. cbn [foldl fst snd].
  set (m := foldl _ _ evs) in *. rewrite length_shards_bump. split; [done|].
  unfold sum, as_u64, bump in *. cbn [shards]. rewrite filter_cons, filter_nil. cbn [fst].
  destruct (decide (k' = k)) as [->|Hne].
  - rewrite sum_alter_same by (rewrite IHl; apply shard_index_lt).
    rewrite <- Zplus_mod_idemp_l, IH, Zplus_mod_idemp_l. cbn [length]. f_equal. lia.
  - rewrite sum_alter_other by done. rewrite IH. cbn [length]. f_equal. lia.
Qed.
