(* ===== verification/MetricsRace.v ===== *)
(** * The counters under concurrency

    [Metrics] models an increment and a sum of [src/src/metrics.rs] as single operations.
    Here they are what the threads do: a thread takes its shard from the shared round-robin
    counter the first time it counts and keeps it, an increment is one atomic addition
    to that shard, and a sum loads the shards one after the other while the threads
    go on counting. *)

From S2P Require Import Prelude RustStd Metrics.
Import Metrics_ops.

(** ** The shard of a thread *)

(** [NEXT], and for each thread its [SHARD] and [CACHED] once they are set. *)
Record Threads := mkThreads {
  t_next : Z;
  t_shard : gmap nat nat;
  t_cached : gmap nat nat;
}.

Definition no_threads : Threads := mkThreads 0 ∅ ∅.

(** [SHARD.with(|&i| i)]: the initializer runs at the first access. *)
Definition shard_with (t : nat) (th : Threads) : nat * Threads :=
  match t_shard th !! t with
  | Some i => (i, th)
  | None =>
      let i := Z.to_nat (t_next th mod Z.of_nat SHARDS) in
      (i, mkThreads (as_u64 (t_next th + 1)) (<[t := i]> (t_shard th)) (t_cached th))
  end.

Definition thread_shard (t : nat) (th : Threads) : nat * Threads :=
  match t_cached th !! t with
  | Some i => (i, th)
  | None =>
      let '(i, th) := shard_with t th in
      (i, mkThreads (t_next th) (t_shard th) (<[t := i]> (t_cached th)))
  end.

(** ** Threads that count and read *)

(** A sum in progress: its counter, the next shard to load, the total so far, and
    how often the counter had been incremented when it began. *)
Record Read := mkRead { r_counter : counter; r_pos : nat; r_acc : Z; r_from : Z }.

Record sys := mkSys {
  metrics : Metrics;
  threads : Threads;
  reads : gmap nat Read;
  log : list (nat * counter);
}.

Definition start : sys := mkSys default_metrics no_threads ∅ [].

Definition increments (k : counter) (l : list (nat * counter)) : Z :=
  Z.of_nat (length (filter (fun e => e.2 = k) l)).

Definition load (c : Counters) (rd : Read) : Read :=
  mkRead (r_counter rd) (S (r_pos rd)) (r_acc rd + select (r_counter rd) c) (r_from rd).

Inductive step (g : sys) : sys → Prop :=
(** [Self::shard_index()]. *)
| Index t : step g (mkSys (metrics g) (thread_shard t (threads g)).2 (reads g) (log g))
(** [fetch_add] on the thread's shard. *)
| Bump t k i :
    t_cached (threads g) !! t = Some i →
    step g (mkSys (bump k i (metrics g)) (threads g) (reads g) ((t, k) :: log g))
(** [sum]: its start, and one [load]. *)
| Begin r k :
    reads g !! r = None →
    step g (mkSys (metrics g) (threads g) (<[r := mkRead k 0 0 (increments k (log g))]> (reads g)) (log g))
| Load r rd c :
    reads g !! r = Some rd → shards (metrics g) !! r_pos rd = Some c →
    step g (mkSys (metrics g) (threads g) (<[r := load c rd]> (reads g)) (log g)).

(** ** The shards of the threads *)

Record Threads_ok (th : Threads) : Prop := {
  ok_range : map_Forall (fun _ i => i < SHARDS) (t_shard th);
  ok_cached : t_cached th ⊆ t_shard th;
  ok_fresh : size (t_shard th) ≤ SHARDS →
    t_next th = Z.of_nat (size (t_shard th)) ∧ map_Forall (fun _ i => i < size (t_shard th)) (t_shard th) ∧
    ∀ t t' i, t_shard th !! t = Some i → t_shard th !! t' = Some i → t = t';
}.

Lemma shard_with_ok t th i th' :
  shard_with t th = (i, th') → Threads_ok th →
  Threads_ok th' ∧ t_shard th' !! t = Some i ∧ t_shard th ⊆ t_shard th' ∧ t_cached th' = t_cached th.
Proof.
  unfold shard_with. destruct (t_shard th !! t) as [j|] eqn:Ht; intros [= <- <-] [Hr Hc Hf]; [done|]. cbn.
  assert (0 ≤ t_next th mod Z.of_nat SHARDS < Z.of_nat SHARDS)%Z as Hm by (apply Z.mod_pos_bound; done).
  split_and!; [split; cbn| | |done].
  - apply map_Forall_insert_2; [|done]. lia.
  - etrans; [done|]. by apply insert_subseteq.
  - rewrite map_size_insert_None by done. intros Hsz. destruct Hf as (Hn & Hl & Hi); [lia|].
    rewrite Hn, Z.mod_small, Nat2Z.id by lia. split_and!.
    + unfold as_u64. rewrite Z.mod_small by (unfold SHARDS in Hsz; lia). lia.
    + apply map_Forall_insert_2; [lia|]. eapply map_Forall_impl; [done|]. cbn. lia.
    + intros u u' j [[<- <-]|[Hu Hu1]]%lookup_insert_Some [[<- Hj]|[Hu' Hu2]]%lookup_insert_Some; [done| | |by eapply Hi].
      * apply Hl in Hu2. lia.
      * subst j. apply Hl in Hu1. lia.
  - apply lookup_insert_eq.
  - by apply insert_subseteq.
Qed.

Lemma thread_shard_ok t th i th' :
  thread_shard t th = (i, th') → Threads_ok th →
  Threads_ok th' ∧ t_cached th' !! t = Some i ∧ t_shard th ⊆ t_shard th' ∧ t_cached th ⊆ t_cached th'.
Proof.
  unfold thread_shard. destruct (t_cached th !! t) as [j|] eqn:Ht; [by intros [= <- <-]|].
  destruct (shard_with t th) as [j th1] eqn:Hs. intros [= <- <-] Hok.
  destruct (shard_with_ok _ _ _ _ Hs Hok) as ([Hr Hc Hf] & Hj & Hsub & He). cbn. split_and!; [split; cbn| | |].
  - done.
  - by apply insert_subseteq_l.
  - done.
  - apply lookup_insert_eq.
  - done.
  - rewrite He. by apply insert_subseteq.
Qed.

(** ** The values of a counter *)

Definition vals (k : counter) (m : Metrics) : list Z := select k <$> shards m.
Definition tot (l : list Z) : Z := foldr Z.add 0%Z l.

Lemma tot_app l l' : tot (l ++ l') = (tot l + tot l')%Z.
Proof. induction l as [|x l IH]; cbn; [done|]. unfold tot in *. lia. Qed.

Lemma tot_le l l' : Forall2 Z.le l l' → (tot l <= tot l')%Z.
Proof. induction 1; cbn; [done|]. unfold tot in *. lia. Qed.

Lemma tot_elem l x : Forall (Z.le 0) l → x ∈ l → (x <= tot l)%Z.
Proof.
  induction 1 as [|y l Hy Hl IH]; [by intros ?%not_elem_of_nil|].
  assert (0 <= tot l)%Z as Ht by (clear IH; induction Hl; cbn; [done|unfold tot in *; lia]).
  intros [->|Hx]%elem_of_cons; cbn; [unfold tot in *; lia|]. apply IH in Hx. unfold tot in *. lia.
Qed.

(** An increment of another counter, and of this one when it does not wrap. *)
Lemma vals_bump_other k k' i m : k ≠ k' → vals k (bump k' i m) = vals k m.
Proof. apply sum_alter_other. Qed.

Lemma vals_bump k i m v : vals k m !! i = Some v → (0 <= v)%Z → (v + 1 < 2 ^ 64)%Z →
  vals k (bump k i m) = <[i := (v + 1)%Z]> (vals k m).
Proof.
  unfold vals, bump. cbn [shards]. intros Hv H0 H1. apply list_lookup_fmap_Some in Hv as (c & -> & Hc).
  apply list_eq. intros j. rewrite list_lookup_fmap. destruct (decide (i = j)) as [<-|Hne].
  - rewrite list_lookup_alter_eq, Hc, list_lookup_insert_eq by (rewrite length_fmap; by eapply lookup_lt_Some).
    cbn. rewrite select_fetch_add, decide_True by done. unfold as_u64. by rewrite Z.mod_small by lia.
  - by rewrite list_lookup_alter_ne, list_lookup_insert_ne, list_lookup_fmap.
Qed.

(** ** The invariant *)

(** A sum of [k] in progress, between what had been counted when it began and what has
    been counted in the shards it has passed. *)
Definition read_ok (k : counter) (vs : list Z) (rd : Read) : Prop :=
  r_counter rd = k →
  (0 <= r_from rd)%Z ∧ (r_from rd <= r_acc rd + tot (drop (r_pos rd) vs))%Z ∧ (r_acc rd <= tot (take (r_pos rd) vs))%Z.

(** The counter [k], while it has not wrapped. *)
Record Inv (k : counter) (g : sys) : Prop := {
  inv_shards : length (shards (metrics g)) = SHARDS;
  inv_threads : Threads_ok (threads g);
  inv_exact : (increments k (log g) < 2 ^ 64)%Z →
    tot (vals k (metrics g)) = increments k (log g) ∧ Forall (Z.le 0) (vals k (metrics g)) ∧
    map_Forall (fun _ => read_ok k (vals k (metrics g))) (reads g);
}.

Lemma read_ok_mono k vs vs' rd : Forall2 Z.le vs vs' → read_ok k vs rd → read_ok k vs' rd.
Proof.
  intros Hle Hok Hk. destruct (Hok Hk) as (H0 & Hlo & Hhi). pose proof (Forall2_take _ _ _ (r_pos rd) Hle) as Ht%tot_le.
  pose proof (Forall2_drop _ _ _ (r_pos rd) Hle) as Hd%tot_le. lia.
Qed.

Lemma insert_grows (vs : list Z) i v : vs !! i = Some v →
  Forall2 Z.le vs (<[i := (v + 1)%Z]> vs) ∧ tot (<[i := (v + 1)%Z]> vs) = (tot vs + 1)%Z.
Proof.
  intros Hv. split.
  - apply Forall2_same_length_lookup_2; [by rewrite length_insert|]. intros j x y Hx Hy.
    destruct (decide (i = j)) as [<-|Hne].
    + rewrite list_lookup_insert_eq in Hy by by eapply lookup_lt_Some. simplify_eq. lia.
    + rewrite list_lookup_insert_ne in Hy by done. simplify_eq. lia.
  - pose proof (take_drop_middle vs i v Hv) as E. rewrite insert_take_drop by by eapply lookup_lt_Some.
    rewrite <- E at 3. rewrite !tot_app. cbn. unfold tot. lia.
Qed.

Lemma increments_cons k t k' l :
  increments k ((t, k') :: l) = (increments k l + (if decide (k' = k) then 1 else 0))%Z.
Proof. unfold increments. rewrite filter_cons. cbn. case_decide; cbn; lia. Qed.

Lemma increments_nonneg k l : (0 <= increments k l)%Z.
Proof. unfold increments. lia. Qed.

Lemma cached_in_range th t i : Threads_ok th → t_cached th !! t = Some i → i < SHARDS.
Proof. intros [Hr Hc _] Ht. eapply Hr, lookup_weaken; done. Qed.

Lemma Inv_bump k t k' i g :
  Inv k g → t_cached (threads g) !! t = Some i →
  Inv k (mkSys (bump k' i (metrics g)) (threads g) (reads g) ((t, k') :: log g)).
Proof.
  intros [Hs Hth Hex] Ht. split; cbn [metrics threads reads log]; [by unfold bump; cbn; rewrite length_alter|done|]. rewrite increments_cons. intros Hn.
  destruct Hex as (Htot & Hpos & Hrd); [case_decide; lia|]. case_decide as Hk.
  2:{ rewrite vals_bump_other by done. split_and!; [lia|done..]. }
  subst k'. pose proof (cached_in_range _ _ _ Hth Ht) as Hi. rewrite <- Hs in Hi.
  destruct (lookup_lt_is_Some_2 (vals k (metrics g)) i) as [v Hv]; [unfold vals; by rewrite length_fmap|].
  assert (0 <= v)%Z as Hv0 by by eapply Forall_lookup_1 in Hv.
  pose proof (tot_elem _ v Hpos ltac:(by eapply list_elem_of_lookup_2)) as Hle.
  rewrite (vals_bump k i (metrics g) v) by (done || lia).
  destruct (insert_grows _ _ _ Hv) as [Hgrow Hsum]. split_and!; [lia| |].
  - apply Forall_insert; [done|lia].
  - eapply map_Forall_impl; [done|]. intros ? rd. by apply read_ok_mono.
Qed.

Lemma Inv_read k r rd g :
  Inv k g → ((increments k (log g) < 2 ^ 64)%Z → Forall (Z.le 0) (vals k (metrics g)) →
    tot (vals k (metrics g)) = increments k (log g) → read_ok k (vals k (metrics g)) rd) →
  Inv k (mkSys (metrics g) (threads g) (<[r := rd]> (reads g)) (log g)).
Proof.
  intros [Hs Hth Hex] Hrd. split; cbn; [done|done|]. intros Hn. destruct (Hex Hn) as (Htot & Hpos & Hall).
  split_and!; [done|done|]. apply map_Forall_insert_2; [|done]. by apply Hrd.
Qed.

Lemma metrics_step_inv k g g' : step g g' → Inv k g → Inv k g'.
Proof.
  intros [t|t k' i Ht|r k' Hr|r rd c Hr Hc] Hi.
  - destruct (thread_shard t (threads g)) as [i th] eqn:E.
    destruct Hi as [Hs Hth Hex]. split; cbn; [done| |done]. by eapply thread_shard_ok.
  - by apply Inv_bump.
  - apply Inv_read; [done|]. intros _ _ Htot Hk. cbn in Hk. subst k'. cbn [r_from r_acc r_pos]. rewrite drop_0, Htot.
    pose proof (increments_nonneg k (log g)). split_and!; [done|lia|done].
  - apply Inv_read; [done|]. intros Hn _ _ Hk. cbn in Hk. destruct Hi as [_ _ Hex].
    destruct (Hex Hn) as (_ & _ & Hall). destruct (Hall r rd Hr Hk) as (H0 & Hlo & Hhi). cbn [load r_pos r_acc r_from].
    rewrite Hk in *. assert (vals k (metrics g) !! r_pos rd = Some (select k c)) as Hv
      by (unfold vals; by rewrite list_lookup_fmap, Hc).
    rewrite (drop_S _ _ _ Hv) in Hlo. rewrite (take_S_r _ _ _ Hv), tot_app. cbn in *. unfold tot in *. lia.
Qed.

Lemma metrics_reachable k g : rtc step start g → Inv k g.
Proof.
  intros Hr. assert (Inv k start) as H0.
  { split; [done| |intros _; split_and!; [by destruct k|by destruct k; repeat constructor|apply map_Forall_empty]].
    split; cbn; [apply map_Forall_empty|done|]. intros _. split_and!; [done|apply map_Forall_empty|].
    intros t t' i Ht. by rewrite lookup_empty in Ht. }
  remember start as g0. clear Heqg0. induction Hr as [g|g g1 g2 Hs _ IH]; [done|]. eauto using metrics_step_inv.
Qed.

(** ** Properties *)

(** C30: no increment is lost however the threads interleave: a counter that has not
    wrapped sums to the number of its increments, and a thread always counts in a shard that
    exists. A sum taken while the threads go on counting is at least what had been
    counted when it began and at most what has been counted when it ends. *)
Theorem sum_between (k : counter) (g : sys) :
  rtc step start g → (increments k (log g) < 2 ^ 64)%Z →
  sum k (metrics g) = increments k (log g) ∧
  (∀ t i, t_cached (threads g) !! t = Some i → is_Some (shards (metrics g) !! i)) ∧
  (∀ r rd, reads g !! r = Some rd → r_counter rd = k → r_pos rd = SHARDS →
     (r_from rd <= as_u64 (r_acc rd) <= increments k (log g))%Z).
Proof.
  intros Hr Hn. destruct (metrics_reachable k g Hr) as [Hs Hth Hex]. destruct (Hex Hn) as (Htot & Hpos & Hall).
  split_and!.
  - unfold sum. change (foldr Z.add 0 _)%Z with (tot (vals k (metrics g))). rewrite Htot.
    pose proof (increments_nonneg k (log g)). unfold as_u64. apply Z.mod_small. lia.
  - intros t i Ht. apply lookup_lt_is_Some_2. rewrite Hs. by eapply cached_in_range.
  - intros r rd Hrd Hk Hp. destruct (Hall r rd Hrd Hk) as (H0 & Hlo & Hhi). rewrite Hp in Hlo, Hhi.
    assert (length (vals k (metrics g)) ≤ SHARDS) as Hlen by (unfold vals; rewrite length_fmap; lia).
    rewrite drop_ge in Hlo by done. rewrite take_ge in Hhi by done.
    change (tot []) with 0%Z in Hlo. unfold as_u64. rewrite Z.mod_small; lia.
Qed.

(** A thread keeps its shard for good, and the first [SHARDS] threads that count have
    shards of their own. *)
Theorem thread_shards (g g' : sys) (t : nat) (i : nat) :
  rtc step start g → rtc step g g' → t_cached (threads g) !! t = Some i →
  i < SHARDS ∧ t_cached (threads g') !! t = Some i ∧
  (size (t_shard (threads g)) ≤ SHARDS → ∀ t', t_cached (threads g) !! t' = Some i → t' = t).
Proof.
  intros Hr Hr' Ht. pose proof (inv_threads _ _ (metrics_reachable Total g Hr)) as Hok.
  split_and!; [by eapply cached_in_range| |].
  - clear Hr. revert Hok Ht. induction Hr' as [g|g g1 g2 Hs _ IH]; [done|]. intros Hok Ht.
    assert (Threads_ok (threads g1) ∧ t_cached (threads g) ⊆ t_cached (threads g1)) as [Hok1 Hsub].
    { destruct Hs as [u| | |]; [|done..]. destruct (thread_shard u (threads g)) as [j th] eqn:E.
      cbn. destruct (thread_shard_ok _ _ _ _ E Hok) as (? & _ & _ & ?). done. }
    apply IH; [done|]. by eapply lookup_weaken.
  - intros Hsz t' Ht'. destruct Hok as [_ Hc Hf]. destruct (Hf Hsz) as (_ & _ & Hinj).
    by eapply Hinj; eapply lookup_weaken.
Qed.

(** Nothing keeps a sum from ending, and one that runs alone is [Metrics_ops.sum]. *)
Lemma run_loads n r rd g :
  reads g !! r = Some rd → r_pos rd + n = length (shards (metrics g)) →
  ∃ g', rtc step g g' ∧ metrics g' = metrics g ∧ threads g' = threads g ∧ log g' = log g ∧
    reads g' !! r = Some (mkRead (r_counter rd) (length (shards (metrics g)))
      (r_acc rd + tot (drop (r_pos rd) (vals (r_counter rd) (metrics g)))) (r_from rd)).
Proof.
  revert rd g. induction n as [|n IH]; intros rd g Hr Hn.
  - exists g. split_and!; [done..|]. rewrite Nat.add_0_r in Hn.
    rewrite drop_ge by (unfold vals; rewrite length_fmap; lia).
    rewrite Hr. f_equal. destruct rd. cbn in *. f_equal; [done|lia].
  - destruct (lookup_lt_is_Some_2 (shards (metrics g)) (r_pos rd)) as [c Hc]; [lia|].
    pose proof (Load g r rd c Hr Hc) as Hs.
    set (g1 := mkSys _ _ _ _) in Hs.
    destruct (IH (load c rd) g1) as (g' & Hr' & Hm & Ht & Hl & Hrd); [apply lookup_insert_eq|cbn; lia|].
    exists g'. split_and!; [by eapply rtc_l|done..|]. rewrite Hrd. cbn. f_equal. f_equal.
    assert (vals (r_counter rd) (metrics g) !! r_pos rd = Some (select (r_counter rd) c)) as Hv
      by (unfold vals; by rewrite list_lookup_fmap, Hc).
    rewrite (drop_S _ _ _ Hv). cbn. unfold tot. lia.
Qed.

(** ** Witnesses *)

(** Thread 7 counts a query, a sum loads every shard, and thread 9 counts another one. *)
Lemma sum_between_witness :
  ∃ g rd, rtc step start g ∧ reads g !! 0 = Some rd ∧ sum Total (metrics g) = 2%Z ∧ (1 <= as_u64 (r_acc rd) <= 2)%Z.
Proof.
  set (g1 := mkSys (bump Total 0 default_metrics) (thread_shard 7 no_threads).2 {[ 0 := mkRead Total 0 0 1 ]} [(7, Total)]).
  assert (rtc step start g1) as Hr1.
  { set (s1 := mkSys default_metrics (thread_shard 7 no_threads).2 ∅ []).
    set (s2 := mkSys (bump Total 0 default_metrics) (thread_shard 7 no_threads).2 ∅ [(7, Total)]).
    eapply rtc_l; [exact (Index start 7)|]. eapply rtc_l; [exact (Bump s1 7 Total 0 eq_refl)|].
    apply rtc_once. exact (Begin s2 0 Total eq_refl). }
  destruct (run_loads SHARDS 0 (mkRead Total 0 0 1) g1 eq_refl eq_refl) as (g2 & Hr2 & Hm & Ht & Hl & Hrd).
  set (g3 := mkSys (metrics g2) (thread_shard 9 (threads g2)).2 (reads g2) (log g2)).
  set (g4 := mkSys (bump Total 1 (metrics g3)) (threads g3) (reads g3) ((9, Total) :: log g3)).
  assert (rtc step start g4) as Hr.
  { etrans; [exact Hr1|]. etrans; [exact Hr2|]. eapply rtc_l; [apply (Index g2 9)|]. apply rtc_once, (Bump g3).
    unfold g3. cbn [threads]. rewrite Ht. vm_compute. reflexivity. }
  exists g4. eexists. split; [exact Hr|]. split; [exact Hrd|].
  assert (increments Total (log g4) = 2%Z) as Hi by (unfold g4, g3; cbn [log]; rewrite Hl; reflexivity).
  destruct (sum_between Total g4 Hr) as (Hs & _ & Hb); [rewrite Hi; reflexivity|].
  rewrite Hi in Hs, Hb. split; [exact Hs|]. exact (Hb 0 _ Hrd eq_refl eq_refl).
Defined.
