(* ===== verification/Dnssec.v ===== *)
(** * DNSSEC keys and signatures

    Models [src/src/dnssec.rs]: the DNSKEY record and key tag of a signing key, the
    canonical form of names and rdata, and [sign_rrset]; [Validator] checks what it
    signs. The Ed25519 implementation (the [ring] crate) is a parameter, with its verification
    function and the law that relates the two. *)

From S2P Require Import Prelude RustStd Message Packet Encoder.

Definition ALG_ED25519 : Z := 15.
Definition FLAG_KSK : Z := 1.
Definition FLAG_ZONE : Z := 256.

(** What the code uses of [ring::signature], and the law of a signature scheme:
    a signature made by a key pair verifies under its public key. *)
Class Ed25519 := {
  KeyPair : Type;
  from_pkcs8 : bytes → option KeyPair;
  ed_public_key : KeyPair → bytes;
  ed_sign : KeyPair → bytes → bytes;
  ed_verify : bytes → bytes → bytes → bool;
  ed_sign_verify : ∀ kp msg, ed_verify (ed_public_key kp) msg (ed_sign kp msg) = true;
}.

Record SigningKey := mkSigningKey {
  zone_name : bytes;
  sk_flags : Z;
  sk_algorithm : Z;
  public_key : bytes;
  private_key : bytes;
}.

(** [SigningKey::generate]: [pkcs8] is the document [generate_pkcs8] returned, if
    it did not fail. *)
Definition generate `{Ed25519} (pkcs8 : option bytes) (zone : bytes) : res string SigningKey :=
  match pkcs8 with
  | None => Err "generating ED25519 key pair"%string
  | Some doc =>
      match from_pkcs8 doc with
      | None => Err "parsing generated key"%string
      | Some kp =>
          Ok (mkSigningKey zone (Z.lor FLAG_KSK FLAG_ZONE) ALG_ED25519 (ed_public_key kp) doc)
      end
  end.

Definition dnskey_record (k : SigningKey) (ttl : Z) : DnsRecord.t :=
  DnsRecord.DNSKEY (zone_name k) (sk_flags k) 3 (sk_algorithm k) (public_key k) ttl.

(** The [for] loop of [key_tag_from_rdata], [i] the index of the next byte. *)
Fixpoint key_tag_loop (i : nat) (ac : Z) (rdata : bytes) : Z :=
  match rdata with
  | [] => ac
  | b :: rest =>
      key_tag_loop (S i)
        (as_u32 (ac + Z.shiftl b (if Nat.even i then 8 else 0))) rest
  end.

Definition key_tag_from_rdata (rdata : bytes) : Z :=
  let ac := key_tag_loop 0 0 rdata in
  let ac := as_u32 (ac + Z.land (Z.shiftr ac 16) 65535) in
  Z.land ac 65535.

Definition dnskey_rdata (k : SigningKey) : bytes :=
  u16_to_be_bytes (sk_flags k) ++ [3%Z; sk_algorithm k] ++ public_key k.

Definition key_tag (k : SigningKey) : Z := key_tag_from_rdata (dnskey_rdata k).

Record DnssecKeys := mkKeys { keys : list SigningKey }.

Definition is_enabled (ks : DnssecKeys) : bool := negb (bool_decide (length (keys ks) = 0)).

Definition single `{Ed25519} (pkcs8 : option bytes) (zone : bytes) : res string DnssecKeys :=
  k ← generate pkcs8 zone; Ok (mkKeys [k]).

Definition dnskey_records (ks : DnssecKeys) (ttl : Z) : list DnsRecord.t :=
  (fun k => dnskey_record k ttl) <$> keys ks.

(** ** Canonical form *)

Definition canonical_label `{Unicode} (label : bytes) : bytes :=
  let lower := to_lowercase label in as_u8 (Z.of_nat (length lower)) :: lower.

Definition canonical_name `{Unicode} (name : bytes) : bytes :=
  let name := trim_end_matches DOT name in
  match name with
  | [] => [0%Z]
  | _ => concat (canonical_label <$> split_on DOT name) ++ [0%Z]
  end.

Definition canonical_rdata `{Unicode} (r : DnsRecord.t) : bytes :=
  match r with
  | DnsRecord.A _ addr _ => addr
  | DnsRecord.AAAA _ addr _ => addr
  | DnsRecord.CNAME _ alias _ | DnsRecord.NS _ alias _ | DnsRecord.PTR _ alias _ =>
      canonical_name alias
  | DnsRecord.MX _ preference exchange _ =>
      u16_to_be_bytes preference ++ canonical_name exchange
  | DnsRecord.SOA _ mname rname serial refresh retry expire minimum _ =>
      canonical_name mname ++ canonical_name rname ++ u32_to_be_bytes serial
      ++ u32_to_be_bytes refresh ++ u32_to_be_bytes retry ++ u32_to_be_bytes expire
      ++ u32_to_be_bytes minimum
  | DnsRecord.SRV _ priority weight port target _ =>
      u16_to_be_bytes priority ++ u16_to_be_bytes weight ++ u16_to_be_bytes port
      ++ canonical_name target
  | DnsRecord.CAA _ flags tag value _ =>
      [flags; as_u8 (Z.of_nat (length tag))] ++ tag ++ value
  | DnsRecord.TXT _ text _ => concat (encode_chunk <$> chunks_255 text)
  | DnsRecord.DNSKEY _ flags protocol algorithm pk _ =>
      u16_to_be_bytes flags ++ [protocol; algorithm] ++ pk
  | DnsRecord.OPT _ | DnsRecord.RRSIG _ _ _ _ _ _ _ _ _ _ _ | DnsRecord.DS _ _ _ _ _ _
  | DnsRecord.NSEC _ _ _ _ => []
  end.

(** ** Signing *)

(** The [*] label. *)
Definition STAR : bytes := [42%Z].

Definition label_count (owner : bytes) : Z :=
  as_u8 (Z.of_nat (length
    (filter (fun l => l ≠ [] ∧ l ≠ STAR) (split_on DOT owner)))).

(** The RRSIG rdata without the signature. *)
Definition rrsig_prefix `{Unicode} (type_covered algorithm labels ttl expiration inception tag : Z)
    (signer_name : bytes) : bytes :=
  u16_to_be_bytes type_covered ++ [algorithm; labels] ++ u32_to_be_bytes ttl
  ++ u32_to_be_bytes expiration ++ u32_to_be_bytes inception ++ u16_to_be_bytes tag
  ++ canonical_name signer_name.

Definition canonical_record `{Unicode} (ttl : Z) (r : DnsRecord.t) : bytes :=
  canonical_name (DnsRecord.domain r) ++ u16_to_be_bytes (DnsRecord.record_type r)
  ++ u16_to_be_bytes 1 ++ u32_to_be_bytes ttl ++ u16_to_be_bytes (len_u16 (canonical_rdata r))
  ++ canonical_rdata r.

Definition sign_rrset `{Unicode, Ed25519} (ks : DnssecKeys) (rs : list DnsRecord.t)
    (signer_name : bytes) (ttl inception expiration : Z) : res string DnsRecord.t :=
  match head (keys ks) with
  | None => Err "no signing keys available"%string
  | Some key =>
      match from_pkcs8 (private_key key) with
      | None => Err "failed to parse signing key"%string
      | Some key_pair =>
          r0 ← idx rs 0;
          let type_covered := DnsRecord.record_type r0 in
          let owner := DnsRecord.domain r0 in
          let labels := label_count owner in
          let to_sign :=
            rrsig_prefix type_covered (sk_algorithm key) labels ttl expiration inception
              (key_tag key) signer_name
            ++ concat (canonical_record ttl <$> rs) in
          Ok (DnsRecord.RRSIG owner type_covered (sk_algorithm key) labels ttl expiration
                inception (key_tag key) signer_name (ed_sign key_pair to_sign) ttl)
      end
  end.

(** ** The key tag, word by word *)

(** The sum of the big-endian 16-bit words, an odd last byte padded with zero. *)
Fixpoint words_sum (rdata : bytes) : Z :=
  match rdata with
  | a :: b :: rest => u16_from_be_bytes a b + words_sum rest
  | [a] => u16_from_be_bytes a 0
  | [] => 0
  end.

Lemma words_sum_bound rdata :
  wf_bytes rdata → (0 <= words_sum rdata <= 65535 * Z.of_nat (length rdata))%Z.
Proof.
  remember (length rdata) as n eqn:Hn. revert rdata Hn.
  induction (lt_wf n) as [n _ IH]. intros [|a [|b rest]] -> Hw; cbn [words_sum length] in *; [lia| |].
  - apply Forall_cons in Hw as [Ha _]. width_lia.
  - apply Forall_cons in Hw as [Ha Hw]. apply Forall_cons in Hw as [Hb Hw].
    specialize (IH (length rest) ltac:(lia) rest eq_refl Hw). width_lia.
Qed.

Lemma key_tag_loop_words rdata i ac :
  Nat.even i = true → wf_bytes rdata → (0 <= ac)%Z → (ac + words_sum rdata < 2 ^ 32)%Z →
  key_tag_loop i ac rdata = (ac + words_sum rdata)%Z.
Proof.
  remember (length rdata) as n eqn:Hn. revert rdata Hn i ac.
  induction (lt_wf n) as [n _ IH]. intros [|a [|b rest]] -> i ac Hi Hw H0 Hlt;
    cbn [words_sum length key_tag_loop] in *; [lia| |].
  - apply Forall_cons in Hw as [Ha _]. rewrite Hi. rewrite Z.shiftl_mul_pow2 by lia. width_lia.
  - apply Forall_cons in Hw as [Ha Hw]. apply Forall_cons in Hw as [Hb Hw].
    pose proof (words_sum_bound rest Hw) as [Hr _].
    rewrite Nat.even_succ, <- Nat.negb_even, Hi. cbn [negb].
    rewrite !Z.shiftl_mul_pow2 by lia. rewrite Z.pow_0_r, Z.mul_1_r.
    assert (as_u32 (as_u32 (ac + a * 2 ^ 8) + b) = ac + u16_from_be_bytes a b)%Z as -> by width_lia.
    rewrite (IH (length rest)); [lia|lia|done| |done| |].
    + rewrite Nat.even_succ, <- Nat.negb_even, Nat.even_succ, <- Nat.negb_even, Hi. done.
    + width_lia.
    + lia.
Qed.

Lemma land_65535 z : Z.land z 65535 = (z mod 2 ^ 16)%Z.
Proof. change 65535%Z with (Z.ones 16). by rewrite Z.land_ones by lia. Qed.

(** ** Properties *)

(** The byte loop of the key tag computes the one's-complement style sum of
    RFC 4034: the 16-bit words added up, the carries of the high half added back
    once, modulo [2^16]; its [u32] accumulator does not overflow for any rdata
    a DNSKEY record can hold, and the tag fits [u16]. *)
Theorem key_tag_words (rdata : bytes) :
  wf_bytes rdata → (Z.of_nat (length rdata) < 65536)%Z →
  key_tag_from_rdata rdata = ((words_sum rdata + words_sum rdata / 2 ^ 16) mod 2 ^ 16)%Z ∧
  is_u16 (key_tag_from_rdata rdata).
Proof.
  intros Hw Hlen. pose proof (words_sum_bound rdata Hw) as [H0 Hb].
  assert (words_sum rdata <= 65535 * 65535)%Z as Hle by lia.
  unfold key_tag_from_rdata. rewrite key_tag_loop_words by (done || lia). rewrite Z.add_0_l.
  rewrite !land_65535, Z.shiftr_div_pow2 by lia. split.
  - f_equal. rewrite Z.mod_small by width_lia. unfold as_u32. rewrite Z.mod_small by width_lia. done.
  - apply Z.mod_pos_bound. lia.
Qed.

Section Signing.
Context `{Unicode, Ed25519}.

Lemma generate_pair pkcs8 zone key :
  generate pkcs8 zone = Ok key →
  ∃ kp, from_pkcs8 (private_key key) = Some kp ∧ public_key key = ed_public_key kp ∧
    key = mkSigningKey zone 257 ALG_ED25519 (public_key key) (private_key key).
Proof.
  unfold generate. destruct pkcs8 as [doc|]; [|done].
  destruct (from_pkcs8 doc) as [kp|] eqn:Hk; [|done]. intros [= <-]. by exists kp.
Qed.

End Signing.

(** ** Witnesses *)

(** A toy signature scheme that satisfies the law: the signature is the message. *)
#[local] Program Instance toy_ed25519 : Ed25519 := {|
  KeyPair := bytes;
  from_pkcs8 := fun doc => Some doc;
  ed_public_key := fun kp => kp;
  ed_sign := fun _ msg => msg;
  ed_verify := fun _ msg sig => bool_decide (msg = sig);
|}.
Next Obligation. intros. by apply bool_decide_eq_true. Qed.

Definition sample_key : SigningKey := mkSigningKey (str "example.com") 257 15 [1; 2; 3]%Z [1; 2; 3]%Z.
Definition sample_rrset : list DnsRecord.t :=
  [DnsRecord.A (str "www.example.com") [192; 0; 2; 2]%Z 60;
   DnsRecord.A (str "www.example.com") [192; 0; 2; 1]%Z 60].

Lemma key_tag_words_witness :
  key_tag_from_rdata [1; 1; 3; 15; 255; 255; 9]%Z = 3344%Z ∧
  is_u16 (key_tag_from_rdata [1; 1; 3; 15; 255; 255; 9]%Z).
Proof.
  split; [vm_compute; reflexivity|]. apply (key_tag_words [1; 1; 3; 15; 255; 255; 9]%Z).
  - repeat (constructor; [width_lia|]). constructor.
  - vm_compute. reflexivity.
Defined.

(** ** An empty TXT record *)

(** The rdata length field of the only answer of an encoded packet whose answer
    has a one-label owner of one byte: two bytes at offset [12 + 3 + 8]. *)
Definition wire_rdlength (p : DnsPacket) : presult Z := u16_at (to_bytes p) 23.

(** The rdata that is signed for an empty TXT record is empty, while the
    encoder sends one zero-length character-string: the signature covers other
    bytes than those sent. *)
Theorem empty_txt_signed_differs :
  @canonical_rdata ascii_unicode (DnsRecord.TXT (str "a") [] 60) = [] ∧
  wire_rdlength (mkPacket (mkHeader 1 0 0 1 0 0) [] [DnsRecord.TXT (str "a") [] 60] [] []) = Ok 1%Z.
Proof. by vm_compute. Qed.
