(* ===== verification/Net.v ===== *)
(** * The network, as the resolver clients see it

    The operating system's sockets and the remote hosts are parameters. Every
    interaction is numbered by an event counter that the callers thread
    through, so that the network may answer differently each time. The
    length-prefixed TCP exchange that [forwarder.rs] and [recursive.rs] share is
    modelled here. *)

From S2P Require Import Prelude RustStd.

(** What each interaction returns: [bool] for success, [None] for a time-out or
    an I/O error. [net_recv] is the next datagram on a connected UDP socket (the
    buffer of 65,535 bytes holds any datagram); [net_tcp] the bytes the peer
    sends back on a fresh TCP connection after the given bytes were written. *)
Class Net := {
  net_connect : nat → SocketAddr → bool;
  net_send : nat → SocketAddr → bytes → bool;
  net_recv : nat → SocketAddr → option bytes;
  net_tcp : nat → SocketAddr → bytes → option bytes;
}.

(** The monotonic clock: the instant, in nanoseconds, read at an event. *)
Class Clock := now_at : nat → Z.

(** [(len as u16).to_be_bytes()] and the message. *)
Definition tcp_frame (msg : bytes) : bytes := u16_to_be_bytes (len_u16 msg) ++ msg.

(** [read_exact] of the two-byte length, then of that many bytes. *)
Definition read_frame (stream : bytes) : option bytes :=
  match stream with
  | a :: b :: rest =>
      let n := Z.to_nat (u16_from_be_bytes a b) in
      if n <=? length rest then Some (take n rest) else None
  | _ => None
  end.

(** The TCP fallback: connect, write the framed query, read one framed reply. *)
Definition tcp_query `{Net} (ev : nat) (server : SocketAddr) (query : bytes) : res string bytes :=
  match net_tcp ev server (tcp_frame query) with
  | None => Err "TCP exchange failed"%string
  | Some stream =>
      match read_frame stream with
      | Some resp => Ok resp
      | None => Err "failed to read response over TCP"%string
      end
  end.

(** Bit 1 of byte 2 of a message of at least four bytes: TC. *)
Definition tc_set (buf : bytes) : bool :=
  match buf with
  | _ :: _ :: f :: _ :: _ => negb (Z.land f 2 =? 0)%Z
  | _ => false
  end.

(** ** Lemmas *)

Lemma read_frame_frame msg rest :
  (Z.of_nat (length msg) < 65536)%Z → read_frame (tcp_frame msg ++ rest) = Some msg.
Proof.
  intros Hl. unfold tcp_frame, u16_to_be_bytes. cbn [app read_frame].
  assert (u16_from_be_bytes (as_u8 (len_u16 msg / 2 ^ 8)) (as_u8 (len_u16 msg))
    = Z.of_nat (length msg)) as ->.
  { rewrite u16_be_bytes_roundtrip by apply as_u16_u16. unfold len_u16. apply as_u16_small. width_lia. }
  rewrite Nat2Z.id, length_app, (proj2 (Nat.leb_le _ _)) by lia. by rewrite take_app_length.
Qed.
