(* ===== verification/Forwarder.v ===== *)
(** * Forwarding to an upstream resolver

    Models [src/src/forwarder.rs]: one UDP query to an upstream, with its pool of
    connected sockets, the matching of replies by transaction identifier, the
    retry over TCP on truncation, and the map of forwarders per upstream. The
    semaphore that bounds concurrency has no effect on a single query and is
    left out. *)

From S2P Require Import Prelude RustStd Net.

Definition DEFAULT_POOL : nat := 64.
Definition MAX_STALE : nat := 4.

(** A forwarder: its upstream and the number of idle sockets in its pool (the
    sockets are interchangeable: all are connected to the upstream). *)
Record Forwarder := mkForwarder { fw_upstream : SocketAddr; fw_timeout : Z; pool : nat }.

Definition new_forwarder (upstream : SocketAddr) (timeout : Z) : Forwarder :=
  mkForwarder upstream timeout 0.

(** [len >= 2 && buf[0] == want[0] && buf[1] == want[1]]. *)
Definition id_matches (w0 w1 : Z) (buf : bytes) : bool :=
  match buf with b0 :: b1 :: _ => (b0 =? w0)%Z && (b1 =? w1)%Z | _ => false end.

(** The receive loop of [query_once], [n] receives left; the result and the next
    event. *)
Fixpoint recv_matching `{Net} (n ev : nat) (upstream : SocketAddr) (query : bytes) (w0 w1 : Z)
    : res string bytes * nat :=
  match n with
  | 0 => (Err "no matching upstream response (transaction ID mismatch)"%string, ev)
  | S n' =>
      match net_recv ev upstream with
      | None => (Err "upstream query timed out"%string, S ev)
      | Some buf =>
          if id_matches w0 w1 buf then
            if tc_set buf then (tcp_query (S ev) upstream query, S (S ev))
            else (Ok buf, S ev)
          else recv_matching n' (S ev) upstream query w0 w1
      end
  end.

Definition query_once `{Net} (ev : nat) (upstream : SocketAddr) (query : bytes)
    : res string bytes * nat :=
  if net_send ev upstream query then
    match query with
    | w0 :: w1 :: _ => recv_matching MAX_STALE (S ev) upstream query w0 w1
    | _ => (Panic, S ev)
    end
  else (Err "failed to send to upstream"%string, S ev).

(** [checkout]: pop a pooled socket or connect a new one. *)
Definition checkout `{Net} (ev : nat) (f : Forwarder) : res string Forwarder * nat :=
  match pool f with
  | S p => (Ok (mkForwarder (fw_upstream f) (fw_timeout f) p), ev)
  | 0 =>
      if net_connect ev (fw_upstream f) then (Ok f, S ev)
      else (Err "failed to connect upstream socket"%string, S ev)
  end.

(** [Forwarder::forward]: the reply, the forwarder after it and the next event. *)
Definition forward `{Net} (ev : nat) (query : bytes) (f : Forwarder)
    : res string bytes * Forwarder * nat :=
  if length query <? 2 then (Err "query too short to forward"%string, f, ev)
  else
    match checkout ev f with
    | (Ok f1, ev1) =>
        let '(r, ev2) := query_once ev1 (fw_upstream f) query in
        match r with
        | Ok _ => (r, mkForwarder (fw_upstream f1) (fw_timeout f1) (S (pool f1)), ev2)
        | _ => (r, f1, ev2)
        end
    | (Err e, ev1) => (Err e, f, ev1)
    | (Panic, ev1) => (Panic, f, ev1)
    end.

Module MultiForwarder.

Record t := mk { forwarders : gmap SocketAddr Forwarder; timeout : Z }.

Definition new (timeout : Z) : t := mk ∅ timeout.

Definition get_or_create (m : t) (upstream : SocketAddr) : Forwarder :=
  default (new_forwarder upstream (timeout m)) (forwarders m !! upstream).

Definition forward `{Net} (ev : nat) (query : bytes) (upstream : SocketAddr) (m : t)
    : res string bytes * t * nat :=
  let '(r, f, ev') := Forwarder.forward ev query (get_or_create m upstream) in
  (r, mk (<[upstream := f]> (forwarders m)) (timeout m), ev').

Definition active_upstreams `{HashIter} (m : t) : list SocketAddr := (hm_iter (forwarders m)).*1.

End MultiForwarder.

(** ** Lemmas *)

Section Lemmas.
Context `{Net}.

(** Where a reply comes from. *)
Definition genuine (upstream : SocketAddr) (query r : bytes) : Prop :=
  ∃ ev buf, net_recv ev upstream = Some buf ∧ take 2 buf = take 2 query ∧
    if tc_set buf then tcp_query (S ev) upstream query = Ok r else r = buf.

Lemma recv_matching_spec n ev upstream (query : bytes) w0 w1 r ev' :
  take 2 query = [w0; w1] →
  recv_matching n ev upstream query w0 w1 = (r, ev') →
  ev' ≤ ev + n + 1 ∧ r ≠ Panic ∧ ∀ b, r = Ok b → genuine upstream query b.
Proof.
  intros Hq. revert ev. induction n as [|n IH]; intros ev; cbn [recv_matching].
  { intros. simplify_eq. split_and!; [lia|done|done]. }
  destruct (net_recv ev upstream) as [buf|] eqn:Hr; [|intros; simplify_eq; split_and!; [lia|done..]].
  destruct (id_matches w0 w1 buf) eqn:Hid.
  2:{ intros Hrec%IH. destruct Hrec as (? & ? & ?). split_and!; [lia|done..]. }
  assert (take 2 buf = take 2 query) as Htake.
  { rewrite Hq. destruct buf as [|b0 [|b1 buf]]; [done..|]. cbn in Hid.
    apply andb_true_iff in Hid as [->%Z.eqb_eq ->%Z.eqb_eq]. done. }
  destruct (tc_set buf) eqn:Htc; intros; simplify_eq; split_and!; try lia; try done.
  - unfold tcp_query. by repeat case_match.
  - intros b Hb. exists ev, buf. rewrite Htc. done.
  - intros b [= ->]. exists ev, b. rewrite Htc. done.
Qed.

Lemma forward_no_short (query : bytes) : 2 ≤ length query → ∃ w0 w1, take 2 query = [w0; w1] ∧
  ∃ rest, query = w0 :: w1 :: rest.
Proof. destruct query as [|w0 [|w1 q]]; cbn; [lia..|]. eauto 10. Qed.

Lemma query_once_spec ev upstream (query : bytes) r ev' :
  2 ≤ length query → query_once ev upstream query = (r, ev') →
  ev' ≤ ev + MAX_STALE + 2 ∧ r ≠ Panic ∧ ∀ b, r = Ok b → genuine upstream query b.
Proof.
  intros Hlen. destruct (forward_no_short query Hlen) as (w0 & w1 & Ht & rest & ->).
  unfold query_once. destruct (net_send ev upstream _);
    [|intros; simplify_eq; split_and!; [lia|done..]].
  intros Hr%recv_matching_spec; [|done]. destruct Hr as (? & ? & ?). split_and!; [lia|done..].
Qed.

(** Forwarding never panics; a reply it returns is a datagram of the upstream with the query's
    transaction identifier, or, when that datagram is truncated, the framed reply of the same
    query over TCP; at most [MAX_STALE] datagrams are read; and a socket returns to the pool only
    after success. *)
Lemma forward_outcome ev (query : bytes) f r f' ev' :
  forward ev query f = (r, f', ev') →
  r ≠ Panic ∧ ev' ≤ ev + MAX_STALE + 3 ∧ fw_upstream f' = fw_upstream f ∧
  (∀ b, r = Ok b → genuine (fw_upstream f) query b ∧ pool f ≤ pool f' ≤ S (pool f)) ∧
  (∀ e, r = Err e → pool f' ≤ pool f).
Proof.
  unfold forward. destruct (Nat.ltb_spec (length query) 2) as [|Hlen].
  { intros. simplify_eq. split_and!; [done|lia|done|done|done]. }
  assert (∀ ev1 p, ev1 ≤ S ev → p ≤ pool f → pool f ≤ S p →
    (let '(r, ev2) := query_once ev1 (fw_upstream f) query in
     match r with
     | Ok _ => (r, mkForwarder (fw_upstream f) (fw_timeout f) (S p), ev2)
     | _ => (r, mkForwarder (fw_upstream f) (fw_timeout f) p, ev2)
     end) = (r, f', ev') →
    r ≠ Panic ∧ ev' ≤ ev + MAX_STALE + 3 ∧ fw_upstream f' = fw_upstream f ∧
    (∀ b, r = Ok b → genuine (fw_upstream f) query b ∧ pool f ≤ pool f' ≤ S (pool f)) ∧
    (∀ e, r = Err e → pool f' ≤ pool f)) as Hcall.
  { intros ev1 p Hev1 Hp1 Hp2. destruct (query_once ev1 (fw_upstream f) query) as [r0 ev2] eqn:Hq.
    apply query_once_spec in Hq as (Hev & Hnp & Hg); [|done].
    destruct r0 as [b|e|]; [| |done]; intros; simplify_eq; cbn; split_and!; try done; try lia;
      intros; simplify_eq. split; [by apply Hg|lia]. }
  unfold checkout. destruct (pool f) as [|p] eqn:Hp.
  - destruct (net_connect ev (fw_upstream f)); [|intros; simplify_eq; split_and!; [done|lia|done|done|lia]].
    destruct f as [u tm pl]. cbn in *. subst pl. apply (Hcall (S ev) 0); lia.
  - destruct f as [u tm pl]. cbn in *. subst pl. apply (Hcall ev p); lia.
Qed.

(** ** One forwarder per upstream *)

(** Every forwarder is filed under the upstream it talks to. *)
Definition keyed (m : MultiForwarder.t) : Prop :=
  map_Forall (fun a f => fw_upstream f = a) (MultiForwarder.forwarders m).

Lemma keyed_new timeout : keyed (MultiForwarder.new timeout).
Proof. apply map_Forall_empty. Qed.

Lemma keyed_get m upstream : keyed m → fw_upstream (MultiForwarder.get_or_create m upstream) = upstream.
Proof.
  intros Hk. unfold MultiForwarder.get_or_create.
  destruct (MultiForwarder.forwarders m !! upstream) as [f|] eqn:Hl; [by apply (Hk upstream)|done].
Qed.

(** A call goes to the upstream it is given, and files its forwarder back under it. *)
Lemma keyed_forward ev query upstream m r m' ev' :
  keyed m → MultiForwarder.forward ev query upstream m = (r, m', ev') →
  keyed m' ∧ r ≠ Panic ∧ ∀ raw, r = Ok raw → genuine upstream query raw.
Proof.
  intros Hk. unfold MultiForwarder.forward.
  destruct (forward _ _ _) as [[r0 f] ev0] eqn:Hf. intros [= <- <- <-].
  apply forward_outcome in Hf as (Hp & _ & Hu & Hg & _). rewrite keyed_get in Hu, Hg by done.
  split_and!; [|done|intros raw ->; by apply Hg]. by apply map_Forall_insert_2.
Qed.

End Lemmas.

(** ** Matching by identifier only *)

(** A query for [a] and a reply about [b], both with identifier 7. *)
Definition query_a : bytes := [0;7; 1;0; 0;1; 0;0; 0;0; 0;0;  1;97;0; 0;1; 0;1]%Z.
Definition reply_b : bytes := [0;7; 129;128; 0;1; 0;0; 0;0; 0;0;  1;98;0; 0;1; 0;1]%Z.

(** An upstream whose next datagram is the reply to another query. *)
Definition stale_net : Net := {|
  net_connect := fun _ _ => true;
  net_send := fun _ _ _ => true;
  net_recv := fun _ _ => Some reply_b;
  net_tcp := fun _ _ _ => None;
|}.

(** A datagram left over from another query is accepted as the answer when
    it carries the same transaction identifier: the question is not compared. *)
Theorem stale_reply_accepted (upstream : SocketAddr) :
  (@forward stale_net 0 query_a (mkForwarder upstream 5 1)).1.1 = Ok reply_b.
Proof. reflexivity. Qed.
