(* ===== verification/Pool.v ===== *)
(** * The forwarder under concurrency

    [Forwarder] models one query to an upstream. Many run at once: the semaphore of
    [src/src/forwarder.rs] bounds them, and they share the pool of sockets. A call
    of [Forwarder::forward] is a task that goes through the stages below; the tasks
    interleave at their await points, a future may be dropped at any of them
    (cancelled), and the results of the network are free. [MultiForwarder] is one
    such system for each upstream.

    Shown: the number of queries in flight and of UDP sockets open to one upstream is
    bounded by the permits, none of which is ever lost, and that of all connections to it,
    with the TCP streams of truncated queries, by twice as many; a call alone does what
    [Forwarder.forward] says; but the bound is per upstream, not shared. *)

From S2P Require Import Prelude RustStd Net Forwarder.

(** Where a call is: before the permit; with it, before [checkout]; connecting a new
    socket, the pool being empty; in [query_once], before the query is sent; waiting for a datagram,
    with [left] more to be read; in [query_tcp] after a truncated reply, connecting its stream, or
    exchanging messages on it, the UDP socket still in hand; with the socket put back (or dropped), before the
    permit is given back; over. *)
Inductive stage :=
| Waiting | Permitted | Connecting | Sending | Receiving (left : nat) | TcpConnecting | TcpExchange
| Leaving | Over.

#[global] Instance stage_eq_dec : EqDecision stage.
Proof. solve_decision. Defined.

Definition holds_permit (st : stage) : bool :=
  match st with Waiting | Over => false | _ => true end.
(** The UDP socket, from [checkout] until it goes back to the pool or is dropped. *)
Definition holds_socket (st : stage) : bool :=
  match st with Waiting | Permitted | Leaving | Over => false | _ => true end.
(** The TCP stream of [query_tcp]. *)
Definition holds_stream (st : stage) : bool :=
  match st with TcpConnecting | TcpExchange => true | _ => false end.

(** The semaphore, the idle sockets, and the calls. *)
Record sys := mkSys { permits : nat; idle : nat; calls : gmap nat stage }.

Definition set_call (i : nat) (st : stage) (g : sys) : sys := mkSys (permits g) (idle g) (<[i := st]> (calls g)).

(** The socket of call [i] goes back to the pool, or is dropped. *)
Definition put_back (i : nat) (g : sys) : sys := mkSys (permits g) (S (idle g)) (<[i := Leaving]> (calls g)).
Definition drop_socket (i : nat) (g : sys) : sys := set_call i Leaving g.

(** [Forwarder::with_concurrency]. *)
Definition with_concurrency (max_concurrent : nat) : sys := mkSys (max_concurrent `max` 1) 0 ∅.

Definition in_flight (g : sys) : nat := count_vals holds_permit (calls g).
(** The UDP sockets open to the upstream, idle ones included, and the TCP streams. *)
Definition sockets (g : sys) : nat := idle g + count_vals holds_socket (calls g).
Definition streams (g : sys) : nat := count_vals holds_stream (calls g).

Inductive step : sys → sys → Prop :=
| Call g i : calls g !! i = None → step g (set_call i Waiting g)
| Too_short g i : calls g !! i = None → step g (set_call i Over g)
(** [acquire_owned]. *)
| Acquire g i n :
    calls g !! i = Some Waiting → permits g = S n → step g (mkSys n (idle g) (<[i := Permitted]> (calls g)))
(** [checkout]. *)
| Checkout_pooled g i n :
    calls g !! i = Some Permitted → idle g = S n → step g (mkSys (permits g) n (<[i := Sending]> (calls g)))
| Checkout_new g i :
    calls g !! i = Some Permitted → idle g = 0 → step g (set_call i Connecting g)
| Connected g i : calls g !! i = Some Connecting → step g (set_call i Sending g)
| Connect_fails g i : calls g !! i = Some Connecting → step g (drop_socket i g)
(** [query_once]: the query is sent; a datagram that is not the reply is skipped, up to
    [MAX_STALE] of them; a whole reply ends the query, and the healthy socket goes back to the
    pool; a truncated one starts [query_tcp]; a timeout or an error drops the socket. *)
| Sent g i : calls g !! i = Some Sending → step g (set_call i (Receiving MAX_STALE) g)
| Send_fails g i : calls g !! i = Some Sending → step g (drop_socket i g)
| Stale g i n : calls g !! i = Some (Receiving (S n)) → step g (set_call i (Receiving n) g)
| No_match g i : calls g !! i = Some (Receiving 0) → step g (drop_socket i g)
| Reply_whole g i n : calls g !! i = Some (Receiving (S n)) → step g (put_back i g)
| Reply_truncated g i n : calls g !! i = Some (Receiving (S n)) → step g (set_call i TcpConnecting g)
| Receive_fails g i n : calls g !! i = Some (Receiving (S n)) → step g (drop_socket i g)
(** [query_tcp]: its stream is closed when it returns, the UDP socket goes the way the
    result says. *)
| Tcp_connected g i : calls g !! i = Some TcpConnecting → step g (set_call i TcpExchange g)
| Tcp_connect_fails g i : calls g !! i = Some TcpConnecting → step g (drop_socket i g)
| Tcp_reply g i : calls g !! i = Some TcpExchange → step g (put_back i g)
| Tcp_fails g i : calls g !! i = Some TcpExchange → step g (drop_socket i g)
(** The end of the call, or of its future: the permit is dropped last. *)
| Leave g i :
    calls g !! i = Some Leaving → step g (mkSys (S (permits g)) (idle g) (<[i := Over]> (calls g)))
| Cancel_waiting g i : calls g !! i = Some Waiting → step g (set_call i Over g)
| Cancel g i st :
    calls g !! i = Some st → holds_permit st = true →
    step g (mkSys (S (permits g)) (idle g) (<[i := Over]> (calls g))).

(** ** The invariant *)

(** Permits are neither lost nor made, and UDP sockets are no more than permits. *)
Record Inv (limit : nat) (g : sys) : Prop := {
  inv_permits : permits g + in_flight g = limit;
  inv_sockets : sockets g ≤ limit;
}.

Lemma sockets_permits (m : gmap nat stage) : count_vals holds_socket m ≤ count_vals holds_permit m.
Proof. apply count_vals_mono. by intros []. Qed.

Lemma streams_sockets (m : gmap nat stage) : count_vals holds_stream m ≤ count_vals holds_socket m.
Proof. apply count_vals_mono. by intros []. Qed.

(** What setting the stage of a call does to the two counts. *)
Ltac count_stage :=
  match goal with
  | E : calls ?g !! ?i = None |- context [<[?i := ?x]> (calls ?g)] =>
      rewrite ?(count_vals_insert_None holds_permit _ i x E), ?(count_vals_insert_None holds_socket _ i x E)
  | E : calls ?g !! ?i = Some ?y |- context [<[?i := ?x]> (calls ?g)] =>
      pose proof (count_vals_insert holds_permit (calls g) i x y E);
      pose proof (count_vals_insert holds_socket (calls g) i x y E);
      pose proof (sockets_permits (<[i := x]> (calls g)))
  end.

Lemma pool_inv_step limit g g' : step g g' → Inv limit g → Inv limit g'.
Proof.
  intros Hs [Hp Hk]. unfold in_flight, sockets in *.
  destruct Hs; split; unfold in_flight, sockets; cbn [set_call put_back drop_socket permits idle calls]; count_stage;
    try match goal with S : stage |- _ => destruct S; try discriminate end;
    cbn [Nat.b2n holds_permit holds_socket] in *; lia.
Qed.

Lemma pool_inv_reached max_concurrent g :
  rtc step (with_concurrency max_concurrent) g → Inv (max_concurrent `max` 1) g.
Proof.
  intros Hr. assert (Inv (max_concurrent `max` 1) (with_concurrency max_concurrent)) as H0.
  { split; unfold in_flight, sockets; cbn [calls permits idle with_concurrency]; rewrite count_vals_empty; lia. }
  induction Hr; eauto using pool_inv_step.
Qed.

(** ** Properties *)

(** A waiting call waits only while all permits are in use, and a call in flight can
    always end, which frees its permit, whatever the others do. *)
Lemma call_can_end g i st :
  calls g !! i = Some st → holds_permit st = true →
  ∃ g', rtc step g g' ∧ permits g' = S (permits g) ∧ calls g' = <[i := Over]> (calls g).
Proof.
  intros Hi Hp. exists (mkSys (S (permits g)) (idle g) (<[i := Over]> (calls g))).
  split_and!; [|done..]. apply rtc_once. by apply Cancel with st.
Qed.

(** A waiting query makes progress: it can take its permit at once, or
    [max_concurrent] others are in flight, and when any one of those ends it can. *)
Theorem forward_progress max_concurrent g i :
  rtc step (with_concurrency max_concurrent) g → calls g !! i = Some Waiting →
  (∃ g', step g g' ∧ calls g' !! i = Some Permitted) ∨
  (in_flight g = max_concurrent `max` 1 ∧
   ∀ j st, calls g !! j = Some st → holds_permit st = true →
     ∃ g1 g2, rtc step g g1 ∧ step g1 g2 ∧ calls g1 !! j = Some Over ∧ calls g2 !! i = Some Permitted).
Proof.
  intros [Hp _]%pool_inv_reached Hi. destruct (permits g) as [|n] eqn:Hn.
  - right. split; [lia|]. intros j st Hj Hst.
    assert (j ≠ i) as Hij by (intros ->; by simplify_eq).
    destruct (call_can_end g j st Hj Hst) as (g1 & Hr & Hp1 & Hc1).
    exists g1, (mkSys (permits g) (idle g1) (<[i := Permitted]> (calls g1))). split_and!; [done|..].
    + apply Acquire; [|done]. by rewrite Hc1, lookup_insert_ne.
    + by rewrite Hc1, lookup_insert_eq.
    + cbn. by rewrite lookup_insert_eq.
  - left. exists (mkSys n (idle g) (<[i := Permitted]> (calls g))). split; [by apply Acquire|].
    cbn. by rewrite lookup_insert_eq.
Qed.

(** The pieces of an uninterrupted call. *)
Lemma restage p k i a b (m : gmap nat stage) p' k' :
  step (mkSys p k (<[i := a]> m)) (mkSys p' k' (<[i := b]> (<[i := a]> m))) →
  step (mkSys p k (<[i := a]> m)) (mkSys p' k' (<[i := b]> m)).
Proof. by rewrite insert_insert_eq. Qed.

Lemma start_call n k i (m : gmap nat stage) :
  m !! i = None → rtc step (mkSys (S n) k m) (mkSys n k (<[i := Permitted]> m)).
Proof.
  intros Hi. eapply rtc_l; [by apply (Call (mkSys (S n) k m) i)|]. unfold set_call. cbn.
  apply rtc_once, restage. apply (Acquire (mkSys _ _ _)); [cbn; by rewrite lookup_insert_eq|done].
Qed.

Lemma leave_call p k i (m : gmap nat stage) :
  step (mkSys p k (<[i := Leaving]> m)) (mkSys (S p) k (<[i := Over]> m)).
Proof. apply restage. apply (Leave (mkSys _ _ _)). cbn. by rewrite lookup_insert_eq. Qed.

(** The end of [query_once]: the socket goes the way of the result. *)
Lemma end_query (ok : bool) p k i st (m : gmap nat stage) :
  step (mkSys p k (<[i := st]> m))
    ((if ok then put_back i else drop_socket i) (mkSys p k (<[i := st]> m))) →
  rtc step (mkSys p k (<[i := st]> m)) (mkSys (S p) (if ok then S k else k) (<[i := Over]> m)).
Proof.
  intros Hs. eapply rtc_l; [|apply rtc_once, leave_call]. apply restage.
  destruct ok; exact Hs.
Qed.

(** A call moves from one stage to another. *)
Lemma move_call p k i a b (m : gmap nat stage) g' :
  step (mkSys p k (<[i := a]> m)) (set_call i b (mkSys p k (<[i := a]> m))) →
  rtc step (mkSys p k (<[i := b]> m)) g' → rtc step (mkSys p k (<[i := a]> m)) g'.
Proof. intros Hs Hr. eapply rtc_l; [apply restage; exact Hs|exact Hr]. Qed.

(** A step of the call [i] at the stage it stands in. *)
Ltac at_stage := cbn [calls]; by rewrite lookup_insert_eq.

Definition is_ok {E A} (r : res E A) : bool := match r with Ok _ => true | _ => false end.

Lemma tcp_call `{Net} ev upstream query p k i (m : gmap nat stage) :
  rtc step (mkSys p k (<[i := TcpConnecting]> m))
    (mkSys (S p) (if is_ok (tcp_query ev upstream query) then S k else k) (<[i := Over]> m)).
Proof.
  destruct (tcp_query ev upstream query); cbn [is_ok].
  - eapply move_call; [apply Tcp_connected; at_stage|]. apply (end_query true), Tcp_reply. at_stage.
  - apply (end_query false), Tcp_connect_fails. at_stage.
  - apply (end_query false), Tcp_connect_fails. at_stage.
Qed.

Lemma recv_call `{Net} n ev upstream query w0 w1 p k i (m : gmap nat stage) :
  rtc step (mkSys p k (<[i := Receiving n]> m))
    (mkSys (S p) (if is_ok (recv_matching n ev upstream query w0 w1).1 then S k else k) (<[i := Over]> m)).
Proof.
  revert ev. induction n as [|n IH]; intros ev; cbn [recv_matching].
  { apply (end_query false), No_match. at_stage. }
  destruct (net_recv ev upstream) as [buf|]; [|apply (end_query false); eapply Receive_fails; at_stage].
  destruct (id_matches w0 w1 buf); [destruct (tc_set buf)|].
  - eapply move_call; [eapply Reply_truncated; at_stage|]. apply tcp_call.
  - apply (end_query true). eapply Reply_whole. at_stage.
  - eapply move_call; [apply Stale; at_stage|]. apply IH.
Qed.

Lemma query_call `{Net} ev upstream query p k i (m : gmap nat stage) :
  2 ≤ length query →
  rtc step (mkSys p k (<[i := Sending]> m))
    (mkSys (S p) (if is_ok (query_once ev upstream query).1 then S k else k) (<[i := Over]> m)).
Proof.
  intros Hq. unfold query_once. destruct (net_send ev upstream query).
  - destruct query as [|w0 [|w1 query]]; [cbn in Hq; lia..|].
    eapply move_call; [apply Sent; at_stage|]. apply recv_call.
  - apply (end_query false), Send_fails. at_stage.
Qed.

Lemma checkout_call p k i (m : gmap nat stage) :
  rtc step (mkSys p k (<[i := Permitted]> m)) (mkSys p (pred k) (<[i := Sending]> m)).
Proof.
  destruct k as [|k]; cbn.
  - eapply move_call; [apply Checkout_new; [at_stage|done]|].
    eapply move_call; [apply Connected; at_stage|done].
  - apply rtc_once, restage, (Checkout_pooled (mkSys _ _ _)); cbn; by rewrite ?lookup_insert_eq.
Qed.

Lemma connect_fails_call p i (m : gmap nat stage) :
  rtc step (mkSys p 0 (<[i := Permitted]> m)) (mkSys (S p) 0 (<[i := Over]> m)).
Proof.
  eapply move_call; [apply Checkout_new; [at_stage|done]|]. apply (end_query false), Connect_fails. at_stage.
Qed.

(** A call among others is [Forwarder.forward]: with a permit free and the pool of
    [f], a call run without interruption leaves the pool [Forwarder.forward]
    leaves, gives its permit back, and touches no other call. *)
Theorem forward_simulated `{Net} ev query f g i n :
  calls g !! i = None → permits g = S n → idle g = pool f →
  rtc step g (mkSys (permits g) (pool (forward ev query f).1.2) (<[i := Over]> (calls g))).
Proof.
  destruct g as [p k m]. cbn [calls permits idle]. intros Hi -> ->. unfold forward.
  destruct (Nat.ltb_spec (length query) 2); [by apply rtc_once, (Too_short (mkSys _ _ _))|].
  etrans; [by apply start_call|]. unfold checkout. destruct (pool f) as [|k] eqn:Hk.
  - destruct (net_connect ev (fw_upstream f)); [|cbn; rewrite Hk; apply connect_fails_call].
    etrans; [apply checkout_call|]. etrans; [by apply (query_call (S ev) (fw_upstream f) query)|].
    destruct (query_once _ _ _) as [[] ?]; cbn; by rewrite ?Hk.
  - etrans; [apply checkout_call|]. etrans; [by apply (query_call ev (fw_upstream f) query)|].
    by destruct (query_once _ _ _) as [[] ?].
Qed.

(** ** How many connections *)

(** Every permit can be held by a call with a new UDP socket and a TCP stream. *)
Lemma fill_tcp n g :
  permits g = n → idle g = 0 →
  ∃ g', rtc step g g' ∧ sockets g' = sockets g + n ∧ streams g' = streams g + n.
Proof.
  revert g. induction n as [|n IH]; intros g Hn Hk; [exists g; split_and!; [done|lia..]|].
  set (i := fresh (dom (calls g))).
  assert (calls g !! i = None) as Hi by (apply not_elem_of_dom, is_fresh).
  destruct g as [p k m]. cbn in Hn, Hk, Hi, i. subst p k.
  destruct (IH (mkSys n 0 (<[i := TcpExchange]> m)) eq_refl eq_refl) as (g' & Hr & Hs & Ht).
  exists g'. split.
  - etrans; [by apply start_call|]. etrans; [apply checkout_call|].
    eapply move_call; [apply Sent; at_stage|]. eapply move_call; [apply (Reply_truncated _ _ 3); at_stage|].
    eapply move_call; [apply Tcp_connected; at_stage|]. exact Hr.
  - unfold sockets, streams in *. cbn [idle calls] in *.
    rewrite !count_vals_insert_None in Hs, Ht by done. cbn [Nat.b2n holds_socket holds_stream] in *. lia.
Qed.

(** C29: the forwarder's bounds hold however calls interleave, fail or are cancelled: at
    any moment at most [max_concurrent] queries (one, for zero) are in flight to the
    upstream, and the permits left are exactly those not in flight: none leaks; at most
    [max_concurrent] UDP sockets are open to it, idle ones included, and at most one TCP stream for each
    query in flight, so that there are never more than twice [max_concurrent] connections in
    all; and that many there can be, since a query whose reply was truncated keeps its UDP socket
    while it asks again over TCP. *)
Theorem forwarder_bounded max_concurrent :
  let limit := max_concurrent `max` 1 in
  (∀ g, rtc step (with_concurrency max_concurrent) g →
     in_flight g ≤ limit ∧ permits g = limit - in_flight g ∧
     sockets g ≤ limit ∧ streams g ≤ in_flight g ∧ sockets g + streams g ≤ 2 * limit) ∧
  ∃ g, rtc step (with_concurrency max_concurrent) g ∧ sockets g + streams g = 2 * limit.
Proof.
  cbv zeta. split.
  - intros g [Hp Hk]%pool_inv_reached. unfold in_flight, sockets, streams in *.
    pose proof (streams_sockets (calls g)). pose proof (sockets_permits (calls g)). split_and!; lia.
  - destruct (fill_tcp (max_concurrent `max` 1) (with_concurrency max_concurrent)) as (g & Hr & Hk & Hs); [done..|].
    exists g. split; [done|]. rewrite Hk, Hs. unfold sockets, streams, with_concurrency. cbn [calls idle].
    rewrite !count_vals_empty. lia.
Qed.

(** ** One system for each upstream *)

Inductive mstep : gmap SocketAddr sys → gmap SocketAddr sys → Prop :=
(** [get_or_create]. *)
| Create m u : m !! u = None → mstep m (<[u := with_concurrency DEFAULT_POOL]> m)
| At_upstream m u g g' : m !! u = Some g → step g g' → mstep m (<[u := g']> m).

Lemma at_upstream m u g g' : m !! u = Some g → rtc step g g' → rtc mstep m (<[u := g']> m).
Proof.
  intros Hu Hr. revert m Hu. induction Hr as [g|g g1 g2 Hs _ IH]; intros m Hu; [by rewrite insert_id|].
  eapply rtc_l; [by apply (At_upstream m u g g1)|]. rewrite <- (insert_insert_eq m u g2 g1).
  apply IH. by rewrite lookup_insert_eq.
Qed.

(** All permits can be taken. *)
Lemma fill n g :
  permits g = n → ∃ g', rtc step g g' ∧ in_flight g' = in_flight g + n.
Proof.
  revert g. induction n as [|n IH]; intros g Hn; [exists g; split; [done|lia]|].
  set (i := fresh (dom (calls g))).
  assert (calls g !! i = None) as Hi by (apply not_elem_of_dom, is_fresh).
  destruct g as [p k m]. cbn in Hn, Hi, i. subst p.
  destruct (IH (mkSys n k (<[i := Permitted]> m)) eq_refl) as (g' & Hr & Hf).
  exists g'. split; [etrans; [by apply start_call|exact Hr]|].
  rewrite Hf. unfold in_flight. cbn [calls]. rewrite count_vals_insert_None by done. cbn [Nat.b2n holds_permit]. lia.
Qed.

Lemma fill_all (us : list SocketAddr) g :
  rtc step (with_concurrency DEFAULT_POOL) g →
  ∃ m, rtc mstep ∅ m ∧ ∀ u, m !! u = if decide (u ∈ us) then Some g else None.
Proof.
  intros Hg. induction us as [|u us (m & Hr & Hm)].
  { exists ∅. split; [done|]. intros u. by rewrite lookup_empty, decide_False by apply not_elem_of_nil. }
  destruct (decide (u ∈ us)) as [Hin|Hin].
  { exists m. split; [done|]. intros u'. rewrite Hm. apply decide_ext. set_solver. }
  assert (m !! u = None) as Hu by (by rewrite Hm, decide_False).
  exists (<[u := g]> m). split.
  - etrans; [exact Hr|]. eapply rtc_l; [by apply Create|].
    rewrite <- (insert_insert_eq m u g (with_concurrency DEFAULT_POOL)).
    eapply at_upstream; [by rewrite lookup_insert_eq|done].
  - intros u'. destruct (decide (u' = u)) as [->|Hne].
    + rewrite lookup_insert_eq, decide_True by set_solver. done.
    + rewrite lookup_insert_ne, Hm by done. apply decide_ext. set_solver.
Qed.

(** The budget is per upstream: for any set of upstreams, all of them can have
    [DEFAULT_POOL] queries in flight at the same time. *)
Theorem budget_not_shared (us : list SocketAddr) :
  ∃ m, rtc mstep ∅ m ∧ ∀ u, u ∈ us → ∃ g, m !! u = Some g ∧ in_flight g = DEFAULT_POOL.
Proof.
  destruct (fill 64 (with_concurrency DEFAULT_POOL) eq_refl) as (g & Hg & Hf).
  destruct (fill_all us g Hg) as (m & Hr & Hm). exists m. split; [done|]. intros u Hu. exists g.
  rewrite Hm, decide_True, Hf by done. split; [done|].
  unfold in_flight, with_concurrency. cbn [calls]. by rewrite count_vals_empty.
Qed.

(** ** Witnesses *)

(** A forwarder with one permit, which is taken, and a second call waiting. *)
Definition sample_queue : sys := mkSys 0 0 (<[1 := Waiting]> (<[0 := Permitted]> ∅)).

Lemma sample_queue_reached : rtc step (with_concurrency 0) sample_queue.
Proof.
  etrans; [exact (start_call 0 0 0 ∅ eq_refl)|].
  apply rtc_once. exact (Call (mkSys 0 0 (<[0 := Permitted]> ∅)) 1 eq_refl).
Qed.

Lemma forward_progress_witness : ∃ g', rtc step sample_queue g' ∧ calls g' !! 1 = Some Permitted.
Proof.
  destruct (forward_progress 0 sample_queue 1 sample_queue_reached eq_refl) as [(g' & Hs & Hg)|[_ Hj]].
  - exists g'. split; [apply rtc_once; exact Hs|exact Hg].
  - destruct (Hj 0 Permitted eq_refl eq_refl) as (g1 & g2 & Hr & Hs & _ & Hg).
    exists g2. split; [eapply rtc_r; [exact Hr|exact Hs]|exact Hg].
Defined.

Lemma forward_simulated_witness :
  rtc step (mkSys 1 1 ∅) (mkSys 1 1 {[ 0 := Over ]}).
Proof.
  exact (@forward_simulated stale_net 0 query_a (mkForwarder (mkSocketAddr (V4 [192; 0; 2; 53]%Z) 53) 5 1)
    (mkSys 1 1 ∅) 0 0 eq_refl eq_refl eq_refl).
Defined.
