(* ===== verification/Recursive.v ===== *)
(** * The iterative resolver

    Models [src/src/recursive.rs]: the walk down the delegation chain from the
    root servers with QNAME minimization, the cache of delegations, the query of
    one authoritative server (identifier check, TCP retry on truncation) and
    the synthesis of SERVFAIL. The network and the clock are parameters; the
    clock reads of one synchronous pass return the same instant. One resolution
    at a time; [Delegations] adds the semaphore and concurrent resolutions. *)

From S2P Require Import Prelude RustStd TextParse Message Packet Encoder Cache Net.

Definition MAX_DELEGATION_DEPTH : nat := 20.
Definition EDNS_UDP_SIZE : Z := 1232.

Definition ROOT_HINTS : list (bytes * bytes) :=
  [(str "a.root-servers.net", str "198.41.0.4");
   (str "b.root-servers.net", str "170.247.170.2");
   (str "c.root-servers.net", str "192.33.4.12");
   (str "d.root-servers.net", str "199.7.91.13");
   (str "e.root-servers.net", str "192.203.230.10");
   (str "f.root-servers.net", str "192.5.5.241");
   (str "g.root-servers.net", str "192.112.36.4");
   (str "h.root-servers.net", str "198.97.190.53");
   (str "i.root-servers.net", str "192.36.148.17");
   (str "j.root-servers.net", str "192.58.128.30");
   (str "k.root-servers.net", str "193.0.14.129");
   (str "l.root-servers.net", str "199.7.83.42");
   (str "m.root-servers.net", str "202.12.27.33")].

Record Delegation := mkDelegation {
  ns_names : list bytes;
  ns_addrs : list SocketAddr;
  d_expires_at : Z;
}.

Definition is_expired (now : Z) (d : Delegation) : bool := (d_expires_at d <=? now)%Z.

Record RecursiveResolver := mkResolver {
  delegations : gmap bytes Delegation;
  next_id : Z;
}.

Definition new_resolver : RecursiveResolver := mkResolver ∅ 1.

(** [ip.parse::<IpAddr>()]: IPv4 first, then IPv6. *)
Definition parse_ip (s : bytes) : option IpAddr :=
  match parse_ipv4 s with
  | Some a => Some (V4 a)
  | None => V6 <$> parse_ipv6 s
  end.

Definition root_servers : list SocketAddr :=
  omap (fun h => (fun ip => mkSocketAddr ip 53) <$> parse_ip h.2) ROOT_HINTS.

(** ** Names *)

(** [name.split('.').filter(|l| !l.is_empty())]. *)
Definition labels_of (name : bytes) : list bytes := filter (fun l => l ≠ []) (split_on DOT name).

Definition minimized_qname (name current_zone : bytes) : bytes :=
  let labels := labels_of name in
  if length labels =? 0 then name
  else if bool_decide (current_zone = []) then default [] (last labels)
  else
    let query_labels := length (labels_of current_zone) + 1 in
    if length labels <=? query_labels then name
    else join_on DOT (drop (length labels - query_labels) labels).

Definition delegation_zone (name : bytes) : bytes :=
  match split_once DOT name with Some (_, rest) => rest | None => name end.

(** ** One query *)

Definition auth_query (id : Z) (name : bytes) (qt : Z) : DnsPacket :=
  mkPacket (mkHeader id 16 1 0 0 1) [mkQuestion name qt 1] [] [] [DnsRecord.OPT EDNS_UDP_SIZE].

(** [DnsPacket::from_bytes(&buf).context(..)?] and the identifier check. *)
Definition parse_reply (id : Z) (buf : bytes) : res string DnsPacket :=
  match from_bytes buf with
  | Ok response =>
      if (h_id (header response) =? id)%Z then Ok response
      else Err "transaction ID mismatch"%string
  | Err _ => Err "failed to parse response"%string
  | Panic => Panic
  end.

Definition query_one `{Net} (name : bytes) (qt : Z) (server : SocketAddr)
    (rr : RecursiveResolver) (ev : nat) : res string DnsPacket * RecursiveResolver * nat :=
  let id := next_id rr in
  let rr := mkResolver (delegations rr) (as_u16 (id + 1)) in
  let query_bytes := to_bytes (auth_query id name qt) in
  if negb (net_connect ev server) then (Err "failed to connect"%string, rr, S ev)
  else if negb (net_send (S ev) server query_bytes) then (Err "failed to send query"%string, rr, S (S ev))
  else
    match net_recv (S (S ev)) server with
    | None => (Err "recursive query timed out"%string, rr, S (S (S ev)))
    | Some buf =>
        if tc_set buf then
          (resp ← tcp_query (S (S (S ev))) server query_bytes; parse_reply id resp,
           rr, S (S (S (S ev))))
        else (parse_reply id buf, rr, S (S (S ev)))
    end.

(** The servers in order, until one answers; [last_err] is the error returned
    when none does. *)
Fixpoint query_servers `{Net} (name : bytes) (qt : Z) (servers : list SocketAddr)
    (last_err : string) (rr : RecursiveResolver) (ev : nat)
    : res string DnsPacket * RecursiveResolver * nat :=
  match servers with
  | [] => (Err last_err, rr, ev)
  | server :: rest =>
      match query_one name qt server rr ev with
      | (Ok resp, rr', ev') => (Ok resp, rr', ev')
      | (Err e, rr', ev') => query_servers name qt rest e rr' ev'
      | (Panic, rr', ev') => (Panic, rr', ev')
      end
  end.

(** ** Delegations *)

Definition ns_of (r : DnsRecord.t) : option (bytes * Z) :=
  match r with DnsRecord.NS _ ns ttl => Some (ns, ttl) | _ => None end.

Definition is_ns_name (names : list bytes) (d : bytes) : bool :=
  existsb (fun ns => eq_ignore_ascii_case ns d) names.

(** The glue address of an additional record. *)
Definition glue (names : list bytes) (r : DnsRecord.t) : option SocketAddr :=
  match r with
  | DnsRecord.A d addr _ => if is_ns_name names d then Some (mkSocketAddr (V4 addr) 53) else None
  | DnsRecord.AAAA d addr _ => if is_ns_name names d then Some (mkSocketAddr (V6 addr) 53) else None
  | _ => None
  end.

(** The addresses of the cached, live delegations named like a name server. *)
Definition cached_addrs (now : Z) (rr : RecursiveResolver) (names : list bytes) : list SocketAddr :=
  concat ((fun ns => match delegations rr !! ns with
    | Some d => if is_expired now d then [] else ns_addrs d
    | None => [] end) <$> names).

Definition extract_delegation (now : Z) (rr : RecursiveResolver) (response : DnsPacket)
    : option Delegation :=
  let found := omap ns_of (authorities response) in
  let ns_ttl := foldl (fun m e => m `min` e.2)%Z 3600%Z found in
  let names := found.*1 in
  if bool_decide (names = []) then None
  else
    let addrs := omap (glue names) (additionals response) in
    let addrs := if bool_decide (addrs = []) then cached_addrs now rr names else addrs in
    if bool_decide (addrs = []) then None
    else Some (mkDelegation names addrs (now + from_secs ns_ttl)%Z).

(** ** Resolution *)

Definition synth_servfail (name : bytes) (qt id : Z) : bytes :=
  to_bytes (mkPacket (mkHeader id 33154 1 0 0 0) [mkQuestion name qt 1] [] [] []).

(** The identifier of the client, AA cleared, RA set. *)
Definition relay (client_id : Z) (resp : DnsPacket) : DnsPacket :=
  let h := header resp in
  mkPacket
    (mkHeader client_id (Z.lor (Z.land (h_flags h) 64511) 128) (h_questions h) (h_answers h)
       (h_authorities h) (h_additionals h))
    (questions resp) (answers resp) (authorities resp) (additionals resp).

(** The loop of [resolve], with [n] passes left before the depth limit. *)
Fixpoint resolve_loop `{Net, Clock} (n : nat) (name : bytes) (qt client_id : Z)
    (servers : list SocketAddr) (current_zone : bytes) (rr : RecursiveResolver) (ev : nat)
    : res string bytes * RecursiveResolver * nat :=
  match n with
  | 0 => (Ok (synth_servfail name qt client_id), rr, ev)
  | S n' =>
      let query_name := minimized_qname name current_zone in
      match query_servers query_name qt servers "no servers available"%string rr ev with
      | (Err _, rr, ev) => (Ok (synth_servfail name qt client_id), rr, ev)
      | (Panic, rr, ev) => (Panic, rr, ev)
      | (Ok response, rr, ev) =>
          let rcode := Z.land (h_flags (header response)) 15 in
          if negb (bool_decide (answers response = [])) || (rcode =? 3)%Z then
            if negb (bool_decide (query_name = name)) then
              resolve_loop n' name qt client_id root_servers [] rr ev
            else (Ok (to_bytes (relay client_id response)), rr, ev)
          else if (rcode =? 0)%Z then
            match extract_delegation (now_at ev) rr response with
            | Some d =>
                let zone := delegation_zone query_name in
                let rr := mkResolver (<[zone := d]> (delegations rr)) (next_id rr) in
                resolve_loop n' name qt client_id (ns_addrs d) zone rr ev
            | None =>
                if bool_decide (query_name = name) then
                  (Ok (to_bytes (relay client_id response)), rr, ev)
                else resolve_loop n' name qt client_id root_servers [] rr ev
            end
          else (Ok (to_bytes (relay client_id response)), rr, ev)
      end
  end.

Definition start_servers (now : Z) (parent : bytes) (rr : RecursiveResolver)
    : list SocketAddr * RecursiveResolver :=
  match delegations rr !! parent with
  | Some entry =>
      if is_expired now entry then
        (root_servers, mkResolver (delete parent (delegations rr)) (next_id rr))
      else (ns_addrs entry, rr)
  | None => (root_servers, rr)
  end.

Definition resolve `{Unicode, Net, Clock} (name : bytes) (qt client_id : Z)
    (rr : RecursiveResolver) (ev : nat) : res string bytes * RecursiveResolver * nat :=
  let name := trim_end_matches DOT (to_lowercase name) in
  let parent := match split_once DOT name with Some (_, p) => p | None => [] end in
  let '(servers, rr) := start_servers (now_at ev) parent rr in
  resolve_loop MAX_DELEGATION_DEPTH name qt client_id servers [] rr ev.

(** ** Lemmas on names *)

(** Non-empty labels without dots. *)
Definition clean (ls : list bytes) : Prop := Forall (fun l => l ≠ [] ∧ DOT ∉ l) ls.

Lemma labels_of_clean name : clean (labels_of name).
Proof.
  unfold clean, labels_of. pose proof (split_on_clean DOT name) as Hc.
  induction Hc as [|l ls Hl Hls IH]; [constructor|].
  rewrite filter_cons. case_decide; [by constructor|done].
Qed.

Lemma labels_of_join ls : clean ls → ls ≠ [] → labels_of (join_on DOT ls) = ls.
Proof.
  intros Hc Hne. unfold labels_of. rewrite split_join; [|done|].
  - induction Hc as [|l ls [Hl Hd] Hls IH]; [done|].
    rewrite filter_cons, decide_True by done. f_equal.
    destruct ls; [done|]. by apply IH.
  - eapply Forall_impl; [exact Hc|]. naive_solver.
Qed.

Lemma labels_of_single l : l ≠ [] → DOT ∉ l → labels_of l = [l].
Proof. intros. apply (labels_of_join [l]); [by repeat constructor|done]. Qed.

Lemma delegation_zone_join l ls : DOT ∉ l →
  delegation_zone (join_on DOT (l :: ls)) = if decide (ls = []) then l else join_on DOT ls.
Proof.
  intros Hl. unfold delegation_zone. case_decide as Hls.
  - subst. cbn. by rewrite (proj2 (split_once_None DOT l)).
  - rewrite join_on_cons by done.
    by rewrite (proj2 (split_once_Some DOT _ l (join_on DOT ls))).
Qed.

Lemma clean_drop n ls : clean ls → clean (drop n ls).
Proof. apply Forall_drop. Qed.

(** A zone of at most one label. *)
Definition short_zone (z : bytes) : Prop := z = [] ∨ (z ≠ [] ∧ DOT ∉ z).

Lemma last_drop_one {A} (l : list A) x : last l = Some x → drop (length l - 1) l = [x].
Proof.
  destruct l as [|y l _] using rev_ind; [done|]. rewrite last_snoc. intros [= ->].
  rewrite length_app. cbn. replace (length l + 1 - 1) with (length l) by lia.
  by rewrite drop_app_length.
Qed.

(** From a zone of at most one label, the minimized name of a longer name has one
    or two labels. *)
Lemma minimized_short name zone :
  3 ≤ length (labels_of name) → short_zone zone →
  ∃ ls, minimized_qname name zone = join_on DOT ls ∧ clean ls ∧ 1 ≤ length ls ≤ 2.
Proof.
  intros Hlen Hz. unfold minimized_qname. pose proof (labels_of_clean name) as Hc.
  destruct (Nat.eqb_spec (length (labels_of name)) 0) as [|_]; [lia|].
  case_bool_decide as Hzn.
  - destruct (last (labels_of name)) as [l|] eqn:Hl; [|apply last_None in Hl; rewrite Hl in Hlen; cbn in Hlen; lia].
    exists [l]. cbn. split_and!; [done| |lia|lia].
    apply last_drop_one in Hl. rewrite <- Hl. by apply clean_drop.
  - destruct Hz as [|[Hz1 Hz2]]; [done|]. rewrite (labels_of_single zone) by done. cbn [length Nat.add].
    destruct (Nat.leb_spec (length (labels_of name)) 2); [lia|].
    exists (drop (length (labels_of name) - 2) (labels_of name)).
    split_and!; [done|by apply clean_drop|rewrite length_drop; lia..].
Qed.

Lemma short_not_full name ls :
  3 ≤ length (labels_of name) → clean ls → 1 ≤ length ls ≤ 2 → join_on DOT ls ≠ name.
Proof.
  intros Hlen Hc Hl <-. rewrite labels_of_join in Hlen; [lia|done|].
  intros ->. cbn in Hl. lia.
Qed.

Lemma short_delegation_zone ls :
  clean ls → 1 ≤ length ls ≤ 2 → short_zone (delegation_zone (join_on DOT ls)).
Proof.
  unfold clean. intros Hc Hl. destruct ls as [|l [|l' [|??]]]; cbn in Hl; try lia;
    repeat match goal with H : Forall _ (_ :: _) |- _ => apply Forall_cons in H as [[??] ?] end;
    rewrite delegation_zone_join by done; case_decide; try done; by right.
Qed.

(** ** Lemmas on the resolution *)

Section Resolution.
Context `{Net, Clock}.

(** A response without answers whose code is neither NOERROR nor NXDOMAIN. *)
Definition failure_response (client_id : Z) (b : bytes) : Prop :=
  ∃ p, b = to_bytes p ∧ h_id (header p) = client_id ∧ answers p = [] ∧
    Z.land (h_flags (header p)) 15 ≠ 0%Z ∧ Z.land (h_flags (header p)) 15 ≠ 3%Z.

Lemma servfail_failure name qt id : failure_response id (synth_servfail name qt id).
Proof. eexists. split; [reflexivity|]. done. Qed.

Lemma relay_rcode f : Z.land (Z.lor (Z.land f 64511) 128) 15 = Z.land f 15.
Proof.
  rewrite Z.land_lor_distr_l, <- Z.land_assoc. change (Z.land 64511 15) with 15%Z.
  change (Z.land 128 15) with 0%Z. apply Z.lor_0_r.
Qed.

Lemma resolve_loop_short n name qt client_id servers zone rr ev r rr' ev' :
  3 ≤ length (labels_of name) → short_zone zone →
  resolve_loop n name qt client_id servers zone rr ev = (r, rr', ev') →
  r = Panic ∨ ∃ b, r = Ok b ∧ failure_response client_id b.
Proof.
  intros Hlen. revert servers zone rr ev.
  induction n as [|n IH]; intros servers zone rr ev Hz; cbn [resolve_loop].
  { intros. simplify_eq. right. eauto using servfail_failure. }
  destruct (query_servers _ _ _ _ rr ev) as [[q rr1] ev1].
  destruct q as [response|e|]; [|intros; simplify_eq; right; eauto using servfail_failure
                                |intros; simplify_eq; by left].
  destruct (minimized_short name zone Hlen Hz) as (ls & Hq & Hc & Hl). rewrite Hq.
  rewrite (bool_decide_false (join_on DOT ls = name)) by by apply short_not_full.
  cbn [negb]. destruct (negb (bool_decide (answers response = [])) || _) eqn:Hdef.
  { apply IH. by left. }
  apply orb_false_iff in Hdef as [Hans H3]. apply negb_false_iff, bool_decide_eq_true in Hans.
  apply Z.eqb_neq in H3. destruct (Z.eqb_spec (Z.land (h_flags (header response)) 15) 0) as [|Hne].
  - destruct (extract_delegation _ rr1 response) as [d|].
    + apply IH. by apply short_delegation_zone.
    + apply IH. by left.
  - intros. simplify_eq. right. eexists. split; [done|]. eexists. split; [done|].
    cbn. rewrite relay_rcode. done.
Qed.

(** Every response of the loop carries the client's identifier. *)
Lemma resolve_loop_id n name qt client_id servers zone rr ev r rr' ev' :
  resolve_loop n name qt client_id servers zone rr ev = (r, rr', ev') →
  r = Panic ∨ ∃ p, r = Ok (to_bytes p) ∧ h_id (header p) = client_id ∧
    (Z.testbit (h_flags (header p)) 10 = false ∧ Z.testbit (h_flags (header p)) 7 = true).
Proof.
  assert (∀ p, Z.testbit (h_flags (header (relay client_id p))) 10 = false ∧
    Z.testbit (h_flags (header (relay client_id p))) 7 = true) as Hrelay.
  { intros p. unfold relay. cbn [header h_flags]. rewrite !Z.lor_spec, !Z.land_spec.
    change (Z.testbit 64511 10) with false. change (Z.testbit 128 10) with false.
    change (Z.testbit 128 7) with true. by rewrite andb_false_r, orb_true_r. }
  revert servers zone rr ev.
  induction n as [|n IH]; intros servers zone rr ev; cbn [resolve_loop].
  { intros. simplify_eq. right. eexists. split; [reflexivity|]. done. }
  destruct (query_servers _ _ _ _ rr ev) as [[q rr1] ev1].
  destruct q as [response|e|].
  - destruct (_ || _); [destruct (negb _)|destruct (_ =? 0)%Z; [destruct (extract_delegation _ _ _)|]];
      try apply IH; try (destruct (bool_decide _); [|apply IH]);
      intros; simplify_eq; right; eexists; (split; [reflexivity|]); split; (done || apply Hrelay).
  - intros. simplify_eq. right. eexists. split; [reflexivity|]. done.
  - intros. simplify_eq. by left.
Qed.

(** A message some server sent, over UDP or TCP. *)
Definition received (b : bytes) : Prop :=
  ∃ ev server, net_recv ev server = Some b ∨ ∃ q, tcp_query ev server q = Ok b.

(** Some reply makes the packet parser panic. *)
Definition panicking_reply : Prop := ∃ b, received b ∧ from_bytes b = Panic.

Lemma parse_reply_panic id b : parse_reply id b = Panic → from_bytes b = Panic.
Proof. unfold parse_reply. destruct (from_bytes b) as [p|e|]; [by destruct (_ =? _)%Z|done|done]. Qed.

Lemma query_one_panic name qt server rr ev rr' ev' :
  query_one name qt server rr ev = (Panic, rr', ev') → panicking_reply.
Proof.
  unfold query_one. destruct (net_connect _ _); [|done]. destruct (net_send _ _ _); [|done]. cbn [negb].
  destruct (net_recv _ _) as [buf|] eqn:Hr; [|done]. destruct (tc_set buf).
  - destruct (tcp_query _ _ _) as [resp|e|] eqn:Ht; [|done|].
    + intros [= Hp%parse_reply_panic _ _]. exists resp. unfold received. eauto 6.
    + exfalso. unfold tcp_query in Ht. by destruct (net_tcp _ _ _); [destruct (read_frame _)|].
  - intros [= Hp%parse_reply_panic _ _]. exists buf. unfold received. eauto.
Qed.

Lemma query_servers_panic name qt servers e rr ev rr' ev' :
  query_servers name qt servers e rr ev = (Panic, rr', ev') → panicking_reply.
Proof.
  revert e rr ev. induction servers as [|server servers IH]; intros e rr ev; cbn [query_servers]; [done|].
  destruct (query_one name qt server rr ev) as [[q rr1] ev1] eqn:Hq. destruct q; [done|apply IH|].
  intros _. by eapply query_one_panic.
Qed.

Lemma resolve_loop_panic n name qt client_id servers zone rr ev rr' ev' :
  resolve_loop n name qt client_id servers zone rr ev = (Panic, rr', ev') → panicking_reply.
Proof.
  revert servers zone rr ev. induction n as [|n IH]; intros servers zone rr ev; cbn [resolve_loop]; [done|].
  destruct (query_servers _ _ _ _ rr ev) as [[q rr1] ev1] eqn:Hq. destruct q as [response|e|].
  - destruct (_ || _); [destruct (negb _); [apply IH|done]|].
    destruct (_ =? 0)%Z; [|done]. destruct (extract_delegation _ _ _); [apply IH|].
    destruct (bool_decide _); [done|apply IH].
  - done.
  - intros _. by eapply query_servers_panic.
Qed.

End Resolution.

(** ** Properties *)

Section Properties.
Context `{Unicode, Net, Clock}.

(** C37: resolution always ends, within [MAX_DELEGATION_DEPTH] passes, with a
    complete message for the client (never an error): it carries the client's
    identifier, AA clear and RA set. The one other outcome is a panic, which takes
    a server that sends bytes on which the packet parser panics. *)
Theorem resolve_responds (name : bytes) (qt client_id : Z) (rr : RecursiveResolver) (ev : nat) :
  ((resolve name qt client_id rr ev).1.1 = Panic ∧ panicking_reply) ∨
  ∃ p, (resolve name qt client_id rr ev).1.1 = Ok (to_bytes p) ∧ h_id (header p) = client_id ∧
    Z.testbit (h_flags (header p)) 10 = false ∧ Z.testbit (h_flags (header p)) 7 = true.
Proof.
  unfold resolve. destruct (start_servers _ _ rr) as [servers rr1].
  destruct (resolve_loop _ _ _ _ _ _ _ _) as [[r rr2] ev2] eqn:E.
  destruct (resolve_loop_id _ _ _ _ _ _ _ _ _ _ _ E) as [-> | Hp]; [left|by right].
  split; [done|]. by eapply resolve_loop_panic.
Qed.

(** C38: no name of three or more labels can ever be resolved: whatever the root
    and the authoritative servers answer, the result is a response without
    answers and with an error code, because the zone reached after a delegation
    is taken to be the parent of the queried name and so never grows past one
    label; the full name is never asked. *)
Theorem resolve_three_labels_fails (name : bytes) (qt client_id : Z)
    (rr : RecursiveResolver) (ev : nat) :
  3 ≤ length (labels_of (trim_end_matches DOT (to_lowercase name))) →
  (resolve name qt client_id rr ev).1.1 = Panic ∨
  ∃ b, (resolve name qt client_id rr ev).1.1 = Ok b ∧ failure_response client_id b.
Proof.
  intros Hlen. unfold resolve. destruct (start_servers _ _ rr) as [servers rr1].
  destruct (resolve_loop _ _ _ _ _ _ _ _) as [[r rr2] ev2] eqn:E.
  eapply resolve_loop_short in E; [done|done|by left].
Qed.

(** QNAME minimization asks for one label more than the current zone has,
    taken from the right, and for the full name once that covers it; the name
    asked is always an ancestor of the name (or the name itself). *)
Theorem minimized_qname_spec (ls zs : list bytes) :
  clean ls → clean zs → ls ≠ [] →
  minimized_qname (join_on DOT ls) (join_on DOT zs) =
    join_on DOT (drop (length ls - (length zs + 1)) ls).
Proof.
  intros Hl Hz Hne. unfold minimized_qname. rewrite labels_of_join by done.
  destruct (Nat.eqb_spec (length ls) 0) as [Hl0|_]; [by destruct ls|].
  case_bool_decide as Hzn.
  - assert (zs = []) as ->.
    { destruct zs as [|z zs]; [done|]. apply Forall_cons in Hz as [[Hz _] _].
      destruct zs; cbn in Hzn; [done|]. by destruct z. }
    cbn [length Nat.add]. destruct (last ls) as [l|] eqn:Hlast; [|by apply last_None in Hlast].
    by rewrite (last_drop_one _ _ Hlast).
  - assert (zs ≠ []) as Hzs by (intros ->; done). rewrite labels_of_join by done.
    destruct (Nat.leb_spec (length ls) (length zs + 1)); [|done].
    by replace (length ls - (length zs + 1)) with 0 by lia.
Qed.

(** A delegation is followed only to servers it vouches for: every address
    is at port 53 and is glue for one of the listed name servers, or comes from a
    live cached delegation of that name; and it is kept no longer than the
    smallest TTL of its NS records, and an hour at most. *)
Theorem extract_delegation_sound (now : Z) (rr : RecursiveResolver) (p : DnsPacket) (d : Delegation) :
  extract_delegation now rr p = Some d →
  ns_names d ≠ [] ∧ ns_addrs d ≠ [] ∧
  (∀ a, a ∈ ns_addrs d →
    (∃ r, r ∈ additionals p ∧ glue (ns_names d) r = Some a ∧ sa_port a = 53%Z) ∨
    (∃ ns d', ns ∈ ns_names d ∧ delegations rr !! ns = Some d' ∧ (now < d_expires_at d')%Z ∧
       a ∈ ns_addrs d')) ∧
  (∀ o ns ttl, DnsRecord.NS o ns ttl ∈ authorities p →
    ns ∈ ns_names d ∧ (d_expires_at d <= now + from_secs (ttl `min` 3600))%Z).
Proof.
  unfold extract_delegation. set (found := omap ns_of (authorities p)).
  case_bool_decide as Hn; [done|]. set (g := omap _ _).
  case_bool_decide as Ha; [done|]. intros [= <-]. cbn. split_and!; [done|done| |].
  - intros a Hin. case_bool_decide.
    + right. apply list_elem_of_In, in_concat in Hin as (l & Hl & Hin).
      apply list_elem_of_In, list_elem_of_fmap in Hl as (ns & -> & Hns).
      destruct (delegations rr !! ns) as [d'|] eqn:Hd; [|done].
      unfold is_expired in Hin. destruct (Z.leb_spec (d_expires_at d') now); [done|].
      exists ns, d'. split_and!; try done. by apply list_elem_of_In.
    + left. apply list_elem_of_omap in Hin as (r & Hr & Hg). exists r. split_and!; [done..|].
      unfold glue in Hg. repeat case_match; by simplify_eq.
  - intros o ns ttl Hr.
    assert ((ns, ttl) ∈ found) as Hf by (apply list_elem_of_omap; eauto).
    split; [apply list_elem_of_fmap; exists (ns, ttl); done|].
    unfold from_secs. enough (foldl (fun m e => m `min` e.2) 3600 found <= ttl `min` 3600)%Z by lia.
    assert (∀ (l : list (bytes * Z)) m, foldl (fun m e => m `min` e.2)%Z m l <= m)%Z as Hmono.
    { induction l as [|e l IHl]; intros m; cbn; [lia|]. specialize (IHl (m `min` e.2)%Z). lia. }
    assert (∀ (l : list (bytes * Z)) m, (ns, ttl) ∈ l → foldl (fun m e => m `min` e.2)%Z m l <= ttl)%Z as Hle.
    { induction l as [|e l IHl]; intros m; [set_solver|]. cbn. intros [<-|Hi]%elem_of_cons; [|auto].
      cbn. specialize (Hmono l (m `min` ttl)%Z). lia. }
    specialize (Hmono found 3600%Z). specialize (Hle found 3600%Z Hf). lia.
Qed.

End Properties.

(** ** A well-behaved internet, for the witnesses

    The root delegates [com], [com] delegates [example.com], whose server answers;
    the three replies come at the receive events of the first three queries. *)
Definition referral (id : Z) (zone ns : bytes) (addr : bytes) : DnsPacket :=
  mkPacket (mkHeader id 32768 0 0 1 1) [] []
    [DnsRecord.NS zone ns 172800] [DnsRecord.A ns addr 172800].

Definition example_answer : DnsRecord.t := DnsRecord.A (str "example.com") [192; 0; 2; 1]%Z 300.

Definition honest_net : Net := {|
  net_connect := fun _ _ => true;
  net_send := fun _ _ _ => true;
  net_recv := fun ev _ =>
    match ev with
    | 2 => Some (to_bytes (referral 1 (str "com") (str "a.gtld.net") [192; 5; 6; 30]%Z))
    | 5 => Some (to_bytes (referral 2 (str "example.com") (str "ns.example.com") [192; 0; 2; 53]%Z))
    | 8 => Some (to_bytes (mkPacket (mkHeader 3 33792 0 1 0 0) [] [example_answer] [] []))
    | _ => None
    end;
  net_tcp := fun _ _ _ => None;
|}.

Definition still_clock : Clock := fun _ => 0%Z.

(** On this internet a name of two labels resolves to its address. *)
Example two_labels_resolve :
  ∃ p, (@resolve ascii_unicode honest_net still_clock (str "Example.com.") 1 7 new_resolver 0).1.1
    = Ok (to_bytes p) ∧ answers p = [example_answer].
Proof.
  exists (mkPacket (mkHeader 7 32896 0 1 0 0) [] [example_answer] [] []).
  split; [vm_compute; reflexivity|reflexivity].
Qed.

(** And a name below it does not, although every server answered as it should. *)
Lemma resolve_three_labels_fails_witness :
  (@resolve ascii_unicode honest_net still_clock (str "www.example.com") 1 7 new_resolver 0).1.1
    = Ok (synth_servfail (str "www.example.com") 1 7) ∧
  ∃ b, (@resolve ascii_unicode honest_net still_clock (str "www.example.com") 1 7 new_resolver 0).1.1
    = Ok b ∧ failure_response 7 b.
Proof.
  assert ((@resolve ascii_unicode honest_net still_clock (str "www.example.com") 1 7
    new_resolver 0).1.1 = Ok (synth_servfail (str "www.example.com") 1 7)) as Hr
    by (vm_compute; reflexivity).
  split; [exact Hr|].
  destruct (@resolve_three_labels_fails ascii_unicode honest_net still_clock
    (str "www.example.com") 1 7 new_resolver 0) as [Hp|Hok].
  - apply Nat.leb_le. vm_compute. reflexivity.
  - rewrite Hr in Hp. discriminate.
  - exact Hok.
Defined.

Lemma minimized_qname_spec_witness :
  minimized_qname (join_on DOT [str "a"; str "b"; str "c"]) (join_on DOT [str "c"]) =
    join_on DOT [str "b"; str "c"].
Proof.
  rewrite (minimized_qname_spec [str "a"; str "b"; str "c"] [str "c"]);
    [vm_compute; reflexivity|..|discriminate];
    repeat (constructor; [split; [discriminate|apply split_once_None; vm_compute; reflexivity]|]);
    constructor.
Defined.

Lemma extract_delegation_sound_witness :
  ∃ d, extract_delegation 0 new_resolver
      (referral 1 (str "com") (str "a.gtld.net") [192; 5; 6; 30]%Z) = Some d ∧
    (d_expires_at d <= 0 + from_secs (172800 `min` 3600))%Z.
Proof.
  eexists. split; [vm_compute; reflexivity|].
  destruct (extract_delegation_sound 0 new_resolver
    (referral 1 (str "com") (str "a.gtld.net") [192; 5; 6; 30]%Z) _ eq_refl) as (_ & _ & _ & H).
  apply (H (str "com") (str "a.gtld.net") 172800%Z). vm_compute. constructor.
Defined.
