(* ===== verification/Delegations.v ===== *)
(** * The delegation table of the iterative resolver

    [Recursive] models one resolution of [src/src/recursive.rs]. Many run at once:
    the semaphore bounds them, and they share the table of delegations and the counter
    of identifiers. Here a call of [RecursiveResolver::resolve] is a task whose stages
    are separated by the points where it gives up control or touches a shared
    object: every operation on the table is one step, replies of the network are
    free, a future may be dropped at any point, and a panic of the packet parser ends
    its task.

    Shown: the bound on resolutions, that only root servers and servers vouched for
    by glue are ever asked, however the tasks interleave, that a resolution run
    alone is [Recursive.resolve]; and what the table's keys get wrong. *)

From S2P Require Import Prelude RustStd TextParse Message Packet Encoder Cache Net Recursive.

(** The permits of [RecursiveResolver::new]. *)
Definition MAX_CONCURRENT : nat := 128.

(** The arguments of a call, the name in lower case without final dots. *)
Record call := mkCall { c_name : bytes; c_type : Z; c_client : Z }.

Definition parent_of (name : bytes) : bytes :=
  match split_once DOT name with Some (_, p) => p | None => [] end.

(** Where a call is: before the permit; with it, before the lookup of the parent's
    entry; between dropping an expired entry and removing it; asking [servers] about a name
    under [zone], with [passes] passes left before the depth limit; looking up the addresses of the
    name servers left in [todo] for the referral [reply]; about to store a delegation; with its
    result, before the permit is given back; over, with a result or without. *)
Inductive stage :=
| Waiting
| Permitted
| Expired
| Asking (passes : nat) (servers : list SocketAddr) (zone : bytes)
| Gathering (passes : nat) (zone : bytes) (reply : DnsPacket) (todo : list bytes) (addrs : list SocketAddr)
| Storing (passes : nat) (zone : bytes) (d : Delegation)
| Leaving (reply : bytes)
| Over (result : option bytes).

Definition holds_permit (c : call * stage) : bool :=
  match c.2 with Waiting | Over _ => false | _ => true end.

(** ** One reply *)

(** The names and the smallest TTL of the NS records of a referral. *)
Definition referral_names (p : DnsPacket) : list bytes := (omap ns_of (authorities p)).*1.
Definition referral_ttl (p : DnsPacket) : Z :=
  foldl (fun m e => m `min` e.2)%Z 3600%Z (omap ns_of (authorities p)).
Definition referral_glue (p : DnsPacket) : list SocketAddr := omap (glue (referral_names p)) (additionals p).
Definition delegation_of (now : Z) (p : DnsPacket) (addrs : list SocketAddr) : Delegation :=
  mkDelegation (referral_names p) addrs (now + from_secs (referral_ttl p))%Z.

(** A reply without answers that delegates nowhere. *)
Definition no_delegation (c : call) (passes : nat) (zone : bytes) (p : DnsPacket) : stage :=
  if bool_decide (minimized_qname (c_name c) zone = c_name c) then Leaving (to_bytes (relay (c_client c) p))
  else Asking passes root_servers [].

(** The addresses of a referral are complete. *)
Definition on_gathered (now : Z) (c : call) (passes : nat) (zone : bytes) (p : DnsPacket)
    (addrs : list SocketAddr) : stage :=
  if bool_decide (addrs = []) then no_delegation c passes zone p
  else Storing passes (delegation_zone (minimized_qname (c_name c) zone)) (delegation_of now p addrs).

(** A pass of the loop once a server has answered. *)
Definition on_reply (now : Z) (c : call) (passes : nat) (zone : bytes) (p : DnsPacket) : stage :=
  let rcode := Z.land (h_flags (header p)) 15 in
  if negb (bool_decide (answers p = [])) || (rcode =? 3)%Z then
    if negb (bool_decide (minimized_qname (c_name c) zone = c_name c)) then Asking passes root_servers []
    else Leaving (to_bytes (relay (c_client c) p))
  else if (rcode =? 0)%Z then
    if bool_decide (referral_names p = []) then no_delegation c passes zone p
    else if bool_decide (referral_glue p = []) then Gathering passes zone p (referral_names p) []
    else on_gathered now c passes zone p (referral_glue p)
  else Leaving (to_bytes (relay (c_client c) p)).

(** The live addresses the table has for a name server. *)
Definition live_addrs (now : Z) (rr : RecursiveResolver) (ns : bytes) : list SocketAddr :=
  match delegations rr !! ns with
  | Some d => if is_expired now d then [] else ns_addrs d
  | None => []
  end.

(** ** The system

    The permits, the resolver, the clock and the calls; with the replies that were
    received and the servers that were asked, which no step reads. *)

Record sys := mkSys {
  permits : nat;
  table : RecursiveResolver;
  clock : Z;
  replies : list DnsPacket;
  asked : list SocketAddr;
  calls : gmap nat (call * stage);
}.

Definition start (rr : RecursiveResolver) (now : Z) : sys := mkSys MAX_CONCURRENT rr now [] [] ∅.

Definition set_call (i : nat) (c : call) (st : stage) (g : sys) : sys :=
  mkSys (permits g) (table g) (clock g) (replies g) (asked g) (<[i := (c, st)]> (calls g)).
Definition set_table (t : RecursiveResolver) (g : sys) : sys :=
  mkSys (permits g) t (clock g) (replies g) (asked g) (calls g).
Definition set_permits (n : nat) (g : sys) : sys :=
  mkSys n (table g) (clock g) (replies g) (asked g) (calls g).
Definition log_reply (p : DnsPacket) (g : sys) : sys :=
  mkSys (permits g) (table g) (clock g) (p :: replies g) (asked g) (calls g).
Definition log_query (a : SocketAddr) (g : sys) : sys :=
  mkSys (permits g) (table g) (clock g) (replies g) (a :: asked g) (calls g).

Inductive step (g : sys) : sys → Prop :=
| Call i c : calls g !! i = None → step g (set_call i c Waiting g)
| Acquire i c n :
    calls g !! i = Some (c, Waiting) → permits g = S n → step g (set_call i c Permitted (set_permits n g))
(** [self.delegations.get(parent)]. *)
| Lookup_hit i c d :
    calls g !! i = Some (c, Permitted) → delegations (table g) !! parent_of (c_name c) = Some d →
    is_expired (clock g) d = false →
    step g (set_call i c (Asking MAX_DELEGATION_DEPTH (ns_addrs d) []) g)
| Lookup_miss i c :
    calls g !! i = Some (c, Permitted) → delegations (table g) !! parent_of (c_name c) = None →
    step g (set_call i c (Asking MAX_DELEGATION_DEPTH root_servers []) g)
| Lookup_expired i c d :
    calls g !! i = Some (c, Permitted) → delegations (table g) !! parent_of (c_name c) = Some d →
    is_expired (clock g) d = true → step g (set_call i c Expired g)
(** [self.delegations.remove(parent)]. *)
| Remove i c :
    calls g !! i = Some (c, Expired) →
    step g (set_call i c (Asking MAX_DELEGATION_DEPTH root_servers [])
      (set_table (mkResolver (delete (parent_of (c_name c)) (delegations (table g))) (next_id (table g))) g))
(** [query_one]: an identifier is taken, a query sent to a server of the list. *)
| Send i c passes servers zone server :
    calls g !! i = Some (c, Asking (S passes) servers zone) → server ∈ servers →
    step g (set_table (mkResolver (delegations (table g)) (as_u16 (next_id (table g) + 1))) (log_query server g))
| Reply i c passes servers zone p :
    calls g !! i = Some (c, Asking (S passes) servers zone) →
    step g (set_call i c (on_reply (clock g) c passes zone p) (log_reply p g))
(** Every server failed, or the depth limit. *)
| No_reply i c passes servers zone :
    calls g !! i = Some (c, Asking passes servers zone) →
    step g (set_call i c (Leaving (synth_servfail (c_name c) (c_type c) (c_client c))) g)
(** [self.delegations.get(ns)], for each name server of a referral without glue. *)
| Gather i c passes zone p ns todo addrs :
    calls g !! i = Some (c, Gathering passes zone p (ns :: todo) addrs) →
    step g (set_call i c (Gathering passes zone p todo (addrs ++ live_addrs (clock g) (table g) ns)) g)
| Gathered i c passes zone p addrs :
    calls g !! i = Some (c, Gathering passes zone p [] addrs) →
    step g (set_call i c (on_gathered (clock g) c passes zone p addrs) g)
(** [self.delegations.insert(zone, delegation)]. *)
| Store i c passes zone d :
    calls g !! i = Some (c, Storing passes zone d) →
    step g (set_call i c (Asking passes (ns_addrs d) zone)
      (set_table (mkResolver (<[zone := d]> (delegations (table g))) (next_id (table g))) g))
(** The end of the call; the permit is dropped last. *)
| Leave i c r :
    calls g !! i = Some (c, Leaving r) → step g (set_call i c (Over (Some r)) (set_permits (S (permits g)) g))
| Cancel_waiting i c : calls g !! i = Some (c, Waiting) → step g (set_call i c (Over None) g)
| Cancel i c st :
    calls g !! i = Some (c, st) → holds_permit (c, st) = true →
    step g (set_call i c (Over None) (set_permits (S (permits g)) g))
| Tick t : (clock g <= t)%Z → step g (mkSys (permits g) (table g) t (replies g) (asked g) (calls g)).

(** ** Invariants *)

Definition in_flight (g : sys) : nat := count_vals holds_permit (calls g).

(** Permits are neither lost nor made. *)
Lemma permits_step g g' : step g g' → permits g' + in_flight g' = permits g + in_flight g.
Proof.
  intros Hs. unfold in_flight.
  destruct Hs; cbn [set_call set_table set_permits log_reply log_query permits calls];
    try match goal with
    | E : calls g !! ?i = None |- context [<[?i := ?x]> (calls g)] =>
        rewrite (count_vals_insert_None holds_permit _ i x E)
    | E : calls g !! ?i = Some ?y |- context [<[?i := ?x]> (calls g)] =>
        pose proof (count_vals_insert holds_permit (calls g) i x y E)
    end;
    unfold on_reply, on_gathered, no_delegation in *; cbv zeta in *; repeat case_match;
    cbn [Nat.b2n holds_permit snd] in *; try (destruct st; try discriminate; cbn in * ); try lia.
Qed.

(** The packet gives [a] as glue: an address record of its additional section with that
    address, whose owner is (up to case) a name server of its authority section. *)
Definition gives_glue (p : DnsPacket) (a : SocketAddr) : Prop :=
  ∃ zone ns ttl owner addr ttl',
    DnsRecord.NS zone ns ttl ∈ authorities p ∧ eq_ignore_ascii_case ns owner = true ∧
    (DnsRecord.A owner addr ttl' ∈ additionals p ∧ a = mkSocketAddr (V4 addr) 53 ∨
     DnsRecord.AAAA owner addr ttl' ∈ additionals p ∧ a = mkSocketAddr (V6 addr) 53).

(** An address a query may go to: a root server's, or one that a reply gave as glue for
    a name server it listed. *)
Definition vouched (ps : list DnsPacket) (a : SocketAddr) : Prop :=
  a ∈ root_servers ∨ ∃ p, p ∈ ps ∧ gives_glue p a.

Lemma listed_name p ns : ns ∈ referral_names p ↔ ∃ zone ttl, DnsRecord.NS zone ns ttl ∈ authorities p.
Proof.
  unfold referral_names. rewrite list_elem_of_fmap. setoid_rewrite list_elem_of_omap. split.
  - intros ([ns' ttl] & -> & r & Hr & Hn). destruct r; try done. injection Hn as -> ->. eauto.
  - intros (zone & ttl & Hr). exists (ns, ttl). eauto.
Qed.

(** The glue of a referral is exactly what it gives. *)
Lemma elem_of_glue p a : a ∈ referral_glue p ↔ gives_glue p a.
Proof.
  assert (∀ owner, is_ns_name (referral_names p) owner = true ↔
    ∃ zone ns ttl, DnsRecord.NS zone ns ttl ∈ authorities p ∧ eq_ignore_ascii_case ns owner = true) as Hn.
  { intros owner. unfold is_ns_name. rewrite existsb_exists. setoid_rewrite <- list_elem_of_In.
    setoid_rewrite listed_name. naive_solver. }
  unfold referral_glue, gives_glue. rewrite list_elem_of_omap. split.
  - intros (r & Hr & Hg). destruct r; try done; cbn in Hg;
      (destruct (is_ns_name _ _) eqn:Ho; [|done]); injection Hg as <-; apply Hn in Ho as (zone & ns & ttl' & Hz & He);
      eexists zone, ns, ttl', _, _, _; eauto.
  - intros (zone & ns & ttl & owner & addr & ttl' & Hz & He & Hr).
    assert (is_ns_name (referral_names p) owner = true) as Ho by (apply Hn; eauto 10).
    destruct Hr as [[Hr ->]|[Hr ->]]; (eexists; split; [exact Hr|]); cbn; by rewrite Ho.
Qed.

(** A delegation with addresses, all vouched for, that lives an hour at most. *)
Definition delegation_ok (ps : list DnsPacket) (now : Z) (d : Delegation) : Prop :=
  ns_addrs d ≠ [] ∧ Forall (vouched ps) (ns_addrs d) ∧ (d_expires_at d <= now + from_secs 3600)%Z.

Definition stage_ok (ps : list DnsPacket) (now : Z) (c : call * stage) : Prop :=
  match c.2 with
  | Asking passes servers _ => passes ≤ MAX_DELEGATION_DEPTH ∧ Forall (vouched ps) servers
  | Gathering passes _ p _ addrs => passes < MAX_DELEGATION_DEPTH ∧ p ∈ ps ∧ Forall (vouched ps) addrs
  | Storing passes _ d => passes < MAX_DELEGATION_DEPTH ∧ delegation_ok ps now d
  | _ => True
  end.

Record Inv (g : sys) : Prop := {
  inv_table : map_Forall (fun _ => delegation_ok (replies g) (clock g)) (delegations (table g));
  inv_calls : map_Forall (fun _ => stage_ok (replies g) (clock g)) (calls g);
  inv_asked : Forall (vouched (replies g)) (asked g);
}.

Lemma vouched_mono ps ps' l : ps ⊆ ps' → Forall (vouched ps) l → Forall (vouched ps') l.
Proof. intros Hs Hl. eapply Forall_impl; [exact Hl|]. intros a [?|(p & Hp & ?)]; [by left|right; eauto]. Qed.

Lemma delegation_ok_mono ps ps' now now' d :
  ps ⊆ ps' → (now <= now')%Z → delegation_ok ps now d → delegation_ok ps' now' d.
Proof. intros Hs Ht (? & ? & ?). split_and!; [done|by eapply vouched_mono|lia]. Qed.

Lemma stage_ok_mono ps ps' now now' c :
  ps ⊆ ps' → (now <= now')%Z → stage_ok ps now c → stage_ok ps' now' c.
Proof.
  intros Hs Ht. unfold stage_ok. destruct c.2; try done.
  - intros [? ?]. split; [done|by eapply vouched_mono].
  - intros (? & ? & ?). split_and!; [done|by apply Hs|by eapply vouched_mono].
  - intros [? ?]. split; [done|by eapply delegation_ok_mono].
Qed.

Lemma referral_ttl_hour p : (referral_ttl p <= 3600)%Z.
Proof.
  unfold referral_ttl. generalize (omap ns_of (authorities p)) as l.
  assert (∀ (l : list (bytes * Z)) m, foldl (fun m e => m `min` e.2)%Z m l <= m)%Z as Hm; [|intros l; apply Hm].
  induction l as [|e l IH]; intros m; cbn; [lia|]. specialize (IH (m `min` e.2)%Z). lia.
Qed.

Lemma roots_vouched ps : Forall (vouched ps) root_servers.
Proof. apply Forall_forall. intros a Ha. by left. Qed.

Lemma glue_vouched p ps : p ∈ ps → Forall (vouched ps) (referral_glue p).
Proof. intros Hp. apply Forall_forall. intros a Ha%elem_of_glue. right. eauto. Qed.

Lemma no_delegation_ok ps now c left zone p :
  left < MAX_DELEGATION_DEPTH → stage_ok ps now (c, no_delegation c left zone p).
Proof.
  intros Hl. unfold no_delegation. case_bool_decide; [done|]. split; [lia|apply roots_vouched].
Qed.

Lemma on_gathered_ok ps now c left zone p addrs :
  left < MAX_DELEGATION_DEPTH → Forall (vouched ps) addrs → stage_ok ps now (c, on_gathered now c left zone p addrs).
Proof.
  intros Hl Ha. unfold on_gathered. case_bool_decide; [by apply no_delegation_ok|]. split; [done|].
  split_and!; [done..|]. cbn. pose proof (referral_ttl_hour p). unfold from_secs. lia.
Qed.

Lemma on_reply_ok ps now c left zone p :
  left < MAX_DELEGATION_DEPTH → p ∈ ps → stage_ok ps now (c, on_reply now c left zone p).
Proof.
  intros Hl Hp. unfold on_reply. cbv zeta. destruct (_ || _).
  { destruct (negb _); [split; [lia|apply roots_vouched]|done]. }
  destruct (_ =? 0)%Z; [|done]. case_bool_decide; [by apply no_delegation_ok|].
  case_bool_decide; [by split_and!|]. apply on_gathered_ok; [done|by apply glue_vouched].
Qed.

(** More replies and a later time. *)
Lemma Inv_mono g ps now n :
  Inv g → replies g ⊆ ps → (clock g <= now)%Z → Inv (mkSys n (table g) now ps (asked g) (calls g)).
Proof.
  intros [Ht Hc Ha] Hs Hn. split; cbn; [| |by eapply vouched_mono];
    (eapply map_Forall_impl; [done|]); cbn; intros k x;
    [apply delegation_ok_mono|apply stage_ok_mono]; done.
Qed.

(** A step of one call that leaves the table alone. *)
Lemma Inv_call g i c st n :
  Inv g → stage_ok (replies g) (clock g) (c, st) →
  Inv (mkSys n (table g) (clock g) (replies g) (asked g) (<[i := (c, st)]> (calls g))).
Proof. intros [Ht Hc Ha] Hst. split; [done| |done]. by apply map_Forall_insert_2. Qed.

(** The table changes to one that is as good. *)
Lemma Inv_table g t :
  Inv g → map_Forall (fun _ => delegation_ok (replies g) (clock g)) (delegations t) → Inv (set_table t g).
Proof. intros [Ht Hc Ha] Hn. by split. Qed.

Lemma live_vouched ps now rr ns :
  map_Forall (fun _ => delegation_ok ps now) (delegations rr) → Forall (vouched ps) (live_addrs now rr ns).
Proof.
  intros Ht. unfold live_addrs. destruct (delegations rr !! ns) as [d|] eqn:Hd; [|constructor].
  destruct (is_expired now d); [constructor|]. apply Ht in Hd. apply Hd.
Qed.

Lemma resolver_step_inv g g' : step g g' → Inv g → Inv g'.
Proof.
  intros Hs Hi. pose proof (inv_table g Hi) as Ht. pose proof (inv_calls g Hi) as Hc.
  destruct Hs;
    try match goal with E : calls g !! _ = Some _ |- _ => pose proof (Hc _ _ E) as Hst; cbn in Hst end;
    try (by apply (Inv_call g)).
  - apply Inv_call; [done|]. split; [lia|]. by apply Ht in H0 as (_ & ? & _).
  - apply Inv_call; [done|]. split; [lia|apply roots_vouched].
  - apply (Inv_call (set_table _ g)); [|by split; [lia|apply roots_vouched]].
    apply Inv_table; [done|]. by apply map_Forall_delete.
  - destruct Hst as [_ Hv]. apply (Inv_table (log_query server g)); [|done]. destruct Hi. split; [done..|].
    constructor; [|done]. by eapply Forall_forall in Hv.
  - destruct Hst as [Hl _]. apply (Inv_call (log_reply p g)); [|apply on_reply_ok; [lia|by left]].
    apply (Inv_mono g); [done|by apply list_subseteq_cons|done].
  - destruct Hst as (? & ? & ?). apply Inv_call; [done|]. split_and!; [done..|].
    apply Forall_app. split; [done|by apply live_vouched].
  - destruct Hst as (? & ? & ?). apply Inv_call; [done|]. by apply on_gathered_ok.
  - destruct Hst as [Hl Hd]. apply (Inv_call (set_table _ g)); [|by split; [lia|apply Hd]].
    apply Inv_table; [done|]. by apply map_Forall_insert_2.
  - by apply (Inv_mono g).
Qed.

(** ** What every interleaving keeps *)

Lemma resolver_reachable rr now g :
  rtc step (start rr now) g → delegations rr = ∅ → Inv g ∧ permits g + in_flight g = MAX_CONCURRENT.
Proof.
  intros Hr He. remember (start rr now) as g0 eqn:E.
  assert (Inv g0 ∧ permits g0 + in_flight g0 = MAX_CONCURRENT) as H0.
  { subst g0. split; [|done]. split; cbn; [rewrite He| |constructor]; apply map_Forall_empty. }
  clear E. induction Hr as [g|g g1 g2 Hs _ IH]; [done|]. destruct H0 as [Hi Hp]. apply IH. split.
  - by eapply resolver_step_inv.
  - rewrite <- Hp. by apply permits_step.
Qed.


(** Queries take identifiers and leave the delegations. *)
Lemma query_one_state {net : Net} name qt server rr ev q rr' ev' :
  query_one name qt server rr ev = (q, rr', ev') →
  rr' = mkResolver (delegations rr) (as_u16 (next_id rr + 1)) ∧ ev ≤ ev'.
Proof.
  unfold query_one. repeat case_match; intros; simplify_eq; (split; [done|lia]).
Qed.

Lemma query_servers_state {net : Net} name qt servers e rr ev q rr' ev' :
  query_servers name qt servers e rr ev = (q, rr', ev') → delegations rr' = delegations rr ∧ ev ≤ ev'.
Proof.
  revert e rr ev. induction servers as [|server servers IH]; intros e rr ev; cbn [query_servers].
  { intros. by simplify_eq. }
  destruct (query_one name qt server rr ev) as [[q1 rr1] ev1] eqn:Hq.
  apply query_one_state in Hq as [-> Hev]. destruct q1 as [p|e1|]; [intros; by simplify_eq| |intros; by simplify_eq].
  intros [-> ?]%IH. split; [done|lia].
Qed.

(** ** A resolution alone

    [Recursive.resolve] is a run of the system in which one call takes every step. *)

Section Alone.
Context {unicode : Unicode} {net : Net} {clk : Clock}.
Hypothesis now_mono : ∀ ev ev', ev ≤ ev' → (now_at ev <= now_at ev')%Z.

(** The queries of one pass. *)
Lemma run_queries name qt all passes zone c i servers e rr ev q rr' ev' g :
  query_servers name qt servers e rr ev = (q, rr', ev') →
  servers ⊆ all → calls g !! i = Some (c, Asking (S passes) all zone) → table g = rr →
  ∃ g', rtc step g g' ∧ calls g' = calls g ∧ permits g' = permits g ∧ clock g' = clock g ∧
    table g' = rr'.
Proof.
  revert e rr ev g. induction servers as [|server servers IH]; intros e rr ev g; cbn [query_servers].
  { intros [= <- <- <-] _ Hi Ht. exists g. by split_and!. }
  destruct (query_one name qt server rr ev) as [[q1 rr1] ev1] eqn:Hq.
  apply query_one_state in Hq as [Hrr _].
  intros Hrest Hsub Hi Ht.
  set (g1 := set_table rr1 (log_query server g)).
  assert (step g g1) as Hs.
  { unfold g1. rewrite Hrr, <- Ht. eapply Send; [done|]. apply Hsub. by left. }
  destruct q1 as [p|e1|].
  - simplify_eq. exists g1. by split_and!; [apply rtc_once|..].
  - destruct (IH e1 rr1 ev1 g1 Hrest) as (g' & Hr & Hc & Hp & Hk & Ht').
    { intros x Hx. apply Hsub. by right. } { done. } { done. }
    exists g'. by split_and!; [eapply rtc_l|..].
  - simplify_eq. exists g1. by split_and!; [apply rtc_once|..].
Qed.

(** Gathering the addresses of name servers without glue. *)
Lemma run_gather c i passes zone p names addrs g :
  calls g !! i = Some (c, Gathering passes zone p names addrs) →
  ∃ g', rtc step g g' ∧ calls g' = <[i := (c, on_gathered (clock g) c passes zone p
      (addrs ++ cached_addrs (clock g) (table g) names))]> (calls g) ∧
    permits g' = permits g ∧ clock g' = clock g ∧ table g' = table g.
Proof.
  revert addrs g. induction names as [|ns names IH]; intros addrs g Hi.
  - eexists. split_and!; [apply rtc_once; by eapply Gathered|..]; [|done..].
    cbn. by rewrite app_nil_r.
  - set (g1 := set_call i c (Gathering passes zone p names (addrs ++ live_addrs (clock g) (table g) ns)) g).
    destruct (IH (addrs ++ live_addrs (clock g) (table g) ns) g1) as (g' & Hr & Hc & Hp & Hk & Ht).
    { by simplify_map_eq. }
    exists g'. split_and!; [eapply rtc_l; [by eapply Gather|done]| |done..].
    rewrite Hc. cbn. rewrite insert_insert_eq. by rewrite <- app_assoc.
Qed.

(** What a call does after a reply, in one step of the sequential model. *)
Definition resume (now : Z) (rr : RecursiveResolver) (c : call) (passes : nat) (zone : bytes) (p : DnsPacket) : stage :=
  let rcode := Z.land (h_flags (header p)) 15 in
  if negb (bool_decide (answers p = [])) || (rcode =? 3)%Z then
    if negb (bool_decide (minimized_qname (c_name c) zone = c_name c)) then Asking passes root_servers []
    else Leaving (to_bytes (relay (c_client c) p))
  else if (rcode =? 0)%Z then
    match extract_delegation now rr p with
    | Some d => Storing passes (delegation_zone (minimized_qname (c_name c) zone)) d
    | None => no_delegation c passes zone p
    end
  else Leaving (to_bytes (relay (c_client c) p)).

Lemma resume_gathers now rr c passes zone p :
  on_reply now c passes zone p = resume now rr c passes zone p ∨
  on_reply now c passes zone p = Gathering passes zone p (referral_names p) [] ∧
  resume now rr c passes zone p = on_gathered now c passes zone p (cached_addrs now rr (referral_names p)).
Proof.
  unfold on_reply, resume. cbv zeta. destruct (_ || _); [by left|]. destruct (_ =? 0)%Z; [|by left].
  unfold extract_delegation. fold (referral_names p) (referral_ttl p) (referral_glue p).
  case_bool_decide; [by left|]. case_bool_decide; [right; split; [done|]|left];
    unfold on_gathered; by case_bool_decide.
Qed.

Lemma run_reply c i passes servers zone p g :
  calls g !! i = Some (c, Asking (S passes) servers zone) →
  ∃ g', rtc step g g' ∧ calls g' = <[i := (c, resume (clock g) (table g) c passes zone p)]> (calls g) ∧
    permits g' = permits g ∧ clock g' = clock g ∧ table g' = table g.
Proof.
  intros Hi. pose proof (Reply g i c passes servers zone p Hi) as Hs.
  destruct (resume_gathers (clock g) (table g) c passes zone p) as [E|[E Er]]; rewrite E in Hs.
  { eexists. by split_and!; [apply rtc_once|..]. }
  set (g1 := set_call _ _ _ _) in Hs.
  destruct (run_gather c i passes zone p (referral_names p) [] g1) as (g' & Hr & Hc & Hp & Hk & Ht).
  { apply lookup_insert_eq. }
  exists g'. split_and!; [by eapply rtc_l| |done..]. rewrite Er, Hc. cbn. by rewrite insert_insert_eq.
Qed.

(** The loop in terms of [resume]. *)
Lemma resolve_loop_resume n c servers zone rr ev p rr1 ev1 :
  query_servers (minimized_qname (c_name c) zone) (c_type c) servers "no servers available" rr ev = (Ok p, rr1, ev1) →
  resolve_loop (S n) (c_name c) (c_type c) (c_client c) servers zone rr ev =
    match resume (now_at ev1) rr1 c n zone p with
    | Asking n' servers' zone' => resolve_loop n' (c_name c) (c_type c) (c_client c) servers' zone' rr1 ev1
    | Storing n' zone' d =>
        resolve_loop n' (c_name c) (c_type c) (c_client c) (ns_addrs d) zone'
          (mkResolver (<[zone' := d]> (delegations rr1)) (next_id rr1)) ev1
    | Leaving r => (Ok r, rr1, ev1)
    | _ => (Panic, rr1, ev1)
    end.
Proof.
  intros Hq. cbn [resolve_loop]. rewrite Hq. unfold resume, no_delegation. cbv zeta. by repeat case_match; simplify_eq.
Qed.

Lemma resume_passes now rr c passes zone p :
  match resume now rr c passes zone p with
  | Asking n _ _ | Storing n _ _ => n = passes
  | _ => True
  end.
Proof. unfold resume, no_delegation. cbv zeta. by repeat case_match; simplify_eq. Qed.

(** The loop from a state where the call is about to ask. *)
Lemma run_loop n c i servers zone rr ev r rr' ev' g :
  resolve_loop n (c_name c) (c_type c) (c_client c) servers zone rr ev = (Ok r, rr', ev') →
  calls g !! i = Some (c, Asking n servers zone) → table g = rr → (clock g <= now_at ev)%Z →
  ∃ g', rtc step g g' ∧ calls g' = <[i := (c, Leaving r)]> (calls g) ∧ permits g' = permits g ∧ table g' = rr'.
Proof.
  revert servers zone rr ev g. induction n as [|n IH]; intros servers zone rr ev g; cbn [resolve_loop].
  { intros [= <- <- <-] Hi Ht Hk. eexists. split_and!; [apply rtc_once; by eapply No_reply|done..]. }
  destruct (query_servers _ _ _ _ rr ev) as [[q rr1] ev1] eqn:Hq.
  intros Hres Hi Ht Hk.
  destruct (run_queries _ _ servers _ _ _ _ _ _ _ _ _ _ _ g Hq ltac:(done) Hi Ht)
    as (g1 & Hr1 & Hc1 & Hp1 & Hk1 & Ht1).
  destruct (query_servers_state _ _ _ _ _ _ _ _ _ Hq) as [_ Hev1].
  rewrite <- Hc1 in Hi |- *. rewrite <- Hp1.
  destruct q as [p|e|]; [|simplify_eq|done].
  2:{ eexists. split_and!; [etrans; [exact Hr1|apply rtc_once; by eapply No_reply]|done..]. }
  pose proof (resolve_loop_resume n c servers zone rr ev p rr1 ev1 Hq) as Hl.
  cbn [resolve_loop] in Hl. rewrite Hq, Hres in Hl. symmetry in Hl. clear Hres.
  set (g2 := mkSys (permits g1) (table g1) (now_at ev1) (replies g1) (asked g1) (calls g1)).
  assert (rtc step g g2) as Hr2.
  { etrans; [exact Hr1|]. apply rtc_once, Tick. rewrite Hk1. specialize (now_mono ev ev1 Hev1). lia. }
  destruct (run_reply c i n servers zone p g2 Hi) as (g3 & Hr3 & Hc3 & Hp3 & Hk3 & Ht3).
  cbn in Hc3, Hp3, Hk3, Ht3. rewrite Ht1 in Hc3, Ht3.
  assert (rtc step g g3) as Hr by (by etrans). clear Hr1 Hr2 Hr3 g2.
  pose proof (resume_passes (now_at ev1) rr1 c n zone p) as Hn.
  destruct (resume _ _ _ _ _ _) as [| | |n' servers' zone'| |n' zone' d|r'|]; try done; try subst n'.
  - destruct (IH _ _ _ _ g3 Hl) as (g' & Hr' & Hc' & Hp' & Ht'); [by rewrite Hc3; simplify_map_eq|done|lia|].
    exists g'. split_and!; [by etrans| |congruence|done]. by rewrite Hc', Hc3, insert_insert_eq.
  - set (g4 := set_call i c (Asking n (ns_addrs d) zone')
      (set_table (mkResolver (<[zone' := d]> (delegations rr1)) (next_id rr1)) g3)).
    assert (step g3 g4) as Hs.
    { unfold g4. rewrite <- Ht3. apply Store. rewrite Hc3. by simplify_map_eq. }
    destruct (IH _ _ _ _ g4 Hl) as (g' & Hr' & Hc' & Hp' & Ht'); [by cbn; simplify_map_eq|done|cbn; lia|].
    exists g'. split_and!; [etrans; [done|by eapply rtc_l]| |cbn in Hp'; congruence|done].
    by rewrite Hc'; cbn; rewrite Hc3, !insert_insert_eq.
  - simplify_eq. exists g3. split_and!; [done|done|congruence|done].
Qed.

(** The lookup of the parent's entry. *)
Lemma run_start c i g servers rr :
  calls g !! i = Some (c, Permitted) → start_servers (clock g) (parent_of (c_name c)) (table g) = (servers, rr) →
  ∃ g', rtc step g g' ∧ calls g' = <[i := (c, Asking MAX_DELEGATION_DEPTH servers [])]> (calls g) ∧
    permits g' = permits g ∧ clock g' = clock g ∧ table g' = rr.
Proof.
  intros Hi. unfold start_servers. destruct (delegations (table g) !! parent_of (c_name c)) as [d|] eqn:Hd.
  - destruct (is_expired (clock g) d) eqn:He; intros [= <- <-].
    + eexists. split_and!; [eapply rtc_l; [by eapply Lookup_expired|]; apply rtc_once, Remove|..]; try done.
      * cbn. by simplify_map_eq.
      * cbn. by rewrite insert_insert_eq.
    + eexists. by split_and!; [apply rtc_once; eapply Lookup_hit|..].
  - intros [= <- <-]. eexists. by split_and!; [apply rtc_once; eapply Lookup_miss|..].
Qed.

(** A resolution that nothing interrupts behaves as [Recursive.resolve] says: from any
    state of the system with a free permit, the sequential result, the table and the
    counter it leaves are reached by steps of one new call, which gives its
    permit back and leaves the other calls as they were. *)
Theorem resolve_alone (name : bytes) (qt client_id : Z) (ev : nat) (g : sys) (i : nat)
    (r : bytes) (rr' : RecursiveResolver) (ev' : nat) :
  resolve name qt client_id (table g) ev = (Ok r, rr', ev') →
  calls g !! i = None → 0 < permits g → clock g = now_at ev →
  ∃ g', rtc step g g' ∧ table g' = rr' ∧ permits g' = permits g ∧
    calls g' = <[i := (mkCall (trim_end_matches DOT (to_lowercase name)) qt client_id, Over (Some r))]> (calls g).
Proof.
  unfold resolve. set (c := mkCall (trim_end_matches DOT (to_lowercase name)) qt client_id).
  change (match split_once DOT _ with Some _ => _ | None => _ end) with (parent_of (c_name c)).
  intros Hres Hi Hp Hk.
  destruct (permits g) as [|n] eqn:Hn; [lia|].
  set (g1 := set_call i c Permitted (set_permits n (set_call i c Waiting g))).
  assert (rtc step g g1) as Hr1.
  { eapply rtc_l; [by apply (Call g i c)|].
    apply rtc_once, (Acquire (set_call i c Waiting g)); [apply lookup_insert_eq|done]. }
  destruct (start_servers (now_at ev) (parent_of (c_name c)) (table g)) as [servers rr1] eqn:Hst.
  rewrite <- Hk in Hst.
  destruct (run_start c i g1 servers rr1) as (g2 & Hr2 & Hc2 & Hp2 & Hk2 & Ht2);
    [apply lookup_insert_eq|done|].
  destruct (run_loop _ c i servers [] rr1 ev r rr' ev' g2 Hres) as (g3 & Hr3 & Hc3 & Hp3 & Ht3);
    [rewrite Hc2; apply lookup_insert_eq|done|rewrite Hk2; change (clock g <= now_at ev)%Z; lia|].
  eexists. split_and!; [etrans; [exact Hr1|etrans; [exact Hr2|etrans; [exact Hr3|apply rtc_once, Leave]]]|..].
  - rewrite Hc3. apply lookup_insert_eq.
  - done.
  - change (S (permits g3) = S n). by rewrite Hp3, Hp2.
  - cbn. by rewrite Hc3, Hc2; cbn; rewrite !insert_insert_eq.
Qed.

End Alone.

(** ** The keys of the table

    [delegation_zone] takes the zone of a referral to be the parent of the name that
    was asked, so for a name [l.t] the referral of the root for [t] and the referral of
    [t] for [l.t] are both filed under [t]. *)

Section Keys.
Context {unicode : Unicode} {net : Net} {clk : Clock}.

(** The zones of a resolution of [l.t] with their minimized name and key. *)
Lemma two_labels l t zone :
  clean [l; t] → zone = [] ∨ zone = t →
  delegation_zone (minimized_qname (join_on DOT [l; t]) zone) = t ∧
  (minimized_qname (join_on DOT [l; t]) zone = join_on DOT [l; t] → zone = t).
Proof.
  unfold clean. intros Hc Hz. pose proof Hc as [[Hl Hld] [[Ht Htd] _]%Forall_cons]%Forall_cons.
  unfold minimized_qname. rewrite labels_of_join by done. cbn [length Nat.eqb].
  destruct Hz as [-> | ->].
  - rewrite bool_decide_true by done. cbn [last default]. split.
    + apply (delegation_zone_join t []). done.
    + intros E. exfalso. apply (f_equal length) in E. cbn in E. rewrite !length_app in E. cbn in E. lia.
  - rewrite bool_decide_false by done. rewrite labels_of_single by done. cbn [length Nat.leb Nat.add].
    split; [|done]. rewrite delegation_zone_join by done. by case_decide.
Qed.

(** From event [ev] on, whatever server [a] sends is a whole message without answers
    and with a code other than NOERROR and NXDOMAIN: REFUSED, say, as a server
    answers for a zone it does not serve. *)
Definition refuses (ev : nat) (a : SocketAddr) : Prop :=
  ∀ ev' b, ev ≤ ev' → net_recv ev' a = Some b → tc_set b = false ∧
    ∃ p, from_bytes b = Ok p ∧ answers p = [] ∧
      Z.land (h_flags (header p)) 15 ≠ 0%Z ∧ Z.land (h_flags (header p)) 15 ≠ 3%Z.

Lemma query_servers_refused name qt servers e rr ev ev0 q rr' ev' :
  Forall (refuses ev0) servers → ev0 ≤ ev →
  query_servers name qt servers e rr ev = (q, rr', ev') →
  (∃ e', q = Err e') ∨ ∃ p, q = Ok p ∧ answers p = [] ∧
    Z.land (h_flags (header p)) 15 ≠ 0%Z ∧ Z.land (h_flags (header p)) 15 ≠ 3%Z.
Proof.
  intros Hf. revert e rr ev. induction Hf as [|server servers Hr _ IH]; intros e rr ev Hev; cbn [query_servers].
  { intros. simplify_eq. eauto. }
  destruct (query_one name qt server rr ev) as [[q1 rr1] ev1] eqn:Hq.
  pose proof (query_one_state _ _ _ _ _ _ _ _ Hq) as [_ Hev1].
  unfold query_one in Hq. destruct (net_connect _ _); cbn [negb] in Hq; [|simplify_eq; apply IH; lia].
  destruct (net_send _ _ _); cbn [negb] in Hq; [|simplify_eq; apply IH; lia].
  destruct (net_recv _ _) as [b|] eqn:Hb; [|simplify_eq; apply IH; lia].
  apply Hr in Hb as (Htc & p & Hp & Hfail); [|lia]. rewrite Htc in Hq. unfold parse_reply in Hq. rewrite Hp in Hq.
  destruct (_ =? _)%Z; simplify_eq; [|apply IH; lia]. intros. simplify_eq. eauto.
Qed.

Lemma loop_refused n name qt client_id servers zone rr ev :
  Forall (refuses ev) servers →
  ∃ b, (resolve_loop (S n) name qt client_id servers zone rr ev).1.1 = Ok b ∧ failure_response client_id b.
Proof.
  intros Href. cbn [resolve_loop]. destruct (query_servers _ _ _ _ _ _) as [[q rr1] ev1] eqn:Hq.
  apply (query_servers_refused _ _ _ _ _ _ ev) in Hq as [[e ->]|(p & -> & Ha & H0 & H3)]; [..|done|lia].
  - eexists. split; [done|apply servfail_failure].
  - rewrite (bool_decide_true (answers p = [])) by done. apply Z.eqb_neq in H0 as E0, H3 as E3.
    rewrite E0, E3. eexists. split; [done|]. eexists. split; [done|]. cbn. by rewrite relay_rcode.
Qed.

(** A reply that delegates: no answers, NOERROR, and a delegation to follow. *)
Definition refers (now : Z) (rr : RecursiveResolver) (p : DnsPacket) (d : Delegation) : Prop :=
  answers p = [] ∧ Z.land (h_flags (header p)) 15 = 0%Z ∧ extract_delegation now rr p = Some d.

(** The table with [d] filed under [zone]. *)
Definition file_under (zone : bytes) (d : Delegation) (rr : RecursiveResolver) : RecursiveResolver :=
  mkResolver (<[zone := d]> (delegations rr)) (next_id rr).

(** A pass of the loop that follows a delegation. *)
Lemma loop_refers n name qt client_id servers zone rr ev p d rr1 ev1 :
  query_servers (minimized_qname name zone) qt servers "no servers available" rr ev = (Ok p, rr1, ev1) →
  refers (now_at ev1) rr1 p d →
  let z := delegation_zone (minimized_qname name zone) in
  resolve_loop (S n) name qt client_id servers zone rr ev =
  resolve_loop n name qt client_id (ns_addrs d) z (file_under z d rr1) ev1.
Proof.
  intros Hq (Ha & Hc & He). cbn [resolve_loop]. rewrite Hq, Hc, He.
  by rewrite (bool_decide_true (answers p = [])) by done.
Qed.

(** A pass of the loop that gets the answer to the name itself. *)
Lemma loop_answered n name qt client_id servers zone rr ev p rr1 ev1 :
  query_servers (minimized_qname name zone) qt servers "no servers available" rr ev = (Ok p, rr1, ev1) →
  minimized_qname name zone = name → answers p ≠ [] →
  resolve_loop (S n) name qt client_id servers zone rr ev = (Ok (to_bytes (relay client_id p)), rr1, ev1).
Proof.
  intros Hq Hn Ha. cbn [resolve_loop]. rewrite Hq, Hn.
  rewrite (bool_decide_false (answers p = [])), (bool_decide_true (name = name)) by done. done.
Qed.

(** The names asked for [l.t]: [t] at the root, then [l.t] itself. *)
Lemma minimized_two l t :
  clean [l; t] → minimized_qname (join_on DOT [l; t]) [] = t ∧
  minimized_qname (join_on DOT [l; t]) t = join_on DOT [l; t].
Proof.
  unfold clean. intros Hc. pose proof Hc as [[Hl Hld] [[Ht Htd] _]%Forall_cons]%Forall_cons.
  unfold minimized_qname. rewrite labels_of_join by done. cbn [length Nat.eqb]. split.
  - by rewrite bool_decide_true by done.
  - rewrite bool_decide_false by done. by rewrite labels_of_single by done.
Qed.

(** What is asked of [servers] and said by them is the same in two networks. *)
Definition same_at (net' : Net) (servers : list SocketAddr) : Prop :=
  Forall (fun a => ∀ ev, @net_connect net' ev a = @net_connect net ev a ∧ @net_recv net' ev a = @net_recv net ev a ∧
    (∀ b, @net_send net' ev a b = @net_send net ev a b) ∧ (∀ b, @net_tcp net' ev a b = @net_tcp net ev a b)) servers.

Lemma query_servers_same net' name qt servers e rr ev :
  same_at net' servers → @query_servers net' name qt servers e rr ev = @query_servers net name qt servers e rr ev.
Proof.
  intros Hs. revert e rr ev. induction Hs as [|a servers Ha _ IH]; intros e rr ev; [done|]. cbn [query_servers].
  replace (@query_one net' name qt a rr ev) with (@query_one net name qt a rr ev).
  - destruct (@query_one net name qt a rr ev) as [[[] ?] ?]; [done|apply IH|done].
  - unfold query_one, tcp_query. destruct (Ha ev) as (-> & _), (Ha (S ev)) as (_ & _ & Hsend & _),
      (Ha (S (S ev))) as (_ & -> & _), (Ha (S (S (S ev)))) as (_ & _ & _ & Htcp).
    rewrite Hsend. repeat case_match; try done; rewrite ?Htcp in *; congruence.
Qed.

(** A pass that only meets refusals asks its servers and nobody else. *)
Lemma loop_refused_same n net' name qt client_id servers zone rr ev :
  Forall (refuses ev) servers → same_at net' servers →
  @resolve_loop net' clk (S n) name qt client_id servers zone rr ev =
  @resolve_loop net clk (S n) name qt client_id servers zone rr ev.
Proof.
  intros Href Hs. cbn [resolve_loop]. rewrite query_servers_same by done.
  destruct (@query_servers net _ _ _ _ _ _) as [[q rr1] ev1] eqn:Hq.
  apply (query_servers_refused _ _ _ _ _ _ ev) in Hq as [[e ->]|(p & -> & Ha & H0 & H3)]; [done| |done|lia].
  rewrite (bool_decide_true (answers p = [])) by done. apply Z.eqb_neq in H0 as E0, H3 as E3. by rewrite E0, E3.
Qed.


End Keys.

(** ** Witnesses *)

(** A first call that gets its permit, finds no entry and asks a root server. *)
Definition example_call : call := mkCall (str "example.com") 1 7.
Definition first_query : sys :=
  mkSys 127 (mkResolver ∅ 2) 0 [] [mkSocketAddr (V4 [198; 41; 0; 4]%Z) 53]
    {[ 0 := (example_call, Asking MAX_DELEGATION_DEPTH root_servers []) ]}.


Lemma resolve_alone_witness :
  ∃ g' r, rtc step (start new_resolver 0) g' ∧ permits g' = 128 ∧
    calls g' = {[ 0 := (example_call, Over (Some r)) ]}.
Proof.
  destruct (@resolve ascii_unicode honest_net still_clock (str "Example.com.") 1 7 new_resolver 0)
    as [[r rr'] ev'] eqn:Hr.
  destruct r as [r|e|]; [|exfalso; apply (f_equal (fun x => x.1.1)) in Hr; vm_compute in Hr; discriminate..].
  destruct (@resolve_alone ascii_unicode honest_net still_clock (fun _ _ _ => Z.le_refl _)
    (str "Example.com.") 1 7 0 (start new_resolver 0) 0 r rr' ev' Hr eq_refl) as (g' & Hg & _ & Hp & Hc).
  - apply Nat.leb_le. reflexivity.
  - reflexivity.
  - exists g', r. split; [exact Hg|]. split; [exact Hp|]. rewrite Hc. reflexivity.
Defined.

(** After the resolution of [example.com], its server refuses to answer for [com]:
    the name that was just resolved does not resolve again. *)
Definition refusal : bytes := to_bytes (mkPacket (mkHeader 4 32773 0 0 0 0) [] [] [] []).
Definition refusing_net : Net := {|
  net_connect := fun _ _ => true;
  net_send := fun _ _ _ => true;
  net_recv := fun ev a => if ev <=? 8 then @net_recv honest_net ev a else Some refusal;
  net_tcp := fun _ _ _ => None;
|}.

(** The same, with a root and servers of [com] that would answer by then. *)
Definition helpful_net : Net := {|
  net_connect := fun _ _ => true;
  net_send := fun _ _ _ => true;
  net_recv := fun ev a =>
    if bool_decide (a = mkSocketAddr (V4 [192; 0; 2; 53]%Z) 53) then @net_recv refusing_net ev a
    else Some (to_bytes (referral 4 (str "com") (str "a.gtld.net") [192; 5; 6; 30]%Z));
  net_tcp := fun _ _ _ => None;
|}.

Definition com_delegation : Delegation :=
  mkDelegation [str "a.gtld.net"] [mkSocketAddr (V4 [192; 5; 6; 30]%Z) 53] (from_secs 3600).
Definition example_delegation : Delegation :=
  mkDelegation [str "ns.example.com"] [mkSocketAddr (V4 [192; 0; 2; 53]%Z) 53] (from_secs 3600).

