(* ===== verification/State.v ===== *)
(** * The server state and the resolution pipeline

    Models [src/src/state.rs]: [ServerState], the synchronous first pass
    ([resolve_local]: rate limit, parse, blocklist, zones, DNSSEC, DNS64, cache,
    choice of upstream), zone transfers ([try_axfr]), the replay of cached or
    forwarded responses to a client, the cache TTL policy, and the handling of an
    upstream result ([forward_and_cache]). Each handler takes the state and
    returns the next one. The clock reads of one synchronous pass return the
    same instant [now] (and the same Unix time [unix]); [shard] is the metrics
    shard of the calling thread. The concurrent part, [forward_ctx], is in
    [SingleFlight]. *)

From stdpp Require Import sorting.
From S2P Require Import Prelude RustStd Message Packet Encoder Zones Resolver Cache RateLimit Acl.
From S2P Require Import Blocklist Metrics Dnssec Net Forwarder Recursive.

Inductive Transport := Udp | Tcp.

Definition RCODE_SERVFAIL : Z := 2.
Definition RCODE_NXDOMAIN : Z := 3.
Definition FLAG_RD : Z := 256.
Definition FLAG_RA : Z := 128.

Record ForwardCtx := mkForwardCtx {
  fc_request : DnsPacket;
  fc_raw : bytes;
  fc_name : bytes;
  fc_qtype : Z;
  fc_upstream : SocketAddr;
  fc_transport : Transport;
}.

Inductive Resolution :=
| Ready (reply : bytes)
| Forward (ctx : ForwardCtx)
| Drop.

Record ServerState := mkState {
  st_zones : ZoneSet.t;
  st_zone_path : option bytes;
  st_forward_rules : ForwardRules.t;
  st_forwarder : option MultiForwarder.t;
  st_recursive : option RecursiveResolver;
  st_cache : Cache;
  st_limiter : RateLimiter;
  st_blocklist : Blocklist;
  st_dns64_prefix : option bytes;
  st_axfr_acl : Acl;
  st_dnssec_keys : option DnssecKeys;
  st_metrics : Metrics;
}.

(** ** Construction and functional updates *)

Definition new_state (zones : ZoneSet.t) (zone_path : option bytes) (rules : ForwardRules.t)
    (forwarder : option MultiForwarder.t) (cache : Cache) (limiter : RateLimiter) : ServerState :=
  mkState zones zone_path rules forwarder None cache limiter Blocklist_ops.empty None
    Acl_ops.deny_all None Metrics_ops.default_metrics.

Definition with_blocklist (b : Blocklist) (s : ServerState) : ServerState :=
  mkState (st_zones s) (st_zone_path s) (st_forward_rules s) (st_forwarder s) (st_recursive s)
    (st_cache s) (st_limiter s) b (st_dns64_prefix s) (st_axfr_acl s) (st_dnssec_keys s)
    (st_metrics s).
Definition with_dns64 (prefix : bytes) (s : ServerState) : ServerState :=
  mkState (st_zones s) (st_zone_path s) (st_forward_rules s) (st_forwarder s) (st_recursive s)
    (st_cache s) (st_limiter s) (st_blocklist s) (Some prefix) (st_axfr_acl s) (st_dnssec_keys s)
    (st_metrics s).
Definition with_axfr_acl (acl : Acl) (s : ServerState) : ServerState :=
  mkState (st_zones s) (st_zone_path s) (st_forward_rules s) (st_forwarder s) (st_recursive s)
    (st_cache s) (st_limiter s) (st_blocklist s) (st_dns64_prefix s) acl (st_dnssec_keys s)
    (st_metrics s).
Definition with_recursive (s : ServerState) : ServerState :=
  mkState (st_zones s) (st_zone_path s) (st_forward_rules s) (st_forwarder s) (Some new_resolver)
    (st_cache s) (st_limiter s) (st_blocklist s) (st_dns64_prefix s) (st_axfr_acl s)
    (st_dnssec_keys s) (st_metrics s).
Definition with_dnssec (keys : DnssecKeys) (s : ServerState) : ServerState :=
  mkState (st_zones s) (st_zone_path s) (st_forward_rules s) (st_forwarder s) (st_recursive s)
    (st_cache s) (st_limiter s) (st_blocklist s) (st_dns64_prefix s) (st_axfr_acl s) (Some keys)
    (st_metrics s).
Definition authoritative (zones : ZoneSet.t) : ServerState :=
  new_state zones None ForwardRules.none None (Cache_ops.new 1024) RateLimiter_ops.disabled.

(** The fields the handlers write. *)
Definition set_cache (c : Cache) (s : ServerState) : ServerState :=
  mkState (st_zones s) (st_zone_path s) (st_forward_rules s) (st_forwarder s) (st_recursive s)
    c (st_limiter s) (st_blocklist s) (st_dns64_prefix s) (st_axfr_acl s) (st_dnssec_keys s)
    (st_metrics s).
Definition set_limiter (l : RateLimiter) (s : ServerState) : ServerState :=
  mkState (st_zones s) (st_zone_path s) (st_forward_rules s) (st_forwarder s) (st_recursive s)
    (st_cache s) l (st_blocklist s) (st_dns64_prefix s) (st_axfr_acl s) (st_dnssec_keys s)
    (st_metrics s).
Definition set_clients (f : option MultiForwarder.t) (r : option RecursiveResolver)
    (s : ServerState) : ServerState :=
  mkState (st_zones s) (st_zone_path s) (st_forward_rules s) f r
    (st_cache s) (st_limiter s) (st_blocklist s) (st_dns64_prefix s) (st_axfr_acl s)
    (st_dnssec_keys s) (st_metrics s).
Definition inc (k : counter) (shard : nat) (s : ServerState) : ServerState :=
  mkState (st_zones s) (st_zone_path s) (st_forward_rules s) (st_forwarder s) (st_recursive s)
    (st_cache s) (st_limiter s) (st_blocklist s) (st_dns64_prefix s) (st_axfr_acl s)
    (st_dnssec_keys s) (Metrics_ops.bump k shard (st_metrics s)).

Definition recursion_available (s : ServerState) : bool :=
  ForwardRules.is_enabled (st_forward_rules s) || bool_decide (is_Some (st_recursive s)).

Definition cleanup_rate_limiter (now : Z) (s : ServerState) : ServerState :=
  set_limiter (RateLimiter_ops.cleanup now (st_limiter s)) s.

(** ** Building and framing responses *)

Definition synth_response (request : DnsPacket) (ans : list DnsRecord.t) (rc : Z) : DnsPacket :=
  let flags :=
    Z.lor (Z.lor (Z.lor 32768 (Z.land (h_flags (header request)) FLAG_RD)) FLAG_RA) rc in
  mkPacket (mkHeader (h_id (header request)) flags (len_u16 (questions request)) (len_u16 ans) 0 0)
    (questions request) ans [] [].

Definition encode (p : DnsPacket) (t : Transport) : bytes :=
  match t with Udp => to_udp_bytes p | Tcp => to_bytes p end.

Definition patch_transaction_id (bs : bytes) (id : Z) : bytes :=
  if 2 <=? length bs then u16_to_be_bytes id ++ drop 2 bs else bs.

(** The first OPT record replaced, if there is one. *)
Fixpoint replace_opt (opt : DnsRecord.t) (rs : list DnsRecord.t) : option (list DnsRecord.t) :=
  match rs with
  | [] => None
  | r :: rest =>
      if DnsRecord.is_OPT r then Some (opt :: rest)
      else (fun l => r :: l) <$> replace_opt opt rest
  end.

Definition with_additionals (p : DnsPacket) (ad : list DnsRecord.t) : DnsPacket :=
  mkPacket (header p) (questions p) (answers p) (authorities p) ad.

Definition align_edns (p request : DnsPacket) : DnsPacket :=
  match edns_udp_size request with
  | Some client_size =>
      let opt := DnsRecord.OPT (Z.of_nat MAX_UDP_SIZE `max` (client_size `min` Z.of_nat MAX_EDNS_UDP)) in
      match replace_opt opt (additionals p) with
      | Some ad => with_additionals p ad
      | None => with_additionals p (additionals p ++ [opt])
      end
  | None => with_additionals p (List.filter (fun r => negb (DnsRecord.is_OPT r)) (additionals p))
  end.

Definition with_id (p : DnsPacket) (id : Z) : DnsPacket :=
  let h := header p in
  mkPacket (mkHeader id (h_flags h) (h_questions h) (h_answers h) (h_authorities h) (h_additionals h))
    (questions p) (answers p) (authorities p) (additionals p).

Definition replay (raw : bytes) (request : DnsPacket) (t : Transport) : res string bytes :=
  match t with
  | Tcp => Ok (patch_transaction_id raw (h_id (header request)))
  | Udp =>
      match from_bytes raw with
      | Ok p => Ok (to_udp_bytes (align_edns (with_id p (h_id (header request))) request))
      | Err _ => Ok (patch_transaction_id raw (h_id (header request)))
      | Panic => Panic
      end
  end.

(** ** The cache policy *)

Definition NEG_TTL_DEFAULT : Z := 30.
Definition NEG_TTL_MAX : Z := 3600.

(** [iter.min()] of a non-empty list. *)
Definition list_min (l : list Z) : option Z :=
  match l with [] => None | x :: l' => Some (foldl Z.min x l') end.

Definition soa_minimum (r : DnsRecord.t) : option Z :=
  match r with DnsRecord.SOA _ _ _ _ _ _ _ m _ => Some m | _ => None end.

Definition cache_ttl (p : DnsPacket) : option Z :=
  let rc := Z.land (h_flags (header p)) 15 in
  if negb (bool_decide (answers p = [])) then
    Some (default 0%Z (list_min (DnsRecord.ttl <$> answers p)))
  else if ((rc =? RCODE_NXDOMAIN) || (rc =? 0))%Z then
    Some (match find_map soa_minimum (authorities p) with
          | Some m => m `min` NEG_TTL_MAX
          | None => NEG_TTL_DEFAULT
          end)%Z
  else None.

(** ** DNS64 *)

Definition DNS64_WELL_KNOWN_PREFIX : bytes := [0; 100; 255; 155; 0; 0; 0; 0; 0; 0; 0; 0; 0; 0; 0; 0]%Z.

Definition synthesize_aaaa (prefix ipv4 : bytes) (ttl : Z) (owner : bytes) : DnsRecord.t :=
  DnsRecord.AAAA owner (take 12 prefix ++ ipv4) ttl.

(** The [if let DnsRecord::A] of the synthesis loop. *)
Definition synthesize_one (prefix owner : bytes) (r : DnsRecord.t) : option DnsRecord.t :=
  match r with
  | DnsRecord.A _ addr ttl => Some (synthesize_aaaa prefix addr ttl owner)
  | _ => None
  end.

Definition apply_dns64 `{Unicode} (response : DnsPacket) (zones : ZoneSet.t) (qname prefix : bytes)
    : DnsPacket :=
  if existsb (of_type DnsRecord.TYPE_AAAA) (answers response) then response
  else
    let name := to_lowercase qname in
    match ZoneSet.find zones name with
    | None => response
    | Some zone =>
        match records zone !! name with
        | None => response
        | Some rs =>
            let a_records := List.filter (of_type DnsRecord.TYPE_A) rs in
            if bool_decide (a_records = []) then response
            else
              let synthesized := omap (synthesize_one prefix name) a_records in
              let h := header response in
              mkPacket
                (mkHeader (h_id h) (Z.lor (Z.land (h_flags h) 65520) 1024) (h_questions h)
                   (len_u16 synthesized) 0 (h_additionals h))
                (questions response) synthesized [] (additionals response)
        end
    end.

(** ** DNSSEC *)

(** The RRsets of the answer section, keyed by owner and type, each in order. *)
Definition group_rrsets (rs : list DnsRecord.t) : gmap (bytes * Z) (list DnsRecord.t) :=
  foldl (fun m r =>
    let k := (DnsRecord.domain r, DnsRecord.record_type r) in
    <[k := default [] (m !! k) ++ [r]]> m) ∅ rs.

(** [now_as_u32() + 2_592_000], wrapping. *)
Definition expiration_of (unix : Z) : Z := as_u32 (unix + 2592000).

(** Signs the groups in iteration order; a group that cannot be signed is
    skipped. *)
Fixpoint sign_groups `{Unicode, Ed25519} (keys : DnssecKeys) (signer : bytes) (unix : Z)
    (groups : list ((bytes * Z) * list DnsRecord.t)) : res string (list DnsRecord.t) :=
  match groups with
  | [] => Ok []
  | ((owner, _), rs) :: rest =>
      let ttl := default 3600%Z (list_min (DnsRecord.ttl <$> rs)) in
      match sign_rrset keys rs signer ttl unix (expiration_of unix) with
      | Ok rrsig =>
          l ← sign_groups keys signer unix rest;
          Ok (DnsRecord.with_domain rrsig owner :: l)
      | Err _ => sign_groups keys signer unix rest
      | Panic => Panic
      end
  end.

Definition with_answers (p : DnsPacket) (ans : list DnsRecord.t) : DnsPacket :=
  let h := header p in
  mkPacket
    (mkHeader (h_id h) (h_flags h) (h_questions h) (len_u16 ans) (h_authorities h) (h_additionals h))
    (questions p) ans (authorities p) (additionals p).

(** The DNSKEY answer at a zone apex. *)
Definition dnskey_response (p : DnsPacket) (ks : list DnsRecord.t) : DnsPacket :=
  let h := header p in
  mkPacket
    (mkHeader (h_id h) (Z.land (Z.lor (h_flags h) 1024) 65520) (h_questions h) (len_u16 ks) 0
       (h_additionals h))
    (questions p) ks [] (additionals p).

Definition apply_dnssec `{Unicode, HashIter, Ed25519} (response : DnsPacket) (zones : ZoneSet.t)
    (qname : bytes) (qt : Z) (keys : DnssecKeys) (unix : Z) : res string DnsPacket :=
  let name := to_lowercase qname in
  let at_apex := match ZoneSet.find zones name with
                 | Some zone => bool_decide (origin zone = name) | None => false end in
  let ks := dnskey_records keys 3600 in
  if (qt =? DnsRecord.TYPE_DNSKEY)%Z && at_apex && negb (bool_decide (ks = [])) then
    let p := dnskey_response response ks in
    match sign_rrset keys ks name 3600 unix (expiration_of unix) with
    | Ok rrsig => Ok (with_answers p (answers p ++ [rrsig]))
    | Err _ => Ok p
    | Panic => Panic
    end
  else if bool_decide (answers response = []) then Ok response
  else
    let signer := match ZoneSet.find zones name with Some z => origin z | None => [] end in
    if bool_decide (signer = []) then Ok response
    else
      rrsigs ← sign_groups keys signer unix (hm_iter (group_rrsets (answers response)));
      if bool_decide (rrsigs = []) then Ok response
      else Ok (with_answers response (answers response ++ rrsigs)).

(** ** Zone transfers *)

(** [String]'s [Ord]: the bytes, lexicographically. *)
Fixpoint bytes_leb (a b : bytes) : bool :=
  match a, b with
  | [], _ => true
  | _ :: _, [] => false
  | x :: a', y :: b' => if (x <? y)%Z then true else if (y <? x)%Z then false else bytes_leb a' b'
  end.

Definition bytes_le (a b : bytes) : Prop := bytes_leb a b = true.
#[global] Instance bytes_le_dec a b : Decision (bytes_le a b).
Proof. unfold bytes_le. apply _. Defined.

#[global] Instance bytes_le_total : base.Total bytes_le.
Proof.
  intros a. unfold bytes_le. induction a as [|x a IH]; intros [|y b]; cbn; auto.
  destruct (Z.ltb_spec x y), (Z.ltb_spec y x); auto.
Qed.

#[global] Instance bytes_le_trans : Transitive bytes_le.
Proof.
  intros a. unfold bytes_le. induction a as [|x a IH]; intros [|y b] [|z c]; cbn; try done.
  destruct (Z.ltb_spec x y), (Z.ltb_spec y x), (Z.ltb_spec y z), (Z.ltb_spec z y),
    (Z.ltb_spec x z), (Z.ltb_spec z x); try done; try lia. apply IH.
Qed.

#[global] Instance bytes_le_antisymm : AntiSymm (=) bytes_le.
Proof.
  intros a. unfold bytes_le. induction a as [|x a IH]; intros [|y b]; cbn; try done.
  destruct (Z.ltb_spec x y), (Z.ltb_spec y x); try done; try lia.
  intros H1 H2. assert (x = y) as -> by lia. f_equal. auto.
Qed.

Definition sorted_names `{HashIter} (rs : Zone) : list bytes :=
  merge_sort bytes_le ((hm_iter rs).*1).

(** The records of a transfer: the SOA, everything else by owner name, the SOA. *)
Definition axfr_records `{HashIter} (rs : Zone) : list DnsRecord.t :=
  let soa := match zone_soa rs with Some r => [r] | None => [] end in
  soa
  ++ concat ((fun owner => List.filter (fun r => negb (DnsRecord.is_SOA r)) (default [] (rs !! owner)))
       <$> sorted_names rs)
  ++ soa.

Definition try_axfr `{Unicode, HashIter} (shard : nat) (req : bytes) (client : IpAddr)
    (s : ServerState) : res string (option bytes * ServerState) :=
  match from_bytes req with
  | Panic => Panic
  | Err _ => Ok (None, s)
  | Ok request =>
      match head (questions request) with
      | None => Ok (None, s)
      | Some question =>
          if negb (qtype question =? DnsRecord.TYPE_AXFR)%Z then Ok (None, s)
          else
            let s := inc Total shard s in
            allowed ← is_allowed (st_axfr_acl s) client;
            if negb allowed then
              Ok (Some (to_bytes (synth_response request [] 5)), inc Errors shard s)
            else
              match ZoneSet.find (st_zones s) (to_lowercase (qname question)) with
              | None => Ok (Some (to_bytes (synth_response request [] 3)), s)
              | Some zone =>
                  let rs := axfr_records (records zone) in
                  let flags := Z.lor (Z.lor 32768 (Z.land (h_flags (header request)) FLAG_RD)) 1024 in
                  let response :=
                    mkPacket (mkHeader (h_id (header request)) flags 1 (len_u16 rs) 0 0)
                      (questions request) rs [] [] in
                  Ok (Some (to_bytes response), inc Authoritative shard s)
              end
      end
  end.

(** ** The synchronous first pass *)

(** The sentinel address of recursive mode. *)
Definition SENTINEL : SocketAddr := mkSocketAddr (V4 [0; 0; 0; 0]%Z) 0.

(** DNSSEC then DNS64, each when configured. *)
Definition decorate `{Unicode, HashIter, Ed25519} (unix : Z) (s : ServerState)
    (question : DnsQuestion) (response : DnsPacket) : res string DnsPacket :=
  response ← match st_dnssec_keys s with
             | Some keys =>
                 apply_dnssec response (st_zones s) (qname question) (qtype question) keys unix
             | None => Ok response
             end;
  Ok (match st_dns64_prefix s with
      | Some prefix =>
          if (qtype question =? DnsRecord.TYPE_AAAA)%Z then
            apply_dns64 response (st_zones s) (qname question) prefix
          else response
      | None => response
      end).

(** [response.header.flags |= FLAG_RA]. *)
Definition set_ra (p : DnsPacket) : DnsPacket :=
  let h := header p in
  mkPacket
    (mkHeader (h_id h) (Z.lor (h_flags h) FLAG_RA) (h_questions h) (h_answers h) (h_authorities h)
       (h_additionals h))
    (questions p) (answers p) (authorities p) (additionals p).

Definition local_answer (shard : nat) (response : DnsPacket) (t : Transport) (s : ServerState)
    : Resolution * ServerState :=
  let response := if recursion_available s then set_ra response else response in
  (Ready (encode response t), inc Authoritative shard s).

(** The part for a name unknown locally when recursion was asked for. *)
Definition resolve_unknown `{Unicode} (now : Z) (shard : nat) (req : bytes) (request response : DnsPacket)
    (question : DnsQuestion) (t : Transport) (s : ServerState) : res string (Resolution * ServerState) :=
  let name := to_lowercase (qname question) in
  let qt := qtype question in
  let '(cached, c) := Cache_ops.get name qt now (st_cache s) in
  let s := set_cache c s in
  match cached with
  | Some raw =>
      let s := inc CacheHits shard s in
      reply ← replay raw request t; Ok (Ready reply, s)
  | None =>
      match ForwardRules.match_name (st_forward_rules s) name with
      | Some upstream => Ok (Forward (mkForwardCtx request req name qt upstream t), s)
      | None =>
          match st_recursive s with
          | Some _ => Ok (Forward (mkForwardCtx request req name qt SENTINEL t), s)
          | None => Ok (Ready (encode response t), inc Authoritative shard s)
          end
      end
  end.

Definition resolve_local `{Unicode, HashIter, Ed25519} (now unix : Z) (shard : nat) (req : bytes)
    (client : IpAddr) (t : Transport) (s : ServerState) : res string (Resolution * ServerState) :=
  let s := inc Total shard s in
  let '(ok, limiter) := RateLimiter_ops.allow now client (st_limiter s) in
  let s := set_limiter limiter s in
  if negb ok then Ok (Drop, inc RateLimited shard s)
  else
    match from_bytes req with
    | Panic => Panic
    | Err _ => Ok (Drop, inc Errors shard s)
    | Ok request =>
        match head (questions request) with
        | None =>
            Ok (local_answer shard (build_response request (st_zones s)) t s)
        | Some question =>
            if Blocklist_ops.is_active (st_blocklist s)
               && Blocklist_ops.is_blocked (st_blocklist s) (qname question) then
              Ok (Ready (encode (synth_response request [] RCODE_NXDOMAIN) t), inc Blocked shard s)
            else
              let response := build_response request (st_zones s) in
              let rc := Z.land (h_flags (header response)) 15 in
              let rd_set := negb (Z.land (h_flags (header request)) FLAG_RD =? 0)%Z in
              response ← decorate unix s question response;
              if (rc =? RCODE_NXDOMAIN)%Z && rd_set && recursion_available s then
                resolve_unknown now shard req request response question t s
              else Ok (local_answer shard response t s)
        end
    end.

(** ** Upstream results *)

(** What [forward_and_cache] does with the result of the upstream query. *)
Definition finish_forward `{Unicode, HashIter} (now : Z) (shard : nat) (ctx : ForwardCtx)
    (result : res string bytes) (s : ServerState) : res string (bytes * ServerState) :=
  match result with
  | Ok response_bytes =>
      match from_bytes response_bytes with
      | Panic => Panic
      | Err _ => Ok (response_bytes, s)
      | Ok parsed =>
          match cache_ttl parsed with
          | Some ttl =>
              Ok (response_bytes,
                  set_cache (Cache_ops.insert (fc_name ctx) (fc_qtype ctx) response_bytes ttl now now
                               (st_cache s)) s)
          | None => Ok (response_bytes, s)
          end
      end
  | Err _ =>
      Ok (to_bytes (synth_response (fc_request ctx) [] RCODE_SERVFAIL), inc Errors shard s)
  | Panic => Panic
  end.

(** [ctx.upstream] has the unspecified IPv4 address and port 0. *)
Definition is_recursive (ctx : ForwardCtx) : bool :=
  bool_decide (sa_ip (fc_upstream ctx) = V4 [0; 0; 0; 0]%Z) && (sa_port (fc_upstream ctx) =? 0)%Z.

(** The upstream query: the iterative resolver for the sentinel, a stub
    forwarder otherwise; [expect] panics when it is missing. *)
Definition upstream_query `{Unicode, Net, Clock} (shard ev : nat) (ctx : ForwardCtx)
    (s : ServerState) : res string bytes * ServerState * nat :=
  if is_recursive ctx then
    match st_recursive s with
    | None => (Panic, s, ev)
    | Some rr =>
        let '(r, rr', ev') :=
          resolve (fc_name ctx) (fc_qtype ctx) (h_id (header (fc_request ctx))) rr ev in
        (r, set_clients (st_forwarder s) (Some rr') (inc Forwarded shard s), ev')
    end
  else
    match st_forwarder s with
    | None => (Panic, s, ev)
    | Some m =>
        let '(r, m', ev') := MultiForwarder.forward ev (fc_raw ctx) (fc_upstream ctx) m in
        (r, set_clients (Some m') (st_recursive s) (inc Forwarded shard s), ev')
    end.

Definition forward_and_cache `{Unicode, HashIter, Net, Clock} (shard ev : nat) (ctx : ForwardCtx)
    (s : ServerState) : res string (bytes * ServerState) * nat :=
  let '(r, s, ev) := upstream_query shard ev ctx s in
  (finish_forward (now_at ev) shard ctx r s, ev).
