(* ===== verification/Validator.v ===== *)
(** * Signatures as a validator checks them

    A DNSSEC validator, written from RFC 4034 (sections 3.1.8.1, 6.2 and 6.3, appendix B) and
    RFC 4035 (section 5.3) and from the wire format of [Encoder], and not from [src/src/dnssec.rs]:
    the data of a record is what the server's encoder sends, with names uncompressed and in
    lower case; the records are put in canonical order, without duplicates; the owner is the wildcard
    when the label count says so; the key must be the signer's, with that tag; the time must lie
    within the validity period. What [sign_rrset] signs is shown to be what this validator rebuilds, for
    the record types and names for which it is. *)

From stdpp Require Import sorting.
From S2P Require Import Prelude RustStd Message Packet Encoder Wire Zones Resolver Cache RateLimit.
From S2P Require Import Acl Blocklist Metrics Dnssec Net Forwarder Recursive State.

(** ** Canonical form (RFC 4034, section 6) *)

(** What the encoder writes on an empty message. *)
Definition sent (write : DnsPacketEncoder → DnsPacketEncoder) : bytes := enc_buf (write (mkEncoder [] ∅)).

(** US-ASCII letters in lower case. *)
Definition lower (n : bytes) : bytes := ascii_lower <$> n.

Definition wire_name (n : bytes) : bytes := sent (encode_name_uncompressed (lower n)).

(** The record data: the names of the types listed in section 6.2 in lower case, the rest as it
    is sent. *)
Definition canonical_wire (r : DnsRecord.t) : bytes :=
  match r with
  | DnsRecord.A _ addr _ | DnsRecord.AAAA _ addr _ => addr
  | DnsRecord.CNAME _ n _ | DnsRecord.NS _ n _ | DnsRecord.PTR _ n _ => wire_name n
  | DnsRecord.MX _ preference n _ => u16_to_be_bytes preference ++ wire_name n
  | DnsRecord.SOA _ m r serial refresh retry expire minimum _ =>
      wire_name m ++ wire_name r ++
      concat (u32_to_be_bytes <$> [serial; refresh; retry; expire; minimum])
  | DnsRecord.SRV _ priority weight port target _ => sent (write_srv priority weight port (lower target))
  | DnsRecord.TXT _ text _ => sent (encode_character_strings text)
  | DnsRecord.CAA _ flags tag value _ => sent (write_caa flags tag value)
  | DnsRecord.DNSKEY _ flags protocol algorithm pk _ => sent (write_dnskey flags protocol algorithm pk)
  | DnsRecord.DS _ tag algorithm digest_type digest _ => sent (write_ds tag algorithm digest_type digest)
  | DnsRecord.NSEC _ next bitmap _ => sent (write_nsec (lower next) bitmap)
  | DnsRecord.RRSIG _ tc alg labels ottl expi ince tag signer sig _ =>
      sent (write_rrsig tc alg labels ottl expi ince tag (lower signer) sig)
  | DnsRecord.OPT _ => []
  end.

(** Section 6.3: sorted as octet strings, duplicates removed. *)
Definition canonical_order (rdatas : list bytes) : list bytes := merge_sort bytes_le (remove_dups rdatas).

(** ** The signed data (section 3.1.8.1; RFC 4035, section 5.3.2) *)

(** The labels of a name, the root not counted. *)
Definition name_labels (n : bytes) : list bytes := match n with [] => [] | _ => split_on DOT n end.

(** The owner that was signed: the wildcard that the name was expanded from, if it was. *)
Definition signed_owner (labels : Z) (owner : bytes) : bytes :=
  let ls := name_labels owner in
  if Z.to_nat labels <? length ls then join_on DOT (STAR :: drop (length ls - Z.to_nat labels) ls) else owner.

Definition signed_record (owner : bytes) (ty ottl : Z) (rdata : bytes) : bytes :=
  wire_name owner ++ u16_to_be_bytes ty ++ u16_to_be_bytes 1 ++ u32_to_be_bytes ottl ++
  u16_to_be_bytes (len_u16 rdata) ++ rdata.

(** The key tag of appendix B, on the data of the DNSKEY record. *)
Definition tag_of (rdata : bytes) : Z := ((words_sum rdata + words_sum rdata / 2 ^ 16) mod 2 ^ 16)%Z.

(** Serial number arithmetic of the times (RFC 1982). *)
Definition serial_le (a b : Z) : bool := ((b - a) mod 2 ^ 32 <? 2 ^ 31)%Z.

Definition at_or_below (owner zone : bytes) : bool :=
  eq_ignore_ascii_case owner zone || ends_with (lower owner) (DOT :: lower zone).

(** The check of an RRset at [now] against a DNSKEY and an RRSIG record. *)
Definition validate `{Ed25519} (now : Z) (dnskey rrsig : DnsRecord.t) (rs : list DnsRecord.t) : bool :=
  match dnskey, rrsig with
  | DnsRecord.DNSKEY zone flags protocol kalg pk _,
    DnsRecord.RRSIG owner tc alg labels ottl expi ince tag signer sig _ =>
      negb (bool_decide (rs = [])) &&
      forallb (fun r => eq_ignore_ascii_case (DnsRecord.domain r) owner && (DnsRecord.record_type r =? tc)%Z) rs &&
      eq_ignore_ascii_case zone signer && at_or_below owner signer &&
      (Z.to_nat labels <=? length (name_labels owner)) &&
      serial_le ince now && serial_le now expi &&
      (alg =? kalg)%Z && (protocol =? 3)%Z && negb (Z.land flags FLAG_ZONE =? 0)%Z &&
      (tag =? tag_of (sent (write_dnskey flags protocol kalg pk)))%Z &&
      ed_verify pk
        (sent (write_rrsig tc alg labels ottl expi ince tag (lower signer) []) ++
         concat (signed_record (signed_owner labels owner) tc ottl <$>
           canonical_order (canonical_wire <$> rs)))
        sig
  | _, _ => false
  end.

(** ** What the server can sign *)

(** The types whose data [dnssec.rs] writes as they are sent; an empty TXT record is not
    ([Dnssec.empty_txt_signed_differs]). *)
Definition signable (r : DnsRecord.t) : bool :=
  match r with
  | DnsRecord.OPT _ | DnsRecord.RRSIG _ _ _ _ _ _ _ _ _ _ _ | DnsRecord.DS _ _ _ _ _ _
  | DnsRecord.NSEC _ _ _ _ => false
  | DnsRecord.TXT _ text _ => negb (bool_decide (text = []))
  | _ => true
  end.

(** The names in a record's data are in ASCII. *)
Definition ascii_rdata (r : DnsRecord.t) : bool :=
  match r with
  | DnsRecord.CNAME _ n _ | DnsRecord.NS _ n _ | DnsRecord.PTR _ n _ | DnsRecord.MX _ _ n _
  | DnsRecord.SRV _ _ _ _ n _ => is_ascii n
  | DnsRecord.SOA _ m r _ _ _ _ _ _ => is_ascii m && is_ascii r
  | _ => true
  end.

(** An RRset a validator accepts the server's signature of: of a type it writes, with ASCII
    names, a [*] only as the first label of the owner, at or below the signer's
    zone, and in canonical order already (one record is). *)
Record validatable (owner signer : bytes) (rs : list DnsRecord.t) : Prop := {
  vl_signable : Forall (fun r => signable r = true ∧ ascii_rdata r = true ∧ rdata_ok r) rs;
  vl_owner : name_ok owner ∧ is_ascii owner = true;
  vl_star : STAR ∉ tail (split_on DOT owner);
  vl_below : at_or_below owner signer = true;
  vl_order : canonical_order (canonical_wire <$> rs) = canonical_wire <$> rs;
}.

(** ** Lemmas *)

Lemma trim_end_clean s : Forall (fun l => l ≠ []) (split_on DOT s) → trim_end_matches DOT s = s.
Proof.
  unfold trim_end_matches. destruct s as [|c s _] using rev_ind; [done|].
  rewrite rev_app_distr. cbn [rev app drop_while].
  destruct (Z.eqb_spec DOT c) as [<-|]; [|intros _; cbn [rev]; by rewrite rev_involutive].
  rewrite split_on_app_dot, Forall_app. intros [_ Hl]. by inv Hl.
Qed.

Lemma labels_sent ls e :
  Forall (fun l => length l ≤ 63) ls →
  enc_buf (encode_labels_uncompressed e ls) =
  enc_buf e ++ concat ((fun l => as_u8 (Z.of_nat (length l)) :: l) <$> ls) ++ [0%Z].
Proof.
  intros Hl. revert e. induction Hl as [|l ls Hl _ IH]; intros e; cbn [encode_labels_uncompressed]; [done|].
  rewrite IH. cbn [extend enc_buf fmap list_fmap concat]. rewrite (Nat.min_l _ _ Hl), firstn_all.
  by rewrite <- !(assoc_L (++)).
Qed.

(** An uncompressed name is the same wherever it is written. *)
Lemma name_sent n e : enc_buf (encode_name_uncompressed n e) = enc_buf e ++ sent (encode_name_uncompressed n).
Proof.
  assert (∀ ls e, enc_buf (encode_labels_uncompressed e ls) =
    enc_buf e ++ enc_buf (encode_labels_uncompressed (mkEncoder [] ∅) ls)) as Hls.
  { clear. induction ls as [|l ls IH]; intros e; [done|]. cbn [encode_labels_uncompressed].
    rewrite IH, (IH (extend (extend (mkEncoder [] ∅) _) _)). cbn [extend enc_buf]. by rewrite <- !(assoc_L (++)). }
  unfold sent, encode_name_uncompressed. destruct n; [done|apply Hls].
Qed.

Section Lemmas.
Context `{UNI : Unicode, EDD : Ed25519}.

Lemma ascii_labels n l : is_ascii n = true → l ∈ split_on DOT n → is_ascii l = true.
Proof.
  unfold is_ascii. rewrite !forallb_forall. intros Ha Hl c Hc%list_elem_of_In. revert c Hc.
  rewrite <- Forall_forall. eapply split_on_elem_bytes, Hl. apply Forall_forall.
  intros c Hc. by apply Ha, list_elem_of_In.
Qed.

(** [canonical_name] writes what is sent. *)
Lemma canonical_name_wire n : name_ok n → is_ascii n = true → canonical_name n = wire_name n.
Proof.
  intros [->|[Hl _]] Ha; [done|].
  assert (trim_end_matches DOT n = n) as Ht.
  { apply trim_end_clean. eapply Forall_impl; [exact Hl|]. by intros l (? & _). }
  assert (wire_name n = concat ((fun l => as_u8 (Z.of_nat (length l)) :: l) <$> split_on DOT (lower n)) ++ [0%Z]) as ->.
  2:{ unfold canonical_name. rewrite Ht. destruct n as [|c n]; [by destruct (Forall_inv Hl) as [? _]|].
      f_equal. f_equal. unfold lower. rewrite split_on_fmap by apply ascii_lower_dot.
      rewrite <- list_fmap_compose. apply list_fmap_ext.
      intros i l Hi%list_elem_of_lookup_2. unfold canonical_label, compose. cbv zeta.
      by rewrite (to_lowercase_ascii l) by by eapply ascii_labels. }
  unfold wire_name, sent, encode_name_uncompressed.
  destruct (lower n) as [|c n'] eqn:Hn; [by destruct n; [destruct (Forall_inv Hl) as [? _]|]|].
  rewrite <- Hn, labels_sent; [done|]. unfold lower. rewrite split_on_fmap by apply ascii_lower_dot.
  apply Forall_fmap. eapply Forall_impl; [exact Hl|]. intros l (_ & Hlen & _). cbn. by rewrite length_fmap.
Qed.

Lemma canonical_rdata_wire r :
  signable r = true → ascii_rdata r = true → rdata_ok r → canonical_rdata r = canonical_wire r.
Proof.
  intros Hs Ha Hr. destruct r; cbn [signable ascii_rdata rdata_ok canonical_rdata canonical_wire] in *;
    try done; rewrite ?canonical_name_wire by done; try done.
  - apply negb_true_iff, bool_decide_eq_false in Hs. by destruct text.
  - apply andb_true_iff in Ha as [??]. destruct Hr. by rewrite !canonical_name_wire by done.
  - unfold write_srv, sent. rewrite name_sent. by cbn [extend enc_buf app].
  - unfold write_caa, sent. cbn [extend enc_buf app]. by rewrite (Nat.min_l _ _ Hr), firstn_all.
Qed.

(** The fields before the signature. *)
Lemma rrsig_prefix_wire tc alg labels ottl expi ince tag signer :
  name_ok signer → is_ascii signer = true →
  rrsig_prefix tc alg labels ottl expi ince tag signer =
  sent (write_rrsig tc alg labels ottl expi ince tag (lower signer) []).
Proof.
  intros Hn Ha. unfold rrsig_prefix, write_rrsig, sent. cbn [extend enc_buf].
  rewrite app_nil_r, name_sent. cbn [extend enc_buf app]. rewrite <- !(assoc_L (++)).
  by rewrite canonical_name_wire.
Qed.

(** The label count and the owner of a name whose only wildcard is its first label. *)
Lemma label_count_owner owner :
  name_ok owner → STAR ∉ tail (split_on DOT owner) →
  Z.to_nat (label_count owner) ≤ length (name_labels owner) ∧ signed_owner (label_count owner) owner = owner.
Proof.
  intros [->|[Hl Hlen]] Hs; [done|]. unfold label_count, signed_owner.
  assert (name_labels owner = split_on DOT owner) as ->.
  { destruct owner; [by destruct (Forall_inv Hl) as [? _]|done]. }
  destruct (split_on DOT owner) as [|l ls] eqn:Hsp; [by destruct (split_on_ne DOT owner)|].
  apply Forall_cons in Hl as [(Hne & _) Hl]. cbn [tail] in Hs. cbn [length] in Hlen. unfold MAX_POINTER_JUMPS in Hlen.
  assert (filter (fun l => l ≠ [] ∧ l ≠ STAR) ls = ls) as Hf.
  { clear - Hl Hs. induction Hl as [|x ls (Hx & _) _ IH]; [done|]. rewrite filter_cons, decide_True.
    - f_equal. apply IH. set_solver.
    - split; [done|]. intros ->. set_solver. }
  rewrite filter_cons, Hf. case_decide as Hd; cbn [length].
  - replace (Z.to_nat (as_u8 (Z.of_nat (S (length ls))))) with (S (length ls)) by width_lia.
    by rewrite Nat.ltb_irrefl.
  - assert (l = STAR) as -> by (destruct (decide (l = STAR)); [done|by destruct Hd]).
    replace (Z.to_nat (as_u8 (Z.of_nat (length ls)))) with (length ls) by width_lia.
    split; [lia|]. rewrite (proj2 (Nat.ltb_lt _ _)) by lia.
    replace (S (length ls) - length ls) with 1 by lia.
    transitivity (join_on DOT (split_on DOT owner)); [by rewrite Hsp|apply join_split].
Qed.

Lemma serial_window unix now :
  (unix <= now <= unix + 2592000)%Z →
  serial_le unix (as_u32 now) = true ∧ serial_le (as_u32 now) (expiration_of unix) = true.
Proof.
  intros Hn. unfold serial_le, expiration_of, as_u32. split; apply Z.ltb_lt.
  - rewrite Zminus_mod_idemp_l. rewrite Z.mod_small; lia.
  - rewrite Zminus_mod_idemp_l, Zminus_mod_idemp_r. rewrite Z.mod_small; lia.
Qed.

(** The published key and its tag. *)
Lemma key_tag_of key zone pk doc :
  key = mkSigningKey zone 257 ALG_ED25519 pk doc → wf_bytes pk → (Z.of_nat (length pk) < 65000)%Z →
  key_tag key = tag_of (sent (write_dnskey 257 3 ALG_ED25519 pk)).
Proof.
  intros -> Hw Hl. unfold key_tag, dnskey_rdata, tag_of. cbn [sk_flags sk_algorithm public_key].
  destruct (key_tag_words (u16_to_be_bytes 257 ++ [3; ALG_ED25519]%Z ++ pk)) as [-> _]; [| |done].
  - apply Forall_app. split; [repeat constructor; vm_compute; done|]. repeat constructor; by try (vm_compute; done).
  - rewrite !length_app. cbn. lia.
Qed.

(** ** Signing *)

(** The signature of an RRset of one owner and type is accepted, from the moment it is made
    and for thirty days, under the key the server publishes. *)
Lemma sign_rrset_valid pkcs8 signer key rs owner ty ttl unix :
  generate pkcs8 signer = Ok key → wf_bytes (public_key key) → (Z.of_nat (length (public_key key)) < 65000)%Z →
  name_ok signer → is_ascii signer = true → rs ≠ [] →
  (∀ r, r ∈ rs → DnsRecord.domain r = owner ∧ DnsRecord.record_type r = ty) →
  ∃ labels sig,
    let rrsig := DnsRecord.RRSIG owner ty ALG_ED25519 labels ttl (expiration_of unix) unix (key_tag key) signer sig ttl in
    sign_rrset (mkKeys [key]) rs signer ttl unix (expiration_of unix) = Ok rrsig ∧
    (validatable owner signer rs → ∀ now, (unix <= now <= unix + 2592000)%Z →
       validate (as_u32 now) (dnskey_record key 3600) rrsig rs = true).
Proof.
  intros (kp & Hkp & Hpk & Hkey)%generate_pair Hw Hlen Hsn Hsa Hne Hrs.
  destruct rs as [|r0 rs]; [done|]. destruct (Hrs r0) as [Ho Ht]; [by left|].
  exists (label_count owner). eexists. cbv zeta. split.
  { unfold sign_rrset. cbn [keys head]. rewrite Hkp.
    change (idx (r0 :: rs) 0) with (Ok (E := string) r0). cbn [mbind res_bind]. cbv zeta.
    rewrite Ho, Ht. replace (sk_algorithm key) with ALG_ED25519 by by rewrite Hkey. reflexivity. }
  intros [Hsg [Hon Hoa] Hst Hbl Hor] now Hnow.
  destruct (label_count_owner owner Hon Hst) as [Hlc Hso]. destruct (serial_window unix now Hnow) as [Hs1 Hs2].
  unfold validate, dnskey_record. rewrite Hkey. cbn [zone_name sk_flags sk_algorithm public_key].
  rewrite <- Hkey, <- (key_tag_of key _ _ _ Hkey Hw Hlen), Hs1, Hs2, Hbl, Hso, Hor.
  rewrite (proj2 (Nat.leb_le _ _) Hlc), !Z.eqb_refl.
  assert (∀ n, eq_ignore_ascii_case n n = true) as Heq by (intros n; by apply bool_decide_true).
  rewrite Heq, bool_decide_false by done. cbn [negb andb].
  replace (forallb _ _) with true.
  2:{ symmetry. apply forallb_forall. intros r Hr%list_elem_of_In. destruct (Hrs r Hr) as [-> ->].
      by rewrite Heq, Z.eqb_refl. }
  change (negb (Z.land 257 FLAG_ZONE =? 0)%Z) with true. cbn [andb].
  rewrite Hpk, <- rrsig_prefix_wire by done.
  replace (signed_record owner ty ttl <$> (canonical_wire <$> r0 :: rs)) with (canonical_record ttl <$> r0 :: rs);
    [apply ed_sign_verify|].
  rewrite <- list_fmap_compose. apply list_fmap_ext. intros i r Hi%list_elem_of_lookup_2.
  destruct (Hrs r Hi) as [Hd Hty]. rewrite Forall_forall in Hsg. destruct (Hsg r Hi) as (H1 & H2 & H3).
  unfold canonical_record, signed_record, compose. cbv zeta.
  by rewrite Hd, Hty, canonical_name_wire, canonical_rdata_wire by done.
Qed.

End Lemmas.

(** ** The canonical RRset order *)

(** The records are signed in the order they are given, not sorted by their
    rdata as RFC 4034 section 6.3 requires: for two addresses of one name stored in descending
    order the validator rejects the RRSIG, and for the same two in ascending order it accepts it (with a
    scheme that accepts the signed message only). *)
Theorem sign_rrset_not_canonical_order :
  ∃ r1 r2, @sign_rrset ascii_unicode toy_ed25519 (mkKeys [sample_key]) sample_rrset (str "example.com") 60 0 100 = Ok r1 ∧
    @validate toy_ed25519 50 (dnskey_record sample_key 3600) r1 sample_rrset = false ∧
    @sign_rrset ascii_unicode toy_ed25519 (mkKeys [sample_key]) (rev sample_rrset) (str "example.com") 60 0 100 = Ok r2 ∧
    @validate toy_ed25519 50 (dnskey_record sample_key 3600) r2 (rev sample_rrset) = true.
Proof.
  eexists _, _. split; [vm_compute; reflexivity|]. split; [vm_compute; reflexivity|].
  split; [vm_compute; reflexivity|]. vm_compute. reflexivity.
Qed.
