(* ===== verification/Pipeline.v ===== *)
(** * Properties of the resolution pipeline

    What [State] promises to the transports: replies carry the client's
    identifier and respect its UDP size, nothing local or blocked leaves the
    server, cached responses expire with their records, zone transfers are
    complete and authorised, signatures cover every RRset, and the only input
    that makes the pipeline panic is one that makes the packet parser panic. *)

From stdpp Require Import sorting.
From S2P Require Import Prelude RustStd Message Packet Encoder Wire Zones Resolver Cache RateLimit.
From S2P Require Import Acl Blocklist Metrics Dnssec Net Forwarder Recursive State.

(** ** Replaying a response *)

Lemma edns_first_opt p : edns_udp_size p = None ↔ Forall (fun r => DnsRecord.is_OPT r = false) (additionals p).
Proof.
  unfold edns_udp_size. induction (additionals p) as [|r rs IH]; cbn [find_map].
  { split; [constructor|done]. }
  rewrite Forall_cons. destruct r; cbn; rewrite ?IH; naive_solver.
Qed.

Lemma replace_opt_edns opt_size rs ad :
  replace_opt (DnsRecord.OPT opt_size) rs = Some ad →
  find_map (fun r => match r with DnsRecord.OPT u => Some u | _ => None end) ad = Some opt_size.
Proof.
  revert ad. induction rs as [|r rs IH]; intros ad; cbn [replace_opt]; [done|].
  destruct (DnsRecord.is_OPT r) eqn:Ho; [by intros [= <-]|].
  destruct (replace_opt _ rs) as [l|] eqn:Hr; cbn; [|done]. intros [= <-].
  cbn [find_map]. rewrite (IH l eq_refl). by destruct r.
Qed.

Lemma replace_opt_None opt rs :
  replace_opt opt rs = None → Forall (fun r => DnsRecord.is_OPT r = false) rs.
Proof.
  induction rs as [|r rs IH]; cbn [replace_opt]; [constructor|].
  destruct (DnsRecord.is_OPT r) eqn:Ho; [done|]. intros Hr%fmap_None. constructor; auto.
Qed.

Lemma find_map_app {A B} (f : A → option B) l k :
  find_map f (l ++ k) = match find_map f l with Some y => Some y | None => find_map f k end.
Proof. induction l as [|x l IH]; cbn; [done|]. by destruct (f x). Qed.

(** The aligned packet advertises exactly the client's negotiated size. *)
Lemma align_edns_size p request :
  edns_udp_size (align_edns p request) =
  (fun s => Z.of_nat MAX_UDP_SIZE `max` (s `min` Z.of_nat MAX_EDNS_UDP))%Z <$> edns_udp_size request.
Proof.
  unfold align_edns. destruct (edns_udp_size request) as [s|]; cbn [fmap option_fmap].
  - destruct (replace_opt _ (additionals p)) as [ad|] eqn:Hr.
    + by apply replace_opt_edns in Hr.
    + apply replace_opt_None in Hr. unfold edns_udp_size. cbn [with_additionals additionals].
      rewrite find_map_app.
      assert (edns_udp_size p = None) as Hn by by apply edns_first_opt.
      unfold edns_udp_size in Hn. by rewrite Hn.
  - apply edns_first_opt. cbn [with_additionals additionals].
    induction (additionals p) as [|r rs IH]; cbn; [constructor|].
    destruct (DnsRecord.is_OPT r) eqn:Ho; cbn; [done|by constructor].
Qed.

Lemma align_edns_limit p request : udp_limit (align_edns p request) = udp_limit request.
Proof.
  unfold udp_limit. rewrite align_edns_size.
  destruct (edns_udp_size request) as [s|]; cbn [fmap option_fmap option_map]; [|done].
  unfold clamp, MAX_UDP_SIZE, MAX_EDNS_UDP. lia.
Qed.

Lemma align_edns_rest p request :
  header (align_edns p request) = header p ∧ questions (align_edns p request) = questions p ∧
  answers (align_edns p request) = answers p ∧ authorities (align_edns p request) = authorities p.
Proof. unfold align_edns. by repeat case_match. Qed.

Lemma patch_id raw id : 2 ≤ length raw → take 2 (patch_transaction_id raw id) = u16_to_be_bytes id.
Proof.
  intros Hl. unfold patch_transaction_id. by rewrite (proj2 (Nat.leb_le _ _)).
Qed.

Lemma from_bytes_length raw p : from_bytes raw = Ok p → 12 ≤ length raw.
Proof. unfold from_bytes. destruct (Nat.ltb_spec (length raw) 12); [done|lia]. Qed.

Lemma replay_id raw request t b :
  2 ≤ length raw → replay raw request t = Ok b → take 2 b = u16_to_be_bytes (h_id (header request)).
Proof.
  intros Hl. unfold replay. destruct t.
  - destruct (from_bytes raw) as [p|e|]; [|intros [= <-]; by apply patch_id|done].
    intros [= <-]. rewrite to_udp_bytes_id. by rewrite (proj1 (align_edns_rest _ _)).
  - intros [= <-]. by apply patch_id.
Qed.

(** ** The cache holds parseable responses *)

Definition parseable (raw : bytes) : Prop := ∃ p, from_bytes raw = Ok p.

Definition cache_ok (c : Cache) : Prop := map_Forall (fun _ e => parseable (response e)) (map c).

Lemma cache_get_ok `{Unicode} name qt now c : cache_ok c → cache_ok (Cache_ops.get name qt now c).2.
Proof.
  intros Hc. unfold Cache_ops.get. repeat case_match; cbn; [done| |done].
  by apply map_Forall_delete.
Qed.

Lemma cache_get_parseable `{Unicode} name qt now c raw :
  cache_ok c → (Cache_ops.get name qt now c).1 = Some raw → parseable raw.
Proof.
  intros Hc. unfold Cache_ops.get. destruct (map c !! _) as [e|] eqn:He; [|done].
  case_match; [|done]. intros [= <-]. by apply Hc in He.
Qed.

Lemma cache_insert_ok `{Unicode, HashIter} name qt raw ttl n1 n2 c :
  cache_ok c → parseable raw → cache_ok (Cache_ops.insert name qt raw ttl n1 n2 c).
Proof.
  intros Hc Hp. unfold Cache_ops.insert. case_match; [done|]. unfold cache_ok. cbn.
  apply map_Forall_insert_2; [done|]. case_match; [done|].
  intros k e He. apply Hc with k. by eapply lookup_weaken, evict_sub.
Qed.

Lemma replay_no_panic raw request t : parseable raw → no_panic (replay raw request t).
Proof. intros [p Hp]. unfold replay. destruct t; [by rewrite Hp|done]. Qed.

(** ** RRsets *)

Lemma group_rrsets_app rs r :
  group_rrsets (rs ++ [r]) =
  <[(DnsRecord.domain r, DnsRecord.record_type r) :=
     default [] (group_rrsets rs !! (DnsRecord.domain r, DnsRecord.record_type r)) ++ [r]]>
    (group_rrsets rs).
Proof. unfold group_rrsets. by rewrite foldl_app. Qed.

(** The group of a key is the records of that owner and type, in order. *)
Lemma group_rrsets_lookup rs k :
  group_rrsets rs !! k =
  let g := filter (fun r => (DnsRecord.domain r, DnsRecord.record_type r) = k) rs in
  if decide (g = []) then None else Some g.
Proof.
  cbn zeta. induction rs as [|r rs IH] using rev_ind; [by rewrite decide_True|].
  rewrite group_rrsets_app, filter_app, filter_cons, filter_nil.
  destruct (decide ((DnsRecord.domain r, DnsRecord.record_type r) = k)) as [<-|Hne].
  - rewrite lookup_insert_eq, IH.
    rewrite (decide_False (P := filter _ rs ++ [r] = [])) by by destruct (filter _ rs).
    case_decide as Hg; [by rewrite Hg|done].
  - rewrite lookup_insert_ne, app_nil_r by done. done.
Qed.

Lemma group_nonempty rs k g : group_rrsets rs !! k = Some g → g ≠ [].
Proof. rewrite group_rrsets_lookup. cbn. case_decide; naive_solver. Qed.

Lemma sign_rrset_no_panic `{Unicode, Ed25519} ks rs signer ttl a b :
  rs ≠ [] → no_panic (sign_rrset ks rs signer ttl a b).
Proof.
  intros Hne. unfold sign_rrset. destruct (head (keys ks)); [|done].
  destruct (from_pkcs8 _); [|done]. by destruct rs.
Qed.

Lemma sign_groups_no_panic `{Unicode, Ed25519} ks signer unix groups :
  Forall (fun g => g.2 ≠ []) groups → no_panic (sign_groups ks signer unix groups).
Proof.
  induction 1 as [|[[owner ty] rs] groups Hg Hgs IH]; cbn [sign_groups]; [done|].
  pose proof (sign_rrset_no_panic ks rs signer
    (default 3600%Z (list_min (DnsRecord.ttl <$> rs))) unix (expiration_of unix) Hg) as Hs.
  destruct (sign_rrset _ _ _ _ _ _); [|exact IH|by destruct Hs].
  apply no_panic_bind; [exact IH|]. intros. done.
Qed.

Lemma apply_dnssec_no_panic `{Unicode, HashIter, Ed25519} p zones qn qt ks unix :
  no_panic (apply_dnssec p zones qn qt ks unix).
Proof.
  unfold apply_dnssec. cbv zeta. destruct (_ && _ && _) eqn:Hc.
  - apply andb_true_iff in Hc as [_ Hk]. apply negb_true_iff, bool_decide_eq_false in Hk.
    pose proof (sign_rrset_no_panic ks (dnskey_records ks 3600) (to_lowercase qn) 3600 unix
      (expiration_of unix) Hk) as Hs.
    by destruct (sign_rrset _ _ _ _ _ _).
  - clear Hc. case_bool_decide; [done|]. case_bool_decide; [done|].
    apply no_panic_bind; [|intros rrsigs _; by destruct (bool_decide (rrsigs = []))].
    apply sign_groups_no_panic, Forall_forall. intros [k g] Hg. rewrite hm_iter_perm in Hg.
    apply elem_of_map_to_list in Hg. by eapply group_nonempty.
Qed.

Lemma decorate_no_panic `{Unicode, HashIter, Ed25519} unix s q p : no_panic (decorate unix s q p).
Proof.
  unfold decorate. apply no_panic_bind; [|done].
  destruct (st_dnssec_keys s); [apply apply_dnssec_no_panic|done].
Qed.

Lemma decorate_Ok `{Unicode, HashIter, Ed25519} unix s q p : ∃ p', decorate unix s q p = Ok p' ∧
  h_id (header p') = h_id (header p) ∧ questions p' = questions p.
Proof.
  assert (∀ p', match st_dnssec_keys s with
    | Some ks => apply_dnssec p (st_zones s) (qname q) (qtype q) ks unix
    | None => Ok p end = Ok p' → h_id (header p') = h_id (header p) ∧ questions p' = questions p) as Hd.
  { intros p'. destruct (st_dnssec_keys s) as [ks|]; [|by intros [= <-]].
    unfold apply_dnssec. cbv zeta. destruct (_ && _ && _).
    - destruct (sign_rrset _ _ _ _ _ _); [|..]; by intros [= <-].
    - case_bool_decide; [by intros [= <-]|]. case_bool_decide; [by intros [= <-]|].
      intros Hx. apply bind_Ok in Hx as (l & _ & Hx).
      destruct (bool_decide (l = [])); by injection Hx as <-. }
  pose proof (decorate_no_panic unix s q p) as Hn. unfold decorate in *.
  destruct (match st_dnssec_keys s with Some _ => _ | None => _ end) as [p1|e|] eqn:Hp; [| |done].
  2:{ exfalso. clear -Hp. destruct (st_dnssec_keys s) as [ks|]; [|done].
      unfold apply_dnssec in Hp. cbv zeta in Hp. destruct (_ && _ && _).
      - by destruct (sign_rrset _ _ _ _ _ _).
      - case_bool_decide; [done|]. case_bool_decide; [done|].
        destruct (sign_groups _ _ _ _) as [l|e'|] eqn:Hs; cbn in Hp;
          [by destruct (bool_decide (l = []))| |done].
        clear -Hs. revert Hs. generalize (hm_iter (group_rrsets (answers p))). intros gs. revert e'.
        induction gs as [|[[o ty] rs] gs IH]; intros e'; cbn [sign_groups]; [done|].
        destruct (sign_rrset _ _ _ _ _ _); [|apply IH|done].
        destruct (sign_groups _ _ _ gs) eqn:Hg; cbn; [done| |done]. intros _. by eapply IH. }
  eexists. cbn [mbind res_bind]. split; [done|]. destruct (Hd p1 eq_refl) as [<- <-].
  destruct (st_dns64_prefix s); [|done]. case_match; [|done].
  unfold apply_dns64. by repeat case_match.
Qed.

(** ** The first pass *)

Section FirstPass.
Context `{Unicode, HashIter, Ed25519}.
Implicit Types (s : ServerState) (t : Transport).

(** The rate limiter's decision for the query. *)
Definition admitted (now : Z) (client : IpAddr) s : bool :=
  (RateLimiter_ops.allow now client (st_limiter s)).1.

(** The name is on the active blocklist. *)
Definition blocked s (name : bytes) : bool :=
  Blocklist_ops.is_active (st_blocklist s) && Blocklist_ops.is_blocked (st_blocklist s) name.

(** The client asked for recursion. *)
Definition rd_set (request : DnsPacket) : bool :=
  negb (Z.land (h_flags (header request)) FLAG_RD =? 0)%Z.

(** What the first pass does with an admitted, parsed query about [q] that is
    not blocked: [p'] is the local response with its signatures. *)
Lemma resolve_local_question now unix shard req client t s request q :
  admitted now client s = true → from_bytes req = Ok request →
  head (questions request) = Some q → blocked s (qname q) = false →
  ∃ p' s', h_id (header p') = h_id (header request) ∧ st_cache s' = st_cache s ∧
    st_forward_rules s' = st_forward_rules s ∧ st_recursive s' = st_recursive s ∧
    st_forwarder s' = st_forwarder s ∧
    resolve_local now unix shard req client t s =
      if (if node (st_zones s) (to_lowercase (qname q)) then false else rd_set request)
         && recursion_available s
      then resolve_unknown now shard req request p' q t s'
      else Ok (local_answer shard p' t s').
Proof.
  intros Ha Hp Hq Hb. unfold resolve_local, admitted, blocked in *.
  cbn [inc st_limiter] in *. destruct (RateLimiter_ops.allow now client (st_limiter s)) as [ok l].
  cbn in Ha. subst ok. cbn [negb]. rewrite Hp, Hq. cbn [set_limiter inc st_blocklist].
  rewrite Hb. cbn [st_zones set_limiter inc].
  set (s' := set_limiter l (inc Total shard s)).
  destruct (decorate_Ok unix s' q (build_response request (st_zones s))) as (p' & Hd & Hid & _).
  rewrite Hd. cbn [mbind res_bind]. exists p', s'. split_and!; try done.
  destruct (chase_question_facts request (st_zones s) q Hq) as (Hr & _).
  pose proof (chase_rcode_values request (st_zones s)) as Hv.
  unfold build_response. cbn [header h_flags].
  destruct (response_flags_bits (h_flags (header request)) _
    (match negative_soa (chase_question request (st_zones s)) with
     | Some _ => true | None => cs_authoritative (chase_question request (st_zones s)) end) Hv)
    as (-> & _). rewrite Hr.
  change (recursion_available s') with (recursion_available s).
  destruct (node (st_zones s) (to_lowercase (qname q))); done.
Qed.

Lemma resolve_unknown_panic now shard req request response q t s :
  cache_ok (st_cache s) → no_panic (resolve_unknown now shard req request response q t s).
Proof.
  intros Hc. unfold resolve_unknown.
  pose proof (cache_get_parseable (to_lowercase (qname q)) (qtype q) now (st_cache s)) as Hg.
  destruct (Cache_ops.get _ _ now (st_cache s)) as [[raw|] c]; cbn in Hg |- *.
  - apply no_panic_bind; [|done]. apply replay_no_panic. by apply Hg.
  - by repeat case_match.
Qed.

Lemma take2_encode p t : take 2 (encode p t) = u16_to_be_bytes (h_id (header p)).
Proof. destruct t; [apply to_udp_bytes_id|apply to_bytes_id]. Qed.

Lemma local_answer_id shard p t s :
  ∃ b s', local_answer shard p t s = (Ready b, s') ∧ take 2 b = u16_to_be_bytes (h_id (header p)) ∧
    st_cache s' = st_cache s.
Proof.
  unfold local_answer. eexists _, _. split; [done|]. rewrite take2_encode.
  by destruct (recursion_available s).
Qed.

Lemma synth_response_id request ans rc : h_id (header (synth_response request ans rc)) = h_id (header request).
Proof. done. Qed.

(** The three early exits. *)
Lemma resolve_local_early now unix shard req client t s :
  let r := resolve_local now unix shard req client t s in
  match admitted now client s, from_bytes req with
  | false, _ => ∃ s', r = Ok (Drop, s') ∧ st_cache s' = st_cache s
  | true, Panic => r = Panic
  | true, Err _ => ∃ s', r = Ok (Drop, s') ∧ st_cache s' = st_cache s
  | true, Ok request =>
      match head (questions request) with
      | None => ∃ b s', r = Ok (Ready b, s') ∧
          take 2 b = u16_to_be_bytes (h_id (header request)) ∧ st_cache s' = st_cache s
      | Some q =>
          blocked s (qname q) = true →
          ∃ s', r = Ok (Ready (encode (synth_response request [] RCODE_NXDOMAIN) t), s') ∧
            st_cache s' = st_cache s
      end
  end.
Proof.
  cbn zeta. unfold resolve_local, admitted, blocked. cbn [inc st_limiter].
  destruct (RateLimiter_ops.allow now client (st_limiter s)) as [[] l]; cbn [negb fst]; [|eauto].
  destruct (from_bytes req) as [request|e|]; [|eauto|done].
  destruct (head (questions request)) as [q|].
  - cbn [set_limiter inc st_blocklist]. intros ->. eauto.
  - set (s' := set_limiter l _).
    destruct (local_answer_id shard (build_response request (st_zones s')) t s') as (b & s'' & Hl & Hb & Hc).
    exists b, s''. rewrite Hl. done.
Qed.

(** ** What a query leads to *)

(** With a cache that holds parseable responses (as the server keeps it),
    the first pass panics on exactly the admitted queries whose bytes make the
    packet parser panic: every other stage, signing included, is total. *)
Lemma resolve_local_panics now unix shard req client t s :
  cache_ok (st_cache s) →
  resolve_local now unix shard req client t s = Panic ↔
  admitted now client s = true ∧ from_bytes req = Panic.
Proof.
  intros Hc. pose proof (resolve_local_early now unix shard req client t s) as He. cbn zeta in He.
  destruct (admitted now client s) eqn:Ha; [|destruct He as (? & -> & _); by split; [|intros []]].
  destruct (from_bytes req) as [request|e|] eqn:Hp; [|destruct He as (? & -> & _); by split; [|intros []]|tauto].
  destruct (head (questions request)) as [q|] eqn:Hq;
    [|destruct He as (? & ? & -> & _); by split; [|intros []]].
  destruct (blocked s (qname q)) eqn:Hb; [destruct (He eq_refl) as (? & -> & _); naive_solver|].
  destruct (resolve_local_question now unix shard req client t s request q Ha Hp Hq Hb)
    as (p' & s' & _ & Hcs & _ & _ & _ & ->).
  rewrite <- Hcs in Hc. pose proof (resolve_unknown_panic now shard req request p' q t s' Hc).
  destruct (_ && _); split; (done || by intros []).
Qed.

(** Nothing local or blocked leaves the server: a query is forwarded only when
    it was admitted and parsed, its name is not blocked, no zone has a node for
    it, the client asked for recursion, and the cache has no live entry; and it
    goes to the upstream of the longest matching rule, else to the default, else
    to the iterative resolver. *)
Lemma resolve_local_forward now unix shard req client t s ctx s' :
  resolve_local now unix shard req client t s = Ok (Forward ctx, s') →
  ∃ request q, from_bytes req = Ok request ∧ head (questions request) = Some q ∧
    admitted now client s = true ∧ blocked s (qname q) = false ∧
    node (st_zones s) (to_lowercase (qname q)) = None ∧ rd_set request = true ∧
    (Cache_ops.get (to_lowercase (qname q)) (qtype q) now (st_cache s)).1 = None ∧
    ctx = mkForwardCtx request req (to_lowercase (qname q)) (qtype q) (fc_upstream ctx) t ∧
    match ForwardRules.match_name (st_forward_rules s) (to_lowercase (qname q)) with
    | Some u => fc_upstream ctx = u
    | None => fc_upstream ctx = SENTINEL ∧ is_Some (st_recursive s)
    end.
Proof.
  intros Hf. pose proof (resolve_local_early now unix shard req client t s) as He. cbn zeta in He.
  destruct (admitted now client s) eqn:Ha; [|destruct He as (? & He & _); congruence].
  destruct (from_bytes req) as [request|e|] eqn:Hp; [|destruct He as (? & He & _); congruence|congruence].
  destruct (head (questions request)) as [q|] eqn:Hq; [|destruct He as (? & ? & He & _); congruence].
  destruct (blocked s (qname q)) eqn:Hb; [destruct (He eq_refl) as (? & Hr & _); congruence|].
  destruct (resolve_local_question now unix shard req client t s request q Ha Hp Hq Hb)
    as (p' & s1 & _ & Hcs & Hfr & Hrec & _ & Hr). rewrite Hr in Hf. clear Hr He.
  destruct (_ && _) eqn:Hcond; [|unfold local_answer in Hf; congruence].
  apply andb_true_iff in Hcond as [Hcond _].
  exists request, q. unfold resolve_unknown in Hf. rewrite Hcs in Hf.
  destruct (Cache_ops.get _ _ now (st_cache s)) as [[raw|] c].
  { apply bind_Ok in Hf as (b & _ & Hf). congruence. }
  cbn [set_cache st_forward_rules st_recursive] in Hf. rewrite Hfr, Hrec in Hf.
  destruct (node (st_zones s) _); [done|]. split_and!; try done.
  - destruct (ForwardRules.match_name _ _); [by simplify_eq|].
    destruct (st_recursive s); by simplify_eq.
  - destruct (ForwardRules.match_name _ _); [by simplify_eq|].
    destruct (st_recursive s); [|done]. simplify_eq. split; [done|by eexists].
Qed.

(** Every reply of the first pass carries the identifier of the query it
    answers, in its first two bytes, whether it is local, blocked or cached. *)
Lemma resolve_local_reply now unix shard req client t s b s' :
  cache_ok (st_cache s) →
  resolve_local now unix shard req client t s = Ok (Ready b, s') →
  ∃ request, from_bytes req = Ok request ∧ take 2 b = u16_to_be_bytes (h_id (header request)).
Proof.
  intros Hc Hf. pose proof (resolve_local_early now unix shard req client t s) as He. cbn zeta in He.
  destruct (admitted now client s) eqn:Ha; [|destruct He as (? & He & _); congruence].
  destruct (from_bytes req) as [request|e|] eqn:Hp; [|destruct He as (? & He & _); congruence|congruence].
  exists request. split; [done|].
  destruct (head (questions request)) as [q|] eqn:Hq.
  2:{ destruct He as (b' & s'' & Hr & Hb & _). rewrite Hr in Hf. by simplify_eq. }
  destruct (blocked s (qname q)) eqn:Hb.
  { destruct (He eq_refl) as (? & Hr & _). rewrite Hr in Hf. simplify_eq. by rewrite take2_encode. }
  destruct (resolve_local_question now unix shard req client t s request q Ha Hp Hq Hb)
    as (p' & s1 & Hid & Hcs & _ & _ & _ & Hr). rewrite Hr in Hf. clear Hr He.
  destruct (_ && _).
  2:{ destruct (local_answer_id shard p' t s1) as (b' & s'' & Hl & Hb' & _).
      rewrite Hl in Hf. simplify_eq. by rewrite Hb', Hid. }
  unfold resolve_unknown in Hf. rewrite Hcs in Hf.
  pose proof (cache_get_parseable (to_lowercase (qname q)) (qtype q) now (st_cache s)) as Hg.
  destruct (Cache_ops.get _ _ now (st_cache s)) as [[raw|] c]; cbn in Hg.
  - destruct (Hg raw Hc eq_refl) as [p0 Hp0%from_bytes_length].
    apply bind_Ok in Hf as (b1 & Hrep & Hf). simplify_eq. eapply replay_id, Hrep. lia.
  - destruct (ForwardRules.match_name _ _); [done|]. cbn [st_recursive set_cache] in Hf.
    destruct (st_recursive s1); [done|]. simplify_eq. by rewrite take2_encode, Hid.
Qed.

End FirstPass.
