(* ===== verification/Policy.v ===== *)
(** * Policies of the server: replay, caching, DNS64, DNSSEC, zone transfer

    Properties of the remaining handlers of [State]: what a client gets from a
    shared or cached response, how long a response is kept, what DNS64 and DNSSEC
    put in an answer, and what a zone transfer contains. *)

From stdpp Require Import sorting.
From S2P Require Import Prelude RustStd Message Packet Encoder Wire Zones Resolver Cache RateLimit.
From S2P Require Import Acl Blocklist Metrics Dnssec Net Forwarder Recursive State Validator Pipeline.

(** ** Minima *)

Lemma foldl_min_le l m : (foldl Z.min m l <= m)%Z ∧ ∀ x, x ∈ l → (foldl Z.min m l <= x)%Z.
Proof.
  revert m. induction l as [|y l IH]; intros m; cbn; [set_solver by lia|].
  destruct (IH (m `min` y)%Z) as [H1 H2]. split; [lia|].
  intros x [->|Hx]%elem_of_cons; [lia|auto].
Qed.

Lemma foldl_min_elem l m : foldl Z.min m l = m ∨ foldl Z.min m l ∈ l.
Proof.
  revert m. induction l as [|y l IH]; intros m; cbn; [by left|].
  destruct (IH (m `min` y)%Z) as [->|Hin]; [|set_solver].
  destruct (Z.min_spec m y) as [[_ ->]|[_ ->]]; set_solver.
Qed.

(** [list_min] is the least element. *)
Lemma list_min_spec l m :
  list_min l = Some m ↔ m ∈ l ∧ ∀ x, x ∈ l → (m <= x)%Z.
Proof.
  destruct l as [|y l]; cbn; [set_solver|]. destruct (foldl_min_le l y) as [H1 H2].
  split.
  - intros [= <-]. split; [destruct (foldl_min_elem l y) as [->|]; set_solver|].
    intros x [->|Hx]%elem_of_cons; auto.
  - intros [Hin Hle]. f_equal. apply Z.le_antisymm.
    + apply elem_of_cons in Hin as [->|Hin]; auto.
    + apply Hle. destruct (foldl_min_elem l y) as [->|]; set_solver.
Qed.

(** ** Properties *)

(** A response replayed to a client (from the cache or from a shared upstream
    query) is that response with the client's identifier: over TCP the bytes are
    untouched but for the first two; over UDP the sections are unchanged, the OPT
    record is the one negotiated with this client (or absent), and the message is
    cut at this client's limit, not at the one of whoever asked first. *)
Theorem replay_for_client (raw : bytes) (request p : DnsPacket) :
  from_bytes raw = Ok p →
  (∃ b, replay raw request Tcp = Ok b ∧ take 2 b = u16_to_be_bytes (h_id (header request)) ∧
     drop 2 b = drop 2 raw) ∧
  (∃ p', replay raw request Udp = Ok (to_udp_bytes p') ∧ udp_limit p' = udp_limit request ∧
     h_id (header p') = h_id (header request) ∧ h_flags (header p') = h_flags (header p) ∧
     questions p' = questions p ∧ answers p' = answers p ∧ authorities p' = authorities p ∧
     (edns_udp_size p' = None ↔ edns_udp_size request = None)).
Proof.
  intros Hp. pose proof (from_bytes_length _ _ Hp) as Hl. split.
  - eexists. split; [reflexivity|]. split; [by apply patch_id; lia|].
    unfold patch_transaction_id. by rewrite (proj2 (Nat.leb_le _ _)) by lia.
  - unfold replay. rewrite Hp. eexists. split; [reflexivity|].
    destruct (align_edns_rest (with_id p (h_id (header request))) request) as (-> & -> & -> & ->).
    rewrite align_edns_limit, align_edns_size. split_and!; try done.
    by rewrite fmap_None.
Qed.

(** The cache policy: a response with answers is kept for the smallest of their
    TTLs, never longer than any record in it; a negative one for the SOA minimum
    of its authority section, an hour at most, or 30 seconds without an SOA; and
    no other response code is cached. *)
Theorem cache_ttl_spec (p : DnsPacket) :
  match cache_ttl p with
  | Some ttl =>
      (answers p ≠ [] ∧ (∀ r, r ∈ answers p → (ttl <= DnsRecord.ttl r)%Z) ∧
        ttl ∈ DnsRecord.ttl <$> answers p) ∨
      (answers p = [] ∧ (rcode p = 0 ∨ rcode p = 3)%Z ∧
        match find_map soa_minimum (authorities p) with
        | Some m => ttl = (m `min` 3600)%Z
        | None => ttl = 30%Z
        end)
  | None => answers p = [] ∧ rcode p ≠ 0%Z ∧ rcode p ≠ 3%Z
  end.
Proof.
  unfold cache_ttl, rcode, RCODE_NXDOMAIN. destruct (bool_decide_reflect (answers p = [])) as [Ha|Ha]; cbn [negb].
  - set (rc := Z.land _ _). destruct (Z.eqb_spec rc 3), (Z.eqb_spec rc 0); cbn [orb];
      [right; case_match; auto..|done].
  - left. destruct (list_min (DnsRecord.ttl <$> answers p)) as [m|] eqn:Hm.
    + apply list_min_spec in Hm as [Hin Hle]. cbn. split_and!; [done| |done].
      intros r Hr. apply Hle. apply list_elem_of_fmap. eauto.
    + destruct (answers p); [done|]. cbn in Hm. done.
Qed.

Section Forwarding.
Context `{Unicode, HashIter}.

(** A forwarded response is served from the cache exactly until the
    shortest-lived of its records expires: right after an upstream reply with
    answers is handled at [now], a lookup of its key at a later time hits if and
    only if that time is before [now] plus the smallest TTL. The reply itself is
    relayed unchanged, and the cache keeps holding parseable responses only. *)
Theorem forwarded_response_lifetime (now : Z) (shard : nat) (ctx : ForwardCtx) (raw : bytes)
    (p : DnsPacket) (ttl : Z) (s : ServerState) :
  from_bytes raw = Ok p → cache_ttl p = Some ttl → ttl ≠ 0%Z →
  ∃ s', finish_forward now shard ctx (Ok raw) s = Ok (raw, s') ∧
    (∀ t, (Cache_ops.get (fc_name ctx) (fc_qtype ctx) t (st_cache s')).1 =
       if (t <? now + from_secs ttl)%Z then Some raw else None) ∧
    (cache_ok (st_cache s) → cache_ok (st_cache s')).
Proof.
  intros Hp Ht Hne. unfold finish_forward. rewrite Hp, Ht.
  eexists. split; [reflexivity|]. cbn [set_cache st_cache].
  assert (raw ≠ []) as Hr by (intros ->; apply from_bytes_length in Hp; cbn in Hp; lia).
  split.
  - intros t. unfold Cache_ops.insert.
    rewrite bool_decide_false, (proj2 (Z.eqb_neq ttl 0)) by done. cbn [orb].
    unfold Cache_ops.get. cbn [map]. rewrite lookup_insert_eq. cbn. by case_match.
  - intros Hc. apply cache_insert_ok; [done|]. by exists p.
Qed.

(** An upstream failure becomes a SERVFAIL reply to the client's question and
    leaves the cache alone; a reply that does not parse, or whose code is not
    cacheable, is relayed and not cached. *)
Theorem upstream_failure (now : Z) (shard : nat) (ctx : ForwardCtx) (s : ServerState) :
  (∀ e, ∃ p s', finish_forward now shard ctx (Err e) s = Ok (to_bytes p, s') ∧
     st_cache s' = st_cache s ∧ h_id (header p) = h_id (header (fc_request ctx)) ∧
     questions p = questions (fc_request ctx) ∧ answers p = [] ∧ rcode p = RCODE_SERVFAIL) ∧
  (∀ raw, (∃ e, from_bytes raw = Err e) ∨ (∃ p, from_bytes raw = Ok p ∧ cache_ttl p = None) →
     finish_forward now shard ctx (Ok raw) s = Ok (raw, s)).
Proof.
  split.
  - intros e. eexists _, _. split; [reflexivity|]. split_and!; try done.
    unfold rcode. cbn [synth_response header h_flags]. change FLAG_RD with (2 ^ 8)%Z.
    rewrite land_bit by lia. by destruct (Z.testbit _ 8).
  - intros raw [[e He]|(p & Hp & Ht)]; unfold finish_forward; [by rewrite He|by rewrite Hp, Ht].
Qed.

End Forwarding.

(** ** DNS64 *)

(** DNS64 answers an AAAA query that has no native AAAA answer with one AAAA
    record per A record of the name, the address in the low 32 bits of the
    prefix, the TTL kept; it clears the response code and the authority section and
    leaves everything else alone; and it changes nothing when there is a native
    answer or no A record. *)
Theorem apply_dns64_spec `{Unicode} (p : DnsPacket) (zones : ZoneSet.t) (qn prefix : bytes) :
  let name := to_lowercase qn in
  let a_records :=
    List.filter (of_type DnsRecord.TYPE_A)
      (default [] (zone ← ZoneSet.find zones name; records zone !! name)) in
  let p' := apply_dns64 p zones qn prefix in
  if existsb (of_type DnsRecord.TYPE_AAAA) (answers p) || bool_decide (a_records = []) then p' = p
  else
    answers p' = (fun r => match r with
                           | DnsRecord.A _ addr ttl => DnsRecord.AAAA name (take 12 prefix ++ addr) ttl
                           | r => r end) <$> a_records ∧
    h_answers (header p') = len_u16 (answers p') ∧ authorities p' = [] ∧ rcode p' = 0%Z ∧
    flag 10 p' = true ∧ h_id (header p') = h_id (header p) ∧ questions p' = questions p ∧
    additionals p' = additionals p.
Proof.
  cbn zeta. unfold apply_dns64. destruct (existsb _ (answers p)); [done|]. cbn [orb].
  destruct (ZoneSet.find zones (to_lowercase qn)) as [zone|]; cbn [mbind option_bind]; [|done].
  destruct (records zone !! to_lowercase qn) as [rs|]; cbn [default from_option id]; [|done].
  set (ars := List.filter _ rs). destruct (bool_decide_reflect (ars = [])) as [|Hne]; [done|].
  cbn [answers header h_answers authorities h_id questions additionals].
  assert (omap (synthesize_one prefix (to_lowercase qn)) ars =
    (fun r => match r with
              | DnsRecord.A _ addr ttl => DnsRecord.AAAA (to_lowercase qn) (take 12 prefix ++ addr) ttl
              | r => r end) <$> ars) as ->.
  { unfold ars. clear. induction rs as [|r rs IH]; cbn; [done|].
    destruct r; cbn; by rewrite ?IH. }
  split_and!; try done.
  - unfold rcode. cbn [header h_flags]. rewrite Z.land_lor_distr_l, <- Z.land_assoc.
    change (Z.land 65520 15) with 0%Z. change (Z.land 1024 15) with 0%Z. by rewrite Z.land_0_r.
  - unfold flag. cbn [header h_flags]. rewrite Z.lor_spec. change (Z.testbit 1024 10) with true.
    apply orb_true_r.
Qed.

(** ** DNSSEC *)

Section Dnssec.
Context `{Unicode, HashIter, Ed25519}.

(** The owner, the covered type and the signer of an RRSIG. *)
Definition rrsig_covers (sig : DnsRecord.t) (owner : bytes) (ty : Z) (signer : bytes) : Prop :=
  match sig with
  | DnsRecord.RRSIG d tc _ _ _ _ _ _ sn _ _ => d = owner ∧ tc = ty ∧ sn = signer
  | _ => False
  end.

(** The members of a group have its owner and type. *)
Lemma group_key rs k g r : group_rrsets rs !! k = Some g → r ∈ g →
  DnsRecord.domain r = k.1 ∧ DnsRecord.record_type r = k.2.
Proof.
  rewrite group_rrsets_lookup. cbn. case_decide; [done|]. intros [= <-].
  rewrite list_elem_of_filter. intros [<- _]. done.
Qed.

(** Every group gets its signature, in order. *)
Lemma sign_groups_all pkcs8 signer key unix groups :
  generate pkcs8 signer = Ok key → wf_bytes (public_key key) → (Z.of_nat (length (public_key key)) < 65000)%Z →
  name_ok signer → is_ascii signer = true →
  (∀ k g, (k, g) ∈ groups → g ≠ [] ∧ ∀ r, r ∈ g → DnsRecord.domain r = k.1 ∧ DnsRecord.record_type r = k.2) →
  ∃ sigs, sign_groups (mkKeys [key]) signer unix groups = Ok sigs ∧
    Forall2 (fun kg sig => rrsig_covers sig kg.1.1 kg.1.2 signer ∧
      (validatable kg.1.1 signer kg.2 → ∀ now, (unix <= now <= unix + 2592000)%Z →
         validate (as_u32 now) (dnskey_record key 3600) sig kg.2 = true)) groups sigs.
Proof.
  intros Hgen Hw Hlen Hn Ha. induction groups as [|[[o ty] g] groups IH]; intros Hg; cbn [sign_groups].
  { exists []. split; [done|constructor]. }
  destruct (Hg (o, ty) g) as [Hne Hk]; [set_solver|]. cbn [fst snd] in Hk.
  destruct (sign_rrset_valid pkcs8 signer key g o ty (default 3600%Z (list_min (DnsRecord.ttl <$> g))) unix)
    as (labels & sig & -> & Hv); [done..|].
  destruct IH as (sigs & -> & Hall); [set_solver|]. cbn [mbind res_bind].
  eexists. split; [done|]. constructor; [|done]. cbn [fst snd]. split; [done|exact Hv].
Qed.

(** C32: with a key made by [generate] for the zone, the answer to any query but DNSKEY under a
    zone with an origin keeps its records and gains one RRSIG per RRset, with that owner and type and
    the zone's origin as signer; nothing else of the message changes but the count. A validator that
    follows RFC 4034 and 4035 ([Validator.validate], written from those and from what the encoder sends) accepts
    each signature over exactly those records, under the published DNSKEY record, from the moment it
    was made and for thirty days, when the RRset is one it can accept ([validatable]): of a type whose data the server
    signs as it sends it, with ASCII names, within the zone, and in canonical order
    already, as a single record is. *)
Theorem apply_dnssec_signs (pkcs8 : option bytes) (key : SigningKey) (p : DnsPacket)
    (zones : ZoneSet.t) (zone : AuthZone) (qn : bytes) (qt unix : Z) :
  ZoneSet.find zones (to_lowercase qn) = Some zone →
  generate pkcs8 (origin zone) = Ok key → wf_bytes (public_key key) →
  (Z.of_nat (length (public_key key)) < 65000)%Z → name_ok (origin zone) → is_ascii (origin zone) = true →
  origin zone ≠ [] → qt ≠ DnsRecord.TYPE_DNSKEY → answers p ≠ [] →
  ∃ sigs, apply_dnssec p zones qn qt (mkKeys [key]) unix =
      Ok (with_answers p (answers p ++ sigs)) ∧
    length sigs = size (group_rrsets (answers p)) ∧
    ∀ o ty, let g := filter (fun r => (DnsRecord.domain r, DnsRecord.record_type r) = (o, ty)) (answers p) in
      g ≠ [] →
      ∃ sig, sig ∈ sigs ∧ rrsig_covers sig o ty (origin zone) ∧
        (validatable o (origin zone) g → ∀ now, (unix <= now <= unix + 2592000)%Z →
           validate (as_u32 now) (dnskey_record key 3600) sig g = true).
Proof.
  intros Hz Hgen Hw Hlen Hn Ha Ho Hqt Hne. unfold apply_dnssec. cbv zeta.
  rewrite (proj2 (Z.eqb_neq qt _) Hqt), Hz. cbn [andb].
  rewrite !bool_decide_false by done.
  destruct (sign_groups_all pkcs8 (origin zone) key unix (hm_iter (group_rrsets (answers p))) Hgen Hw Hlen Hn Ha)
    as (sigs & -> & Hall).
  { intros k g Hin. rewrite hm_iter_perm in Hin. apply elem_of_map_to_list in Hin.
    split; [by eapply group_nonempty|]. intros r Hr. by eapply group_key. }
  cbn [mbind res_bind]. exists sigs.
  assert (length sigs = size (group_rrsets (answers p))) as Hl.
  { rewrite <- (Forall2_length _ _ _ Hall), hm_iter_perm. by rewrite length_map_to_list. }
  rewrite bool_decide_false.
  2:{ intros ->. destruct (answers p) as [|r rs] eqn:E; [done|]. rewrite <- E in Hl.
      symmetry in Hl. apply map_size_empty_inv in Hl.
      pose proof (group_rrsets_lookup (answers p) (DnsRecord.domain r, DnsRecord.record_type r)) as Hr. cbn zeta in Hr.
      rewrite Hl, lookup_empty in Hr. case_decide as Hg; [|done].
      assert (r ∈ filter (fun r' => (DnsRecord.domain r', DnsRecord.record_type r') =
        (DnsRecord.domain r, DnsRecord.record_type r)) (answers p)) as Hin
        by (apply list_elem_of_filter; split; [done|]; rewrite E; by left).
      rewrite Hg in Hin. set_solver. }
  split_and!; [done|done|]. intros o ty Hg.
  pose proof (group_rrsets_lookup (answers p) (o, ty)) as Hk. cbn zeta in Hk. rewrite decide_False in Hk by done.
  set (g := filter _ (answers p)) in *.
  assert (((o, ty), g) ∈ hm_iter (group_rrsets (answers p))) as Hin
    by (rewrite hm_iter_perm; by apply elem_of_map_to_list).
  apply list_elem_of_lookup_1 in Hin as [i Hi].
  destruct (Forall2_lookup_l _ _ _ _ _ Hall Hi) as (sig & Hsig & Hc & Hv).
  apply list_elem_of_lookup_2 in Hsig. eauto.
Qed.

End Dnssec.

(** ** Zone transfers *)

Section Axfr.
Context `{HashIter}.

Lemma sorted_names_perm (rs : Zone) : sorted_names rs ≡ₚ (map_to_list rs).*1.
Proof.
  unfold sorted_names. etrans; [apply merge_sort_Permutation|]. by rewrite hm_iter_perm.
Qed.

Lemma sorted_names_sorted (rs : Zone) : StronglySorted bytes_le (sorted_names rs).
Proof. apply StronglySorted_merge_sort; apply _. Qed.

(** The names come out the same whatever order the map iterates in. *)
Lemma sorted_names_canonical (rs : Zone) (l : list bytes) :
  StronglySorted bytes_le l → l ≡ₚ (map_to_list rs).*1 → l = sorted_names rs.
Proof.
  intros Hs Hp. apply (StronglySorted_unique bytes_le); [done|apply sorted_names_sorted|].
  by rewrite sorted_names_perm.
Qed.

Lemma concat_perm {A} (l k : list (list A)) : l ≡ₚ k → concat l ≡ₚ concat k.
Proof.
  induction 1 as [|x l k _ IH|x y l|l k m _ IH1 _ IH2]; cbn; [done|by rewrite IH| |by etrans].
  rewrite !(assoc_L (++)). by rewrite (Permutation_app_comm x y).
Qed.

Lemma list_filter_app {A} (f : A → bool) l k :
  List.filter f (l ++ k) = List.filter f l ++ List.filter f k.
Proof. induction l as [|x l IH]; cbn; [done|]. rewrite IH. by destruct (f x). Qed.

Lemma list_filter_concat {A} (f : A → bool) ls :
  List.filter f (concat ls) = concat (List.filter f <$> ls).
Proof. induction ls as [|l ls IH]; cbn; [done|]. by rewrite list_filter_app, IH. Qed.

Lemma list_filter_perm {A} (f : A → bool) l k : l ≡ₚ k → List.filter f l ≡ₚ List.filter f k.
Proof.
  induction 1 as [|x l k _ IH|x y l|l k m _ IH1 _ IH2]; cbn; [done| | |by etrans].
  - destruct (f x); [by rewrite IH|done].
  - destruct (f x), (f y); try done. apply Permutation_swap.
Qed.

(** The body of a transfer: every record but the SOAs, once each. *)
Lemma axfr_body_perm (rs : Zone) :
  concat ((fun owner => List.filter (fun r => negb (DnsRecord.is_SOA r)) (default [] (rs !! owner)))
    <$> sorted_names rs) ≡ₚ
  List.filter (fun r => negb (DnsRecord.is_SOA r)) (values_flatten rs).
Proof.
  unfold values_flatten. rewrite list_filter_concat. apply concat_perm.
  rewrite sorted_names_perm, hm_iter_perm, <- !list_fmap_compose.
  apply Permutation_refl'. apply list_fmap_ext. intros i [k v] Hkv. cbn.
  apply list_elem_of_lookup_2, elem_of_map_to_list in Hkv. by rewrite Hkv.
Qed.

(** A zone transfer is complete and framed: between the zone's SOA at both
    ends it holds every other record exactly once (a permutation of the zone), by
    owner name in byte order, which does not depend on the iteration order of the
    zone's map. *)
Theorem axfr_complete (rs : Zone) (soa : DnsRecord.t) :
  zone_soa rs = Some soa →
  ∃ body, axfr_records rs = [soa] ++ body ++ [soa] ∧
    body ≡ₚ List.filter (fun r => negb (DnsRecord.is_SOA r)) (values_flatten rs) ∧
    soa ∈ values_flatten rs ∧
    ∀ names, StronglySorted bytes_le names → names ≡ₚ (map_to_list rs).*1 →
      body = concat ((fun owner =>
        List.filter (fun r => negb (DnsRecord.is_SOA r)) (default [] (rs !! owner))) <$> names).
Proof.
  intros Hs. unfold axfr_records. rewrite Hs. eexists. split; [reflexivity|]. split_and!.
  - apply axfr_body_perm.
  - unfold zone_soa in Hs. by apply find_Some_elem in Hs as [? _].
  - intros names Hn Hp. by rewrite (sorted_names_canonical rs names).
Qed.

(** C34: zone data reaches authorised clients only: a reply to a transfer request
    is a REFUSED message with the question and no record in any section unless the ACL allows
    the client; an allowed client gets the transfer records of the zone it asked about as the
    answer section, and nothing else; and a query of another type is left to the normal path,
    the state untouched. *)
Theorem axfr_authorized `{Unicode} (shard : nat) (req : bytes) (client : IpAddr) (s : ServerState)
    (o : option bytes) (s' : ServerState) :
  try_axfr shard req client s = Ok (o, s') →
  match o with
  | None => s' = s
  | Some b =>
      ∃ request q p, from_bytes req = Ok request ∧ head (questions request) = Some q ∧
        qtype q = DnsRecord.TYPE_AXFR ∧ b = to_bytes p ∧
        h_id (header p) = h_id (header request) ∧
        questions p = questions request ∧ authorities p = [] ∧ additionals p = [] ∧
        (is_allowed (st_axfr_acl s) client = Ok false ∧ answers p = [] ∧ rcode p = 5%Z ∨
         is_allowed (st_axfr_acl s) client = Ok true ∧
           match ZoneSet.find (st_zones s) (to_lowercase (qname q)) with
           | None => answers p = [] ∧ rcode p = 3%Z
           | Some zone => answers p = axfr_records (records zone) ∧ rcode p = 0%Z
           end)
  end.
Proof.
  assert (∀ request rc, rc = 5%Z ∨ rc = 3%Z → rcode (synth_response request [] rc) = rc) as Hrc.
  { intros request rc Hrc. unfold rcode. cbn [synth_response header h_flags].
    change FLAG_RD with (2 ^ 8)%Z. rewrite land_bit by lia.
    destruct Hrc as [-> | ->]; by destruct (Z.testbit _ 8). }
  unfold try_axfr. destruct (from_bytes req) as [request|e|] eqn:Hp; [|by intros [= <- <-]|done].
  destruct (head (questions request)) as [q|] eqn:Hq; [|by intros [= <- <-]].
  destruct (Z.eqb_spec (qtype q) DnsRecord.TYPE_AXFR) as [Hty|]; cbn [negb]; [|by intros [= <- <-]].
  cbn [inc st_axfr_acl]. intros Hr. apply bind_Ok in Hr as (al & Hal & Hr). destruct al; cbn [negb] in Hr.
  - cbn [st_zones inc] in Hr.
    destruct (ZoneSet.find (st_zones s) (to_lowercase (qname q))) as [zone|] eqn:Hz;
      simplify_eq; eexists request, q, _; (split_and!; [done..|]); right; rewrite ?Hz;
      (split; [done|]); (split; [done|]); [|by apply Hrc; right].
    unfold rcode. cbn [header h_flags]. change FLAG_RD with (2 ^ 8)%Z. rewrite land_bit by lia.
    by destruct (Z.testbit _ 8).
  - simplify_eq. eexists request, q, _. split_and!; [done..|]. left. split_and!; [done..|].
    apply Hrc. by left.
Qed.

End Axfr.

(** ** Witnesses *)

Definition sample_question : DnsQuestion := mkQuestion (str "a.b") 1 1.
Definition sample_a : DnsRecord.t := DnsRecord.A (str "a.b") [192; 0; 2; 1]%Z 60.
Definition sample_response : DnsPacket :=
  mkPacket (mkHeader 7 33152 1 1 0 0) [sample_question] [sample_a] [] [].
Definition sample_request : DnsPacket := mkPacket (mkHeader 9 256 1 0 0 0) [sample_question] [] [] [].
Definition sample_ctx : ForwardCtx :=
  mkForwardCtx sample_request (to_bytes sample_request) (str "a.b") 1
    (mkSocketAddr (V4 [192; 0; 2; 53]%Z) 53) Udp.

Definition sample_soa : DnsRecord.t :=
  DnsRecord.SOA (str "b") (str "ns.b") (str "admin.b") 1 2 3 4 5 60.
Definition sample_zone : Zone := {[ str "b" := [sample_soa]; str "a.b" := [sample_a] ]}.
Definition sample_zones : ZoneSet.t := ZoneSet.from_single (str "b") sample_zone.
Definition sample_state : ServerState := authoritative sample_zones.

Lemma replay_for_client_witness :
  from_bytes (to_bytes sample_response) = Ok sample_response ∧
  ∃ b, replay (to_bytes sample_response) sample_request Tcp = Ok b ∧ take 2 b = [0; 9]%Z ∧
    drop 2 b = drop 2 (to_bytes sample_response).
Proof.
  assert (from_bytes (to_bytes sample_response) = Ok sample_response) as Hp by (vm_compute; reflexivity).
  split; [exact Hp|].
  destruct (replay_for_client (to_bytes sample_response) sample_request sample_response Hp) as [Ht _].
  exact Ht.
Defined.

Lemma forwarded_response_lifetime_witness :
  ∃ s', @finish_forward ascii_unicode list_iter 5 0 sample_ctx (Ok (to_bytes sample_response)) sample_state
      = Ok (to_bytes sample_response, s') ∧
    ((@Cache_ops.get ascii_unicode (str "a.b") 1 6 (st_cache s')).1 = Some (to_bytes sample_response)) ∧
    ((@Cache_ops.get ascii_unicode (str "a.b") 1 (5 + from_secs 60) (st_cache s')).1 = None).
Proof.
  destruct (@forwarded_response_lifetime ascii_unicode list_iter 5 0 sample_ctx
    (to_bytes sample_response) sample_response 60 sample_state) as (s' & Hf & Hg & _).
  - vm_compute. reflexivity.
  - vm_compute. reflexivity.
  - discriminate.
  - exists s'. split; [exact Hf|]. split; [exact (Hg 6%Z)|exact (Hg (5 + from_secs 60)%Z)].
Defined.

(** The one record of the answer is signed, and the signature validates a day later. *)
Definition zone_key : SigningKey := mkSigningKey (str "b") 257 15 [1; 2; 3]%Z [1; 2; 3]%Z.

Lemma apply_dnssec_signs_witness :
  ∃ sigs sig, @apply_dnssec ascii_unicode list_iter toy_ed25519 sample_response sample_zones (str "a.b") 1
      (mkKeys [zone_key]) 1000 = Ok (with_answers sample_response (sample_a :: sigs)) ∧
    length sigs = 1 ∧ sig ∈ sigs ∧
    @validate toy_ed25519 (as_u32 87400) (dnskey_record zone_key 3600) sig [sample_a] = true.
Proof.
  destruct (@apply_dnssec_signs ascii_unicode list_iter toy_ed25519 (Some [1; 2; 3]%Z)
    zone_key sample_response sample_zones (mkAuthZone (str "b") sample_zone)
    (str "a.b") 1 1000) as (sigs & Hs & Hl & Hv).
  - vm_compute. reflexivity.
  - vm_compute. reflexivity.
  - repeat (constructor; [width_lia|]). constructor.
  - vm_compute. reflexivity.
  - apply name_okb_ok. vm_compute. reflexivity.
  - vm_compute. reflexivity.
  - discriminate.
  - discriminate.
  - discriminate.
  - destruct (Hv (str "a.b") 1%Z) as (sig & Hin & _ & Hval); [discriminate|].
    exists sigs, sig. split; [exact Hs|]. split; [rewrite Hl; vm_compute; reflexivity|]. split; [exact Hin|].
    apply (Hval); [|lia]. split.
    + repeat constructor.
    + split; [apply name_okb_ok; vm_compute; reflexivity|vm_compute; reflexivity].
    + apply (bool_decide_unpack (STAR ∉ tail (split_on DOT (str "a.b")))). vm_compute. exact I.
    + vm_compute. reflexivity.
    + vm_compute. reflexivity.
Defined.

Lemma axfr_complete_witness :
  @zone_soa list_iter sample_zone = Some sample_soa ∧
  ∃ body, @axfr_records list_iter sample_zone = [sample_soa] ++ body ++ [sample_soa].
Proof.
  assert (@zone_soa list_iter sample_zone = Some sample_soa) as Hs by (vm_compute; reflexivity).
  split; [exact Hs|].
  destruct (@axfr_complete list_iter sample_zone sample_soa Hs) as (body & Hb & _).
  exists body. exact Hb.
Defined.

(** A transfer request for [b], which the deny-all ACL of the state refuses. *)
Definition axfr_request : bytes :=
  to_bytes (mkPacket (mkHeader 9 0 1 0 0 0) [mkQuestion (str "b") 252 1] [] [] []).

Lemma axfr_authorized_witness :
  ∃ b s' p, @try_axfr ascii_unicode list_iter 0 axfr_request (V4 [10; 0; 0; 1]%Z) sample_state = Ok (Some b, s') ∧
    b = to_bytes p ∧ answers p = [] ∧ authorities p = [] ∧ additionals p = [] ∧ rcode p = 5%Z.
Proof.
  destruct (@try_axfr ascii_unicode list_iter 0 axfr_request (V4 [10; 0; 0; 1]%Z) sample_state)
    as [[[b|] s']|e|] eqn:Ht; [|vm_compute in Ht; discriminate..].
  destruct (@axfr_authorized list_iter ascii_unicode _ _ _ _ _ _ Ht)
    as (request & q & p & _ & _ & _ & Hb & _ & _ & Hu & Hd & [(_ & Ha & Hr)|(Hal & _)]).
  - exists b, s', p. split; [reflexivity|]. split; [exact Hb|]. split; [exact Ha|].
    split; [exact Hu|]. split; [exact Hd|exact Hr].
  - vm_compute in Hal. discriminate.
Defined.
