(* ===== verification/Reply.v ===== *)
(** * Every reply can be decoded

    The composition of the resolver, the signer, DNS64 and the encoder: from a
    configuration whose zones, keys and prefix the wire format can carry
    ([servable]), every message the server makes itself, whatever the query, is
    one a client decodes to exactly the packet that was meant: local answers,
    signed answers, DNSKEY answers, synthesised addresses, negative answers,
    refusals, failures and zone transfers. Over UDP the client decodes that packet
    or, when it is over the size the client advertised, the same with TC set and
    no records. *)

From stdpp Require Import sorting.
From S2P Require Import Prelude RustStd Message Packet Encoder Wire Zones ZoneFile Resolver Cache RateLimit.
From S2P Require Import Acl Blocklist Metrics Dnssec Net Forwarder Recursive State Pipeline Policy.

(** ** What the wire can carry *)

(** A string that is a name of the wire format. *)
Definition good_name (n : bytes) : Prop := wf_string n ∧ name_ok n.

Section Servable.
Context `{Unicode}.

(** A zone record that can be sent, and whose alias can be followed. *)
Definition servable_record (r : DnsRecord.t) : Prop :=
  encodable_record r ∧
  match r with DnsRecord.CNAME _ alias _ => good_name (to_lowercase alias) | _ => True end.

(** At most 32000 records at a name: with a chain of sixteen aliases and a
    signature for each record the answer count still fits its 16 bits. *)
Definition servable_node (rs : list DnsRecord.t) : Prop :=
  Forall servable_record rs ∧ (Z.of_nat (length rs) <= 32000)%Z.

Definition servable_zone (z : AuthZone) : Prop :=
  good_name (origin z) ∧ map_Forall (fun _ => servable_node) (records z).

Definition servable_key (k : SigningKey) : Prop :=
  good_name (zone_name k) ∧ is_u16 (sk_flags k) ∧ is_u8 (sk_algorithm k) ∧
  wf_bytes (public_key k) ∧ (Z.of_nat (length (public_key k)) < 60000)%Z.

Record servable (s : ServerState) : Prop := {
  sv_zones : Forall servable_zone (st_zones s);
  sv_keys : ∀ ks, st_dnssec_keys s = Some ks →
    Forall servable_key (keys ks) ∧ (Z.of_nat (length (keys ks)) <= 32000)%Z;
  sv_prefix : ∀ prefix, st_dns64_prefix s = Some prefix → wf_ipv6 prefix;
}.

(** A query that can be encoded and whose name is still a name in lower case. *)
Definition servable_request (request : DnsPacket) : Prop :=
  encodable request ∧ ∀ q, head (questions request) = Some q → good_name (to_lowercase (qname q)).

End Servable.

(** ** Names in lower case *)

Lemma wf_string_lower s : wf_bytes s → is_ascii s = true → wf_string (ascii_lower <$> s).
Proof.
  intros Hw Ha. apply wf_string_ascii; [|by apply is_ascii_lower].
  apply Forall_fmap. unfold is_ascii in Ha. rewrite forallb_forall in Ha.
  apply Forall_forall. intros c Hc. unfold wf_bytes in Hw. rewrite Forall_forall in Hw.
  specialize (Hw c Hc). apply list_elem_of_In, Ha in Hc. cbn. unfold ascii_lower, is_u8 in *.
  case_match; lia.
Qed.

(** Lower case keeps ASCII names good: the servable names of an ASCII zone are
    all its names. *)
Lemma good_name_lower `{Unicode} n : is_ascii n = true → good_name n → good_name (to_lowercase n).
Proof.
  intros Ha ((Hw & _) & Hn). rewrite to_lowercase_ascii by done.
  split; [by apply wf_string_lower|]. destruct Hn as [->|[Hl Hlen]]; [by left|right].
  rewrite split_on_fmap, length_fmap by apply ascii_lower_dot. split; [|done].
  apply Forall_fmap, Forall_forall. intros l Hin. rewrite Forall_forall in Hl.
  destruct (Hl l Hin) as (Hne & H63 & Hdot & _). cbn. split_and!.
  - by destruct l.
  - by rewrite length_fmap.
  - intros (c & Hc & Hcl)%list_elem_of_fmap. pose proof (ascii_lower_dot c) as Hd.
    rewrite <- Hc, Z.eqb_refl in Hd. symmetry in Hd. apply Z.eqb_eq in Hd. by subst c.
  - apply wf_string_lower; [by eapply split_on_elem_bytes|].
    unfold is_ascii in *. apply forallb_forall. intros c Hc%list_elem_of_In.
    rewrite forallb_forall in Ha. revert c Hc. rewrite <- Forall_forall.
    eapply split_on_elem_bytes, Hin. apply Forall_forall. intros c Hc. by apply Ha, list_elem_of_In.
Qed.

(** ** The sections of an answer *)

Lemma len_u16_length {A} (l : list A) : (Z.of_nat (length l) < 65536)%Z → len_u16 l = Z.of_nat (length l).
Proof. intros Hl. unfold len_u16. apply as_u16_small. width_lia. Qed.

Lemma encodable_with_domain r d :
  good_name d → encodable_record r → encodable_record (DnsRecord.with_domain r d).
Proof.
  intros [Hs Hn] (Hw & Hd & Hr & Hz). split_and!; [by apply wf_with_domain| | |]; by destruct r.
Qed.

Lemma encodable_opt u : is_u16 u → encodable_record (DnsRecord.OPT u).
Proof.
  intros Hu. split_and!; [|by left|done|done]. split_and!; [apply wf_string_nil|by vm_compute|done].
Qed.

(** A packet whose counts are taken from its sections. *)
Lemma encodable_packet h qs an au ad :
  is_u16 (h_id h) → is_u16 (h_flags h) → h_questions h = len_u16 qs → h_answers h = len_u16 an →
  h_authorities h = len_u16 au → h_additionals h = len_u16 ad →
  Forall encodable_question qs → Forall encodable_record an → Forall encodable_record au →
  Forall encodable_record ad →
  (Z.of_nat (length qs) < 65536)%Z → (Z.of_nat (length an) < 65536)%Z →
  (Z.of_nat (length au) < 65536)%Z → (Z.of_nat (length ad) < 65536)%Z →
  encodable (mkPacket h qs an au ad).
Proof.
  intros Hid Hfl H1 H2 H3 H4 Hq Ha Hu Hd L1 L2 L3 L4.
  unfold encodable, counts_ok, wf_header. cbn [header questions answers authorities additionals].
  rewrite H1, H2, H3, H4, !len_u16_length by done. split_and!; (done || width_lia).
Qed.

Lemma encodable_edns_echo request : Forall encodable_record (edns_echo request) ∧ length (edns_echo request) ≤ 1.
Proof.
  unfold edns_echo, MAX_UDP_SIZE, MAX_EDNS_UDP. destruct (edns_udp_size request) as [u|]; [|split; [constructor|cbn; lia]].
  split; [|cbn; lia]. apply Forall_singleton, encodable_opt. width_lia.
Qed.

(** Proves that a list of machine width arithmetic side conditions holds. *)
Ltac counts := cbn [length]; rewrite ?length_app, ?length_fmap; cbn [length]; lia.

Section Answers.
Context `{UNI : Unicode} (zones : ZoneSet.t).
Hypothesis Hzones : Forall servable_zone zones.

Lemma find_servable name z : ZoneSet.find zones name = Some z → servable_zone z.
Proof. intros [Hin _]%find_Some_elem. rewrite Forall_forall in Hzones. by apply Hzones. Qed.

Lemma lookup_entry (rs : Zone) name l : lookup rs name = Some l → ∃ k, rs !! k = Some l.
Proof.
  unfold lookup. destruct (rs !! name) eqn:Hn; [intros [= <-]; eauto|].
  rewrite lookup_wildcard_ancestors. pose proof (find_map_ancestors rs name) as Hf.
  destruct (find_map _ _); [|done]. intros [= <-]. destruct Hf as (s & _ & Hs & _). eauto.
Qed.

Lemma node_servable name rs : node zones name = Some rs → servable_node rs.
Proof.
  unfold node. destruct (ZoneSet.find zones name) as [z|] eqn:Hz; cbn; [|done].
  intros (k & Hk)%lookup_entry. apply find_servable in Hz as [_ Hrs]. by apply Hrs in Hk.
Qed.

Lemma direct_answers_encodable qt name :
  good_name name →
  Forall encodable_record (direct_answers zones qt name) ∧
  (Z.of_nat (length (direct_answers zones qt name)) <= 32000)%Z.
Proof.
  intros Hn. unfold direct_answers. destruct (node zones name) as [rs|] eqn:Hr; [|split; [constructor|done]].
  apply node_servable in Hr as [Hrs Hlen]. split.
  - apply Forall_fmap, Forall_forall. intros r [Hin _]%list_elem_of_In%filter_In.
    rewrite Forall_forall in Hrs. apply list_elem_of_In, Hrs in Hin as [Hin _]. by apply encodable_with_domain.
  - rewrite length_fmap. pose proof (List.filter_length_le (of_type qt) rs). lia.
Qed.

Lemma alias_servable qt name alias ttl :
  good_name name → alias_of zones qt name = Some (alias, ttl) →
  encodable_record (DnsRecord.CNAME name alias ttl) ∧ good_name (to_lowercase alias).
Proof.
  intros Hn. unfold alias_of. destruct (node zones name) as [rs|] eqn:Hr; cbn; [|done].
  apply node_servable in Hr as [Hrs _]. case_bool_decide; [|done].
  destruct (List.find _ rs) as [r|] eqn:Hf; cbn; [|done].
  apply find_Some_elem in Hf as [Hin _]. rewrite Forall_forall in Hrs. apply Hrs in Hin as [He Ha].
  destruct r; try done. intros [= -> ->]. split; [|done].
  by apply (encodable_with_domain (DnsRecord.CNAME domain alias ttl) name).
Qed.

Lemma chain_servable qt name cn last :
  CnameChain zones qt name cn last → good_name name → Forall encodable_record cn ∧ good_name last.
Proof.
  induction 1 as [name|name alias ttl cn last Ha _ IH]; intros Hn; [by split; [constructor|]|].
  apply alias_servable in Ha as [Hr Hg]; [|done]. apply IH in Hg as [Hcn Hl]. split; [by constructor|done].
Qed.

Lemma chase_question_encodable request :
  (∀ q, head (questions request) = Some q → good_name (to_lowercase (qname q))) →
  let ans := cs_answers (chase_question request zones) in
  Forall encodable_record ans ∧ (Z.of_nat (length ans) <= 32016)%Z.
Proof.
  intros Hg. unfold chase_question. destruct (head (questions request)) as [q|]; [|split; [constructor|done]].
  cbn zeta. specialize (Hg q eq_refl).
  edestruct (chase_answers zones (qtype q) MAX_CNAME_CHAIN) as (cn & last & Hch & Hlen & _ & _ & -> & _);
    [cbn [cs_seen]; set_solver|].
  cbn [cs_name cs_answers] in *. apply chain_servable in Hch as [Hcn Hl]; [|done].
  destruct (direct_answers_encodable (qtype q) last Hl) as [Hd Hdl]. rewrite app_nil_l.
  unfold MAX_CNAME_CHAIN in *. split.
  - apply Forall_app. split; [done|]. by destruct (_ <? _).
  - rewrite length_app. destruct (_ <? _); cbn [length]; lia.
Qed.

Lemma values_servable `{HashIter} z : servable_zone z → Forall encodable_record (values_flatten (records z)).
Proof.
  intros [_ Hrs]. apply Forall_forall. intros r Hr. unfold values_flatten in Hr.
  apply list_elem_of_In, in_concat in Hr as (l & Hl & Hin).
  apply list_elem_of_In, list_elem_of_fmap in Hl as ([k l'] & -> & Hl).
  rewrite hm_iter_perm in Hl. apply elem_of_map_to_list, Hrs in Hl as [Hl _].
  rewrite Forall_forall in Hl. apply Hl. by apply list_elem_of_In.
Qed.

Lemma zone_soa_encodable `{HashIter} z soa :
  servable_zone z → zone_soa (records z) = Some soa → encodable_record soa.
Proof.
  intros Hz%values_servable [Hin _]%find_Some_elem. rewrite Forall_forall in Hz. by apply Hz.
Qed.

Lemma chase_question_zone request z :
  cs_zone (chase_question request zones) = Some z → servable_zone z.
Proof.
  destruct (head (questions request)) as [q|] eqn:Hq; [|unfold chase_question; by rewrite Hq].
  destruct (chase_question_facts request zones q Hq) as (_ & _ & Hs & Hn).
  destruct (ZoneSet.find zones (to_lowercase (qname q))) as [z0|] eqn:Hf.
  - rewrite (Hs z0) by done. intros [= <-]. by eapply find_servable.
  - destruct Hn as [-> _]; done.
Qed.

(** The resolver's answer is a packet the wire carries. *)
Lemma build_response_encodable `{HashIter} request :
  servable_request request → encodable (build_response request zones).
Proof.
  intros [((Hid & _ & Hq16 & _) & (Hqc & _) & Hq & _) Hg].
  destruct (chase_question_encodable request Hg) as [Ha Hl].
  pose proof (chase_rcode_values request zones) as Hv. unfold build_response. cbv zeta.
  destruct (encodable_edns_echo request) as [Hadd Hl4].
  apply encodable_packet; cbn [h_id h_flags h_questions h_answers h_authorities h_additionals]; try done;
    try lia; try (width_lia; done).
  - by apply response_flags_bits.
  - unfold negative_soa. case_bool_decide; [|constructor].
    destruct (cs_zone (chase_question request zones)) as [z|] eqn:Hz; cbn; [|constructor].
    apply chase_question_zone in Hz. destruct (zone_soa (records z)) as [soa|] eqn:Hs; [|constructor].
    apply Forall_singleton. by eapply zone_soa_encodable.
  - by destruct (negative_soa _).
Qed.

Lemma build_response_rcode `{HashIter} request q :
  head (questions request) = Some q →
  let p := build_response request zones in
  rcode p = (if node zones (to_lowercase (qname q)) then 0%Z else RCODE_NXDOMAIN) ∧
  (is_Some (node zones (to_lowercase (qname q))) → flag 10 p = true).
Proof.
  intros Hq. destruct (chase_question_facts request zones q Hq) as (Hr & Haa & _).
  pose proof (chase_rcode_values request zones) as Hv.
  cbv zeta. unfold rcode, flag, build_response. cbn [header h_flags].
  destruct (response_flags_bits (h_flags (header request)) _
    (match negative_soa (chase_question request zones) with
     | Some _ => true | None => cs_authoritative (chase_question request zones) end) Hv) as (-> & _ & -> & _).
  split; [done|]. intros [rs Hn]. rewrite Haa, Hn. by destruct (negative_soa _).
Qed.

End Answers.

(** ** Signatures and synthesised addresses *)

Lemma split_on_length s : length s + 1 = list_sum ((fun l => length l + 1) <$> split_on DOT s).
Proof.
  induction s as [|c s IH]; [done|]. cbn [split_on].
  destruct (c =? DOT)%Z; [exact (f_equal S IH)|].
  destruct (split_on DOT s); [cbn in IH; lia|exact (f_equal S IH)].
Qed.

Lemma name_ok_length n : name_ok n → length n < 4096.
Proof.
  intros [->|[Hl Hlen]]; [cbn; lia|]. pose proof (split_on_length n) as Hs.
  assert (list_sum ((fun l => length l + 1) <$> split_on DOT n) ≤ 64 * length (split_on DOT n)) as Hb.
  { clear Hs Hlen. induction Hl as [|l ls (_ & H63 & _) _ IH]; [done|].
    assert (length l + 1 ≤ 64) as H64 by lia. pose proof (Nat.add_le_mono _ _ _ _ H64 IH) as Hadd.
    cbn [length]. rewrite Nat.mul_succ_r, Nat.add_comm. exact Hadd. }
  unfold MAX_POINTER_JUMPS in Hlen. lia.
Qed.

Lemma encodable_dnskey k ttl : servable_key k → is_u32 ttl → encodable_record (dnskey_record k ttl).
Proof.
  intros ([Hs Hn] & Hf & Ha & Hp & Hl) Ht. unfold dnskey_record. split_and!; try done.
  cbn [rdata_size]. lia.
Qed.

Lemma key_tag_u16 k : servable_key k → is_u16 (key_tag k).
Proof.
  intros (_ & Hf & Ha & Hp & Hl). apply key_tag_words.
  - unfold dnskey_rdata. apply Forall_app. split; [apply Forall_cons; split; [|apply Forall_singleton]; unfold as_u8; width_lia|].
    apply Forall_app. split; [|done]. repeat constructor; (done || width_lia).
  - unfold dnskey_rdata. rewrite !length_app, length_u16_to_be_bytes. cbn [length]. lia.
Qed.

Lemma list_min_u32 l : Forall is_u32 l → is_u32 (default 3600%Z (list_min l)).
Proof.
  intros Hl. destruct (list_min l) as [m|] eqn:Hm; cbn; [|width_lia].
  apply list_min_spec in Hm as [Hin _]. rewrite Forall_forall in Hl. by apply Hl.
Qed.

Section Signed.
Context `{UNI : Unicode, ITER : HashIter, ED : Ed25519}.
(** An Ed25519 signature is a string of 64 bytes (RFC 8032, section 5.1.6). *)
Hypothesis ed_sign_size : ∀ kp msg, wf_bytes (ed_sign kp msg) ∧ length (ed_sign kp msg) = 64.

Lemma sign_rrset_encodable ks rs signer ttl inception expiration sig :
  Forall servable_key (keys ks) → Forall encodable_record rs → good_name signer →
  is_u32 ttl → is_u32 inception → is_u32 expiration →
  sign_rrset ks rs signer ttl inception expiration = Ok sig → encodable_record sig.
Proof.
  intros Hks Hrs [Hss Hsn] Ht Hi He. unfold sign_rrset.
  destruct (keys ks) as [|k ks'] eqn:Hk; cbn [head]; [done|]. apply Forall_cons in Hks as [Hk0 _].
  destruct (from_pkcs8 (private_key k)) as [kp|]; [|done].
  destruct rs as [|r rs]; [done|]. cbn [idx lookup list_lookup mbind res_bind].
  apply Forall_cons in Hrs as [((Hd & _) & Hdn & _) _]. intros [= <-].
  match goal with |- context [ed_sign kp ?m] => destruct (ed_sign_size kp m) as [Hw H64] end.
  assert (is_u16 (DnsRecord.record_type r)) as Hrt by (destruct r; vm_compute; split; congruence).
  pose proof (key_tag_u16 k Hk0) as Htag. destruct Hk0 as (_ & _ & Ha & _).
  split_and!; [|done|done|].
  - split_and!; [done|done|]. cbn. split_and!; try done. unfold label_count. width_lia.
  - apply name_ok_length in Hsn. cbn [rdata_size]. rewrite H64. lia.
Qed.

Lemma group_rrsets_from rs k g r : group_rrsets rs !! k = Some g → r ∈ g → r ∈ rs.
Proof.
  rewrite group_rrsets_lookup. cbn zeta. case_decide; [done|]. intros [= <-].
  rewrite list_elem_of_filter. by intros [_ Hr].
Qed.

Lemma sign_groups_encodable ks signer unix groups sigs :
  Forall servable_key (keys ks) → good_name signer → is_u32 unix →
  Forall (fun g => good_name g.1.1 ∧ Forall encodable_record g.2) groups →
  sign_groups ks signer unix groups = Ok sigs →
  Forall encodable_record sigs ∧ length sigs ≤ length groups.
Proof.
  intros Hks Hs Hu Hgs. revert sigs. induction Hgs as [|[[o ty] rs] gs [Ho Hrs] _ IH]; intros sigs;
    cbn [sign_groups]; [intros [= <-]; by split; [constructor|]|]. cbn [fst snd] in Ho, Hrs.
  destruct (sign_rrset ks rs signer _ unix (expiration_of unix)) as [sig|e|] eqn:Hsig; [| |done].
  - intros (l & Hl & [= <-])%bind_Ok. apply IH in Hl as [Hl Hn]. split; [|cbn [length]; lia].
    constructor; [|done]. apply encodable_with_domain; [done|].
    eapply sign_rrset_encodable, Hsig; try done; [|unfold expiration_of; width_lia].
    apply list_min_u32, Forall_fmap. eapply Forall_impl; [exact Hrs|]. by intros r ((_ & Ht & _) & _).
  - intros Hl%IH. cbn [length]. destruct Hl. split; [done|lia].
Qed.

(** No answer has more RRsets than records. *)
Lemma group_rrsets_size rs : size (group_rrsets rs) ≤ length rs.
Proof.
  induction rs as [|r rs IH] using rev_ind; [done|]. rewrite group_rrsets_app, length_app. cbn [length].
  destruct (group_rrsets rs !! _) as [g|] eqn:Hg; [rewrite map_size_insert_Some by done; lia|].
  rewrite map_size_insert_None by done. lia.
Qed.

Lemma groups_encodable rs :
  Forall encodable_record rs →
  Forall (fun g => good_name g.1.1 ∧ Forall encodable_record g.2) (hm_iter (group_rrsets rs)) ∧
  length (hm_iter (group_rrsets rs)) ≤ length rs.
Proof.
  intros Hrs. rewrite Forall_forall in Hrs. split.
  - apply Forall_forall. intros [k g] Hin. rewrite hm_iter_perm in Hin. apply elem_of_map_to_list in Hin.
    cbn [fst snd]. split.
    + pose proof (group_nonempty rs k g Hin) as Hne. destruct g as [|r g]; [done|].
      destruct (group_key rs k _ r Hin) as [<- _]; [by left|].
      destruct (Hrs r) as ((Hd & _) & Hn & _); [|done]. eapply group_rrsets_from; [done|by left].
    + apply Forall_forall. intros r Hr. by eapply Hrs, group_rrsets_from.
  - rewrite hm_iter_perm, length_map_to_list. apply group_rrsets_size.
Qed.

Lemma encodable_with_answers p ans :
  encodable p → Forall encodable_record ans → (Z.of_nat (length ans) < 65536)%Z →
  encodable (with_answers p ans).
Proof.
  intros ((Hid & Hfl & H1 & _ & H3 & H4) & (C1 & _ & C3 & C4) & Hq & _ & Hu & Hd) Hans Hl.
  unfold with_answers, encodable, counts_ok, wf_header. cbn [header questions answers authorities
    additionals h_id h_flags h_questions h_answers h_authorities h_additionals].
  rewrite len_u16_length by done. split_and!; (done || width_lia).
Qed.

(** A response whose answers are replaced, its authority section emptied and
    its flags changed within 16 bits. *)
Lemma encodable_replaced p flags ans :
  encodable p → is_u16 flags → Forall encodable_record ans → (Z.of_nat (length ans) < 65536)%Z →
  let h := header p in
  encodable (mkPacket (mkHeader (h_id h) flags (h_questions h) (len_u16 ans) 0 (h_additionals h))
    (questions p) ans [] (additionals p)).
Proof.
  intros ((Hid & _ & H1 & _ & _ & H4) & (C1 & _ & _ & C4) & Hq & _ & _ & Hd) Hfl Hans Hl.
  unfold encodable, counts_ok, wf_header. cbn [header questions answers authorities
    additionals h_id h_flags h_questions h_answers h_authorities h_additionals].
  rewrite len_u16_length by done. split_and!; (done || width_lia || constructor).
Qed.

Lemma apply_dnssec_encodable p zones qn qt ks unix p' :
  encodable p → (Z.of_nat (length (answers p)) <= 32016)%Z → Forall servable_zone zones →
  good_name (to_lowercase qn) → Forall servable_key (keys ks) →
  (Z.of_nat (length (keys ks)) <= 32000)%Z → is_u32 unix →
  apply_dnssec p zones qn qt ks unix = Ok p' → encodable p'.
Proof.
  intros Hp Hl Hz Hn Hks Hkl Hu. unfold apply_dnssec. cbv zeta.
  pose proof Hp as ((_ & Hfl & _) & _ & _ & Ha & _). destruct (_ && _ && _).
  - assert (Forall encodable_record (dnskey_records ks 3600)) as Hdk.
    { apply Forall_fmap. eapply Forall_impl; [exact Hks|]. intros k Hk. apply encodable_dnskey; [done|width_lia]. }
    assert (Z.of_nat (length (dnskey_records ks 3600)) <= 32000)%Z as Hdl
      by (unfold dnskey_records; by rewrite length_fmap).
    assert (encodable (dnskey_response p (dnskey_records ks 3600))) as Hr.
    { apply encodable_replaced; [done| |done|lia]. apply land_u16. apply lor_u16; [done|width_lia]. }
    destruct (sign_rrset _ _ _ _ _ _) as [sig|e|] eqn:Hs; [|by intros [= <-]|done]. intros [= <-].
    apply encodable_with_answers; [done| |rewrite length_app; cbn [length dnskey_response answers]; lia].
    apply Forall_app. split; [done|]. apply Forall_singleton.
    eapply sign_rrset_encodable, Hs; try done; unfold expiration_of; width_lia.
  - case_bool_decide; [by intros [= <-]|]. case_bool_decide as Hsg; [by intros [= <-]|].
    intros (sigs & Hsigs & Hp')%bind_Ok. case_bool_decide; [by injection Hp' as <-|]. injection Hp' as <-.
    destruct (ZoneSet.find zones (to_lowercase qn)) as [z|] eqn:Hf; [|done].
    destruct (find_servable zones Hz _ z Hf) as [Ho _].
    destruct (groups_encodable (answers p) Ha) as [Hg Hgl].
    apply sign_groups_encodable in Hsigs as [Hse Hsl]; try done.
    apply encodable_with_answers; [done|by apply Forall_app|]. rewrite length_app. lia.
Qed.

Lemma omap_length_le {A B} (f : A → option B) l : length (omap f l) ≤ length l.
Proof. induction l as [|x l IH]; [done|]. cbn. destruct (f x); cbn; lia. Qed.

Lemma apply_dns64_encodable p zones qn prefix :
  encodable p → Forall servable_zone zones → good_name (to_lowercase qn) → wf_ipv6 prefix →
  encodable (apply_dns64 p zones qn prefix).
Proof.
  intros Hp Hz [Hs Hn] [Hpl Hpb]. unfold apply_dns64. destruct (existsb _ _); [done|].
  destruct (ZoneSet.find zones (to_lowercase qn)) as [z|] eqn:Hf; [|done].
  destruct (records z !! to_lowercase qn) as [rs|] eqn:Hr; [|done]. cbv zeta. case_bool_decide; [done|].
  destruct (find_servable zones Hz _ z Hf) as [_ Hnode]. apply Hnode in Hr as [Hrs Hl].
  pose proof Hp as ((_ & Hfl & _) & _). apply encodable_replaced; [done| | |].
  - apply lor_u16; [|width_lia]. by apply land_u16.
  - apply Forall_forall. intros r (r0 & [Hin _]%list_elem_of_In%filter_In & Ho)%list_elem_of_omap.
    rewrite Forall_forall in Hrs. apply list_elem_of_In, Hrs in Hin as [((_ & Ht & Hw) & _) _].
    destruct r0; try done. cbn in Ho. injection Ho as <-. split_and!; [|done|done|done].
    split_and!; [done|done|]. cbn. destruct Hw as [Hwl Hwb]. split; [rewrite length_app, length_take; lia|].
    apply Forall_app. split; [by apply Forall_take|done].
  - pose proof (omap_length_le (synthesize_one prefix (to_lowercase qn)) (List.filter (of_type DnsRecord.TYPE_A) rs)).
    pose proof (List.filter_length_le (of_type DnsRecord.TYPE_A) rs). lia.
Qed.

(** ** The reply to a query *)

(** The bytes the client decodes to [p], or, over UDP, when [p] is over the
    negotiated size, to [p] truncated. *)
Definition delivers (t : Transport) (b : bytes) (p : DnsPacket) : Prop :=
  (from_bytes b = Ok p ∧ (t = Udp → length b ≤ udp_limit p)) ∨
  (t = Udp ∧ udp_limit p < length (to_bytes p) ∧ from_bytes b = Ok (truncated_packet p)).

Lemma encode_delivers p t : encodable p → delivers t (encode p t) p.
Proof.
  intros He. unfold delivers. destruct t; cbn [encode]; [|left; split; [by apply from_bytes_to_bytes|done]].
  unfold to_udp_bytes. destruct (Nat.leb_spec (length (to_bytes p)) (udp_limit p)).
  - left. split; [by apply from_bytes_to_bytes|done].
  - right. split_and!; [done..|]. by apply from_bytes_to_bytes, encodable_truncated.
Qed.

Lemma encodable_set_ra p : encodable p → encodable (set_ra p).
Proof.
  intros ((Hid & Hfl & Hr) & Hc & Hs). split; [|split; [exact Hc|exact Hs]].
  split; [done|]. split; [|done]. apply lor_u16; [done|]. unfold FLAG_RA. width_lia.
Qed.

Lemma encodable_synth request rc :
  encodable request → is_u16 rc → encodable (synth_response request [] rc).
Proof.
  intros ((Hid & Hfl & H1 & _) & (C1 & _) & Hq & _) Hrc. apply encodable_packet; cbn; try done;
    try (constructor; done).
  - repeat apply lor_u16; try done; unfold FLAG_RA, FLAG_RD; try width_lia. by apply land_u16.
  - rewrite <- C1. width_lia.
Qed.

Lemma decorate_encodable unix s q request p :
  servable s → servable_request request → head (questions request) = Some q → is_u32 unix →
  decorate unix s q (build_response request (st_zones s)) = Ok p → encodable p.
Proof.
  intros [Hz Hk Hpre] Hreq Hq Hu. pose proof (build_response_encodable (st_zones s) Hz request Hreq) as Hb.
  pose proof (proj2 Hreq q Hq) as Hn.
  destruct (chase_question_encodable (st_zones s) Hz request (proj2 Hreq)) as [_ Hl].
  unfold decorate. intros (p1 & Hp1 & [= <-])%bind_Ok.
  assert (encodable p1) as H1.
  { destruct (st_dnssec_keys s) as [ks|] eqn:Hks; [|by injection Hp1 as <-].
    destruct (Hk ks eq_refl) as [Hkk Hkl]. by eapply apply_dnssec_encodable, Hp1. }
  destruct (st_dns64_prefix s) as [prefix|] eqn:Hpx; [|done].
  destruct (_ =? _)%Z; [|done]. apply apply_dns64_encodable; [done..|by apply Hpre].
Qed.

(** The packet the first pass means to send for a query it answers itself. *)
Definition local_packet (unix : Z) (s : ServerState) (request : DnsPacket) : res string DnsPacket :=
  let ra p := if recursion_available s then set_ra p else p in
  match head (questions request) with
  | None => Ok (ra (build_response request (st_zones s)))
  | Some q =>
      if blocked s (qname q) then Ok (synth_response request [] RCODE_NXDOMAIN)
      else
        p ← decorate unix s q (build_response request (st_zones s));
        Ok (if node (st_zones s) (to_lowercase (qname q)) then ra p
            else if rd_set request then p else ra p)
  end.

(** The first pass takes the answer from the cache: the name has no node, the client
    asked for recursion, which is available, and there is a live entry. *)
Definition cached (now : Z) (s : ServerState) (request : DnsPacket) : bool :=
  match head (questions request) with
  | None => false
  | Some q =>
      let name := to_lowercase (qname q) in
      if node (st_zones s) name then false
      else rd_set request && recursion_available s
           && bool_decide (is_Some (Cache_ops.get name (qtype q) now (st_cache s)).1)
  end.

Lemma local_packet_encodable unix s request p :
  servable s → servable_request request → is_u32 unix → local_packet unix s request = Ok p → encodable p.
Proof.
  intros Hs Hr Hu. pose proof (build_response_encodable _ (sv_zones s Hs) request Hr) as Hb.
  assert (∀ p, encodable p → encodable (if recursion_available s then set_ra p else p)) as Hra.
  { intros p0 Hp0. destruct (recursion_available s); [by apply encodable_set_ra|done]. }
  unfold local_packet. destruct (head (questions request)) as [q|] eqn:Hq; [|intros [= <-]; by apply Hra].
  destruct (blocked s (qname q)).
  { intros [= <-]. apply encodable_synth; [apply Hr|unfold RCODE_NXDOMAIN; width_lia]. }
  intros (p1 & Hd & [= <-])%bind_Ok. eapply decorate_encodable in Hd; try done.
  destruct (node _ _); [by apply Hra|]. destruct (rd_set request); [done|by apply Hra].
Qed.

(** What the first pass returns for an admitted query that parses and whose answer
    is not cached. *)
Lemma resolve_local_packet now unix shard req client t s request :
  admitted now client s = true → from_bytes req = Ok request → cached now s request = false →
  ∃ r s', resolve_local now unix shard req client t s = Ok (r, s') ∧
    match r with
    | Ready b => ∃ p, local_packet unix s request = Ok p ∧ b = encode p t
    | Forward ctx => fc_request ctx = request ∧
        ∃ q, head (questions request) = Some q ∧ node (st_zones s) (to_lowercase (qname q)) = None
    | Drop => False
    end.
Proof.
  intros Ha Hp Hc. unfold resolve_local, local_packet, admitted, cached, blocked in *.
  cbn [inc st_limiter] in *. destruct (RateLimiter_ops.allow now client (st_limiter s)) as [ok l].
  cbn in Ha. subst ok. cbn [negb]. rewrite Hp. cbn [set_limiter inc st_zones].
  destruct (head (questions request)) as [q|] eqn:Hq.
  2:{ eexists _, _. split; [done|]. eexists. split; done. }
  cbn [set_limiter inc st_blocklist]. set (s1 := set_limiter l (inc Total shard s)).
  destruct (Blocklist_ops.is_active _ && Blocklist_ops.is_blocked _ _); [eexists _, _; split; [done|]; eexists; split; done|].
  change (decorate unix s1) with (decorate unix s). unfold local_answer.
  change (recursion_available s1) with (recursion_available s).
  destruct (decorate_Ok unix s q (build_response request (st_zones s))) as (p' & Hd & _).
  rewrite Hd. cbn [mbind res_bind]. fold (rcode (build_response request (st_zones s))).
  rewrite (proj1 (build_response_rcode (st_zones s) request q Hq)). fold (rd_set request).
  cbv zeta in Hc. destruct (node (st_zones s) (to_lowercase (qname q))) eqn:Hn; cbn [andb Z.eqb].
  { eexists _, _. split; [done|]. eexists. split; done. }
  change (RCODE_NXDOMAIN =? RCODE_NXDOMAIN)%Z with true. cbn [andb].
  destruct (rd_set request); cbn [andb] in Hc |- *; [|eexists _, _; split; [done|]; eexists; split; done].
  destruct (recursion_available s) eqn:Hav; cbn [andb] in Hc |- *; [|eexists _, _; split; [done|]; eexists; split; done].
  unfold resolve_unknown. change (st_cache s1) with (st_cache s).
  destruct (Cache_ops.get _ _ now (st_cache s)) as [[raw|] c]; [by apply bool_decide_eq_false in Hc; destruct Hc|].
  cbn [set_cache st_forward_rules st_recursive].
  destruct (ForwardRules.match_name _ _); [eexists _, _; split; [done|]; split; [done|by exists q]|].
  match goal with |- context [st_recursive ?x] => destruct (st_recursive x) end; eexists _, _; (split; [done|]).
  - split; [done|by exists q].
  - by exists p'.
Qed.

(** C4: every query the server answers by itself gets a reply that says what was
    meant: from a servable configuration, an admitted query not answered from the cache
    is either forwarded, which happens only for a name without a node, or answered with
    bytes that the client decodes to exactly the packet the pipeline built (the
    CNAME chain and records with their signatures, the DNSKEY set, the
    synthesised addresses, the negative answer with its SOA, or the blocked
    NXDOMAIN); over UDP, when that packet exceeds the client's size, to the same
    packet truncated. It is never dropped and never panics. *)
Theorem local_reply_decodes now unix shard client t s request :
  servable s → servable_request request → is_u32 unix →
  admitted now client s = true → cached now s request = false →
  ∃ r s', resolve_local now unix shard (to_bytes request) client t s = Ok (r, s') ∧
    match r with
    | Ready b => ∃ p, local_packet unix s request = Ok p ∧ delivers t b p
    | Forward ctx => fc_request ctx = request ∧
        ∃ q, head (questions request) = Some q ∧ node (st_zones s) (to_lowercase (qname q)) = None
    | Drop => False
    end.
Proof.
  intros Hs Hr Hu Ha Hc. pose proof (from_bytes_to_bytes request (proj1 Hr)) as Hp.
  destruct (resolve_local_packet now unix shard _ client t s request Ha Hp Hc) as (r & s' & He & Hm).
  exists r, s'. split; [done|]. destruct r; [|done..].
  destruct Hm as (p & Hl & ->). exists p. split; [done|].
  by eapply encode_delivers, local_packet_encodable.
Qed.

End Signed.

(** ** Replayed replies *)

(** The packet with the counts its sections have. *)
Definition recount (p : DnsPacket) : DnsPacket :=
  let h := header p in
  mkPacket (mkHeader (h_id h) (h_flags h) (len_u16 (questions p)) (len_u16 (answers p))
    (len_u16 (authorities p)) (len_u16 (additionals p)))
    (questions p) (answers p) (authorities p) (additionals p).

(** The encoder takes the counts from the sections, so that a stale count in the
    header structure does no harm. *)
Lemma to_udp_bytes_recount p : to_udp_bytes (recount p) = to_udp_bytes p.
Proof. done. Qed.

Lemma recount_delivers p : encodable (recount p) → delivers Udp (to_udp_bytes p) (recount p).
Proof. rewrite <- to_udp_bytes_recount. apply (encode_delivers (recount p) Udp). Qed.

Lemma replace_opt_encodable u rs rs' :
  is_u16 u → Forall encodable_record rs → replace_opt (DnsRecord.OPT u) rs = Some rs' →
  Forall encodable_record rs' ∧ length rs' = length rs.
Proof.
  intros Hu Hrs. revert rs'. induction Hrs as [|r rs Hr Hrs IH]; intros rs'; cbn [replace_opt]; [done|].
  destruct (DnsRecord.is_OPT r).
  { intros [= <-]. split; [|done]. constructor; [by apply encodable_opt|done]. }
  destruct (replace_opt _ rs) as [l|]; cbn; [|done]. intros [= <-].
  destruct (IH l eq_refl) as [Hl Hlen]. split; [by constructor|cbn; by rewrite Hlen].
Qed.

Lemma align_edns_additionals p request :
  Forall encodable_record (additionals p) →
  Forall encodable_record (additionals (align_edns p request)) ∧
  length (additionals (align_edns p request)) ≤ S (length (additionals p)).
Proof.
  intros Had. unfold align_edns, MAX_UDP_SIZE, MAX_EDNS_UDP.
  destruct (edns_udp_size request) as [u|].
  - destruct (replace_opt _ _) as [ad|] eqn:Hr; cbn [with_additionals additionals].
    + apply replace_opt_encodable in Hr as [Hr ->]; [split; [done|lia]|width_lia|done].
    + split; [|rewrite length_app; cbn; lia]. apply Forall_app. split; [done|].
      apply Forall_singleton, encodable_opt. width_lia.
  - cbn [with_additionals additionals]. split.
    + rewrite Forall_forall in *. intros r [Hin _]%list_elem_of_In%filter_In. by apply Had, list_elem_of_In.
    + pose proof (List.filter_length_le (fun r => negb (DnsRecord.is_OPT r)) (additionals p)). lia.
Qed.

(** The reply to this client: the response with its identifier and its EDNS size. *)
Definition replayed_packet (p request : DnsPacket) : DnsPacket :=
  recount (align_edns (with_id p (h_id (header request))) request).

(** A parsed packet that can be written again: the questions and records the parser kept
    are encodable and fit their counts. The counts of its header are not asked about: the parser skips
    records of types it does not model, and leaves the header as it found it. *)
Record rewritable (p : DnsPacket) : Prop := {
  rw_header : wf_header (header p);
  rw_questions : Forall encodable_question (questions p);
  rw_answers : Forall encodable_record (answers p);
  rw_authorities : Forall encodable_record (authorities p);
  rw_additionals : Forall encodable_record (additionals p);
  rw_counts : (Z.of_nat (length (questions p)) < 65536)%Z ∧ (Z.of_nat (length (answers p)) < 65536)%Z ∧
    (Z.of_nat (length (authorities p)) < 65536)%Z ∧ (Z.of_nat (length (additionals p)) < 65535)%Z;
}.

Lemma encodable_rewritable p :
  encodable p → (Z.of_nat (length (additionals p)) < 65535)%Z → rewritable p.
Proof.
  intros ((H0 & Hfl & H1 & H2 & H3 & H4) & (C1 & C2 & C3 & C4) & Hq & Ha & Hu & Hd) Hl.
  split; [done..|]. split_and!; width_lia.
Qed.

Lemma replayed_encodable p request :
  rewritable p → is_u16 (h_id (header request)) → encodable (replayed_packet p request).
Proof.
  intros [(_ & Hfl & _) Hq Ha Hu Hd (C1 & C2 & C3 & C4)] Hid.
  set (p' := with_id p (h_id (header request))).
  destruct (align_edns_rest p' request) as (Eh & Eq & Ea & Eu).
  destruct (align_edns_additionals p' request Hd) as [Hd' Hl']. cbn [with_id additionals p'] in Hl'.
  unfold replayed_packet, recount. fold p'. cbv zeta. rewrite Eh, Eq, Ea, Eu.
  apply encodable_packet; try done; cbn [p' with_id questions answers authorities]; width_lia.
Qed.

(** Patching the identifier of an encoded packet encodes the packet with that
    identifier. *)
Lemma patch_to_bytes p id : patch_transaction_id (to_bytes p) id = to_bytes (with_id p id).
Proof.
  destruct (to_bytes_sections p (header (with_id p id))) as (s & Hs & Hs').
  transitivity (header_bytes (with_id p id) ++ s); [|symmetry; exact Hs'].
  unfold patch_transaction_id. by rewrite Hs.
Qed.

Section Cached.
Context `{UNI : Unicode, ITER : HashIter, ED : Ed25519}.

(** A query for a name without a node that finds its answer in the cache. *)
Lemma resolve_local_hit now unix shard req client t s request q raw :
  admitted now client s = true → from_bytes req = Ok request → head (questions request) = Some q →
  blocked s (qname q) = false → node (st_zones s) (to_lowercase (qname q)) = None →
  rd_set request = true → recursion_available s = true →
  (Cache_ops.get (to_lowercase (qname q)) (qtype q) now (st_cache s)).1 = Some raw →
  no_panic (from_bytes raw) →
  ∃ b s', resolve_local now unix shard req client t s = Ok (Ready b, s') ∧ replay raw request t = Ok b.
Proof.
  intros Ha Hp Hq Hb Hn Hrd Hav Hg Hnp.
  destruct (resolve_local_question now unix shard req client t s request q Ha Hp Hq Hb)
    as (p' & s' & _ & Hc & _ & _ & _ & ->).
  rewrite Hn, Hrd, Hav. cbn [andb]. unfold resolve_unknown. rewrite Hc.
  destruct (Cache_ops.get _ _ now (st_cache s)) as [o c]. cbn in Hg. subst o.
  assert (∃ b, replay raw request t = Ok b) as [b Hr].
  { unfold replay. destruct t; [|by eexists]. destruct (from_bytes raw); [by eexists..|done]. }
  rewrite Hr. cbn [mbind res_bind]. eauto.
Qed.

(** What a client gets of an upstream's reply [raw] to its request. Over UDP, when the
    parser accepts the reply and what it kept can be written again: the packet of the records it
    kept (those of other types are gone, see [unmodelled_answer_lost]) under the client's identifier,
    with the client's EDNS size. Otherwise (over TCP, or when the parser rejects the reply) the upstream's
    bytes with the first two replaced by the client's identifier, whatever they are; and these decode to the
    upstream's packet when they are its encoding. *)
Definition replay_means (t : Transport) (raw b : bytes) (request : DnsPacket) : Prop :=
  let relayed :=
    b = (if 2 <=? length raw then u16_to_be_bytes (h_id (header request)) ++ drop 2 raw else raw) in
  match t, from_bytes raw with
  | Udp, Ok p => rewritable p → delivers Udp b (replayed_packet p request)
  | Udp, Err _ => relayed
  | Tcp, _ => relayed ∧
      ∀ p, encodable p → raw = to_bytes p → from_bytes b = Ok (with_id p (h_id (header request)))
  | Udp, Panic => False
  end.

Lemma patch_relayed raw id :
  patch_transaction_id raw id = if 2 <=? length raw then u16_to_be_bytes id ++ drop 2 raw else raw.
Proof. unfold patch_transaction_id. by destruct (2 <=? length raw). Qed.

(** A replay gives the client just that; it panics exactly when it has to parse a
    reply that makes the parser panic. *)
Lemma replay_decodes t raw request :
  is_u16 (h_id (header request)) →
  match replay raw request t with
  | Ok b => replay_means t raw b request
  | Err _ => False
  | Panic => t = Udp ∧ from_bytes raw = Panic
  end.
Proof.
  intros Hid. unfold replay, replay_means. cbv zeta. destruct t.
  - destruct (from_bytes raw) as [p|e|]; [|apply patch_relayed|done].
    intros Hw. by apply recount_delivers, replayed_encodable.
  - split; [apply patch_relayed|]. intros p He ->. rewrite patch_to_bytes. apply from_bytes_to_bytes.
    destruct He as ((_ & Hh) & Hc & Hs). by split; [split|split].
Qed.

(** The response cached for a key. *)
Definition entry_of (s : ServerState) (name : bytes) (qt : Z) : option Entry :=
  map (st_cache s) !! Cache_ops.key name qt.


End Cached.

(** ** Zone transfers *)

(** The zone a secondary server builds from the records of a transfer: every record
    but the closing SOA, by owner. *)
Definition transferred (rs : list DnsRecord.t) : Zone :=
  foldl (fun z r => push_record z (DnsRecord.domain r) r) ∅ (removelast rs).

(** A zone whose records are filed under their owners. *)
Definition filed (rs : Zone) : Prop :=
  map_Forall (fun k l => l ≠ [] ∧ Forall (fun r => DnsRecord.domain r = k) l) rs.

Lemma push_records_lookup rs (k : bytes) :
  (foldl (fun z r => push_record z (DnsRecord.domain r) r) ∅ rs : Zone) !! k =
  let g := filter (fun r => DnsRecord.domain r = k) rs in if decide (g = []) then None else Some g.
Proof.
  cbn zeta. induction rs as [|r rs IH] using rev_ind; [done|].
  rewrite foldl_app, filter_app, filter_cons, filter_nil. cbn [foldl].
  set (z := foldl _ ∅ rs) in *. unfold push_record.
  destruct (decide (DnsRecord.domain r = k)) as [<-|Hne].
  - rewrite lookup_insert_eq, IH.
    rewrite (decide_False (P := filter _ rs ++ [r] = [])) by by destruct (filter _ rs).
    case_decide as Hg; [by rewrite Hg|done].
  - rewrite lookup_insert_ne, app_nil_r by done. done.
Qed.

Lemma filter_owned (l : list DnsRecord.t) (k k' : bytes) :
  Forall (fun r => DnsRecord.domain r = k') l →
  filter (fun r => DnsRecord.domain r = k) l = if decide (k' = k) then l else [].
Proof.
  induction 1 as [|r l Hr _ IH]; [by case_decide|]. rewrite filter_cons, IH, Hr. by case_decide.
Qed.

Lemma filter_filed `{HashIter} (rs : Zone) (k : bytes) :
  filed rs → filter (fun r => DnsRecord.domain r = k) (values_flatten rs) ≡ₚ default [] (rs !! k).
Proof.
  intros Hf. unfold values_flatten. rewrite hm_iter_perm. revert Hf.
  induction rs as [|k' l m Hk' IH] using map_ind; [by rewrite map_to_list_empty|].
  intros Hf. apply map_Forall_insert in Hf as [[Hne Hl] Hf]; [|done].
  rewrite map_to_list_insert by done. cbn [fmap list_fmap concat snd]. rewrite filter_app.
  rewrite filter_owned with (k' := k'), IH by done. case_decide as Hk.
  - subst k'. rewrite lookup_insert_eq, Hk'. cbn. by rewrite app_nil_r.
  - by rewrite lookup_insert_ne.
Qed.

Lemma removelast_closed {A} (x : A) l : removelast ([x] ++ l ++ [x]) = x :: l.
Proof. change ([x] ++ l ++ [x]) with ((x :: l) ++ [x]). apply removelast_last. Qed.

(** With one SOA, the SOA and the rest are the whole zone. *)
Lemma soa_and_rest (soa : DnsRecord.t) l :
  List.filter DnsRecord.is_SOA l = [soa] →
  soa :: List.filter (fun r => negb (DnsRecord.is_SOA r)) l ≡ₚ l.
Proof.
  induction l as [|r l IH]; cbn; [done|]. destruct (DnsRecord.is_SOA r); cbn.
  - intros [= -> Hl]. f_equiv. clear IH. induction l as [|r l IH]; [done|]. cbn in *.
    destruct (DnsRecord.is_SOA r); [done|]. cbn. by rewrite IH.
  - intros Hl%IH. rewrite Permutation_swap. by rewrite Hl.
Qed.

Section Transfers.
Context `{UNI : Unicode, ITER : HashIter}.

Lemma zone_soa_single (rs : Zone) soa :
  List.filter DnsRecord.is_SOA (values_flatten rs) = [soa] → zone_soa rs = Some soa.
Proof.
  unfold zone_soa. induction (values_flatten rs) as [|r l IH]; cbn; [done|].
  destruct (DnsRecord.is_SOA r); [by intros [= -> _]|exact IH].
Qed.

(** Grouping the records of a transfer by owner gives the zone back. *)
Lemma transferred_zone (rs : Zone) soa (k : bytes) :
  filed rs → List.filter DnsRecord.is_SOA (values_flatten rs) = [soa] →
  default [] (transferred (axfr_records rs) !! k) ≡ₚ default [] (rs !! k) ∧
  (transferred (axfr_records rs) !! k = None ↔ rs !! k = None).
Proof.
  intros Hf Hs. unfold transferred, axfr_records. rewrite (zone_soa_single rs soa Hs).
  rewrite removelast_closed, push_records_lookup. cbv zeta.
  match goal with |- context [soa :: ?b] => set (body := b) end.
  assert (filter (fun r => DnsRecord.domain r = k) (soa :: body) ≡ₚ default [] (rs !! k)) as Hp.
  { rewrite <- (filter_filed rs k Hf). apply filter_Permutation. unfold body.
    rewrite axfr_body_perm. by apply soa_and_rest. }
  split.
  - case_decide as Hg; [|exact Hp]. cbn. by rewrite Hg in Hp.
  - case_decide as Hg; split; intros Hn; try done.
    + rewrite Hg in Hp. apply Permutation_nil_l in Hp. destruct (rs !! k) as [l|] eqn:Hk; [|done].
      cbn in Hp. subst l. apply Hf in Hk as [Hne _]. done.
    + rewrite Hn in Hp. apply Permutation_nil_r in Hp. done.
Qed.

Lemma axfr_records_encodable z : servable_zone z → Forall encodable_record (axfr_records (records z)).
Proof.
  intros Hsv. pose proof (values_servable z Hsv) as Hz. unfold axfr_records.
  assert (Forall encodable_record (match zone_soa (records z) with Some r => [r] | None => [] end)) as Hs.
  { destruct (zone_soa (records z)) as [soa|] eqn:Hs; [|constructor].
    apply Forall_singleton. by eapply zone_soa_encodable. }
  apply Forall_app. split; [done|]. apply Forall_app. split; [|done].
  rewrite axfr_body_perm. rewrite Forall_forall in *. intros r [Hin _]%list_elem_of_In%filter_In.
  by apply Hz, list_elem_of_In.
Qed.

(** C33: a zone transfer carries the zone: an allowed client that asks for a
    transfer decodes a reply under its own identifier, authoritative and without
    error, from whose records (every one but the closing SOA, filed by owner) it
    gets the zone back: the same names, each with the same records. For a zone
    whose records are filed under their owners, with one SOA and fewer than
    [2^16] records in the transfer, and as long as the reply fits the 16-bit length of a frame
    (a longer one is misframed: [Transport.oversized_reply_misframed]): the client then reads it off the
    stream whole, whatever follows it there. *)
Theorem axfr_roundtrip shard client s request q zone soa :
  encodable request → questions request = [q] → qtype q = DnsRecord.TYPE_AXFR →
  is_allowed (st_axfr_acl s) client = Ok true →
  ZoneSet.find (st_zones s) (to_lowercase (qname q)) = Some zone → servable_zone zone →
  filed (records zone) → List.filter DnsRecord.is_SOA (values_flatten (records zone)) = [soa] →
  (Z.of_nat (length (axfr_records (records zone))) < 65536)%Z →
  ∃ b s', try_axfr shard (to_bytes request) client s = Ok (Some b, s') ∧
    ((Z.of_nat (length b) < 65536)%Z →
     (∀ rest, read_frame (tcp_frame b ++ rest) = Some b) ∧
     ∃ p, from_bytes b = Ok p ∧
       h_id (header p) = h_id (header request) ∧ questions p = [q] ∧ rcode p = 0%Z ∧ flag 10 p = true ∧
       head (answers p) = Some soa ∧ last (answers p) = Some soa ∧
       ∀ k, default [] (transferred (answers p) !! k) ≡ₚ default [] (records zone !! k) ∧
         (transferred (answers p) !! k = None ↔ records zone !! k = None)).
Proof.
  intros He Hq Hqt Hal Hf Hz Hfi Hs Hl. unfold try_axfr. rewrite from_bytes_to_bytes, Hq by done.
  cbn [head]. rewrite Hqt, Z.eqb_refl. cbn [negb inc st_axfr_acl]. rewrite Hal. cbn [mbind res_bind negb].
  change (st_zones (inc Total shard s)) with (st_zones s). rewrite Hf. eexists _, _. split; [done|].
  intros Hlen. split; [intros rest; by apply read_frame_frame|]. eexists.
  destruct He as ((Hid & Hfl & _) & _ & Hqs & _). rewrite Hq in Hqs.
  assert (Z.testbit (Z.lor (Z.lor 32768 (Z.land (h_flags (header request)) FLAG_RD)) 1024) 10 = true ∧
    Z.land (Z.lor (Z.lor 32768 (Z.land (h_flags (header request)) FLAG_RD)) 1024) 15 = 0%Z) as [Haa Hrc].
  { change FLAG_RD with (2 ^ 8)%Z. rewrite land_bit by lia. by destruct (Z.testbit _ 8). }
  split.
  { apply from_bytes_to_bytes, encodable_packet; try done; cbn.
    - repeat apply lor_u16; try (width_lia; done). by apply land_u16.
    - by apply axfr_records_encodable. }
  split_and!; [done..| | |].
  - unfold answers, axfr_records. by rewrite (zone_soa_single _ soa Hs).
  - unfold answers, axfr_records. rewrite (zone_soa_single _ soa Hs), (assoc_L (++)). apply last_snoc.
  - intros k. by eapply transferred_zone.
Qed.

End Transfers.

(** ** Record types the server does not model *)

(** An upstream's reply to a query for the HTTPS record (type 65) of [a.b], with that
    record. *)
Definition https_reply : bytes :=
  [0; 7; 129; 128; 0; 1; 0; 1; 0; 0; 0; 0]%Z ++
  [1; 97; 1; 98; 0; 0; 65; 0; 1]%Z ++ [192; 12; 0; 65; 0; 1; 0; 0; 1; 44; 0; 3; 0; 1; 0]%Z.

Definition https_request : DnsPacket :=
  mkPacket (mkHeader 9 256 1 0 0 0) [mkQuestion (str "a.b") 65 1] [] [] [].

(** A record of a type the parser skips does not survive the re-encoding of a
    forwarded reply over UDP: the client of [https_request] is told that there is no
    such record (NOERROR, no answers), and the cache keeps the reply as a
    negative one, while the same query over TCP gets the record. *)
Theorem unmodelled_answer_lost :
  ∃ p b p', from_bytes https_reply = Ok p ∧ h_answers (header p) = 1%Z ∧
    cache_ttl p = Some NEG_TTL_DEFAULT ∧
    replay https_reply https_request Udp = Ok b ∧ from_bytes b = Ok p' ∧
    h_answers (header p') = 0%Z ∧ answers p' = [] ∧ rcode p' = 0%Z ∧
    replay https_reply https_request Tcp = Ok ([0; 9]%Z ++ drop 2 https_reply).
Proof. eexists _, _, _. split_and!; vm_compute; reflexivity. Qed.

(** ** Witnesses *)

(** A signature scheme with 64-byte signatures, for evaluation. *)
#[local] Program Instance short_ed25519 : Ed25519 := {|
  KeyPair := bytes;
  from_pkcs8 := fun doc => Some doc;
  ed_public_key := fun kp => kp;
  ed_sign := fun _ msg => replicate 64 (as_u8 (foldr Z.add 0%Z msg));
  ed_verify := fun _ msg sig => bool_decide (sig = replicate 64 (as_u8 (foldr Z.add 0%Z msg)));
|}.
Next Obligation. intros. by apply bool_decide_eq_true. Qed.

Lemma short_ed25519_size (kp : @KeyPair short_ed25519) msg :
  wf_bytes (@ed_sign short_ed25519 kp msg) ∧ length (@ed_sign short_ed25519 kp msg) = 64.
Proof. split; [|apply length_replicate]. apply Forall_replicate. width_lia. Qed.

Definition signed_state : ServerState :=
  with_dnssec (mkKeys [sample_key]) (with_dns64 DNS64_WELL_KNOWN_PREFIX (authoritative sample_zones)).

(** Splits a fact about the entries of a concrete zone into one for each entry. *)
Ltac zone_entries :=
  match goal with |- map_Forall _ _ => apply map_Forall_to_list end;
  match goal with |- Forall ?P ?l => let l' := eval vm_compute in l in change (Forall P l') end;
  repeat match goal with |- Forall _ (_ :: _) => apply Forall_cons_2 end; try apply Forall_nil_2;
  cbn [uncurry fst snd].

Lemma sample_zones_servable : Forall (@servable_zone ascii_unicode) sample_zones.
Proof.
  apply Forall_singleton. split; [split; concrete|].
  zone_entries; unfold servable_node, servable_record; concrete.
Qed.


Lemma signed_state_servable : @servable ascii_unicode signed_state.
Proof.
  split; [exact sample_zones_servable| |].
  - intros ks [= <-]. split; [|by vm_compute]. apply Forall_singleton. unfold servable_key, good_name, sample_key.
    cbn [zone_name sk_flags sk_algorithm public_key]. concrete.
  - intros prefix [= <-]. by repeat constructor.
Qed.

Lemma sample_request_servable : @servable_request ascii_unicode sample_request.
Proof.
  split; [unfold encodable, sample_request; cbn [header questions answers authorities additionals]; concrete|].
  intros q [= <-]. unfold good_name. concrete.
Qed.

Lemma local_reply_decodes_witness :
  ∃ b p s', @resolve_local ascii_unicode list_iter short_ed25519 0 1000 0 (to_bytes sample_request)
      (V4 [10; 0; 0; 1]%Z) Udp signed_state = Ok (Ready b, s') ∧ delivers Udp b p ∧
    DnsRecord.record_type <$> answers p = [DnsRecord.TYPE_A; DnsRecord.TYPE_RRSIG].
Proof.
  destruct (@local_reply_decodes ascii_unicode list_iter short_ed25519 short_ed25519_size 0 1000 0
    (V4 [10; 0; 0; 1]%Z) Udp signed_state sample_request signed_state_servable sample_request_servable)
    as (r & s' & Hr & Hm).
  - by vm_compute.
  - vm_compute. reflexivity.
  - vm_compute. reflexivity.
  - destruct r as [b|ctx|]; [| |destruct Hm].
    + destruct Hm as (p & Hp & Hd). exists b, p, s'. split; [exact Hr|]. split; [exact Hd|].
      assert (@local_packet ascii_unicode list_iter short_ed25519 1000 signed_state sample_request = Ok p) as Hp' by exact Hp.
      vm_compute in Hp'. injection Hp' as <-. vm_compute. reflexivity.
    + destruct Hm as (_ & q & Hq & Hn). vm_compute in Hq. injection Hq as <-. vm_compute in Hn. discriminate.
Defined.

(** A server that forwards, with nothing local for [a.b]. *)
Definition forwarding_state : ServerState :=
  new_state [] None (ForwardRules.single (mkSocketAddr (V4 [192; 0; 2; 53]%Z) 53)) None
    (Cache_ops.new 16) RateLimiter_ops.disabled.

Definition second_request : DnsPacket := mkPacket (mkHeader 77 256 1 0 0 0) [mkQuestion (str "A.b") 1 1] [] [] [].

Lemma sample_response_encodable : encodable sample_response.
Proof. unfold encodable, sample_response, sample_question, sample_a.
  cbn [header questions answers authorities additionals]. concrete.
Qed.


Definition transfer_request : DnsPacket := mkPacket (mkHeader 9 0 1 0 0 0) [mkQuestion (str "b") 252 1] [] [] [].
Definition primary_state : ServerState :=
  with_axfr_acl (mkAcl [CidrV4 [10; 0; 0; 0]%Z 8]) (authoritative sample_zones).

Lemma axfr_roundtrip_witness :
  ∃ b p s', @try_axfr ascii_unicode list_iter 0 (to_bytes transfer_request) (V4 [10; 0; 0; 1]%Z) primary_state
      = Ok (Some b, s') ∧ read_frame (tcp_frame b) = Some b ∧ from_bytes b = Ok p ∧
    answers p = [sample_soa; sample_a; sample_soa] ∧
    default [] (transferred (answers p) !! str "a.b") ≡ₚ [sample_a].
Proof.
  destruct (@axfr_roundtrip ascii_unicode list_iter 0 (V4 [10; 0; 0; 1]%Z) primary_state transfer_request
    (mkQuestion (str "b") 252 1) (mkAuthZone (str "b") sample_zone) sample_soa)
    as (b & s' & Ht & Hb).
  - unfold encodable, transfer_request. cbn [header questions answers authorities additionals]. concrete.
  - reflexivity.
  - reflexivity.
  - vm_compute. reflexivity.
  - vm_compute. reflexivity.
  - exact (Forall_inv sample_zones_servable).
  - unfold filed. zone_entries; (split; [discriminate|by repeat constructor]).
  - vm_compute. reflexivity.
  - vm_compute. reflexivity.
  - assert (@try_axfr ascii_unicode list_iter 0 (to_bytes transfer_request) (V4 [10; 0; 0; 1]%Z) primary_state
      = Ok (Some b, s')) as Ht' by exact Ht.
    vm_compute in Ht'. injection Ht' as Eb _.
    destruct Hb as (Hfr & p & Hp & _ & _ & _ & _ & _ & _ & Hk); [by rewrite <- Eb|].
    exists b, p, s'. split; [exact Ht|]. split; [specialize (Hfr []); by rewrite app_nil_r in Hfr|].
    split; [exact Hp|]. split; [|exact (proj1 (Hk (str "a.b")))].
    rewrite <- Eb in Hp. vm_compute in Hp. injection Hp as <-. reflexivity.
Defined.
