(* ===== verification/SingleFlight.v ===== *)
(** * Single-flight forwarding

    Models [ServerState::forward_ctx] and [InflightGuard] of [src/src/state.rs]:
    concurrent queries for one name and type share one upstream query. The
    first task to find no entry in [inflight] becomes the leader: it inserts a
    [watch] channel, queries the upstream, publishes the reply, and its guard
    removes the entry when it ends, by return, cancellation or panic alike. Later
    tasks follow: they wait on the channel until it holds a reply or its
    sender is gone. Tasks interleave at their await points; the system is a
    step relation and its properties are proved by induction on runs.

    The relation allows more than the code does, so that what holds of its runs
    holds of the code's: [Query] is the leader's upstream query with any effect
    on the two clients, [Publish] takes any result of it, and a leader or a
    follower may be dropped (cancelled, or stopped by a panic) at any point. The
    guard's removal of the entry and the end of the sender, which no await
    separates, are one step. *)

From S2P Require Import Prelude RustStd Message Packet Encoder Wire Cache Metrics State Pipeline Policy.

(** A watch channel: its value, whether the sender is alive, and the query it was
    made for (which the code keeps as the key of the map). *)
Record chan := mkChan { value : option bytes; sender_alive : bool; ck : Key }.

(** The stages of one call of [forward_ctx]. *)
Inductive task :=
| Pending (ctx : ForwardCtx)
| Leader (ctx : ForwardCtx) (ch : nat)
| Published (ctx : ForwardCtx) (ch : nat) (raw : bytes)
| Follower (ctx : ForwardCtx) (ch : nat)
| Done (ctx : ForwardCtx) (reply : bytes)
| Gone (ctx : ForwardCtx).

Record sys := mkSys {
  srv : ServerState;
  inflight : gmap Key nat;
  chans : gmap nat chan;
  tasks : gmap nat task;
}.

Definition ctx_key (ctx : ForwardCtx) : Key := (fc_name ctx, fc_qtype ctx).

(** The guard's [drop], then the sender's. *)
Definition release (k : Key) (ch : nat) (g : sys) : sys :=
  mkSys (srv g) (delete k (inflight g))
    (alter (fun c => mkChan (value c) false (ck c)) ch (chans g)) (tasks g).

Definition set_task (i : nat) (t : task) (g : sys) : sys :=
  mkSys (srv g) (inflight g) (chans g) (<[i := t]> (tasks g)).

Definition set_srv (s : ServerState) (g : sys) : sys :=
  mkSys s (inflight g) (chans g) (tasks g).

(** The reply of a follower whose leader vanished. *)
Definition servfail_reply (ctx : ForwardCtx) : res string bytes :=
  replay (to_bytes (synth_response (fc_request ctx) [] RCODE_SERVFAIL)) (fc_request ctx)
    (fc_transport ctx).

Inductive step `{Unicode, HashIter} : sys → sys → Prop :=
| Spawn g i ctx :
    tasks g !! i = None → step g (set_task i (Pending ctx) g)
| Become_leader g i ctx ch :
    tasks g !! i = Some (Pending ctx) → inflight g !! ctx_key ctx = None → chans g !! ch = None →
    step g (mkSys (srv g) (<[ctx_key ctx := ch]> (inflight g))
              (<[ch := mkChan None true (ctx_key ctx)]> (chans g))
              (<[i := Leader ctx ch]> (tasks g)))
| Become_follower g i ctx ch shard :
    tasks g !! i = Some (Pending ctx) → inflight g !! ctx_key ctx = Some ch →
    step g (set_task i (Follower ctx ch) (set_srv (inc Coalesced shard (srv g)) g))
| Query g i ctx ch shard f r :
    tasks g !! i = Some (Leader ctx ch) →
    step g (set_srv (set_clients f r (inc Forwarded shard (srv g))) g)
| Publish g i ctx ch now shard result raw s' :
    tasks g !! i = Some (Leader ctx ch) →
    finish_forward now shard ctx result (srv g) = Ok (raw, s') →
    step g (mkSys s' (inflight g)
              (alter (fun c => mkChan (Some raw) (sender_alive c) (ck c)) ch (chans g))
              (<[i := Published ctx ch raw]> (tasks g)))
| Return g i ctx ch raw reply :
    tasks g !! i = Some (Published ctx ch raw) →
    replay raw (fc_request ctx) (fc_transport ctx) = Ok reply →
    step g (set_task i (Done ctx reply) (release (ctx_key ctx) ch g))
| Leader_dropped g i ctx ch :
    tasks g !! i = Some (Leader ctx ch) ∨ (∃ raw, tasks g !! i = Some (Published ctx ch raw)) →
    step g (set_task i (Gone ctx) (release (ctx_key ctx) ch g))
| Follower_reply g i ctx ch c raw reply :
    tasks g !! i = Some (Follower ctx ch) → chans g !! ch = Some c → value c = Some raw →
    replay raw (fc_request ctx) (fc_transport ctx) = Ok reply →
    step g (set_task i (Done ctx reply) g)
| Follower_orphaned g i ctx ch c reply :
    tasks g !! i = Some (Follower ctx ch) → chans g !! ch = Some c → value c = None →
    sender_alive c = false → servfail_reply ctx = Ok reply →
    step g (set_task i (Done ctx reply) g)
| Follower_dropped g i ctx ch :
    tasks g !! i = Some (Follower ctx ch) → step g (set_task i (Gone ctx) g).

Definition initial (s : ServerState) : sys := mkSys s ∅ ∅ ∅.

Inductive reachable `{Unicode, HashIter} (s : ServerState) : sys → Prop :=
| Reach_init : reachable s (initial s)
| Reach_step g g' : reachable s g → step g g' → reachable s g'.

(** ** The invariant *)

(** A task that holds the sender of a channel. *)
Definition active (t : task) : option (ForwardCtx * nat) :=
  match t with
  | Leader ctx ch => Some (ctx, ch)
  | Published ctx ch _ => Some (ctx, ch)
  | _ => None
  end.

(** The value a channel must hold while its leader runs. *)
Definition leader_value (t : task) : option bytes :=
  match t with Published _ _ raw => Some raw | _ => None end.

Record Inv (g : sys) : Prop := {
  inv_entry : ∀ k ch, inflight g !! k = Some ch →
    ∃ i t ctx, tasks g !! i = Some t ∧ active t = Some (ctx, ch) ∧ ctx_key ctx = k;
  inv_active : ∀ i t ctx ch, tasks g !! i = Some t → active t = Some (ctx, ch) →
    inflight g !! ctx_key ctx = Some ch ∧
    chans g !! ch = Some (mkChan (leader_value t) true (ctx_key ctx));
  inv_unique : ∀ i j t u ctx ctx' ch, tasks g !! i = Some t → tasks g !! j = Some u →
    active t = Some (ctx, ch) → active u = Some (ctx', ch) → i = j;
  inv_follower : ∀ i ctx ch, tasks g !! i = Some (Follower ctx ch) →
    ∃ c, chans g !! ch = Some c ∧ ck c = ctx_key ctx;
  inv_alive : ∀ ch c, chans g !! ch = Some c → sender_alive c = true →
    ∃ i t ctx, tasks g !! i = Some t ∧ active t = Some (ctx, ch);
  inv_value : ∀ ch c raw, chans g !! ch = Some c → value c = Some raw → no_panic (from_bytes raw);
}.

(** ** Lemmas *)

(** A message without records never makes the parser panic. *)
Lemma synth_no_panic request rc : no_panic (from_bytes (to_bytes (synth_response request [] rc))).
Proof.
  destruct (to_bytes_header (synth_response request [] rc)) as [s ->]. unfold from_bytes.
  destruct (Nat.ltb_spec (length (header_bytes (synth_response request [] rc) ++ s)) 12); [done|].
  assert (∃ h, parse_header (header_bytes (synth_response request [] rc) ++ s) = Ok h ∧
    h_answers h = 0%Z ∧ h_authorities h = 0%Z ∧ h_additionals h = 0%Z) as (h & -> & H1 & H2 & H3)
    by (eexists; split; [reflexivity|done]).
  cbn [mbind res_bind]. rewrite H1, H2, H3.
  apply no_panic_bind; [apply parse_questions_no_panic|]. intros [qs off] _. done.
Qed.

Lemma replay_ok raw request t : no_panic (from_bytes raw) → ∃ b, replay raw request t = Ok b.
Proof.
  intros Hn. unfold replay. destruct t; [|eauto].
  destruct (from_bytes raw); [eauto|eauto|by destruct Hn].
Qed.

Lemma servfail_reply_ok ctx : ∃ b, servfail_reply ctx = Ok b.
Proof. apply replay_ok, synth_no_panic. Qed.

Lemma finish_forward_no_panic `{Unicode, HashIter} now shard ctx result s raw s' :
  finish_forward now shard ctx result s = Ok (raw, s') → no_panic (from_bytes raw).
Proof.
  unfold finish_forward. destruct result as [r|e|]; [| |done].
  - destruct (from_bytes r) as [p|e|] eqn:Hp; [|by intros [= <- _]; rewrite Hp|done].
    destruct (cache_ttl p); intros [= <- _]; by rewrite Hp.
  - intros [= <- _]. apply synth_no_panic.
Qed.

Section Invariant.
Context `{Unicode, HashIter}.

Lemma Inv_initial s : Inv (initial s).
Proof. split; cbn; intros *; rewrite lookup_empty; done. Qed.

(** The tasks that hold a channel after one task changed: the others, and that one
    if it holds one. *)
Lemma active_insert_idle (m : gmap nat task) i t' j u a :
  active t' = None → <[i := t']> m !! j = Some u → active u = Some a → j ≠ i ∧ m !! j = Some u.
Proof. intros Hn [[-> ->]|[??]]%lookup_insert_Some Ha; [congruence|auto]. Qed.

Lemma active_insert_busy (m : gmap nat task) i t' ctx ch :
  active t' = Some (ctx, ch) →
  ∀ j u ctx' ch', <[i := t']> m !! j = Some u → active u = Some (ctx', ch') →
    (j = i ∧ u = t' ∧ ctx' = ctx ∧ ch' = ch) ∨ (m !! j = Some u ∧ j ≠ i).
Proof.
  intros Ht j u ctx' ch' [[-> ->]|[??]]%lookup_insert_Some Hu; [left|by auto].
  rewrite Ht in Hu. by simplify_eq.
Qed.

(** Changing one task that holds no channel, to one that holds none. *)
Lemma Inv_set_task g i t t' :
  Inv g → tasks g !! i = t → (∀ u, t = Some u → active u = None) → active t' = None →
  (∀ ctx ch, t' = Follower ctx ch → ∃ c, chans g !! ch = Some c ∧ ck c = ctx_key ctx) →
  Inv (set_task i t' g).
Proof.
  intros Hi Ht Hold Hnew Hf.
  pose proof (fun j u a => active_insert_idle (tasks g) i t' j u a Hnew) as Hother.
  assert (∀ j u a, tasks g !! j = Some u → active u = Some a → <[i := t']> (tasks g) !! j = Some u) as Hkeep.
  { intros j u a Hj Ha. rewrite lookup_insert_ne; [done|]. intros <-.
    specialize (Hold u). rewrite Hj in Ht. rewrite Hold in Ha; congruence. }
  split; cbn.
  - intros k ch (j & u & ctx & Hj & Ha & Hk)%(inv_entry g Hi). eauto 10.
  - intros j u ctx ch Hj Ha. destruct (Hother _ _ _ Hj Ha). by apply (inv_active g Hi j).
  - intros j k u v ctx ctx' ch Hj Hk Ha Hb. destruct (Hother _ _ _ Hj Ha), (Hother _ _ _ Hk Hb).
    by eapply (inv_unique g Hi).
  - intros j ctx ch Hj. destruct (decide (j = i)) as [->|Hne].
    + rewrite lookup_insert_eq in Hj. simplify_eq. by apply Hf.
    + rewrite lookup_insert_ne in Hj by done. by apply (inv_follower g Hi j).
  - intros ch c Hc Hal. destruct (inv_alive g Hi ch c Hc Hal) as (j & u & ctx & Hj & Ha). eauto 10.
  - apply (inv_value g Hi).
Qed.

Lemma Inv_set_srv g s : Inv g → Inv (set_srv s g).
Proof. intros []. by split. Qed.

(** An ending leader: its entry goes, its channel closes. *)
Lemma Inv_release g i t ctx ch t' :
  Inv g → tasks g !! i = Some t → active t = Some (ctx, ch) → active t' = None →
  (∀ c' ch', t' ≠ Follower c' ch') →
  Inv (set_task i t' (release (ctx_key ctx) ch g)).
Proof.
  intros Hi Ht Ha Hnew Hnf. destruct (inv_active g Hi _ _ _ _ Ht Ha) as [Hin Hch].
  pose proof (fun j u a => active_insert_idle (tasks g) i t' j u a Hnew) as Hother.
  (** no other task holds the released channel or its key *)
  assert (∀ j u ctx' ch', tasks g !! j = Some u → active u = Some (ctx', ch') → j ≠ i →
    ch' ≠ ch ∧ ctx_key ctx' ≠ ctx_key ctx) as Hdist.
  { intros j u ctx' ch' Hj Hu Hne. assert (ch' ≠ ch) as Hcc.
    { intros ->. apply Hne. by eapply (inv_unique g Hi). }
    split; [done|]. intros Hk. destruct (inv_active g Hi _ _ _ _ Hj Hu) as [Hin' _].
    rewrite Hk, Hin in Hin'. congruence. }
  split; cbn.
  - intros k ch' Hk. destruct (decide (k = ctx_key ctx)) as [->|Hne]; [by rewrite lookup_delete_eq in Hk|].
    rewrite lookup_delete_ne in Hk by done.
    destruct (inv_entry g Hi _ _ Hk) as (j & u & ctx' & Hj & Hu & <-).
    exists j, u, ctx'. split; [|done]. rewrite lookup_insert_ne; [done|].
    intros <-. simplify_eq.
  - intros j u ctx' ch' Hj Hu. destruct (Hother _ _ _ Hj Hu) as [Hne Hj'].
    destruct (Hdist _ _ _ _ Hj' Hu Hne) as [Hcc Hkk].
    destruct (inv_active g Hi _ _ _ _ Hj' Hu) as [Hin' Hch'].
    rewrite lookup_delete_ne, lookup_alter_ne by done. done.
  - intros j k u v c1 c2 ch' Hj Hk Hu Hv.
    destruct (Hother _ _ _ Hj Hu), (Hother _ _ _ Hk Hv). by eapply (inv_unique g Hi).
  - intros j ctx' ch' Hj. destruct (decide (j = i)) as [->|Hne].
    { rewrite lookup_insert_eq in Hj. simplify_eq. by destruct (Hnf ctx' ch'). }
    rewrite lookup_insert_ne in Hj by done.
    destruct (inv_follower g Hi _ _ _ Hj) as (c & Hc & Hk).
    destruct (decide (ch' = ch)) as [->|Hcc].
    + eexists. rewrite lookup_alter_eq, Hc. split; [done|]. done.
    + exists c. by rewrite lookup_alter_ne.
  - intros ch' c Hc Hal. destruct (decide (ch' = ch)) as [->|Hcc].
    { rewrite lookup_alter_eq, Hch in Hc. cbn in Hc. by simplify_eq. }
    rewrite lookup_alter_ne in Hc by done.
    destruct (inv_alive g Hi _ _ Hc Hal) as (j & u & ctx' & Hj & Hu).
    exists j, u, ctx'. split; [|done]. rewrite lookup_insert_ne; [done|]. intros <-. simplify_eq.
  - intros ch' c raw Hc Hv. destruct (decide (ch' = ch)) as [->|Hcc].
    + rewrite lookup_alter_eq, Hch in Hc. cbn in Hc. simplify_eq. cbn in Hv.
      by eapply (inv_value g Hi ch).
    + rewrite lookup_alter_ne in Hc by done. by eapply (inv_value g Hi).
Qed.

(** A new leader takes a free key and a fresh channel. *)
Lemma Inv_become_leader g i ctx ch :
  Inv g → tasks g !! i = Some (Pending ctx) → inflight g !! ctx_key ctx = None →
  chans g !! ch = None →
  Inv (mkSys (srv g) (<[ctx_key ctx := ch]> (inflight g))
         (<[ch := mkChan None true (ctx_key ctx)]> (chans g)) (<[i := Leader ctx ch]> (tasks g))).
Proof.
  intros Hi Ht Hk Hc.
  assert (∀ j u ctx' ch', tasks g !! j = Some u → active u = Some (ctx', ch') →
    j ≠ i ∧ ch' ≠ ch ∧ ctx_key ctx' ≠ ctx_key ctx) as Hold.
  { intros j u ctx' ch' Hj Hu. destruct (inv_active g Hi _ _ _ _ Hj Hu) as [Hin Hch].
    split_and!; [intros ->; rewrite Ht in Hj; by simplify_eq|congruence..]. }
  pose proof (active_insert_busy (tasks g) i (Leader ctx ch) ctx ch eq_refl) as Hcase.
  split; cbn.
  - intros k ch'. destruct (decide (k = ctx_key ctx)) as [->|Hne].
    + rewrite lookup_insert_eq. intros [= <-]. exists i, (Leader ctx ch), ctx. by rewrite lookup_insert_eq.
    + rewrite lookup_insert_ne by done. intros (j & u & ctx' & Hj & Hu & Hkk)%(inv_entry g Hi).
      exists j, u, ctx'. destruct (Hold _ _ _ _ Hj Hu) as (? & _). by rewrite lookup_insert_ne.
  - intros j u ctx' ch' Hj Hu. destruct (Hcase _ _ _ _ Hj Hu) as [(-> & -> & -> & ->)|[Hj' _]].
    + by rewrite !lookup_insert_eq.
    + destruct (Hold _ _ _ _ Hj' Hu) as (_ & ? & ?). rewrite !lookup_insert_ne by done.
      by apply (inv_active g Hi j).
  - intros j k u v c1 c2 ch' Hj Hk' Hu Hv.
    destruct (Hcase _ _ _ _ Hj Hu) as [(-> & _ & _ & ->)|[Hj' _]],
      (Hcase _ _ _ _ Hk' Hv) as [(-> & _ & _ & Hcc)|[Hk'' _]]; [done| | |by eapply (inv_unique g Hi)].
    + by destruct (Hold _ _ _ _ Hk'' Hv) as (_ & [] & _).
    + subst. by destruct (Hold _ _ _ _ Hj' Hu) as (_ & [] & _).
  - intros j ctx' ch' Hj. destruct (decide (j = i)) as [->|Hne]; [by rewrite lookup_insert_eq in Hj|].
    rewrite lookup_insert_ne in Hj by done.
    destruct (inv_follower g Hi _ _ _ Hj) as (c & Hcc & Hck). exists c.
    rewrite lookup_insert_ne; [done|congruence].
  - intros ch' c. destruct (decide (ch' = ch)) as [->|Hne].
    + intros _ _. exists i, (Leader ctx ch), ctx. by rewrite lookup_insert_eq.
    + rewrite lookup_insert_ne by done. intros Hcc Hal.
      destruct (inv_alive g Hi _ _ Hcc Hal) as (j & u & ctx' & Hj & Hu).
      exists j, u, ctx'. destruct (Hold _ _ _ _ Hj Hu) as (? & _). by rewrite lookup_insert_ne.
  - intros ch' c raw. destruct (decide (ch' = ch)) as [->|Hne].
    + rewrite lookup_insert_eq. intros [= <-]. done.
    + rewrite lookup_insert_ne by done. apply (inv_value g Hi).
Qed.

(** A leader publishes: its channel gets a value the parser does not choke on. *)
Lemma Inv_publish g i ctx ch raw s' :
  Inv g → tasks g !! i = Some (Leader ctx ch) → no_panic (from_bytes raw) →
  Inv (mkSys s' (inflight g)
         (alter (fun c => mkChan (Some raw) (sender_alive c) (ck c)) ch (chans g))
         (<[i := Published ctx ch raw]> (tasks g))).
Proof.
  intros Hi Ht Hn. destruct (inv_active g Hi _ _ _ _ Ht eq_refl) as [Hin Hch]. cbn in Hch.
  assert (∀ j u ctx' ch', tasks g !! j = Some u → active u = Some (ctx', ch') → j ≠ i → ch' ≠ ch) as Hdist.
  { intros j u ctx' ch' Hj Hu Hne ->. apply Hne. by eapply (inv_unique g Hi). }
  pose proof (active_insert_busy (tasks g) i (Published ctx ch raw) ctx ch eq_refl) as Hcase.
  assert (∀ j u ctx' ch', tasks g !! j = Some u → active u = Some (ctx', ch') →
    ∃ u', <[i := Published ctx ch raw]> (tasks g) !! j = Some u' ∧ active u' = Some (ctx', ch')) as Hkeep.
  { intros j u ctx' ch' Hj Hu. destruct (decide (j = i)) as [->|Hne].
    - exists (Published ctx ch raw). rewrite lookup_insert_eq. split; [done|].
      rewrite Ht in Hj. injection Hj as <-. done.
    - exists u. by rewrite lookup_insert_ne. }
  split; cbn.
  - intros k ch' (j & u & ctx' & Hj & Hu & Hk)%(inv_entry g Hi).
    destruct (Hkeep _ _ _ _ Hj Hu) as (u' & ? & ?). eauto 10.
  - intros j u ctx' ch' Hj Hu. destruct (Hcase _ _ _ _ Hj Hu) as [(-> & -> & -> & ->)|[Hj' Hne]].
    + by rewrite lookup_alter_eq, Hch.
    + rewrite lookup_alter_ne by (by apply not_eq_sym; eapply Hdist). by apply (inv_active g Hi j).
  - intros j k u v c1 c2 ch' Hj Hk' Hu Hv.
    destruct (Hcase _ _ _ _ Hj Hu) as [(-> & _ & _ & ->)|[Hj' Hn1]],
      (Hcase _ _ _ _ Hk' Hv) as [(-> & _ & _ & Hcc)|[Hk'' Hn2]]; [done| | |by eapply (inv_unique g Hi)].
    + by destruct (Hdist _ _ _ _ Hk'' Hv Hn2).
    + subst. by destruct (Hdist _ _ _ _ Hj' Hu Hn1).
  - intros j ctx' ch' Hj. destruct (decide (j = i)) as [->|Hne]; [by rewrite lookup_insert_eq in Hj|].
    rewrite lookup_insert_ne in Hj by done.
    destruct (inv_follower g Hi _ _ _ Hj) as (c & Hcc & Hck).
    destruct (decide (ch' = ch)) as [->|Hne'].
    + rewrite lookup_alter_eq, Hcc. eexists. split; [done|done].
    + exists c. by rewrite lookup_alter_ne.
  - intros ch' c. destruct (decide (ch' = ch)) as [->|Hne].
    + intros _ _. exists i, (Published ctx ch raw), ctx. by rewrite lookup_insert_eq.
    + rewrite lookup_alter_ne by done. intros Hcc Hal.
      destruct (inv_alive g Hi _ _ Hcc Hal) as (j & u & ctx' & Hj & Hu).
      destruct (Hkeep _ _ _ _ Hj Hu) as (u' & ? & ?). eauto 10.
  - intros ch' c raw'. destruct (decide (ch' = ch)) as [->|Hne].
    + rewrite lookup_alter_eq, Hch. cbn. intros [= <-] [= <-]. done.
    + rewrite lookup_alter_ne by done. apply (inv_value g Hi).
Qed.

Lemma Inv_step g g' : step g g' → Inv g → Inv g'.
Proof.
  intros Hs Hi. destruct Hs as [g i ctx Ht|g i ctx ch Ht Hk Hc|g i ctx ch shard Ht Hk
    |g i ctx ch shard f r Ht
    |g i ctx ch now shard result raw s' Ht Hf|g i ctx ch raw reply Ht Hr|g i ctx ch Ht
    |g i ctx ch c raw reply Ht Hc Hv Hr|g i ctx ch c reply Ht Hc Hv Hal Hr|g i ctx ch Ht].
  - eapply Inv_set_task; [done|exact Ht|done|done|done].
  - by apply Inv_become_leader.
  - eapply Inv_set_task; [by apply Inv_set_srv|exact Ht|by intros u [= <-]|done|].
    intros ctx' ch' [= <- <-]. destruct (inv_entry g Hi _ _ Hk) as (j & u & ctx' & Hj & Hu & Hkk).
    destruct (inv_active g Hi _ _ _ _ Hj Hu) as [_ Hch]. eexists. split; [exact Hch|]. cbn. done.
  - by apply Inv_set_srv.
  - apply Inv_publish; [done|done|by eapply finish_forward_no_panic].
  - by eapply Inv_release.
  - destruct Ht as [Ht|[raw Ht]]; by eapply Inv_release.
  - eapply Inv_set_task; [done|exact Ht|by intros u [= <-]|done|done].
  - eapply Inv_set_task; [done|exact Ht|by intros u [= <-]|done|done].
  - eapply Inv_set_task; [done|exact Ht|by intros u [= <-]|done|done].
Qed.

Lemma Inv_reachable s g : reachable s g → Inv g.
Proof. induction 1; eauto using Inv_initial, Inv_step. Qed.

End Invariant.

(** ** Properties *)

Section Properties.
Context `{Unicode, HashIter}.

(** C25: in every reachable state each name and type has at most one upstream query
    in flight, the entry of the [inflight] map always belongs to a task that
    still runs, and no entry outlives its leader: with no leader left, the map is
    empty, even after cancellations and panics. *)
Theorem single_flight_exclusive (s : ServerState) (g : sys) :
  reachable s g →
  (∀ i j t u ctx ctx' ch ch', tasks g !! i = Some t → tasks g !! j = Some u →
     active t = Some (ctx, ch) → active u = Some (ctx', ch') → ctx_key ctx = ctx_key ctx' → i = j) ∧
  (∀ k ch, inflight g !! k = Some ch →
     ∃ i t ctx, tasks g !! i = Some t ∧ active t = Some (ctx, ch) ∧ ctx_key ctx = k) ∧
  ((∀ i t, tasks g !! i = Some t → active t = None) → inflight g = ∅).
Proof.
  intros Hi%Inv_reachable. split_and!.
  - intros i j t u ctx ctx' ch ch' Ht Hu Ha Hb Hk.
    destruct (inv_active g Hi _ _ _ _ Ht Ha) as [H1 _], (inv_active g Hi _ _ _ _ Hu Hb) as [H2 _].
    rewrite Hk, H2 in H1. injection H1 as ->. by eapply (inv_unique g Hi).
  - apply (inv_entry g Hi).
  - intros Hnone. apply map_empty. intros k. destruct (inflight g !! k) as [ch|] eqn:Hk; [|done].
    destruct (inv_entry g Hi _ _ Hk) as (i & t & ctx & Ht & Ha & _). rewrite (Hnone _ _ Ht) in Ha. done.
Qed.

(** C26: a follower is never stuck: in every reachable state it can return at once
    (with the published reply, or with SERVFAIL if its leader vanished), or the
    leader it waits for still runs; and what it may return is the replay of a
    reply published for its own name and type. *)
Theorem follower_progress (s : ServerState) (g : sys) (i : nat) (ctx : ForwardCtx) (ch : nat) :
  reachable s g → tasks g !! i = Some (Follower ctx ch) →
  ∃ c, chans g !! ch = Some c ∧ ck c = ctx_key ctx ∧
    ((∃ reply, step g (set_task i (Done ctx reply) g) ∧
        match value c with
        | Some raw => replay raw (fc_request ctx) (fc_transport ctx) = Ok reply
        | None => sender_alive c = false ∧ servfail_reply ctx = Ok reply
        end) ∨
     (∃ j t ctx', tasks g !! j = Some t ∧ active t = Some (ctx', ch) ∧ ctx_key ctx' = ctx_key ctx)).
Proof.
  intros Hi%Inv_reachable Ht. destruct (inv_follower g Hi _ _ _ Ht) as (c & Hc & Hk).
  exists c. split_and!; [done..|]. destruct (value c) as [raw|] eqn:Hv.
  - left. destruct (replay_ok raw (fc_request ctx) (fc_transport ctx)) as [reply Hr];
      [by eapply (inv_value g Hi)|].
    exists reply. split; [by eapply Follower_reply|done].
  - destruct (sender_alive c) eqn:Hal.
    + right. destruct (inv_alive g Hi _ _ Hc Hal) as (j & t & ctx' & Hj & Ha).
      destruct (inv_active g Hi _ _ _ _ Hj Ha) as [_ Hch].
      exists j, t, ctx'. split_and!; [done..|]. rewrite Hc in Hch. by simplify_eq.
    + left. destruct (servfail_reply_ok ctx) as [reply Hr].
      exists reply. split; [by eapply Follower_orphaned|done].
Qed.

(** However the tasks interleave, the shared cache only ever holds responses
    that parse. *)
Theorem single_flight_cache_ok (s : ServerState) (g : sys) :
  cache_ok (st_cache s) → reachable s g → cache_ok (st_cache (srv g)).
Proof.
  intros Hc. induction 1 as [|g g' _ IH Hs]; [done|].
  destruct Hs as [| | | |g i ctx ch now shard result raw s' Ht Hf| | | | |]; try done.
  cbn. unfold finish_forward in Hf. destruct result as [r|e|]; [| |done].
  - destruct (from_bytes r) as [p|e|] eqn:Hp; [|by simplify_eq|done].
    destruct (cache_ttl p); simplify_eq; [|done]. cbn. apply cache_insert_ok; [done|by exists p].
  - by simplify_eq.
Qed.

End Properties.

(** ** Witnesses *)

(** Two queries for one name: the first leads, the second follows. *)
Definition flight1 : sys := set_task 0 (Pending sample_ctx) (initial sample_state).
Definition flight2 : sys :=
  mkSys (srv flight1) (<[ctx_key sample_ctx := 0]> (inflight flight1))
    (<[0 := mkChan None true (ctx_key sample_ctx)]> (chans flight1))
    (<[0 := Leader sample_ctx 0]> (tasks flight1)).
Definition flight3 : sys := set_task 1 (Pending sample_ctx) flight2.
Definition flight4 : sys :=
  set_task 1 (Follower sample_ctx 0) (set_srv (inc Coalesced 0 (srv flight3)) flight3).

Lemma flight_reachable : @reachable ascii_unicode list_iter sample_state flight4.
Proof.
  apply (Reach_step _ flight3); [apply (Reach_step _ flight2); [apply (Reach_step _ flight1);
    [apply (Reach_step _ (initial sample_state)); [constructor|]|]|]|].
  - apply Spawn. vm_compute. reflexivity.
  - apply (Become_leader flight1 0 sample_ctx 0); vm_compute; reflexivity.
  - apply (Spawn flight2 1 sample_ctx). vm_compute. reflexivity.
  - apply (Become_follower flight3 1 sample_ctx 0 0); vm_compute; reflexivity.
Qed.

Lemma single_flight_exclusive_witness :
  inflight flight4 !! ctx_key sample_ctx = Some 0 ∧
  ∃ i t ctx, tasks flight4 !! i = Some t ∧ active t = Some (ctx, 0) ∧ ctx_key ctx = ctx_key sample_ctx.
Proof.
  assert (inflight flight4 !! ctx_key sample_ctx = Some 0) as Hk by (vm_compute; reflexivity).
  split; [exact Hk|].
  destruct (@single_flight_exclusive ascii_unicode list_iter sample_state flight4 flight_reachable)
    as (_ & He & _).
  exact (He _ _ Hk).
Defined.

(** The follower waits while its leader runs. *)
Lemma follower_progress_witness :
  ∃ c, chans flight4 !! 0 = Some c ∧ ck c = ctx_key sample_ctx.
Proof.
  destruct (@follower_progress ascii_unicode list_iter sample_state flight4 1 sample_ctx 0
    flight_reachable) as (c & Hc & Hk & _); [vm_compute; reflexivity|].
  exists c. split; [exact Hc|exact Hk].
Defined.

Lemma single_flight_cache_ok_witness : cache_ok (st_cache (srv flight4)).
Proof.
  apply (@single_flight_cache_ok ascii_unicode list_iter sample_state flight4).
  - apply map_Forall_empty.
  - exact flight_reachable.
Defined.
