(* ===== verification/Transport.v ===== *)
(** * The transports

    Models how requests reach the server state and how replies leave it:
    [ServerState::resolve] of [src/src/state.rs], the length-framed streams of
    DNS-over-TCP and -TLS ([handle_dns_stream] of [src/src/server.rs]), the step of
    a UDP worker ([serve]), the metrics and health endpoint ([serve_metrics]),
    DNS-over-HTTPS ([resolve_http] and [handle_http] of [src/src/doh.rs]) and the
    streams of a DNS-over-QUIC connection ([handle_connection] of
    [src/src/doq.rs]).

    A stream is the list of bytes the peer sends before it closes its side; reads
    fail only by reaching its end and writes succeed ([Streams] lifts both). The base64 decoder is a
    parameter. A forwarded query runs as the leader of its own single flight;
    the interleaving with other queries is the subject of [SingleFlight]. *)

From S2P Require Import Prelude RustStd Message Packet Encoder Resolver Cache RateLimit Acl Blocklist.
From S2P Require Import Metrics Dnssec Net Forwarder Recursive State Pipeline Policy.

(** ** Resolving one request *)

Section Resolve.
Context `{Unicode, HashIter, Ed25519, Net, Clock}.

(** [forward_ctx] in the role of the leader. *)
Definition forward_leader (shard ev : nat) (ctx : ForwardCtx) (s : ServerState)
    : res string (bytes * ServerState) * nat :=
  let '(r, ev) := forward_and_cache shard ev ctx s in
  (match r with
   | Ok (raw, s') =>
       reply ← replay raw (fc_request ctx) (fc_transport ctx); Ok (reply, s')
   | Err e => Err e
   | Panic => Panic
   end, ev).

(** The zone-transfer attempt, which only stream transports make. *)
Definition axfr_first (shard : nat) (req : bytes) (client : IpAddr) (t : Transport) (s : ServerState)
    : res string (option bytes * ServerState) :=
  match t with Tcp => try_axfr shard req client s | Udp => Ok (None, s) end.

(** The [match self.resolve_local(..)]. *)
Definition finish_resolution (shard ev : nat) (r : Resolution) (s : ServerState)
    : res string (option bytes * ServerState) * nat :=
  match r with
  | Ready b => (Ok (Some b, s), ev)
  | Drop => (Ok (None, s), ev)
  | Forward ctx =>
      let '(r, ev) := forward_leader shard ev ctx s in
      ('(reply, s') ← r; Ok (Some reply, s'), ev)
  end.

(** [ServerState::resolve]; [unix] is the wall clock. *)
Definition resolve_request (unix : Z) (shard ev : nat) (req : bytes) (client : IpAddr)
    (t : Transport) (s : ServerState) : res string (option bytes * ServerState) * nat :=
  match axfr_first shard req client t s with
  | Ok (Some resp, s) => (Ok (Some resp, s), ev)
  | Ok (None, s) =>
      match resolve_local (now_at ev) unix shard req client t s with
      | Ok (r, s) => finish_resolution shard (S ev) r s
      | Err e => (Err e, ev)
      | Panic => (Panic, ev)
      end
  | Err e => (Err e, ev)
  | Panic => (Panic, ev)
  end.

(** ** UDP *)

(** The receive buffer of a worker: [recv_from] cuts a longer datagram. *)
Definition UDP_BUFFER : nat := 1232.

(** One datagram of [serve]: the reply sent at once, or the query handed to a
    task. *)
Definition serve_datagram (unix : Z) (shard ev : nat) (datagram : bytes) (client : IpAddr)
    (s : ServerState) : res string (Resolution * ServerState) :=
  resolve_local (now_at ev) unix shard (take UDP_BUFFER datagram) client Udp s.

(** ** Streams *)

(** Both handlers return the bytes written, and how the connection ended. *)

(** [handle_dns_stream]; the fuel bounds the messages, of at least two bytes. *)
Fixpoint dns_stream_loop (fuel : nat) (unix : Z) (shard ev : nat) (stream : bytes) (client : IpAddr)
    (s : ServerState) : bytes * res string (ServerState * nat) :=
  match fuel with
  | 0 => ([], Err "out of fuel"%string)
  | S fuel =>
      match stream with
      | a :: b :: rest =>
          let len := Z.to_nat (u16_from_be_bytes a b) in
          if len <=? length rest then
            let msg := take len rest in
            match resolve_request unix shard ev msg client Tcp s with
            | (Ok (Some resp, s), ev) =>
                let '(out, r) := dns_stream_loop fuel unix shard ev (drop len rest) client s in
                (tcp_frame resp ++ out, r)
            | (Ok (None, s), ev) => dns_stream_loop fuel unix shard ev (drop len rest) client s
            | (Err e, _) => ([], Err e)
            | (Panic, _) => ([], Panic)
            end
          else ([], Err "unexpected end of file"%string)
      | _ => ([], Ok (s, ev))
      end
  end.

Definition handle_dns_stream (unix : Z) (shard ev : nat) (stream : bytes) (client : IpAddr)
    (s : ServerState) : bytes * res string (ServerState * nat) :=
  dns_stream_loop (S (length stream)) unix shard ev stream client s.

(** [handle_connection]: one query per QUIC stream; the bytes written on each
    stream served. *)
Fixpoint handle_connection (unix : Z) (shard ev : nat) (streams : list bytes) (client : IpAddr)
    (s : ServerState) : list bytes * res string (ServerState * nat) :=
  match streams with
  | [] => ([], Ok (s, ev))
  | stream :: rest =>
      match stream with
      | a :: b :: body =>
          let len := Z.to_nat (u16_from_be_bytes a b) in
          if len <=? length body then
            match resolve_request unix shard ev (take len body) client Tcp s with
            | (Ok (resp, s), ev) =>
                let '(out, r) := handle_connection unix shard ev rest client s in
                (from_option tcp_frame [] resp :: out, r)
            | (Err e, _) => ([], Err e)
            | (Panic, _) => ([], Panic)
            end
          else ([], Err "stream finished early"%string)
      | _ => ([], Ok (s, ev))
      end
  end.

End Resolve.

(** ** The metrics endpoint *)

(** The status, body and content type of [serve_metrics]. *)
Definition metrics_endpoint (path : bytes) (shutting_down : bool) (m : Metrics) : Z * bytes * bytes :=
  if bool_decide (path = str "/metrics") then
    (200%Z, Metrics_ops.prometheus m, str "text/plain; version=0.0.4")
  else if bool_decide (path = str "/healthz") then
    if shutting_down then (503%Z, str "shutting down" ++ Metrics_ops.NL, str "text/plain")
    else (200%Z, str "ok" ++ Metrics_ops.NL, str "text/plain")
  else (404%Z, [], str "text/plain").

(** ** DNS over HTTPS *)

(** [base64::engine::general_purpose::URL_SAFE_NO_PAD.decode]. *)
Class Base64Url := b64_decode : bytes → option bytes.

Definition MAX_BODY : Z := 65536.

Record DohResponse := mkDoh { status : Z; doh_body : bytes }.

Definition doh_error (code : Z) : DohResponse := mkDoh code [].

Definition strip_prefix (p s : bytes) : option bytes :=
  if starts_with s p then Some (drop (length p) s) else None.

Definition extract_dns_param `{Base64Url} (query : bytes) : option bytes :=
  find_map (strip_prefix (str "dns=")) (split_on 38 query) ≫= b64_decode.

(** The query bytes of a request, or the status that refuses it. *)
Definition doh_query `{Base64Url} (method target body : bytes) : res Z bytes :=
  let '(path, query) :=
    match split_once 63 target with Some (p, q) => (p, Some q) | None => (target, None) end in
  if negb (bool_decide (path = str "/dns-query")) then Err 404%Z
  else
    let query_bytes : res Z bytes :=
      if bool_decide (method = str "POST") then Ok body
      else if bool_decide (method = str "GET") then
        match query ≫= extract_dns_param with Some d => Ok d | None => Err 400%Z end
      else Err 405%Z in
    match query_bytes with
    | Ok q => if (bool_decide (q = []) || (MAX_BODY <? Z.of_nat (length q))%Z) then Err 400%Z else Ok q
    | Err e => Err e
    | Panic => Panic
    end.

Definition resolve_http `{Unicode, HashIter, Ed25519, Net, Clock, Base64Url} (unix : Z)
    (shard ev : nat) (method target body : bytes) (client : IpAddr) (s : ServerState)
    : res string (DohResponse * ServerState) * nat :=
  match doh_query method target body with
  | Err code => (Ok (doh_error code, s), ev)
  | Panic => (Panic, ev)
  | Ok q =>
      match resolve_request unix shard ev q client Tcp s with
      | (Ok (Some resp, s), ev) => (Ok (mkDoh 200 resp, s), ev)
      | (Ok (None, s), ev) => (Ok (doh_error 400, s), ev)
      | (Err e, ev) => (Err e, ev)
      | (Panic, ev) => (Panic, ev)
      end
  end.

(** [build_response]: a status outside 100 to 999 is replaced by 500. *)
Definition http_response (r : DohResponse) : Z * bytes * bytes :=
  (if in_range 100 999 (status r) then status r else 500%Z, str "application/dns-message", doh_body r).

(** [handle_http]: the body is read up to [MAX_BODY] bytes. *)
Definition handle_http `{Unicode, HashIter, Ed25519, Net, Clock, Base64Url} (unix : Z)
    (shard ev : nat) (method target body : bytes) (client : IpAddr) (s : ServerState)
    : res string (DohResponse * ServerState) * nat :=
  if (MAX_BODY <? Z.of_nat (length body))%Z then (Ok (doh_error 413, s), ev)
  else resolve_http unix shard ev method target body client s.

(** ** Lemmas *)

(** Requests never end in an error: refusals and failures are replies. *)

Lemma slice_infallible {A} (l : list A) a b : infallible (slice (E := string) l a b).
Proof. unfold slice. by case_match. Qed.

Lemma idx_infallible {A} (l : list A) i : infallible (idx (E := string) l i).
Proof. unfold idx. by case_match. Qed.
#[local] Hint Resolve infallible_bind slice_infallible idx_infallible : dns.

Lemma any_allowed_infallible cs ip : infallible (any_allowed cs ip).
Proof.
  assert (∀ net p a, infallible (matches_net net p a)) as Hm.
  { intros net p a. unfold matches_net. cbv zeta. apply infallible_bind; [auto with dns|]. intros x.
    apply infallible_bind; [auto with dns|]. intros y. repeat case_match; auto with dns. }
  induction cs as [|c cs IH]; cbn [any_allowed]; [done|].
  apply infallible_bind; [destruct c, ip; cbn; auto with dns; apply Hm|]. by intros [].
Qed.

Lemma replay_infallible raw request t : infallible (replay raw request t).
Proof. unfold replay. by repeat case_match. Qed.

Lemma finish_forward_infallible `{Unicode, HashIter} now shard ctx r s :
  infallible (finish_forward now shard ctx r s).
Proof. unfold finish_forward. by repeat case_match. Qed.

Section Infallible.
Context `{Unicode, HashIter, Ed25519, Net, Clock}.

Lemma try_axfr_infallible shard req client s : infallible (try_axfr shard req client s).
Proof.
  unfold try_axfr. repeat (case_match; try done);
    (apply infallible_bind; [apply any_allowed_infallible|]); by intros [].
Qed.

Lemma resolve_local_infallible now unix shard req client t s :
  infallible (resolve_local now unix shard req client t s).
Proof.
  unfold resolve_local. destruct (RateLimiter_ops.allow _ _ _) as [[] l]; [|done]. cbn [negb].
  destruct (from_bytes req) as [request|e|]; [|done..].
  destruct (head (questions request)) as [q|]; [|done].
  set (s' := set_limiter l (inc Total shard s)). destruct (_ && _); [done|].
  destruct (decorate_Ok unix s' q (build_response request (st_zones s'))) as (p & -> & _).
  cbn [mbind res_bind]. destruct (_ && _ && _); [|done]. unfold resolve_unknown.
  destruct (Cache_ops.get _ _ _ _) as [[raw|] c]; [|by repeat case_match].
  apply infallible_bind; [apply replay_infallible|done].
Qed.

Lemma forward_leader_infallible shard ev ctx s : infallible (forward_leader shard ev ctx s).1.
Proof.
  unfold forward_leader, forward_and_cache.
  destruct (upstream_query shard ev ctx s) as [[r s'] ev'].
  pose proof (finish_forward_infallible (now_at ev') shard ctx r s') as Hf.
  destruct (finish_forward _ _ _ _ _) as [[raw s'']|e|]; [|by destruct (Hf e)|done].
  cbn [fst]. apply infallible_bind; [apply replay_infallible|done].
Qed.

Lemma resolve_request_infallible unix shard ev req client t s :
  infallible (resolve_request unix shard ev req client t s).1.
Proof.
  unfold resolve_request.
  assert (infallible (axfr_first shard req client t s)) as Ha
    by (destruct t; [done|apply try_axfr_infallible]).
  destruct (axfr_first _ _ _ _ _) as [[[resp|] s1]|e|]; [done| |by destruct (Ha e)|done].
  pose proof (resolve_local_infallible (now_at ev) unix shard req client t s1) as Hl.
  destruct (resolve_local _ _ _ _ _ _ _) as [[r s2]|e|]; [|by destruct (Hl e)|done].
  destruct r as [b|ctx|]; cbn [finish_resolution]; [done| |done].
  pose proof (forward_leader_infallible shard (S ev) ctx s2) as Hf.
  destruct (forward_leader _ _ _ _) as [r ev']. cbn [fst] in *.
  apply infallible_bind; [done|]. by intros [].
Qed.

End Infallible.

Section Streams.
Context `{Unicode, HashIter, Ed25519, Net, Clock}.

(** The requests of a connection answered one after the other. *)
Fixpoint resolve_all (unix : Z) (shard ev : nat) (msgs : list bytes) (client : IpAddr)
    (s : ServerState) : list (option bytes) * res string (ServerState * nat) :=
  match msgs with
  | [] => ([], Ok (s, ev))
  | msg :: msgs =>
      match resolve_request unix shard ev msg client Tcp s with
      | (Ok (resp, s), ev) =>
          let '(out, r) := resolve_all unix shard ev msgs client s in (resp :: out, r)
      | (Err e, _) => ([], Err e)
      | (Panic, _) => ([], Panic)
      end
  end.

(** The bytes that carry the replies. *)
Definition frames (replies : list (option bytes)) : bytes := concat (from_option tcp_frame [] <$> replies).

(** The client's reader: one frame after the other. *)
Fixpoint read_frames (fuel : nat) (stream : bytes) : list bytes :=
  match fuel with
  | 0 => []
  | S fuel =>
      match read_frame stream with
      | Some msg => msg :: read_frames fuel (drop (2 + length msg) stream)
      | None => []
      end
  end.

Definition fits (msg : bytes) : Prop := (Z.of_nat (length msg) < 65536)%Z.

Lemma frame_parts msg : fits msg →
  ∃ a b, tcp_frame msg = a :: b :: msg ∧ Z.to_nat (u16_from_be_bytes a b) = length msg.
Proof.
  unfold fits. intros Hl. eexists _, _. split; [done|].
  rewrite u16_be_bytes_roundtrip by apply as_u16_u16. unfold len_u16.
  rewrite as_u16_small by width_lia. lia.
Qed.

Lemma read_frames_frames replies fuel :
  Forall fits (omap id replies) → length replies ≤ fuel →
  read_frames fuel (frames replies) = omap id replies.
Proof.
  revert fuel. induction replies as [|[msg|] replies IH]; intros fuel Hf Hl; [by destruct fuel| |].
  - destruct fuel as [|fuel]; cbn [length] in Hl; [lia|]. cbn in Hf. inversion_clear Hf as [|? ? Hm Hms].
    change (frames (Some msg :: replies)) with (tcp_frame msg ++ frames replies).
    cbn [read_frames]. rewrite read_frame_frame by done. cbn. f_equal.
    rewrite drop_app_length. apply IH; [done|lia].
  - change (frames (None :: replies)) with (frames replies). apply IH; [done|cbn in Hl; lia].
Qed.

Lemma dns_stream_loop_fuel fuel fuel' unix shard ev stream client s :
  length stream < fuel → length stream < fuel' →
  dns_stream_loop fuel unix shard ev stream client s = dns_stream_loop fuel' unix shard ev stream client s.
Proof.
  revert fuel' ev stream s. induction fuel as [|fuel IH]; intros fuel' ev stream s Hf Hf'; [lia|].
  destruct fuel' as [|fuel']; [lia|]. cbn [dns_stream_loop].
  destruct stream as [|a [|b rest]]; [done..|]. cbn [length] in Hf, Hf'.
  set (n := Z.to_nat _). destruct (Nat.leb_spec n (length rest)); [|done].
  assert (length (drop n rest) ≤ length rest) by (rewrite length_drop; lia).
  destruct (resolve_request _ _ _ _ _ _ _) as [[[[resp|] s']| |] ev']; [|apply IH; lia|done..].
  by rewrite (IH fuel') by lia.
Qed.

Lemma dns_stream_loop_frames fuel unix shard ev msgs tail client s :
  Forall fits msgs → length tail < 2 → length (concat (tcp_frame <$> msgs) ++ tail) < fuel →
  dns_stream_loop fuel unix shard ev (concat (tcp_frame <$> msgs) ++ tail) client s =
  let '(replies, r) := resolve_all unix shard ev msgs client s in (frames replies, r).
Proof.
  intros Hm Ht. revert fuel ev s. induction Hm as [|msg msgs Hmsg _ IH]; intros fuel ev s Hf.
  { destruct fuel; [lia|]. destruct tail as [|? [|? tail]]; cbn in Ht; [done..|lia]. }
  destruct fuel as [|fuel]; [lia|].
  destruct (frame_parts msg Hmsg) as (a & b & He & Hn).
  cbn [fmap list_fmap concat]. rewrite He. cbn [app dns_stream_loop]. rewrite Hn.
  assert (length (concat (tcp_frame <$> msgs) ++ tail) < fuel) as Hl.
  { revert Hf. cbn [fmap list_fmap concat]. rewrite <- app_assoc, length_app, He. cbn [length]. lia. }
  rewrite <- !app_assoc. rewrite (proj2 (Nat.leb_le _ _)) by (rewrite !length_app; lia).
  rewrite take_app_length, drop_app_length. cbn [resolve_all].
  destruct (resolve_request _ _ _ msg _ _ _) as [[[[resp|] s']| |] ev']; [| |done..];
    rewrite (IH _ _ _ Hl); by destruct (resolve_all _ _ _ msgs _ _).
Qed.

(** C39: on a connection that carries framed requests one after the other, the
    handler answers each in order, exactly as if they had been resolved one by
    one; it ends when the client closes, and a client that reads the replies
    frame by frame gets each of them back whole when they fit a frame. *)
Theorem dns_stream_serves_all unix shard ev (msgs : list bytes) (tail : bytes) client s :
  Forall fits msgs → length tail < 2 →
  let '(replies, r) := resolve_all unix shard ev msgs client s in
  let '(out, r') := handle_dns_stream unix shard ev (concat (tcp_frame <$> msgs) ++ tail) client s in
  r' = r ∧ (Forall fits (omap id replies) → read_frames (length replies) out = omap id replies).
Proof.
  intros Hm Ht. pose proof (dns_stream_loop_frames (S (length (concat (tcp_frame <$> msgs) ++ tail)))
    unix shard ev msgs tail client s Hm Ht ltac:(lia)) as He. unfold handle_dns_stream. rewrite He.
  destruct (resolve_all unix shard ev msgs client s) as [replies r]. split; [done|].
  intros Hf. by apply read_frames_frames.
Qed.

(** The loop over a connection ends on every byte stream: each round consumes
    at least the two length bytes, so that more rounds than there are bytes
    change nothing; and the only error it ends with is a stream that stops
    within a message. *)
Theorem dns_stream_terminates unix shard ev (stream : bytes) client s fuel :
  length stream < fuel →
  dns_stream_loop fuel unix shard ev stream client s = handle_dns_stream unix shard ev stream client s ∧
  ∀ e, (handle_dns_stream unix shard ev stream client s).2 = Err e → e = "unexpected end of file"%string.
Proof.
  intros Hf. split; [by apply dns_stream_loop_fuel; [|lia]|].
  unfold handle_dns_stream. generalize (Nat.lt_succ_diag_r (length stream)).
  generalize (S (length stream)). intros n. clear Hf. revert ev stream s.
  induction n as [|n IH]; intros ev stream s Hf e; [lia|].
  cbn [dns_stream_loop]. destruct stream as [|a [|b rest]]; [done..|]. cbn [length] in Hf.
  set (k := Z.to_nat _). destruct (Nat.leb_spec k (length rest)); [|by intros [= <-]].
  assert (length (drop k rest) < n) as Hd by (rewrite length_drop; lia).
  pose proof (resolve_request_infallible unix shard ev (take k rest) client Tcp s) as Hi.
  destruct (resolve_request _ _ _ _ _ _ _) as [[[[resp|] s']|e'|] ev'];
    [|by apply IH|by destruct (Hi e')|done].
  specialize (IH ev' _ s' Hd e). by destruct (dns_stream_loop _ _ _ _ _ _ _).
Qed.

End Streams.

(** ** Oversized replies and DNS over HTTPS *)

(** A reply of [65536] bytes or more, as a large zone transfer gives, is framed with
    its length modulo [2^16]: the client reads a prefix of it as the reply. *)
Theorem oversized_reply_misframed (msg : bytes) :
  (65536 <= Z.of_nat (length msg))%Z →
  ∃ n, (Z.of_nat n < 65536)%Z ∧ read_frame (tcp_frame msg) = Some (take n msg).
Proof.
  intros Hl. exists (Z.to_nat (Z.of_nat (length msg) mod 65536)).
  unfold tcp_frame, u16_to_be_bytes. cbn [app read_frame].
  rewrite u16_be_bytes_roundtrip by apply as_u16_u16. unfold len_u16, as_u16.
  change (2 ^ 16)%Z with 65536%Z. split; [width_lia|].
  rewrite (proj2 (Nat.leb_le _ _)); [done|]. width_lia.
Qed.

Section Doh.
Context `{Unicode, HashIter, Ed25519, Net, Clock, Base64Url}.

(** The request target of a GET for the encoded query [v]. *)
Definition get_target (v : bytes) : bytes := str "/dns-query?dns=" ++ v.

Lemma doh_query_get v body q :
  38%Z ∉ v → b64_decode v = Some q →
  doh_query (str "GET") (get_target v) body = doh_query (str "POST") (str "/dns-query") q.
Proof.
  intros Hv Hd. unfold doh_query, get_target.
  assert (split_once 63 (str "/dns-query?dns=" ++ v) = Some (str "/dns-query", str "dns=" ++ v)) as ->
    by reflexivity.
  assert (extract_dns_param (str "dns=" ++ v) = Some q) as He.
  { unfold extract_dns_param. rewrite split_on_clean_id.
    2:{ rewrite elem_of_app. intros [Hin|]; [|done]. revert Hin. vm_compute. set_solver. }
    cbn [find_map]. unfold strip_prefix, starts_with.
    rewrite bool_decide_true by (by eexists). rewrite drop_app_length. done. }
  cbn [mbind option_bind]. rewrite He. done.
Qed.

(** The two request forms of RFC 8484 agree: a GET whose [dns] parameter
    decodes to a query gets the same HTTP response, and leaves the same state,
    as a POST of that query; what is served with status 200 is the reply of the
    resolver to exactly those bytes; an empty or oversized query is answered 400
    without reaching the resolver. *)
Theorem doh_get_post_agree unix shard ev (v body q : bytes) client s :
  38%Z ∉ v → b64_decode v = Some q →
  let r := resolve_http unix shard ev (str "POST") (str "/dns-query") q client s in
  resolve_http unix shard ev (str "GET") (get_target v) body client s = r ∧
  if bool_decide (q ≠ [] ∧ (Z.of_nat (length q) <= MAX_BODY)%Z) then
    ∀ b s' ev', r = (Ok (mkDoh 200 b, s'), ev') ↔
      resolve_request unix shard ev q client Tcp s = (Ok (Some b, s'), ev')
  else r = (Ok (doh_error 400, s), ev).
Proof.
  intros Hv Hd. cbv zeta. unfold resolve_http. rewrite (doh_query_get v body q Hv Hd). split; [done|].
  assert (doh_query (str "POST") (str "/dns-query") q =
    if bool_decide (q = []) || (MAX_BODY <? Z.of_nat (length q))%Z then Err 400%Z else Ok q) as -> by done.
  case_bool_decide as Hq.
  - rewrite bool_decide_false by tauto. rewrite (proj2 (Z.ltb_ge _ _)) by tauto. cbn [orb].
    intros b s' ev'. destruct (resolve_request _ _ _ _ _ _ _) as [[[[resp|] s1]| |] ev1]; naive_solver.
  - assert (bool_decide (q = []) || (MAX_BODY <? Z.of_nat (length q))%Z = true) as ->; [|done].
    case_bool_decide; [done|]. apply Z.ltb_lt. apply Z.nle_gt. tauto.
Qed.

(** The statuses of a DoH server: what is sent is what [resolve_http] decided,
    one of five statuses, with a body for 200 only. *)
Theorem doh_statuses unix shard ev method target body client s r s' ev' :
  handle_http unix shard ev method target body client s = (Ok (r, s'), ev') →
  http_response r = (status r, str "application/dns-message", doh_body r) ∧
  (status r = 200%Z ∨ (status r ∈ [400; 404; 405; 413]%Z ∧ doh_body r = [])).
Proof.
  intros Hh. assert (status r = 200%Z ∨ (status r ∈ [400; 404; 405; 413]%Z ∧ doh_body r = [])) as Hs.
  { unfold handle_http, resolve_http, doh_query in Hh. destruct (_ <? _)%Z; [injection Hh as <- _ _; set_solver|].
    destruct (split_once 63 target) as [[path query]|]; destruct (negb _); try (injection Hh as <- _ _; set_solver);
      destruct (bool_decide (method = _)); [|destruct (bool_decide (method = _))| |destruct (bool_decide (method = _))];
      try destruct (_ ≫= extract_dns_param); try destruct (_ || _); try (injection Hh as <- _ _; set_solver);
      destruct (resolve_request _ _ _ _ _ _ _) as [[[[resp|] s1]| |] ev1]; try done; injection Hh as <- _ _; set_solver. }
  split; [|done]. unfold http_response, in_range. f_equal. f_equal.
  destruct Hs as [->|[Hin _]]; [done|]. rewrite !elem_of_cons, elem_of_nil in Hin.
  destruct Hin as [->|[->|[->|[->|[]]]]]; done.
Qed.

End Doh.

(** ** Witnesses *)

(** A connection that carries one query about a name of the zone. *)
Definition sample_served : list (option bytes) * res string (ServerState * nat) :=
  @resolve_all ascii_unicode list_iter toy_ed25519 honest_net still_clock 0 0 0
    [to_bytes sample_request] (V4 [10; 0; 0; 1]%Z) sample_state.

Lemma sample_served_fits : Forall fits (omap id sample_served.1).
Proof.
  apply (Forall_impl (fun m => (Z.of_nat (length m) <? 65536)%Z = true)); [|by intros m ?%Z.ltb_lt].
  apply Forall_forall. intros m Hm%list_elem_of_In. revert m Hm.
  apply (forallb_forall (fun m => (Z.of_nat (length m) <? 65536)%Z)). vm_compute. reflexivity.
Qed.

Lemma dns_stream_serves_all_witness :
  length (omap id sample_served.1) = 1 ∧
  read_frames (length sample_served.1)
    (@handle_dns_stream ascii_unicode list_iter toy_ed25519 honest_net still_clock 0 0 0
       (concat (tcp_frame <$> [to_bytes sample_request]) ++ []) (V4 [10; 0; 0; 1]%Z) sample_state).1
    = omap id sample_served.1.
Proof.
  split; [vm_compute; reflexivity|].
  pose proof (@dns_stream_serves_all ascii_unicode list_iter toy_ed25519 honest_net still_clock 0 0 0
    [to_bytes sample_request] [] (V4 [10; 0; 0; 1]%Z) sample_state) as Hs.
  fold sample_served in Hs. generalize sample_served_fits. destruct sample_served as [replies r].
  destruct (handle_dns_stream _ _ _ _ _ _) as [out r'].
  apply Hs; [repeat constructor|apply Nat.lt_0_2].
Defined.

Lemma dns_stream_terminates_witness :
  (@dns_stream_loop ascii_unicode list_iter toy_ed25519 honest_net still_clock 9 0 0 0 [0; 1]%Z
     (V4 [10; 0; 0; 1]%Z) sample_state).2 = Err "unexpected end of file"%string.
Proof.
  destruct (@dns_stream_terminates ascii_unicode list_iter toy_ed25519 honest_net still_clock 0 0 0
    [0; 1]%Z (V4 [10; 0; 0; 1]%Z) sample_state 9) as [He _].
  - apply Nat.ltb_lt. reflexivity.
  - rewrite He. vm_compute. reflexivity.
Defined.

Lemma oversized_reply_misframed_witness :
  ∃ n, (Z.of_nat n < 65536)%Z ∧
    read_frame (tcp_frame (replicate (Z.to_nat 65540) 0%Z)) = Some (take n (replicate (Z.to_nat 65540) 0%Z)).
Proof.
  apply (oversized_reply_misframed (replicate (Z.to_nat 65540) 0%Z)).
  rewrite length_replicate, Z2Nat.id; discriminate.
Defined.

(** A decoder that knows one word. *)
Definition toy_base64 : Base64Url :=
  fun v => if bool_decide (v = str "AAkB") then Some [0; 9; 1]%Z else None.

Lemma doh_get_post_agree_witness :
  @resolve_http ascii_unicode list_iter toy_ed25519 honest_net still_clock toy_base64 0 0 0
    (str "GET") (get_target (str "AAkB")) [] (V4 [10; 0; 0; 1]%Z) sample_state =
  @resolve_http ascii_unicode list_iter toy_ed25519 honest_net still_clock toy_base64 0 0 0
    (str "POST") (str "/dns-query") [0; 9; 1]%Z (V4 [10; 0; 0; 1]%Z) sample_state.
Proof.
  apply (@doh_get_post_agree ascii_unicode list_iter toy_ed25519 honest_net still_clock toy_base64).
  - apply split_once_None. vm_compute. reflexivity.
  - vm_compute. reflexivity.
Defined.
