(* ===== verification/Config.v ===== *)
(** * Configuration, start-up and reload

    Models the [Settings] part of [src/src/config.rs] (upstream addresses, forwarding
    rules, zones), the assembly of the server state from the command line and
    the settings in [src/src/main.rs] ([run_server] up to [server::run]), and
    [ServerState::reload] of [src/src/state.rs]. The TOML parser is a parameter, the
    file system a function from paths to contents. *)

From S2P Require Import Prelude RustStd TextParse Message Zones ZoneFile Cache RateLimit Acl.
From S2P Require Import Blocklist Metrics Dnssec Net Forwarder Recursive State.

Record ServerSettings := mkServerSettings {
  ss_addr : option bytes; ss_no_recurse : option bool; ss_rate_limit : option Z;
  ss_cache_size : option nat;
}.

Record ForwardRuleSettings := mkRuleSettings { rs_suffix : bytes; rs_upstream : bytes }.

Record UpstreamSettings := mkUpstreamSettings {
  us_default : option bytes; us_timeout_secs : option Z;
  us_rules : option (list ForwardRuleSettings); us_recursive : bool;
}.

Record ZoneSettings := mkZoneSettings { zs_origin : bytes; zs_file : bytes }.

Record TlsSettings := mkTlsSettings {
  ts_dot_addr : option bytes; ts_doh_addr : option bytes; ts_doq_addr : option bytes;
  ts_cert : option bytes; ts_key : option bytes;
}.

Record MetricsSettings := mkMetricsSettings { ms_addr : option bytes }.
Record BlocklistSettings := mkBlocklistSettings { bs_file : bytes }.
Record Dns64Settings := mkDns64Settings { ds_prefix : option bytes }.
Record AxfrSettings := mkAxfrSettings { as_allow : list bytes }.
Record DnssecSettings := mkDnssecSettings { dn_enabled : bool }.

Record Settings := mkSettings {
  s_server : option ServerSettings;
  s_upstream : option UpstreamSettings;
  s_zone : option (list ZoneSettings);
  s_tls : option TlsSettings;
  s_metrics : option MetricsSettings;
  s_blocklist : option BlocklistSettings;
  s_dns64 : option Dns64Settings;
  s_axfr : option AxfrSettings;
  s_dnssec : option DnssecSettings;
}.

(** [toml::from_str::<Settings>]. *)
Class Toml := toml_from_str : bytes → option Settings.

Definition load_settings `{Toml} (fs : bytes → option bytes) (path : bytes) : res string Settings :=
  match fs path with
  | None => Err "reading config"%string
  | Some content =>
      match toml_from_str content with
      | Some s => Ok s
      | None => Err "parsing config"%string
      end
  end.

Fixpoint load_zone_list `{Unicode} (fs : bytes → option bytes) (zs : list ZoneSettings)
    : res string (list AuthZone) :=
  match zs with
  | [] => Ok []
  | z :: rest =>
      rs ← load_zone_file fs (zs_file z);
      l ← load_zone_list fs rest;
      Ok (mkAuthZone (to_lowercase (zs_origin z)) rs :: l)
  end.

Definition load_zones_from_settings `{Unicode} (fs : bytes → option bytes) (s : Settings)
    : res string ZoneSet.t :=
  match s_zone s with
  | None => Ok ZoneSet.empty
  | Some zs => l ← load_zone_list fs zs; Ok (ZoneSet.new l)
  end.

(** [parse_upstream_addr] of [config.rs]. *)
Definition parse_upstream_addr (s : bytes) : res string SocketAddr :=
  match parse_socket_addr s with
  | Some a => Ok a
  | None =>
      match parse_socket_addr (s ++ str ":53") with
      | Some a => Ok a
      | None => Err "invalid upstream address"%string
      end
  end.

(** [parse_upstream] of [main.rs], for the command line. *)
Definition parse_upstream (s : bytes) : res string SocketAddr :=
  match parse_socket_addr s with
  | Some addr => Ok addr
  | None =>
      match parse_socket_addr (s ++ str ":53") with
      | Some addr => Ok addr
      | None => Err "invalid upstream address"%string
      end
  end.

Fixpoint rule_list `{Unicode} (rs : list ForwardRuleSettings) : res string (list ForwardRule) :=
  match rs with
  | [] => Ok []
  | r :: rest =>
      u ← parse_upstream_addr (rs_upstream r);
      l ← rule_list rest;
      Ok (mkForwardRule (to_lowercase (rs_suffix r)) u :: l)
  end.

Definition forward_rules_from_settings `{Unicode} (s : Settings) : res string ForwardRules.t :=
  match s_upstream s with
  | None => Ok ForwardRules.none
  | Some up =>
      d ← match us_default up with
          | Some a => u ← parse_upstream_addr a; Ok (Some u)
          | None => Ok None
          end;
      rs ← match us_rules up with Some l => rule_list l | None => Ok [] end;
      Ok (ForwardRules.new d rs)
  end.

(** ** Start-up *)

(** The command-line arguments that reach the state. *)
Record Args := mkArgs {
  a_config : option bytes;
  a_zone : bytes;
  a_upstream : bytes;
  a_no_recurse : bool;
  a_rate_limit : Z;
  a_cache_size : nat;
}.

(** The level of [-v] flags, and the filter of the log: the one of [RUST_LOG] when the
    variable is set and parses ([from_env]), and otherwise the directive of the level. *)
Definition default_level (verbose : nat) : bytes :=
  match verbose with 0 => str "info" | 1 => str "debug" | _ => str "trace" end.

Definition log_filter {F} (from_env : option F) (directive : bytes → F) (verbose : nat) : F :=
  match from_env with
  | Some f => f
  | None => directive (str "mini_dns=" ++ default_level verbose)
  end.

Definition recursive_mode (settings : option Settings) : bool :=
  match settings ≫= s_upstream with Some u => us_recursive u | None => false end.

Definition startup_zones `{Unicode, HashIter} (fs : bytes → option bytes) (args : Args)
    (settings : option Settings) : res string (ZoneSet.t * option bytes) :=
  match settings with
  | Some s => z ← load_zones_from_settings fs s; Ok (z, a_config args)
  | None =>
      az ← load_zone_with_inferred_origin fs (a_zone args);
      Ok (ZoneSet.from_single (origin az) (records az), Some (a_zone args))
  end.

Definition upstream_timeout (settings : option Settings) : Z :=
  match settings ≫= s_upstream with
  | Some u => default 5%Z (us_timeout_secs u)
  | None => 5
  end.

Definition settings_rules `{Unicode} (settings : option Settings) : res string ForwardRules.t :=
  match settings with
  | Some s => forward_rules_from_settings s
  | None => Ok ForwardRules.none
  end.

Definition startup_rules `{Unicode} (args : Args) (settings : option Settings)
    : res string (ForwardRules.t * option MultiForwarder.t) :=
  if a_no_recurse args then Ok (ForwardRules.none, None)
  else
    rules ← settings_rules settings;
    cli_upstream ← parse_upstream (a_upstream args);
    let rules :=
      if recursive_mode settings then ForwardRules.new None (ForwardRules.rules rules)
      else ForwardRules.with_default rules cli_upstream in
    Ok (rules, Some (MultiForwarder.new (from_secs (upstream_timeout settings)))).

Definition startup_limiter (args : Args) : RateLimiter :=
  if (a_rate_limit args =? 0)%Z then RateLimiter_ops.disabled
  else RateLimiter_ops.new (a_rate_limit args) (from_secs 1).

Definition startup_blocklist `{Unicode} (fs : bytes → option bytes) (settings : option Settings)
    : Blocklist :=
  match settings ≫= s_blocklist with
  | Some bl =>
      match Blocklist_ops.from_file fs (bs_file bl) with Ok b => b | _ => Blocklist_ops.empty end
  | None => Blocklist_ops.empty
  end.

Definition startup_dns64 (settings : option Settings) : option bytes :=
  match settings ≫= s_dns64 with
  | Some d => ds_prefix d ≫= parse_ipv6
  | None => None
  end.

Definition startup_acl (settings : option Settings) : Acl :=
  match settings ≫= s_axfr with
  | Some ax => match Acl_ops.parse (as_allow ax) with Ok acl => acl | _ => Acl_ops.deny_all end
  | None => Acl_ops.deny_all
  end.

Definition startup_settings `{Toml} (fs : bytes → option bytes) (args : Args)
    : res string (option Settings) :=
  match a_config args with
  | Some path => Some <$> load_settings fs path
  | None => Ok None
  end.

(** Signing, when the settings ask for it and the key could be made. *)
Definition startup_dnssec `{Ed25519} (pkcs8 : option bytes) (settings : option Settings) (state : ServerState)
    : ServerState :=
  match settings ≫= s_dnssec with
  | Some (mkDnssecSettings true) =>
      match single pkcs8 (str "example.com") with Ok keys => with_dnssec keys state | _ => state end
  | _ => state
  end.

(** The state assembled from the settings; [pkcs8] is the key document of [ring]. *)
Definition build_from `{Unicode, HashIter, Ed25519} (fs : bytes → option bytes)
    (pkcs8 : option bytes) (args : Args) (settings : option Settings) : res string ServerState :=
  '(zones, zone_path) ← startup_zones fs args settings;
  '(rules, forwarder) ← startup_rules args settings;
  let blocklist := startup_blocklist fs settings in
  let state := new_state zones zone_path rules forwarder (Cache_ops.new (a_cache_size args))
                 (startup_limiter args) in
  let state := if Blocklist_ops.is_active blocklist then with_blocklist blocklist state else state in
  let state := match startup_dns64 settings with Some p => with_dns64 p state | None => state end in
  let state := with_axfr_acl (startup_acl settings) state in
  let state := if recursive_mode settings then with_recursive state else state in
  Ok (startup_dnssec pkcs8 settings state).

(** [run_server] up to the state. *)
Definition build_state `{Unicode, HashIter, Ed25519, Toml} (fs : bytes → option bytes)
    (pkcs8 : option bytes) (args : Args) : res string ServerState :=
  settings ← startup_settings fs args; build_from fs pkcs8 args settings.

(** ** The listeners *)

(** The addresses and TLS files of the command line. *)
Record ListenArgs := mkListenArgs {
  la_addr : bytes; la_dot_addr : option bytes; la_doh_addr : option bytes;
  la_doq_addr : option bytes; la_tls_cert : option bytes; la_tls_key : option bytes;
  la_metrics_addr : option bytes;
}.

(** Where [tls::build] takes the certificate from. *)
Inductive TlsSource := Pem (cert key : bytes) | SelfSigned.

Record Listeners := mkListeners {
  l_addr : bytes; l_dot : option bytes; l_doh : option bytes; l_doq : option bytes;
  l_tls : option TlsSource; l_metrics : option bytes;
}.

(** [cli.or_else(|| config)]. *)
Definition or_else {A} (cli cfg : option A) : option A :=
  match cli with Some x => Some x | None => cfg end.

Definition tls_source (cert key : option bytes) : TlsSource :=
  match cert, key with Some c, Some k => Pem c k | _, _ => SelfSigned end.

Definition listeners (args : ListenArgs) (settings : option Settings) : Listeners :=
  let tls := settings ≫= s_tls in
  let dot := or_else (la_dot_addr args) (tls ≫= ts_dot_addr) in
  let doh := or_else (la_doh_addr args) (tls ≫= ts_doh_addr) in
  let doq := or_else (la_doq_addr args) (tls ≫= ts_doq_addr) in
  let cert := or_else (la_tls_cert args) (tls ≫= ts_cert) in
  let key := or_else (la_tls_key args) (tls ≫= ts_key) in
  mkListeners (la_addr args) dot doh doq
    (if bool_decide (is_Some dot) || bool_decide (is_Some doh) || bool_decide (is_Some doq)
     then Some (tls_source cert key) else None)
    (or_else (la_metrics_addr args) (m ← settings ≫= s_metrics; ms_addr m)).

(** ** Reload *)

Definition set_zones (z : ZoneSet.t) (s : ServerState) : ServerState :=
  mkState z (st_zone_path s) (st_forward_rules s) (st_forwarder s) (st_recursive s)
    (st_cache s) (st_limiter s) (st_blocklist s) (st_dns64_prefix s) (st_axfr_acl s)
    (st_dnssec_keys s) (st_metrics s).

(** [ServerState::reload]: the next state and the result. *)
Definition reload `{Unicode, HashIter, Toml} (fs : bytes → option bytes) (s : ServerState)
    : ServerState * res string unit :=
  match st_zone_path s with
  | None => (s, Ok tt)
  | Some path =>
      if ends_with path (str ".toml") then
        match (settings ← load_settings fs path;
               zones ← load_zones_from_settings fs settings; Ok (settings, zones)) with
        | Ok (settings, zones) =>
            let s := set_zones zones s in
            (match s_blocklist settings with
             | Some _ => with_blocklist (Blocklist_ops.reload fs (st_blocklist s)).1 s
             | None => s
             end, Ok tt)
        | Err e => (s, Err e)
        | Panic => (s, Panic)
        end
      else
        match load_zone_file fs path with
        | Ok zone => (set_zones (ZoneSet.from_single (ZoneSet.inferred_origin zone) zone) s, Ok tt)
        | Err e => (s, Err e)
        | Panic => (s, Panic)
        end
  end.

(** The two stores of a reload, one after the other: the zones, then the blocklist. *)
Definition store_zones `{Unicode, HashIter, Toml} (fs : bytes → option bytes) (s : ServerState) : ServerState :=
  match st_zone_path s with
  | None => s
  | Some path =>
      if ends_with path (str ".toml") then
        match (settings ← load_settings fs path; load_zones_from_settings fs settings) with
        | Ok zones => set_zones zones s
        | _ => s
        end
      else
        match load_zone_file fs path with
        | Ok zone => set_zones (ZoneSet.from_single (ZoneSet.inferred_origin zone) zone) s
        | _ => s
        end
  end.

Definition store_blocklist `{Unicode, HashIter, Toml} (fs : bytes → option bytes) (s : ServerState) : ServerState :=
  match st_zone_path s with
  | Some path =>
      if ends_with path (str ".toml") then
        match (settings ← load_settings fs path; _ ← load_zones_from_settings fs settings; Ok (s_blocklist settings)) with
        | Ok (Some _) => with_blocklist (Blocklist_ops.reload fs (st_blocklist s)).1 s
        | _ => s
        end
      else s
  | None => s
  end.

(** ** Lemmas *)

Section Lemmas.
Context `{Unicode, HashIter, Ed25519, Toml}.

(** A reload is its two stores. *)
Lemma reload_stores fs s : (reload fs s).1 = store_blocklist fs (store_zones fs s).
Proof.
  assert (∀ z, st_zone_path (set_zones z s) = st_zone_path s) as Hp by done.
  unfold reload, store_blocklist, store_zones.
  destruct (st_zone_path s) as [path|] eqn:Hpath; [|by rewrite Hpath].
  destruct (ends_with path (str ".toml")) eqn:He.
  - destruct (load_settings fs path) as [st|e|] eqn:Hl; cbn [mbind res_bind]; [|rewrite Hpath, He, Hl; done..].
    destruct (load_zones_from_settings fs st) as [z|e|] eqn:Hz; cbn [mbind res_bind].
    + rewrite Hp, He, Hl. cbn [mbind res_bind]. rewrite Hz. cbn [mbind res_bind]. by destruct (s_blocklist st).
    + rewrite Hpath, He, Hl. cbn [mbind res_bind]. by rewrite Hz.
    + rewrite Hpath, He, Hl. cbn [mbind res_bind]. by rewrite Hz.
  - destruct (load_zone_file fs path); [by rewrite Hp, He|by rewrite Hpath, He..].
Qed.

(** The parts of a state the start-up decides. *)
Lemma build_state_inv fs pkcs8 args s :
  build_state fs pkcs8 args = Ok s →
  ∃ settings zones zp rules fw,
    startup_settings fs args = Ok settings ∧
    startup_zones fs args settings = Ok (zones, zp) ∧ startup_rules args settings = Ok (rules, fw) ∧
    st_zones s = zones ∧ st_forward_rules s = rules ∧ st_forwarder s = fw ∧
    st_recursive s = (if recursive_mode settings then Some new_resolver else None) ∧
    st_dns64_prefix s = startup_dns64 settings ∧ st_axfr_acl s = startup_acl settings ∧
    st_cache s = Cache_ops.new (a_cache_size args) ∧ st_limiter s = startup_limiter args ∧
    st_zone_path s = zp.
Proof.
  unfold build_state, build_from. intros Hb. apply bind_Ok in Hb as (settings & Hs & Hb).
  apply bind_Ok in Hb as ([zones zp] & Hz & Hb). apply bind_Ok in Hb as ([rules fw] & Hr & Hb).
  exists settings, zones, zp, rules, fw. injection Hb as <-. unfold startup_dnssec.
  split_and!; [done..| | | | | | | | |];
    destruct (settings ≫= s_dnssec) as [[[]]|]; destruct (recursive_mode settings);
    destruct (startup_dns64 settings); destruct (Blocklist_ops.is_active _);
    try destruct (single _ _); done.
Qed.

Lemma startup_rules_forwarder args settings rules fw :
  startup_rules args settings = Ok (rules, fw) →
  (fw = None ∧ rules = ForwardRules.none ∧ a_no_recurse args = true) ∨
  (is_Some fw ∧ a_no_recurse args = false).
Proof.
  unfold startup_rules. destruct (a_no_recurse args); [intros [= <- <-]; by left|].
  intros Hr. apply bind_Ok in Hr as (r & _ & Hr). apply bind_Ok in Hr as (u & _ & Hr).
  injection Hr as _ <-. right. by eauto.
Qed.

(** The fields a reload may write are the zones and the blocklist. *)
Definition same_but_content (s s' : ServerState) : Prop :=
  s' = with_blocklist (st_blocklist s') (set_zones (st_zones s') s).

(** ** Properties *)

(** A reload is all or nothing: when the file or a zone in it cannot be read
    or parsed, the state is unchanged; otherwise the zones are exactly those of
    the files at that moment, the blocklist is reloaded from its own file only
    when the settings still name one, and nothing else (rules, clients, cache,
    limiter, ACL, keys, counters) changes. *)
Theorem reload_atomic fs s :
  let '(s', r) := reload fs s in
  match r with
  | Ok _ =>
      same_but_content s s' ∧
      match st_zone_path s with
      | None => s' = s
      | Some path =>
          if ends_with path (str ".toml") then
            ∃ settings, load_settings fs path = Ok settings ∧
              load_zones_from_settings fs settings = Ok (st_zones s') ∧
              st_blocklist s' = match s_blocklist settings with
                                | Some _ => (Blocklist_ops.reload fs (st_blocklist s)).1
                                | None => st_blocklist s
                                end
          else
            ∃ zone, load_zone_file fs path = Ok zone ∧
              st_zones s' = ZoneSet.from_records zone ∧ st_blocklist s' = st_blocklist s
      end
  | Err _ | Panic => s' = s
  end.
Proof.
  unfold reload, same_but_content. destruct (st_zone_path s) as [path|]; [|by destruct s].
  destruct (ends_with path (str ".toml")).
  - destruct (load_settings fs path) as [settings|e|]; [|done..]. cbn [mbind res_bind].
    destruct (load_zones_from_settings fs settings) as [zones|e|] eqn:Hz; [|done..]. cbn [mbind res_bind].
    destruct s. destruct (s_blocklist settings) eqn:Hb; cbn; (split; [done|]);
      exists settings; rewrite Hz, Hb; done.
  - destruct (load_zone_file fs path) as [zone|e|]; [|done..]. destruct s. split; [done|]. by exists zone.
Qed.

(** Reloading agrees with starting up: when the files have not changed, a
    reload right after the start succeeds and gives the zones the start gave,
    provided the settings file is named [.toml] (and a lone zone file is not). *)
Theorem reload_refreshes fs pkcs8 args s :
  build_state fs pkcs8 args = Ok s →
  match a_config args with
  | Some path => ends_with path (str ".toml") = true
  | None => ends_with (a_zone args) (str ".toml") = false
  end →
  (reload fs s).2 = Ok tt ∧ st_zones (reload fs s).1 = st_zones s.
Proof.
  intros Hb Hpath. destruct (build_state_inv _ _ _ _ Hb)
    as (settings & zones & zp & rules & fw & Hs & Hz & _ & Hzs & _ & _ & _ & _ & _ & _ & _ & Hzp).
  unfold startup_settings, startup_zones in *. unfold reload. rewrite Hzp, Hzs. clear Hzp Hzs Hb.
  destruct (a_config args) as [path|].
  - destruct (load_settings fs path) as [st| |] eqn:Hl; [|done..]. injection Hs as <-.
    apply bind_Ok in Hz as (z & Hz & Hr). injection Hr as <- <-. rewrite Hpath, Hl. cbn [mbind res_bind].
    rewrite Hz. cbn [mbind res_bind]. by destruct (s_blocklist st).
  - injection Hs as <-. apply bind_Ok in Hz as (az & Hz & Hr). injection Hr as <- <-. rewrite Hpath.
    unfold load_zone_with_inferred_origin in Hz. apply bind_Ok in Hz as (zone & -> & Hz). by simplify_eq.
Qed.

(** ** What the start-up does not take from the settings *)

(** [--no-recurse] drops the rules and the forwarder, yet with [recursive = true] in
    the settings the server still offers recursion. *)
Theorem no_recurse_still_recursive fs pkcs8 args settings s :
  a_no_recurse args = true → recursive_mode settings = true →
  build_from fs pkcs8 args settings = Ok s → recursion_available s = true.
Proof.
  intros _ Hr Hb. unfold build_from in Hb. apply bind_Ok in Hb as ([zones zp] & _ & Hb).
  apply bind_Ok in Hb as ([rules fw] & _ & Hb). rewrite Hr in Hb. injection Hb as <-.
  unfold recursion_available. apply orb_true_iff. right. apply bool_decide_true. unfold startup_dnssec.
  destruct (settings ≫= s_dnssec) as [[[]]|]; try destruct (single _ _); by eexists.
Qed.

(** The flags [-v] have no effect on the log when [RUST_LOG] is set. *)
Theorem verbose_ignored {F} (f : F) (directive : bytes → F) (v v' : nat) :
  log_filter (Some f) directive v = log_filter (Some f) directive v' ∧
  (log_filter None (fun b => b) 0 ≠ log_filter None (fun b => b) 1).
Proof. split; [reflexivity|discriminate]. Qed.

(** The [server] section has no effect on the state. *)
Theorem server_section_ignored fs pkcs8 args (st : Settings) (sv : option ServerSettings) :
  build_from fs pkcs8 args
    (Some (mkSettings sv (s_upstream st) (s_zone st) (s_tls st) (s_metrics st) (s_blocklist st)
             (s_dns64 st) (s_axfr st) (s_dnssec st))) =
  build_from fs pkcs8 args (Some st).
Proof. by destruct st. Qed.

(** The default upstream of the settings is never used: the command line's value,
    which always exists, replaces it. *)
Theorem config_default_unused args settings rules fw :
  startup_rules args settings = Ok (rules, Some fw) →
  ForwardRules.default_upstream rules =
    if recursive_mode settings then None
    else match parse_upstream (a_upstream args) with Ok u => Some u | _ => None end.
Proof.
  unfold startup_rules. destruct (a_no_recurse args); [done|]. intros Hr.
  apply bind_Ok in Hr as (r & _ & Hr). apply bind_Ok in Hr as (u & -> & Hr).
  injection Hr as <- _. by destruct (recursive_mode settings).
Qed.

(** A [dns64] section without a prefix leaves DNS64 off. *)
Theorem dns64_needs_prefix st : s_dns64 st = Some (mkDns64Settings None) → startup_dns64 (Some st) = None.
Proof. unfold startup_dns64. by intros Hd; cbn; rewrite Hd. Qed.

(** A blocklist that was empty or unreadable at the start is not loaded by later
    reloads: its path is dropped with it. *)
Theorem empty_blocklist_never_reloads fs fs' pkcs8 args settings s :
  Blocklist_ops.is_active (startup_blocklist fs settings) = false →
  build_from fs pkcs8 args settings = Ok s →
  st_blocklist (reload fs' s).1 = Blocklist_ops.empty.
Proof.
  intros Ha Hb. unfold build_from in Hb. apply bind_Ok in Hb as ([zones zp] & _ & Hb).
  apply bind_Ok in Hb as ([rules fw] & _ & Hb). rewrite Ha in Hb. injection Hb as <-.
  set (s := startup_dnssec _ _ _).
  assert (st_blocklist s = Blocklist_ops.empty) as Hs.
  { unfold s, startup_dnssec. destruct (settings ≫= s_dnssec) as [[[]]|]; destruct (recursive_mode settings);
      destruct (startup_dns64 settings); try destruct (single _ _); done. }
  unfold reload. destruct (st_zone_path s) as [path|]; [|done].
  destruct (ends_with path _).
  - destruct (load_settings fs' path) as [st| |]; [|done..]. cbn [mbind res_bind].
    destruct (load_zones_from_settings fs' st); [|done..]. cbn [mbind res_bind].
    destruct (s_blocklist st); cbn; rewrite Hs; done.
  - by destruct (load_zone_file fs' path).
Qed.

(** A certificate given without its key is ignored: a self-signed one is served. *)
Theorem cert_without_key_ignored args settings cert :
  la_tls_cert args = Some cert → or_else (la_tls_key args) ((settings ≫= s_tls) ≫= ts_key) = None →
  l_tls (listeners args settings) ≠ None → l_tls (listeners args settings) = Some SelfSigned.
Proof.
  unfold listeners. cbn [l_tls]. intros Hc Hk. rewrite Hk, Hc. cbn [or_else tls_source].
  by destruct (_ || _ || _).
Qed.

End Lemmas.

(** ** Witnesses *)

(** A file system with one zone file, and a settings parser that accepts nothing. *)
Definition sample_fs : bytes → option bytes := fun path =>
  if bool_decide (path = str "db.zone") then Some (str "www.b 60 A 192.0.2.1") else None.
Definition no_toml : Toml := fun _ => None.
Definition sample_args : Args := mkArgs None (str "db.zone") (str "192.0.2.53") false 0 16.

Definition sample_built : res string ServerState :=
  @build_state ascii_unicode list_iter toy_ed25519 no_toml sample_fs None sample_args.
Definition sample_server : ServerState :=
  match sample_built with Ok s => s | _ => authoritative ZoneSet.empty end.

Lemma sample_build : sample_built = Ok sample_server.
Proof. vm_compute. reflexivity. Qed.

Lemma reload_refreshes_witness :
  (@reload ascii_unicode list_iter no_toml sample_fs sample_server).2 = Ok tt ∧
  st_zones (@reload ascii_unicode list_iter no_toml sample_fs sample_server).1 = st_zones sample_server.
Proof.
  apply (@reload_refreshes ascii_unicode list_iter toy_ed25519 no_toml sample_fs None sample_args).
  - exact sample_build.
  - vm_compute. reflexivity.
Defined.
