(* ===== verification/Tls.v ===== *)
(** * TLS assets and the DoQ endpoint

    Models [src/src/tls.rs] (where certificate and key come from, and every way
    that can fail) and the configuration half of [src/src/doq.rs]. The PEM reader,
    the certificate generator and the checks of [rustls] and [quinn] are
    parameters. *)

From S2P Require Import Prelude RustStd TextParse Config.

(** The parts of [rustls::ServerConfig] the code sets. *)
Record ServerConfig := mkServerConfig { sc_certs : list bytes; sc_key : bytes; sc_alpn : list bytes }.

(** [rustls_pemfile::certs] and [private_key] on the contents of a file ([None] on a
    malformed file; a well-formed one may hold no key), the self-signed
    certificate and key of [rcgen], whether [rustls] accepts the protocol versions
    and a chain with its key, and whether a configuration suits QUIC. *)
Class TlsLib := {
  pem_certs : bytes → option (list bytes);
  pem_key : bytes → option (option bytes);
  self_signed : option (bytes * bytes);
  tls_versions : bool;
  tls_pair : list bytes → bytes → bool;
  quic_suits : ServerConfig → bool;
}.

Record TlsAssets := mkTlsAssets { ta_config : ServerConfig; cert_der : bytes }.

Section Tls.
Context `{TlsLib}.

Definition load_pem (fs : bytes → option bytes) (cert_path key_path : bytes)
    : res string (list bytes * bytes) :=
  match fs cert_path with
  | None => Err "reading certificate"%string
  | Some cert_pem =>
      match pem_certs cert_pem with
      | None => Err "parsing certificate PEM"%string
      | Some certs =>
          if bool_decide (certs = []) then Err "no certificates"%string
          else
            match fs key_path with
            | None => Err "reading key"%string
            | Some key_pem =>
                match pem_key key_pem with
                | None => Err "parsing private key PEM"%string
                | Some None => Err "no private key"%string
                | Some (Some key) => Ok (certs, key)
                end
            end
      end
  end.

Definition generate_self_signed : res string (list bytes * bytes) :=
  match self_signed with
  | Some (cert, key) => Ok ([cert], key)
  | None => Err "generating self-signed certificate"%string
  end.

(** The certificate and key, from where [tls_source] says. *)
Definition tls_material (fs : bytes → option bytes) (src : TlsSource) : res string (list bytes * bytes) :=
  match src with
  | Pem cert_path key_path => load_pem fs cert_path key_path
  | SelfSigned => generate_self_signed
  end.

(** The configuration for material from a given source. *)
Definition tls_from (fs : bytes → option bytes) (src : TlsSource) (alpn : list bytes)
    : res string TlsAssets :=
  '(certs, key) ← tls_material fs src;
  match head certs with
  | None => Err "no certificate found"%string
  | Some leaf =>
      if negb tls_versions then Err "failed to set TLS protocol versions"%string
      else if negb (tls_pair certs key) then Err "invalid certificate/key pair"%string
      else Ok (mkTlsAssets (mkServerConfig certs key alpn) leaf)
  end.

Definition tls_build (fs : bytes → option bytes) (cert_path key_path : option bytes) (alpn : list bytes)
    : res string TlsAssets := tls_from fs (tls_source cert_path key_path) alpn.

(** What [run_server] does with it: assets only when an encrypted listener was asked
    for. *)
Definition prepare_tls (fs : bytes → option bytes) (ls : Listeners) : res string (option TlsAssets) :=
  match l_tls ls with
  | Some src => Some <$> tls_from fs src [str "dot"; str "h2"; str "http/1.1"]
  | None => Ok None
  end.

Definition DOQ_ALPN : bytes := str "doq".

Definition with_doq_alpn (config : ServerConfig) : ServerConfig :=
  mkServerConfig (sc_certs config) (sc_key config) [DOQ_ALPN].

(** [build_endpoint] up to the bind: the address of the endpoint. *)
Definition build_endpoint (config : ServerConfig) (addr : bytes) : res string SocketAddr :=
  if negb (quic_suits config) then Err "building QUIC server config"%string
  else
    match parse_socket_addr addr with
    | Some a => Ok a
    | None => Err "invalid DoQ address"%string
    end.

(** ** Properties *)

Lemma load_pem_Ok fs c k certs key :
  load_pem fs c k = Ok (certs, key) ↔
  ∃ cp kp, fs c = Some cp ∧ pem_certs cp = Some certs ∧ certs ≠ [] ∧ fs k = Some kp ∧
    pem_key kp = Some (Some key).
Proof.
  unfold load_pem. split.
  - intros Hl. destruct (fs c) as [cp|]; [|done]. destruct (pem_certs cp) as [cs|] eqn:Hc; [|done].
    case_bool_decide; [done|]. destruct (fs k) as [kp|]; [|done].
    destruct (pem_key kp) as [[key'|]|] eqn:Hk; [|done..]. simplify_eq. eauto 10.
  - intros (cp & kp & -> & -> & Hne & -> & ->). by rewrite bool_decide_false.
Qed.

(** A TLS configuration is what was asked for or an error, never a silent
    substitute: with both paths given, success means that both files were read,
    the chain is the certificate file's, the key the key file's, and [rustls]
    accepted the pair; the leaf is the first of the chain, and the protocols are
    those asked for. *)
Theorem tls_build_faithful fs cert key alpn assets :
  tls_build fs (Some cert) (Some key) alpn = Ok assets →
  ∃ cp kp, fs cert = Some cp ∧ fs key = Some kp ∧
    pem_certs cp = Some (sc_certs (ta_config assets)) ∧
    pem_key kp = Some (Some (sc_key (ta_config assets))) ∧
    head (sc_certs (ta_config assets)) = Some (cert_der assets) ∧
    tls_pair (sc_certs (ta_config assets)) (sc_key (ta_config assets)) = true ∧
    sc_alpn (ta_config assets) = alpn.
Proof.
  unfold tls_build, tls_from. cbn [tls_source tls_material]. intros Hb.
  apply bind_Ok in Hb as ([certs k] & (cp & kp & ? & ? & _ & ? & ?)%load_pem_Ok & Hb).
  destruct (head certs) as [leaf|] eqn:Hh; [|done]. destruct tls_versions; [|done]. cbn [negb] in Hb.
  destruct (tls_pair certs k) eqn:Hp; [|done]. injection Hb as <-. exists cp, kp. done.
Qed.

End Tls.
