(* ===== verification/Server.v ===== *)
(** * The running server

    Everything the server does to its state, as one step relation: the state
    assembled at start-up ([Config.build_state]) evolves by the first pass of
    queries, zone transfers, upstream queries, the storing of their results, the
    counters, reloads (over a file system that changes), and the periodic clean-up
    of the rate limiter, in any order. A reply enters the cache by the calls of
    [CacheRace], one step each, so that insertions may overlap with everything
    else; so may the single writes of first passes that overlap (counters, limiter,
    the removal of an expired entry). An upstream query is one step; how several
    of them share sockets and delegations is the subject of [Pool] and
    [Delegations]. The theorems here are the end-to-end guarantees: they join those
    of the components. *)

From S2P Require Import CacheRace.
From S2P Require Import Prelude RustStd TextParse Message Packet Encoder Zones ZoneFile Resolver Cache RateLimit.
From S2P Require Import Acl Blocklist Metrics Dnssec Net Forwarder Recursive State Pipeline Policy Config.

Section Server.
Context `{Unicode, HashIter, Ed25519, Net, Clock, Toml}.

(** What the first pass leaves behind when the parser panics: the query was counted
    and charged to its client. *)
Definition charged (now : Z) (shard : nat) (client : IpAddr) (s : ServerState) : ServerState :=
  let s := inc Total shard s in
  set_limiter (RateLimiter_ops.allow now client (st_limiter s)).2 s.

(** A call of [insert] in progress for these bytes and this lifetime. *)
Definition inserting (raw : bytes) (ttl : Z) (th : thread) : Prop :=
  match th with Inserting _ resp ttl_secs _ => resp = raw ∧ ttl_secs = ttl | _ => False end.

Inductive serves : ServerState → ServerState → Prop :=
| Serve_local now unix shard req client t s r s' :
    resolve_local now unix shard req client t s = Ok (r, s') → serves s s'
| Serve_panic now unix shard req client t s :
    resolve_local now unix shard req client t s = Panic → serves s (charged now shard client s)
| Serve_axfr shard req client s r s' :
    try_axfr shard req client s = Ok (r, s') → serves s s'
| Serve_upstream shard ev ctx s r s' ev' :
    upstream_query shard ev ctx s = (r, s', ev') → serves s s'
| Serve_call now raw p ttl th s :
    from_bytes raw = Ok p → cache_ttl p = Some ttl → inserting raw ttl th →
    serves s (set_cache (advance now th (st_cache s)).1 s)
| Serve_stale k s : serves s (set_cache (advance 0 (Stale k) (st_cache s)).1 s)
| Serve_admit now client s :
    serves s (set_limiter (RateLimiter_ops.allow now client (st_limiter s)).2 s)
| Serve_count counter shard s : serves s (inc counter shard s)
| Serve_reload fs s : serves s (reload fs s).1
| Serve_store_zones fs s : serves s (store_zones fs s)
| Serve_store_blocklist fs s : serves s (store_blocklist fs s)
| Serve_cleanup now s : serves s (cleanup_rate_limiter now s).

(** The states a server started with these arguments can reach. *)
Inductive lifetime (fs : bytes → option bytes) (pkcs8 : option bytes) (args : Args)
    : ServerState → Prop :=
| Life_start s : build_state fs pkcs8 args = Ok s → lifetime fs pkcs8 args s
| Life_step s s' : lifetime fs pkcs8 args s → serves s s' → lifetime fs pkcs8 args s'.

(** ** What one step preserves *)

(** What holds of the forwarders at all times: each is filed under its own upstream. *)
Definition forwarders_good (s : ServerState) : Prop := ∀ m, st_forwarder s = Some m → keyed m.

(** The configuration part of a state: never written after start-up, but for the
    contents of the two clients, whose forwarders stay filed under their upstreams. *)
Record same_config (s s' : ServerState) : Prop := {
  same_rules : st_forward_rules s' = st_forward_rules s;
  same_forwarder : is_Some (st_forwarder s) ↔ is_Some (st_forwarder s');
  same_recursive : is_Some (st_recursive s) ↔ is_Some (st_recursive s');
  same_acl : st_axfr_acl s' = st_axfr_acl s;
  same_dns64 : st_dns64_prefix s' = st_dns64_prefix s;
  same_keys : st_dnssec_keys s' = st_dnssec_keys s;
  same_path : st_zone_path s' = st_zone_path s;
  same_keyed : forwarders_good s → forwarders_good s';
}.

(** What holds of the cache at all times: its contents parse, and its capacity setting
    never changes. (The number of entries is not bounded: [CacheRace.race_overshoots].) *)
Definition cache_good (cap : nat) (c : Cache) : Prop := cache_ok c ∧ capacity c = cap.

Lemma same_config_refl s : same_config s s.
Proof. by split. Qed.

Lemma same_config_trans s1 s2 s3 : same_config s1 s2 → same_config s2 s3 → same_config s1 s3.
Proof. intros [] []. split; solve [congruence|tauto]. Qed.

Lemma cache_good_get cap name qt now c :
  cache_good cap c → cache_good cap (Cache_ops.get name qt now c).2.
Proof.
  intros [Hok Hcap]. split; [by apply cache_get_ok|]. unfold Cache_ops.get. by repeat case_match.
Qed.

Lemma cache_good_sub cap m c : m ⊆ map c → cache_good cap c → cache_good cap (with_map m c).
Proof. intros Hm [Hok Hcap]. split; [|done]. intros k e Hk. by eapply Hok, lookup_weaken. Qed.

(** A call on the map keeps them, when what it stores parses. *)
Lemma cache_good_advance cap now raw ttl th c :
  parseable raw → inserting raw ttl th → cache_good cap c → cache_good cap (advance now th c).1.
Proof.
  intros Hp Hi Hg. destruct th as [k resp ttl' p| | |]; try done. destruct Hi as [-> ->].
  destruct p; cbn; try done.
  - apply cache_good_sub; [apply map_filter_subseteq|done].
  - apply cache_good_sub; [apply delete_subseteq|done].
  - destruct Hg as [Hok Hcap]. split; [|done]. by apply map_Forall_insert_2.
Qed.

(** A state that differs only in its counters, limiter, zones or blocklist. *)
Ltac unchanged := solve [split; [by split|first [done|by left]]].

Lemma resolve_local_step now unix shard req client t s r s' :
  resolve_local now unix shard req client t s = Ok (r, s') →
  same_config s s' ∧
  (st_cache s' = st_cache s ∨ ∃ name qt, st_cache s' = (Cache_ops.get name qt now (st_cache s)).2).
Proof.
  unfold resolve_local. destruct (RateLimiter_ops.allow _ _ _) as [[] l]; cbn [negb].
  2:{ intros [= _ <-]. unchanged. }
  destruct (from_bytes req) as [request|e|]; [|intros [= _ <-]; unchanged|done].
  destruct (head (questions request)) as [q|]; [|intros [= _ <-]; unchanged].
  destruct (_ && _); [intros [= _ <-]; unchanged|].
  intros Hb. apply bind_Ok in Hb as (p & _ & Hb).
  destruct (_ && _ && _); [|injection Hb as _ <-; unchanged].
  unfold resolve_unknown in Hb. cbn [set_limiter inc st_cache] in Hb.
  destruct (Cache_ops.get _ _ now (st_cache s)) as [cached c] eqn:Hg.
  assert (∃ name qt, c = (Cache_ops.get name qt now (st_cache s)).2) as Hc.
  { eexists _, _. by rewrite Hg. }
  destruct cached as [raw|].
  - apply bind_Ok in Hb as (reply & _ & Hb). injection Hb as _ <-. split; [by split|by right].
  - cbn [set_cache st_forward_rules st_recursive set_limiter inc] in Hb.
    destruct (ForwardRules.match_name _ _); [injection Hb as _ <-; split; [by split|by right]|].
    destruct (st_recursive s) eqn:Hr; injection Hb as _ <-; (split; [by split; cbn; rewrite ?Hr|by right]).
Qed.

Lemma try_axfr_step shard req client s r s' :
  try_axfr shard req client s = Ok (r, s') → same_config s s' ∧ st_cache s' = st_cache s.
Proof.
  unfold try_axfr. destruct (from_bytes req) as [request|e|]; [|intros [= _ <-]; unchanged|done].
  destruct (head (questions request)) as [q|]; [|intros [= _ <-]; unchanged].
  destruct (negb _); [intros [= _ <-]; unchanged|]. intros Hb. apply bind_Ok in Hb as ([] & _ & Hb); cbn [negb] in Hb;
    [|injection Hb as _ <-; unchanged].
  destruct (ZoneSet.find _ _); injection Hb as _ <-; unchanged.
Qed.

Lemma upstream_query_step shard ev ctx s r s' ev' :
  upstream_query shard ev ctx s = (r, s', ev') → same_config s s' ∧ st_cache s' = st_cache s.
Proof.
  unfold upstream_query. destruct (is_recursive ctx).
  - destruct (st_recursive s) as [rr|] eqn:Hr; [|intros [= _ <- _]; unchanged].
    destruct (resolve _ _ _ _ _) as [[r1 rr'] ev1]. intros [= _ <- _]. split; [|done].
    split; cbn; rewrite ?Hr; done.
  - destruct (st_forwarder s) as [m|] eqn:Hf; [|intros [= _ <- _]; unchanged].
    destruct (MultiForwarder.forward _ _ _ _) as [[r1 m'] ev1] eqn:Hw. intros [= _ <- _]. split; [|done].
    split; cbn; rewrite ?Hf; try done. intros Hk m1 [= <-]. eapply keyed_forward; [|exact Hw]. by apply Hk.
Qed.

Lemma reload_step fs s : same_config s (reload fs s).1 ∧ st_cache (reload fs s).1 = st_cache s.
Proof.
  unfold reload. destruct (st_zone_path s) as [path|] eqn:Hp; [|unchanged].
  destruct (ends_with path _).
  - destruct (settings ← load_settings fs path; _) as [[st z]|e|]; [|unchanged..].
    destruct (s_blocklist st); cbn; (split; [by split|done]).
  - destruct (load_zone_file fs path); cbn; (split; [by split|done]).
Qed.

Lemma store_zones_step fs s : same_config s (store_zones fs s) ∧ st_cache (store_zones fs s) = st_cache s.
Proof.
  unfold store_zones. destruct (st_zone_path s) as [path|]; [|unchanged].
  destruct (ends_with path _); [destruct (settings ← load_settings fs path; _)|destruct (load_zone_file fs path)];
    unchanged.
Qed.

Lemma store_blocklist_step fs s :
  same_config s (store_blocklist fs s) ∧ st_cache (store_blocklist fs s) = st_cache s.
Proof.
  unfold store_blocklist. destruct (st_zone_path s) as [path|]; [|unchanged].
  destruct (ends_with path _); [|unchanged]. destruct (settings ← load_settings fs path; _) as [[|]| |]; unchanged.
Qed.

Lemma serves_step cap s s' :
  serves s s' → cache_good cap (st_cache s) → same_config s s' ∧ cache_good cap (st_cache s').
Proof.
  intros Hs Hg. destruct Hs as [now unix shard req client t s r s' Hs|now unix shard req client t s Hs
    |shard req client s r s' Hs|shard ev ctx s r s' ev' Hs|now raw p ttl th s Hp Ht Hi|k s|now client s|counter shard s
    |fs s|fs s|fs s|now s].
  - apply resolve_local_step in Hs as [Hc [->|(n & q & ->)]]; auto using cache_good_get.
  - split; [by split|done].
  - apply try_axfr_step in Hs as [Hc ->]. done.
  - apply upstream_query_step in Hs as [Hc ->]. done.
  - split; [by split|]. eapply cache_good_advance; [by exists p|done..].
  - split; [by split|]. apply cache_good_sub; [apply delete_subseteq|done].
  - split; [by split|done].
  - split; [by split|done].
  - destruct (reload_step fs s) as [Hc ->]. done.
  - destruct (store_zones_step fs s) as [Hc ->]. done.
  - destruct (store_blocklist_step fs s) as [Hc ->]. done.
  - split; [by split|done].
Qed.

(** An uninterrupted insertion is a sequence of its calls, and so the handling of a
    result is a sequence of steps. *)
Lemma solo_serves fuel now raw p ttl th s :
  from_bytes raw = Ok p → cache_ttl p = Some ttl → inserting raw ttl th ∨ (∃ r, th = Finished r) →
  rtc serves s (set_cache (solo fuel now now th (st_cache s)).1 s).
Proof.
  intros Hp Ht. revert th s. induction fuel as [|fuel IH]; intros th s Hi; [by destruct s|].
  cbn [solo]. destruct Hi as [Hi|[r ->]]; [|cbn; apply IH; eauto].
  replace (match th with Inserting _ _ _ Store => now | _ => now end) with now by (by destruct th as [???[]| | |]).
  destruct (advance now th (st_cache s)) as [c th'] eqn:Ha.
  eapply rtc_l; [by eapply (Serve_call now raw p ttl th)|]. rewrite Ha. cbn [fst].
  apply (IH th' (set_cache c s)).
  destruct th as [k resp ttl' pos| | |]; try done. destruct pos; cbn in Ha; injection Ha as _ <-; eauto.
Qed.

Lemma finish_forward_serves now shard ctx result s raw s' :
  finish_forward now shard ctx result s = Ok (raw, s') → rtc serves s s'.
Proof.
  unfold finish_forward. destruct result as [rb|e|]; [| |done].
  - destruct (from_bytes rb) as [p|e|] eqn:Hp; [|by intros [= _ <-]|done].
    destruct (cache_ttl p) as [ttl|] eqn:Ht; [|by intros [= _ <-]]. intros [= _ <-].
    pose proof (solo_serves MAX_CALLS now rb p ttl (insert_call (fc_name ctx) (fc_qtype ctx) rb ttl) s Hp Ht) as Hs.
    rewrite (proj1 (uninterrupted_calls _ _ _)) in Hs. apply Hs. unfold insert_call.
    destruct (_ || _); [right; eauto|by left].
  - intros [= _ <-]. apply rtc_once, Serve_count.
Qed.

(** The forwarders start empty. *)
Lemma startup_keyed args settings rules fw m :
  startup_rules args settings = Ok (rules, fw) → fw = Some m → keyed m.
Proof.
  unfold startup_rules. destruct (a_no_recurse args); [by intros [= _ <-]|].
  intros (r & _ & (u & _ & [= _ <-])%bind_Ok)%bind_Ok [= <-]. apply keyed_new.
Qed.

Lemma lifetime_inv fs pkcs8 args s :
  lifetime fs pkcs8 args s →
  ∃ s0, build_state fs pkcs8 args = Ok s0 ∧ same_config s0 s ∧ cache_good (a_cache_size args) (st_cache s) ∧
    forwarders_good s.
Proof.
  induction 1 as [s Hb|s s' _ (s0 & Hb & Hc & Hg & Hf) Hs].
  - exists s. destruct (build_state_inv _ _ _ _ Hb) as (? & ? & ? & ? & ? & _ & _ & Hr & _ & _ & Hfw & _ & _ & _ & Hca & _).
    split_and!; [done|by split|rewrite Hca; split; [apply map_Forall_empty|done]|].
    intros m. rewrite Hfw. by eapply startup_keyed.
  - apply (serves_step (a_cache_size args)) in Hs as [Hc' Hg']; [|done].
    exists s0. split_and!; [done|by eapply same_config_trans|done|by apply (same_keyed _ _ Hc')].
Qed.

(** A rule exists only beside a forwarder. *)
Lemma lifetime_forwarder fs pkcs8 args s :
  lifetime fs pkcs8 args s →
  (∃ name u, ForwardRules.match_name (st_forward_rules s) name = Some u) → is_Some (st_forwarder s).
Proof.
  intros (s0 & Hb & Hc & _)%lifetime_inv (name & u & Hm). apply (same_forwarder _ _ Hc).
  rewrite (same_rules _ _ Hc) in Hm.
  destruct (build_state_inv _ _ _ _ Hb) as (st & ? & ? & rules & fw & _ & _ & Hr & _ & Hru & Hfw & _).
  rewrite Hfw. rewrite Hru in Hm.
  destruct (startup_rules_forwarder _ _ _ _ Hr) as [(_ & -> & _)|[? _]]; [|done].
  done.
Qed.

(** ** Properties *)

(** C7: at every moment of a server's life, and whatever bytes a client sends, the
    first pass of a query panics in one case only: the query was admitted by the
    rate limiter and its bytes make the packet parser panic. Every other stage
    (blocklist, zones, signing, DNS64, cache replay, choice of upstream) is
    total. *)
Theorem server_panics_only_in_parser fs pkcs8 args s now unix shard req client t :
  lifetime fs pkcs8 args s →
  resolve_local now unix shard req client t s = Panic ↔
  admitted now client s = true ∧ from_bytes req = Panic.
Proof.
  intros (s0 & _ & _ & [Hc _] & _)%lifetime_inv. by apply resolve_local_panics.
Qed.

(** C8: at every moment of a server's life, nothing local or blocked leaves the
    server: a query is forwarded only when it was admitted and parsed, its name
    is not blocked, no zone has a node for it, the client asked for recursion,
    and the cache has no live entry; it goes to the upstream of the longest
    matching rule, else to the default, else to the iterative resolver; and the
    client it needs was created at start-up, so that the [expect] on it does not
    panic, as long as no rule names the sentinel address as its upstream. *)
Theorem server_forwards_only_unknown fs pkcs8 args s now unix shard req client t ctx s' :
  lifetime fs pkcs8 args s →
  resolve_local now unix shard req client t s = Ok (Forward ctx, s') →
  (∃ request q, from_bytes req = Ok request ∧ head (questions request) = Some q ∧
     admitted now client s = true ∧ blocked s (qname q) = false ∧
     node (st_zones s) (to_lowercase (qname q)) = None ∧ rd_set request = true ∧
     (Cache_ops.get (to_lowercase (qname q)) (qtype q) now (st_cache s)).1 = None ∧
     ctx = mkForwardCtx request req (to_lowercase (qname q)) (qtype q) (fc_upstream ctx) t ∧
     match ForwardRules.match_name (st_forward_rules s) (to_lowercase (qname q)) with
     | Some u => fc_upstream ctx = u
     | None => fc_upstream ctx = SENTINEL
     end) ∧
  ((∀ name u, ForwardRules.match_name (st_forward_rules s) name = Some u →
      (sa_ip u, sa_port u) ≠ (V4 [0; 0; 0; 0]%Z, 0%Z)) →
   if is_recursive ctx then is_Some (st_recursive s') else is_Some (st_forwarder s')).
Proof.
  intros Hl Hr. pose proof (resolve_local_step _ _ _ _ _ _ _ _ _ Hr) as [Hcfg _].
  destruct (resolve_local_forward _ _ _ _ _ _ _ _ _ Hr)
    as (request & q & Hp & Hq & Ha & Hb & Hn & Hrd & Hg & Hctx & Hu).
  split.
  { exists request, q. split_and!; try done. by destruct (ForwardRules.match_name _ _); [|destruct Hu]. }
  intros Hs. unfold is_recursive.
  destruct (ForwardRules.match_name _ _) as [u|] eqn:Hm.
  - rewrite Hu. specialize (Hs _ _ Hm).
    assert (bool_decide (sa_ip u = V4 [0; 0; 0; 0]%Z) && (sa_port u =? 0)%Z = false) as ->.
    { apply not_true_iff_false. intros [Hi%bool_decide_eq_true Hz%Z.eqb_eq]%andb_true_iff. congruence. }
    apply (same_forwarder _ _ Hcfg). eapply lifetime_forwarder; [done|]. by eexists _, _.
  - destruct Hu as [-> Hrec]. by apply (same_recursive _ _ Hcfg).
Qed.

(** At every moment of a server's life, each reply of the first pass, be it
    local, blocked or from the cache, carries the identifier of the query it
    answers in its first two bytes. *)
Theorem server_reply_id fs pkcs8 args s now unix shard req client t b s' :
  lifetime fs pkcs8 args s →
  resolve_local now unix shard req client t s = Ok (Ready b, s') →
  ∃ request, from_bytes req = Ok request ∧ take 2 b = u16_to_be_bytes (h_id (header request)).
Proof.
  intros (s0 & _ & _ & [Hc _] & _)%lifetime_inv. by apply resolve_local_reply.
Qed.

(** C31: at every moment of a server's life, insertions into the cache being made call by call and
    overlapping with everything else, the cache holds responses that parse only and has the capacity setting of the
    command line, every forwarder is filed under the upstream it asks, and the forwarding rules, the transfer
    ACL, the DNS64 prefix and the signing keys are those of the start. (How many entries the cache holds is not
    bounded by its capacity: [CacheRace.race_overshoots].) *)
Theorem server_invariant fs pkcs8 args s :
  lifetime fs pkcs8 args s →
  cache_ok (st_cache s) ∧ capacity (st_cache s) = a_cache_size args ∧
  (∀ m upstream f, st_forwarder s = Some m → MultiForwarder.forwarders m !! upstream = Some f →
     fw_upstream f = upstream) ∧
  ∃ s0, build_state fs pkcs8 args = Ok s0 ∧
    st_forward_rules s = st_forward_rules s0 ∧ st_axfr_acl s = st_axfr_acl s0 ∧
    st_dns64_prefix s = st_dns64_prefix s0 ∧ st_dnssec_keys s = st_dnssec_keys s0 ∧
    st_zone_path s = st_zone_path s0 ∧
    (is_Some (st_forwarder s0) ↔ is_Some (st_forwarder s)) ∧
    (is_Some (st_recursive s0) ↔ is_Some (st_recursive s)).
Proof.
  intros (s0 & Hb & [] & [Hc Hcap] & Hf)%lifetime_inv. split_and!; [done..| |eauto 12].
  intros m u f Hm. by apply (Hf m Hm).
Qed.

End Server.

(** ** Witnesses *)

Lemma sample_lifetime :
  @lifetime ascii_unicode list_iter toy_ed25519 honest_net still_clock no_toml sample_fs None sample_args
    sample_server.
Proof. apply Life_start. exact sample_build. Qed.

(** A query the parser rejects is dropped, not a panic. *)
Lemma server_panics_only_in_parser_witness :
  @resolve_local ascii_unicode list_iter toy_ed25519 0 0 0 [1; 2; 3]%Z (V4 [10; 0; 0; 1]%Z) Udp
    sample_server ≠ Panic.
Proof.
  intros Hp.
  apply (@server_panics_only_in_parser ascii_unicode list_iter toy_ed25519 honest_net still_clock no_toml
    sample_fs None sample_args sample_server 0 0 0 [1; 2; 3]%Z (V4 [10; 0; 0; 1]%Z) Udp
    sample_lifetime) in Hp.
  destruct Hp as [_ Hp]. vm_compute in Hp. discriminate.
Defined.

(** The first pass of a query for [a.b], which the zone does not have. *)
Definition sample_pass : res string (Resolution * ServerState) :=
  @resolve_local ascii_unicode list_iter toy_ed25519 0 0 0 (to_bytes sample_request)
    (V4 [10; 0; 0; 1]%Z) Udp sample_server.
Definition sample_forward : ForwardCtx :=
  match sample_pass with Ok (Forward ctx, _) => ctx | _ => sample_ctx end.
Definition sample_after : ServerState :=
  match sample_pass with Ok (_, s) => s | _ => sample_server end.

Lemma sample_pass_forwards : sample_pass = Ok (Forward sample_forward, sample_after).
Proof. vm_compute. reflexivity. Qed.

Lemma server_forwards_only_unknown_witness :
  ∃ request q, from_bytes (to_bytes sample_request) = Ok request ∧ head (questions request) = Some q ∧
    rd_set request = true.
Proof.
  destruct (@server_forwards_only_unknown ascii_unicode list_iter toy_ed25519 honest_net still_clock
    no_toml sample_fs None sample_args sample_server 0 0 0 (to_bytes sample_request)
    (V4 [10; 0; 0; 1]%Z) Udp sample_forward sample_after sample_lifetime sample_pass_forwards)
    as [(request & q & Hp & Hq & _ & _ & _ & Hrd & _) _].
  exists request, q. split; [exact Hp|]. split; [exact Hq|exact Hrd].
Defined.

(** A query for [www.b], which the zone has. *)
Definition local_request : bytes :=
  to_bytes (mkPacket (mkHeader 513 256 1 0 0 0) [mkQuestion (str "WWW.b") 1 1] [] [] []).
Definition local_pass : res string (Resolution * ServerState) :=
  @resolve_local ascii_unicode list_iter toy_ed25519 0 0 0 local_request
    (V4 [10; 0; 0; 1]%Z) Udp sample_server.
Definition local_reply : bytes := match local_pass with Ok (Ready b, _) => b | _ => [] end.
Definition local_after : ServerState := match local_pass with Ok (_, s) => s | _ => sample_server end.

Lemma local_pass_ready : local_pass = Ok (Ready local_reply, local_after).
Proof. vm_compute. reflexivity. Qed.

Lemma server_reply_id_witness :
  ∃ request, from_bytes local_request = Ok request ∧
    take 2 local_reply = u16_to_be_bytes (h_id (header request)).
Proof.
  exact (@server_reply_id ascii_unicode list_iter toy_ed25519 honest_net still_clock no_toml
    sample_fs None sample_args sample_server 0 0 0 local_request (V4 [10; 0; 0; 1]%Z) Udp
    local_reply local_after sample_lifetime local_pass_ready).
Defined.

(** The server after the first pass of the sample query. *)
Lemma server_invariant_witness : cache_ok (st_cache sample_after) ∧ capacity (st_cache sample_after) = 16.
Proof.
  destruct (@server_invariant ascii_unicode list_iter toy_ed25519 honest_net still_clock no_toml
    sample_fs None sample_args sample_after) as (Hc & Hcap & _).
  - eapply Life_step; [exact sample_lifetime|]. exact (Serve_local _ _ _ _ _ _ _ _ _ sample_pass_forwards).
  - split; [exact Hc|exact Hcap].
Defined.
