(* ===== verification/EndToEnd.v ===== *)
(** * From the zone file to the client

    The whole path of a record: written in the zone file ([ZonePrint]), loaded at
    start-up or by a reload ([Config]), kept while the server runs ([Server]), looked
    up, encoded and sent for a query ([Reply]), and decoded by the client. *)

From S2P Require Import Prelude RustStd TextParse Message Packet Encoder Wire Zones ZoneFile ZonePrint.
From S2P Require Import Resolver Cache RateLimit Acl Blocklist Metrics Dnssec Net Forwarder Recursive.
From S2P Require Import State Pipeline Policy Reply Config Server.

(** The zones of the state are those of the zone file [text]. *)
Definition zones_of `{Unicode, HashIter} (s : ServerState) (text : bytes) : Prop :=
  st_zones s = ZoneSet.from_records (foldl add_zone_line ∅ (lines text)).

(** ** The zones while the server runs *)

Section Zones.
Context `{UNI : Unicode, ITER : HashIter, ED : Ed25519, TOML : Toml, NET : Net, CLOCK : Clock}.

Lemma resolve_local_zones now unix shard req client t s r s' :
  resolve_local now unix shard req client t s = Ok (r, s') → st_zones s' = st_zones s.
Proof.
  unfold resolve_local. destruct (RateLimiter_ops.allow _ _ _) as [[] l]; cbn [negb]; [|by intros [= _ <-]].
  destruct (from_bytes req) as [request|e|]; [|by intros [= _ <-]|done].
  destruct (head (questions request)) as [q|]; [|by intros [= _ <-]].
  destruct (_ && _); [by intros [= _ <-]|]. intros (p & _ & Hb)%bind_Ok.
  destruct (_ && _ && _); [|by injection Hb as _ <-]. unfold resolve_unknown in Hb.
  destruct (Cache_ops.get _ _ now _) as [[raw|] c].
  - apply bind_Ok in Hb as (reply & _ & Hb). by injection Hb as _ <-.
  - cbn [set_cache st_forward_rules st_recursive set_limiter inc] in Hb.
    destruct (ForwardRules.match_name _ _); [by injection Hb as _ <-|].
    destruct (st_recursive s); by injection Hb as _ <-.
Qed.

Lemma try_axfr_zones shard req client s r s' :
  try_axfr shard req client s = Ok (r, s') → st_zones s' = st_zones s.
Proof.
  unfold try_axfr. destruct (from_bytes req) as [request|e|]; [|by intros [= _ <-]|done].
  destruct (head (questions request)) as [q|]; [|by intros [= _ <-]].
  destruct (negb _); [by intros [= _ <-]|]. intros (al & _ & Hb)%bind_Ok.
  destruct al; cbn [negb] in Hb; [|by injection Hb as _ <-].
  destruct (ZoneSet.find _ _); by injection Hb as _ <-.
Qed.

Lemma upstream_query_zones shard ev ctx s r s' ev' :
  upstream_query shard ev ctx s = (r, s', ev') → st_zones s' = st_zones s.
Proof.
  unfold upstream_query. destruct (is_recursive ctx).
  - destruct (st_recursive s); [|by intros [= _ <- _]].
    destruct (resolve _ _ _ _ _) as [[r1 rr'] ev1]. by intros [= _ <- _].
  - destruct (st_forwarder s); [|by intros [= _ <- _]].
    destruct (MultiForwarder.forward _ _ _ _) as [[r1 m'] ev1]. by intros [= _ <- _].
Qed.

(** A reload of a zone file keeps the zones or takes those of the file's text. *)
Lemma reload_zones_of fs s path :
  st_zone_path s = Some path → ends_with path (str ".toml") = false →
  st_zones (reload fs s).1 = st_zones s ∨ ∃ text, fs path = Some text ∧ zones_of (reload fs s).1 text.
Proof.
  intros Hp Ht. unfold reload, load_zone_file. rewrite Hp, Ht.
  destruct (fs path) as [text|]; [right; by exists text|by left].
Qed.

Lemma store_blocklist_zones fs s : st_zones (store_blocklist fs s) = st_zones s.
Proof. unfold store_blocklist. by repeat case_match. Qed.

Lemma store_zones_of fs s path :
  st_zone_path s = Some path → ends_with path (str ".toml") = false →
  st_zones (store_zones fs s) = st_zones s ∨ ∃ text, fs path = Some text ∧ zones_of (store_zones fs s) text.
Proof.
  intros Hp Ht. pose proof (reload_zones_of fs s path Hp Ht) as Hr. unfold zones_of in *.
  rewrite reload_stores, store_blocklist_zones in Hr. exact Hr.
Qed.

(** What one step of the server does to the zones. *)
Lemma serves_zones s s' path :
  serves s s' → st_zone_path s = Some path → ends_with path (str ".toml") = false →
  st_zones s' = st_zones s ∨ ∃ fs text, fs path = Some text ∧ zones_of s' text.
Proof.
  intros Hs Hp Ht. destruct Hs as [????????? Hs|??????? Hs|?????? Hs|??????? Hs| | | | | | | |].
  - left. by eapply resolve_local_zones.
  - by left.
  - left. by eapply try_axfr_zones.
  - left. by eapply upstream_query_zones.
  - by left.
  - by left.
  - by left.
  - by left.
  - destruct (reload_zones_of fs s path Hp Ht) as [|(text & ? & ?)]; [by left|right; eauto].
  - destruct (store_zones_of fs s path Hp Ht) as [|(text & ? & ?)]; [by left|right; eauto].
  - left. apply store_blocklist_zones.
  - by left.
Qed.

(** Without a configuration file the server starts with the zone file alone: no
    signing, no DNS64. *)
Lemma build_state_zone_file fs pkcs8 args s :
  a_config args = None → build_state fs pkcs8 args = Ok s →
  (∃ text, fs (a_zone args) = Some text ∧ zones_of s text) ∧ st_zone_path s = Some (a_zone args) ∧
  st_dnssec_keys s = None ∧ st_dns64_prefix s = None.
Proof.
  intros Hc. unfold build_state, startup_settings. rewrite Hc. cbn [mbind res_bind]. unfold build_from.
  cbn [startup_zones mbind res_bind option_bind]. unfold load_zone_with_inferred_origin, load_zone_file.
  destruct (fs (a_zone args)) as [text|]; [|done]. cbn [mbind res_bind].
  intros ([rules fw] & _ & Hb)%bind_Ok. injection Hb as <-.
  split; [|by cbn; repeat case_match]. exists text. split; [done|]. cbn. by repeat case_match.
Qed.

(** At every moment of its life a server started with a zone file serves the zone
    of one text: the file as it was at start-up or at one of the reloads. *)
Theorem lifetime_zone_file fs pkcs8 args s :
  a_config args = None → ends_with (a_zone args) (str ".toml") = false → lifetime fs pkcs8 args s →
  ∃ fs' text, fs' (a_zone args) = Some text ∧ zones_of s text.
Proof.
  intros Hc Ht. induction 1 as [s Hb|s s' Hl (fs' & text & Hf & Hz) Hs].
  - destruct (build_state_zone_file _ _ _ _ Hc Hb) as ((text & Hf & Hz) & _). eauto.
  - destruct (lifetime_inv _ _ _ _ Hl) as (s0 & Hb & Hsame & _).
    destruct (build_state_zone_file _ _ _ _ Hc Hb) as (_ & Hp & _).
    rewrite <- (same_path _ _ Hsame) in Hp.
    destruct (serves_zones _ _ _ Hs Hp Ht) as [He|(f & t & Hf' & Hz')]; [|eauto].
    exists fs', text. split; [done|]. unfold zones_of in *. by rewrite He.
Qed.

Lemma lifetime_undecorated fs pkcs8 args s :
  a_config args = None → lifetime fs pkcs8 args s → st_dnssec_keys s = None ∧ st_dns64_prefix s = None.
Proof.
  intros Hc (s0 & Hb & Hs & _)%lifetime_inv.
  destruct (build_state_zone_file _ _ _ _ Hc Hb) as (_ & _ & Hk & H6).
  by rewrite (same_keys _ _ Hs), (same_dns64 _ _ Hs).
Qed.

End Zones.

(** ** The zone of a written file *)

Section Written.
Context `{UNI : Unicode, ITER : HashIter}.

(** The records of a zone that the wire can carry. *)
Definition publishable (rs : list DnsRecord.t) : Prop :=
  Forall writable rs ∧ Forall servable_record rs ∧ (Z.of_nat (length rs) <= 32000)%Z.

Definition written_zone (rs : list DnsRecord.t) : Zone := foldl add_zone_line ∅ (lines (zone_text_of rs)).

Lemma written_zone_lookup rs (k : bytes) :
  Forall writable rs →
  written_zone rs !! k = if decide (owned_by k rs = []) then None else Some (owned_by k rs).
Proof.
  intros Hrs. unfold written_zone. by rewrite load_lines_lookup, lines_zone_text, records_of_render.
Qed.

Lemma owned_by_elem k rs r : r ∈ owned_by k rs ↔ DnsRecord.domain r = k ∧ r ∈ rs.
Proof. unfold owned_by. by rewrite list_elem_of_filter. Qed.

(** The records the map holds are those written. *)
Lemma written_zone_values rs r : Forall writable rs → r ∈ values_flatten (written_zone rs) → r ∈ rs.
Proof.
  intros Hrs Hr. unfold values_flatten in Hr.
  apply list_elem_of_In, in_concat in Hr as (l & Hl & Hin).
  apply list_elem_of_In, list_elem_of_fmap in Hl as ([k l'] & -> & Hl).
  rewrite hm_iter_perm in Hl. apply elem_of_map_to_list in Hl. rewrite written_zone_lookup in Hl by done.
  case_decide; [done|]. injection Hl as <-. apply list_elem_of_In, owned_by_elem in Hin. tauto.
Qed.

Lemma find_map_elem {A B} (f : A → option B) l y : find_map f l = Some y → ∃ x, x ∈ l ∧ f x = Some y.
Proof.
  induction l as [|x l IH]; cbn; [done|]. destruct (f x) eqn:Hx.
  - intros [= ->]. exists x. split; [by left|done].
  - intros (x' & ? & ?)%IH. exists x'. split; [by right|done].
Qed.

(** The origin is the owner of a SOA of the file, or the root. *)
Lemma written_origin rs :
  Forall writable rs →
  ZoneSet.inferred_origin (written_zone rs) = [] ∨
  ∃ r, r ∈ rs ∧ DnsRecord.is_SOA r = true ∧ DnsRecord.domain r = ZoneSet.inferred_origin (written_zone rs).
Proof.
  intros Hrs. unfold ZoneSet.inferred_origin.
  destruct (find_map _ _) as [d|] eqn:Hf; [right|by left]. cbn.
  apply find_map_elem in Hf as (r & Hr & Hd). exists r.
  apply written_zone_values in Hr; [|done]. by destruct r; simplify_eq/=.
Qed.

Lemma written_servable rs : publishable rs → Forall servable_zone (ZoneSet.from_records (written_zone rs)).
Proof.
  intros (Hw & Hs & Hl). apply Forall_singleton. rewrite Forall_forall in Hs. split; cbn [origin records].
  - destruct (written_origin rs Hw) as [->|(r & Hr & _ & <-)]; [by split; [apply wf_string_nil|left]|].
    destruct (Hs r Hr) as (((Hd & _) & Hn & _) & _). done.
  - intros k l Hk. rewrite written_zone_lookup in Hk by done. case_decide; [done|]. injection Hk as <-. split.
    + apply Forall_forall. intros r [_ Hr]%owned_by_elem. by apply Hs.
    + pose proof (length_filter (fun r => DnsRecord.domain r = k) rs) as Hle. unfold owned_by. lia.
Qed.

(** The node of a written name is its records, when the name is under the
    owner of every SOA of the file. *)
Lemma written_node rs (k : bytes) :
  Forall writable rs → owned_by k rs ≠ [] →
  (∀ r, r ∈ rs → DnsRecord.is_SOA r = true → Subdomain k (DnsRecord.domain r)) →
  node (ZoneSet.from_records (written_zone rs)) k = Some (owned_by k rs).
Proof.
  intros Hw Hk Hsoa. unfold node, ZoneSet.from_records, ZoneSet.from_single, ZoneSet.find.
  change (ZoneSet.new [mkAuthZone (ZoneSet.inferred_origin (written_zone rs)) (written_zone rs)])
    with [mkAuthZone (ZoneSet.inferred_origin (written_zone rs)) (written_zone rs)].
  cbn [List.find]. replace (ZoneSet.matches _ _) with true.
  - cbn [mbind option_bind records]. unfold lookup. rewrite written_zone_lookup by done.
    by rewrite decide_False.
  - symmetry. unfold ZoneSet.matches. cbn [origin]. apply orb_true_iff.
    destruct (written_origin rs Hw) as [->|(r & Hr & Hs & <-)]; [by left|right].
    by apply under_Subdomain, Hsoa.
Qed.

End Written.

(** ** The answer for a name that is not an alias *)

Section Direct.
Context `{UNI : Unicode, ITER : HashIter}.

Lemma answers_direct request zones q :
  head (questions request) = Some q → alias_of zones (qtype q) (to_lowercase (qname q)) = None →
  answers (build_response request zones) = direct_answers zones (qtype q) (to_lowercase (qname q)).
Proof.
  intros Hq Ha. unfold build_response. cbn [answers]. unfold chase_question. rewrite Hq.
  edestruct (chase_answers zones (qtype q) MAX_CNAME_CHAIN) as (cn & last & Hch & _ & _ & _ & -> & _);
    [cbn [cs_seen]; set_solver|].
  cbn [cs_name cs_answers] in *. inversion Hch; simplify_eq. done.
Qed.

Lemma with_own_domain r : DnsRecord.with_domain r (DnsRecord.domain r) = r.
Proof. by destruct r. Qed.

(** The records of a type that a file has for a name. *)
Definition rrset (ty : Z) (k : bytes) (rs : list DnsRecord.t) : list DnsRecord.t :=
  List.filter (of_type ty) (owned_by k rs).

(** The name has records of the type, or no alias. *)
Definition not_aliased (ty : Z) (k : bytes) (rs : list DnsRecord.t) : Prop :=
  rrset ty k rs ≠ [] ∨ rrset DnsRecord.TYPE_CNAME k rs = [].

Lemma written_direct rs zones ty k :
  node zones k = Some (owned_by k rs) → direct_answers zones ty k = rrset ty k rs.
Proof.
  intros Hn. unfold direct_answers, rrset. rewrite Hn. rewrite <- (list_fmap_id (List.filter _ _)) at 2.
  apply list_fmap_ext. intros i r Hi. apply list_elem_of_lookup_2, list_elem_of_In, filter_In in Hi as [Hin _].
  apply list_elem_of_In, owned_by_elem in Hin as [<- _]. apply with_own_domain.
Qed.

Lemma written_no_alias rs zones ty k :
  node zones k = Some (owned_by k rs) → not_aliased ty k rs → alias_of zones ty k = None.
Proof.
  intros Hn Hna. unfold alias_of. rewrite Hn. cbn [mbind option_bind]. case_bool_decide as Hd; [|done].
  destruct Hna as [Hna|Hna]; [done|]. unfold rrset in Hna.
  destruct (List.find _ (owned_by k rs)) as [r|] eqn:Hf; [|done]. exfalso.
  apply List.find_some in Hf. apply filter_In in Hf. by rewrite Hna in Hf.
Qed.

End Direct.

(** ** Served from the file *)

Section Served.
Context `{UNI : Unicode, ITER : HashIter, ED : Ed25519, TOML : Toml, NET : Net, CLOCK : Clock}.

Lemma decorate_undecorated unix s q p :
  st_dnssec_keys s = None → st_dns64_prefix s = None → decorate unix s q p = Ok p.
Proof. intros Hk H6. unfold decorate. by rewrite Hk, H6. Qed.

(** The bits [set_ra] leaves alone. *)
Lemma set_ra_flags p : rcode (set_ra p) = rcode p ∧ flag 10 (set_ra p) = flag 10 p.
Proof.
  unfold rcode, flag, set_ra. cbn [header h_flags]. split.
  - apply Z.bits_inj'. intros i Hi. rewrite !Z.land_spec, Z.lor_spec.
    destruct (Z.testbit 15 i) eqn:Hb; [|by rewrite !andb_false_r].
    assert (i < 4)%Z as Hlt.
    { destruct (Z.lt_ge_cases i 4); [done|]. rewrite (Z.bits_above_log2 15 i) in Hb; [done|lia|].
      change (Z.log2 15) with 3%Z. lia. }
    assert (Z.testbit FLAG_RA i = false) as ->; [|by rewrite orb_false_r].
    assert (i = 0 ∨ i = 1 ∨ i = 2 ∨ i = 3)%Z as Hc by lia. by destruct Hc as [->|[->|[->| ->]]].
  - rewrite Z.lor_spec. by rewrite orb_false_r.
Qed.

(** C3: what is written in the zone file is what clients decode: a server started with
    a zone file and serving the text written for the records [rs], at any later
    moment of its life, answers an admitted, unblocked query for a name with records
    (under the file's SOA, if it has one, and not an alias) with bytes from which the
    client decodes exactly the records the file has for that name and type, in the
    file's order, authoritative, without error and under its own identifier; over
    UDP the client may get the truncated form instead, when the reply exceeds the size
    it advertised. *)
Theorem zone_file_served fs pkcs8 args s rs now unix shard client t request q :
  a_config args = None → lifetime fs pkcs8 args s → zones_of s (zone_text_of rs) → publishable rs →
  servable_request request → head (questions request) = Some q →
  let k := to_lowercase (qname q) in
  owned_by k rs ≠ [] → not_aliased (qtype q) k rs →
  (∀ r, r ∈ rs → DnsRecord.is_SOA r = true → Subdomain k (DnsRecord.domain r)) →
  admitted now client s = true → blocked s (qname q) = false →
  ∃ b p s', resolve_local now unix shard (to_bytes request) client t s = Ok (Ready b, s') ∧
    delivers t b p ∧ answers p = rrset (qtype q) k rs ∧ rcode p = 0%Z ∧ flag 10 p = true ∧
    h_id (header p) = h_id (header request) ∧ questions p = questions request.
Proof.
  intros Hc Hl Hz Hpub Hreq Hq k Hk Hna Hsoa Ha Hb. unfold zones_of in Hz. fold (written_zone rs) in Hz.
  destruct (lifetime_undecorated _ _ _ _ Hc Hl) as [Hks H64].
  assert (node (st_zones s) k = Some (owned_by k rs)) as Hn.
  { rewrite Hz. apply written_node; [apply Hpub|done|done]. }
  assert (Forall servable_zone (st_zones s)) as Hsz by (rewrite Hz; by apply written_servable).
  pose proof (build_response_encodable (st_zones s) Hsz request Hreq) as Henc.
  pose proof (from_bytes_to_bytes request (proj1 Hreq)) as Hp.
  destruct (resolve_local_packet now unix shard (to_bytes request) client t s request Ha Hp) as (r & s' & He & Hm).
  { unfold cached. rewrite Hq. cbv zeta. fold k. by rewrite Hn. }
  destruct r as [b|ctx|]; [| |done].
  2:{ destruct Hm as (_ & q' & Hq' & Hn'). rewrite Hq in Hq'. injection Hq' as <-. fold k in Hn'. congruence. }
  destruct Hm as (p & Hpk & ->). exists (encode p t), p, s'. split; [done|].
  unfold local_packet in Hpk. rewrite Hq, Hb, decorate_undecorated in Hpk by done.
  cbn [mbind res_bind] in Hpk. fold k in Hpk. rewrite Hn in Hpk. injection Hpk as <-.
  assert (answers (build_response request (st_zones s)) = rrset (qtype q) k rs) as Hans.
  { rewrite (answers_direct _ _ q Hq) by by eapply written_no_alias. by apply written_direct. }
  destruct (build_response_rcode (st_zones s) request q Hq) as [Hrc Haa]. fold k in Hrc, Haa.
  rewrite Hn in Hrc, Haa. specialize (Haa (mk_is_Some _ _ eq_refl)).
  destruct (set_ra_flags (build_response request (st_zones s))) as [Hrc' Haa'].
  destruct (recursion_available s); split_and!; try done; try by (rewrite ?Hrc', ?Haa').
  - by apply encode_delivers, encodable_set_ra.
  - by apply encode_delivers.
Qed.

End Served.

(** ** Witness *)

(** The zone file of [sample_zone_records], served from start-up. *)
Definition written_fs : bytes → option bytes := fun path =>
  if bool_decide (path = str "db.zone") then Some (zone_text_of sample_zone_records) else None.

Definition written_built : res string ServerState :=
  @build_state ascii_unicode list_iter toy_ed25519 no_toml written_fs None sample_args.
Definition written_server : ServerState :=
  match written_built with Ok s => s | _ => authoritative ZoneSet.empty end.

Lemma written_build : written_built = Ok written_server.
Proof. vm_compute. reflexivity. Qed.

Lemma written_lifetime :
  @lifetime ascii_unicode list_iter toy_ed25519 honest_net still_clock no_toml written_fs None sample_args written_server.
Proof. apply Life_start. exact written_build. Qed.

Definition aaaa_request : DnsPacket :=
  mkPacket (mkHeader 21 0 1 0 0 0) [mkQuestion (str "WWW.b") 28 1] [] [] [].

Lemma sample_records_publishable : @publishable ascii_unicode sample_zone_records.
Proof.
  split; [|split; [|by vm_compute]].
  - unfold sample_zone_records, writable, owner_ok, ZonePrint.name_ok, text_ok, wf_ipv6, wf_bytes, is_u8, is_u16, is_u32.
    repeat constructor; vm_compute; (reflexivity || congruence || discriminate || lia).
  - unfold sample_zone_records, servable_record. concrete; [unfold wf_ipv6; concrete|cbn; lia].
Qed.

Lemma zone_file_served_witness :
  ∃ b p s', @resolve_local ascii_unicode list_iter toy_ed25519 0 0 0 (to_bytes aaaa_request)
      (V4 [10; 0; 0; 1]%Z) Udp written_server = Ok (Ready b, s') ∧ delivers Udp b p ∧
    answers p = [DnsRecord.AAAA (str "www.b") [32; 1; 13; 184; 0; 0; 0; 0; 0; 0; 0; 0; 0; 0; 0; 255]%Z 60].
Proof.
  destruct (@zone_file_served ascii_unicode list_iter toy_ed25519 no_toml honest_net still_clock
    written_fs None sample_args written_server sample_zone_records 0 0 0 (V4 [10; 0; 0; 1]%Z) Udp
    aaaa_request (mkQuestion (str "WWW.b") 28 1)) as (b & p & s' & Hr & Hd & Ha & _).
  - reflexivity.
  - exact written_lifetime.
  - vm_compute. reflexivity.
  - exact sample_records_publishable.
  - split; [unfold encodable, aaaa_request; cbn [header questions answers authorities additionals]; concrete|].
    intros q [= <-]. unfold good_name. concrete.
  - reflexivity.
  - vm_compute. discriminate.
  - left. vm_compute. discriminate.
  - intros r Hr Hs. apply under_Subdomain. unfold sample_zone_records in Hr.
    repeat (apply elem_of_cons in Hr as [->|Hr]; [try discriminate Hs; vm_compute; reflexivity|]).
    apply not_elem_of_nil in Hr as [].
  - vm_compute. reflexivity.
  - vm_compute. reflexivity.
  - exists b, p, s'. split; [exact Hr|]. split; [exact Hd|]. rewrite Ha. vm_compute. reflexivity.
Defined.
