(* ===== verification/Forwarded.v ===== *)
(** * Forwarded queries, from the client's bytes to the client's packet

    [Reply] says what a client decodes from an answer the server has; here the answer comes
    from an upstream: the whole path of a query for a name the server does not know, through
    [ServerState::resolve] of [src/src/state.rs], the forwarder, and the replay of the upstream's
    reply, or of the SERVFAIL that stands for its failure. *)

From S2P Require Import Prelude RustStd TextParse Message Packet Encoder Wire Zones Resolver Cache RateLimit.
From S2P Require Import Acl Blocklist Metrics Dnssec Net Forwarder Recursive State Pipeline Policy Reply Transport.

Section Forwarded.
Context `{UNI : Unicode, ITER : HashIter, ED : Ed25519, NET : Net, CLOCK : Clock}.

(** An admitted query that is to go to [upstream]: not a transfer, not blocked, for a name without
    a node, with recursion asked for and available, not in the cache, and with a rule whose upstream is not the mark of the iterative resolver. *)
Record goes_to (now : Z) (client : IpAddr) (s : ServerState) (request : DnsPacket) (q : DnsQuestion)
    (upstream : SocketAddr) : Prop := {
  gt_question : head (questions request) = Some q;
  gt_type : qtype q ≠ DnsRecord.TYPE_AXFR;
  gt_admitted : admitted now client s = true;
  gt_clear : blocked s (qname q) = false;
  gt_unknown : node (st_zones s) (to_lowercase (qname q)) = None;
  gt_rd : rd_set request = true;
  gt_available : recursion_available s = true;
  gt_miss : (Cache_ops.get (to_lowercase (qname q)) (qtype q) now (st_cache s)).1 = None;
  gt_rule : ForwardRules.match_name (st_forward_rules s) (to_lowercase (qname q)) = Some upstream;
  gt_real : bool_decide (sa_ip upstream = V4 [0; 0; 0; 0]%Z) && (sa_port upstream =? 0)%Z = false;
}.

Lemma axfr_first_none shard req client t s request q :
  from_bytes req = Ok request → head (questions request) = Some q → qtype q ≠ DnsRecord.TYPE_AXFR →
  axfr_first shard req client t s = Ok (None, s).
Proof.
  intros Hp Hq Ht. destruct t; [done|]. cbn. unfold try_axfr. rewrite Hp, Hq.
  by rewrite (proj2 (Z.eqb_neq _ _) Ht).
Qed.

(** Such a query reaches the forwarder as it came. *)
Lemma resolve_request_forwards unix shard ev req client t s request q upstream m r m' ev' :
  from_bytes req = Ok request → goes_to (now_at ev) client s request q upstream →
  st_forwarder s = Some m → MultiForwarder.forward (S ev) req upstream m = (r, m', ev') →
  ∃ s1, st_forwarder s1 = Some m' ∧ resolve_request unix shard ev req client t s =
    ('(raw, s2) ← finish_forward (now_at ev') shard
       (mkForwardCtx request req (to_lowercase (qname q)) (qtype q) upstream t) r s1;
     reply ← replay raw request t; Ok (Some reply, s2), ev').
Proof.
  intros Hp [Hq Hty Ha Hb Hn Hrd Hav Hm Hu Hreal] Hf Hfw. unfold resolve_request.
  rewrite (axfr_first_none shard req client t s request q) by done.
  destruct (resolve_local_question (now_at ev) unix shard req client t s request q Ha Hp Hq Hb)
    as (p' & s' & _ & Hc & Hr & _ & Hfo & ->).
  rewrite Hn, Hrd, Hav. cbn [andb]. unfold resolve_unknown. rewrite Hc.
  destruct (Cache_ops.get _ _ _ _) as [o c]. cbn in Hm. subst o.
  cbn [set_cache st_forward_rules]. rewrite Hr, Hu. cbn [finish_resolution].
  unfold forward_leader, forward_and_cache, upstream_query, is_recursive. cbn [fc_upstream fc_raw st_forwarder].
  rewrite Hreal. cbn [set_cache st_forwarder]. rewrite Hfo, Hf, Hfw.
  exists (set_clients (Some m') (st_recursive s') (inc Forwarded shard (set_cache c s'))).
  split; [done|]. f_equal. destruct (finish_forward _ _ _ _ _) as [[raw s2]| |]; [|done..].
  cbn [mbind res_bind fc_request fc_transport]. by destruct (replay _ _ _).
Qed.

(** ** What the client decodes *)

(** The failure of an upstream as the client sees it. *)
Definition servfail_of (request p : DnsPacket) : Prop :=
  h_id (header p) = h_id (header request) ∧ questions p = questions request ∧ answers p = [] ∧
  rcode p = RCODE_SERVFAIL.

Lemma rcode_synth request rc :
  (0 ≤ rc < 16)%Z → rcode (synth_response request [] rc) = rc.
Proof.
  intros Hrc. unfold rcode. cbn [synth_response header h_flags]. change FLAG_RD with (2 ^ 8)%Z.
  rewrite land_bit by lia. assert (∃ n, rc = Z.of_nat n ∧ n < 16) as (n & -> & Hn) by (exists (Z.to_nat rc); lia).
  do 16 (destruct n as [|n]; [by destruct (Z.testbit _ 8)|]). lia.
Qed.

(** The SERVFAIL that stands for a failed upstream reaches the client whole. *)
Lemma servfail_decodes request t :
  encodable request →
  ∃ b p, replay (to_bytes (synth_response request [] RCODE_SERVFAIL)) request t = Ok b ∧
    delivers t b p ∧ servfail_of request p.
Proof.
  intros He. pose proof (encodable_synth request RCODE_SERVFAIL He ltac:(unfold RCODE_SERVFAIL; width_lia)) as Hs.
  set (sf := synth_response request [] RCODE_SERVFAIL) in *.
  pose proof (from_bytes_to_bytes sf Hs) as Hp.
  assert (is_u16 (h_id (header request))) as Hid by apply He.
  assert (rcode sf = RCODE_SERVFAIL) as Hrc by (apply rcode_synth; unfold RCODE_SERVFAIL; lia).
  pose proof (replay_decodes t (to_bytes sf) request Hid) as Hm.
  destruct (replay (to_bytes sf) request t) as [b|e|]; [|done|by rewrite Hp in Hm; destruct Hm].
  unfold replay_means in Hm. rewrite Hp in Hm. destruct t.
  - exists b, (replayed_packet sf request).
    split_and!; [done|apply Hm, encodable_rewritable; [done|cbn; lia]|].
    destruct (align_edns_rest (with_id sf (h_id (header request))) request) as (Eh & Eq & Ea & _).
    unfold servfail_of, replayed_packet, recount. cbv zeta. cbn [header questions answers h_id].
    rewrite Eh, Eq, Ea. by split_and!.
  - exists b, (with_id sf (h_id (header request))). split_and!; [done| |done].
    left. split; [|done]. by apply Hm.
Qed.


End Forwarded.

(** ** A query and its two endings *)

Definition stub_upstream : SocketAddr := mkSocketAddr (V4 [192; 0; 2; 53]%Z) 53.

(** An upstream that answers [sample_request], and one that is silent. *)
Definition answering_net : Net := {|
  net_connect := fun _ _ => true;
  net_send := fun _ _ _ => true;
  net_recv := fun _ _ => Some (to_bytes (with_id sample_response 9));
  net_tcp := fun _ _ _ => None;
|}.

Definition silent_net : Net := {|
  net_connect := fun _ _ => true;
  net_send := fun _ _ _ => true;
  net_recv := fun _ _ => None;
  net_tcp := fun _ _ _ => None;
|}.

Definition stub_state : ServerState :=
  new_state [] None (ForwardRules.single stub_upstream) (Some (MultiForwarder.new 5)) (Cache_ops.new 16)
    RateLimiter_ops.disabled.

Lemma sample_goes_to :
  @goes_to ascii_unicode (@now_at still_clock 0) (V4 [10; 0; 0; 1]%Z) stub_state sample_request
    (mkQuestion (str "a.b") 1 1) stub_upstream.
Proof. split; vm_compute; try reflexivity. discriminate. Qed.

Lemma sample_request_encodable : encodable sample_request.
Proof.
  unfold encodable, sample_request, sample_question.
  cbn [header questions answers authorities additionals]. concrete.
Qed.

Lemma upstream_answer_encodable : encodable (with_id sample_response 9).
Proof.
  destruct sample_response_encodable as ((_ & Hh) & Hc & Hs). split; [split|split]; [|exact Hh|exact Hc|exact Hs].
  cbn. width_lia.
Qed.

