(* ===== verification/Snapshot.v ===== *)
(** * The first pass under concurrency

    [State.resolve_local] is one step of the model. In the code it reads the shared
    state in five places, between which other tasks and a reload may change it: the
    rate limiter, the blocklist twice ([is_active], then [is_blocked]), the zones (one
    [ArcSwap] snapshot, kept to the end), and the cache. Here the pass is a machine
    that stands before its next access; [pass_step] is one access with the
    local work up to the next.

    Shown: alone, the machine is [resolve_local], state included; with anything the server
    does between its accesses, it gives the reply [resolve_local] gives in one
    state put together from what it saw, with the zones of a single moment. A
    reload likewise is two stores, zones and blocklist, and [Server] counts the moment
    between them among the server's states. *)

From S2P Require Import Prelude RustStd Message Packet Encoder Zones Resolver Cache RateLimit Acl Blocklist.
From S2P Require Import Metrics Dnssec Net Forwarder Recursive State Pipeline Policy Transport Config Server.

(** Where a pass is: before the limiter, the two reads of the blocklist, the zones, the
    cache; or done. *)
Inductive pass :=
| Limit
| Active (request : DnsPacket) (question : DnsQuestion)
| Blocking (request : DnsPacket) (question : DnsQuestion)
| Zones (request : DnsPacket)
| Lookup (request response : DnsPacket) (question : DnsQuestion)
| Done (r : Resolution)
| Crashed.

(** The access a pass is before. *)
Definition access (p : pass) : nat :=
  match p with Limit => 0 | Active _ _ => 1 | Blocking _ _ => 2 | Zones _ => 3 | Lookup _ _ _ => 4 | _ => 5 end.

Section Pass.
Context `{UNI : Unicode, HAS : HashIter, EDD : Ed25519}.
Context (now unix : Z) (shard : nat) (req : bytes) (client : IpAddr) (t : Transport).

(** What follows the read of the zones, up to the cache. *)
Definition answer (request : DnsPacket) (s : ServerState) : pass * ServerState :=
  let response := build_response request (st_zones s) in
  match head (questions request) with
  | None => let '(r, s) := local_answer shard response t s in (Done r, s)
  | Some question =>
      let rc := Z.land (h_flags (header response)) 15 in
      let rd_set := negb (Z.land (h_flags (header request)) FLAG_RD =? 0)%Z in
      match decorate unix s question response with
      | Ok response =>
          if (rc =? RCODE_NXDOMAIN)%Z && rd_set && recursion_available s then
            (Lookup request response question, s)
          else let '(r, s) := local_answer shard response t s in (Done r, s)
      | _ => (Crashed, s)
      end
  end.

Definition pass_step (p : pass) (s : ServerState) : pass * ServerState :=
  match p with
  | Limit =>
      let s := inc Total shard s in
      let '(ok, limiter) := RateLimiter_ops.allow now client (st_limiter s) in
      let s := set_limiter limiter s in
      if negb ok then (Done Drop, inc RateLimited shard s)
      else
        match from_bytes req with
        | Panic => (Crashed, s)
        | Err _ => (Done Drop, inc Errors shard s)
        | Ok request =>
            (match head (questions request) with
             | Some question => Active request question
             | None => Zones request
             end, s)
        end
  | Active request question =>
      (if Blocklist_ops.is_active (st_blocklist s) then Blocking request question else Zones request, s)
  | Blocking request question =>
      if Blocklist_ops.is_blocked (st_blocklist s) (qname question) then
        (Done (Ready (encode (synth_response request [] RCODE_NXDOMAIN) t)), inc Blocked shard s)
      else (Zones request, s)
  | Zones request => answer request s
  | Lookup request response question =>
      match resolve_unknown now shard req request response question t s with
      | Ok (r, s) => (Done r, s)
      | _ => (Crashed, s)
      end
  | Done r => (Done r, s)
  | Crashed => (Crashed, s)
  end.

(** Alone: five accesses in a row. *)
Fixpoint run_pass (n : nat) (p : pass) (s : ServerState) : pass * ServerState :=
  match n with
  | 0 => (p, s)
  | S n => let '(p, s) := pass_step p s in run_pass n p s
  end.

(** Among others: [env] is the state each access finds. *)
Fixpoint run_among (n : nat) (env : nat → ServerState) (p : pass) : pass :=
  match n with
  | 0 => p
  | S n => run_among n env (pass_step p (env (access p))).1
  end.

(** The outcome of a pass. *)
Definition outcome (p : pass) : res string Resolution :=
  match p with Done r => Ok r | _ => Panic end.

(** Alone, the machine is the model's first pass. *)
Theorem pass_alone s :
  match resolve_local now unix shard req client t s with
  | Ok (r, s') => run_pass 5 Limit s = (Done r, s')
  | _ => outcome (run_pass 5 Limit s).1 = Panic
  end.
Proof.
  unfold resolve_local. cbn [run_pass pass_step].
  destruct (RateLimiter_ops.allow now client (st_limiter (inc Total shard s))) as [ok limiter].
  destruct ok; [|done]. cbn [negb].
  destruct (from_bytes req) as [request|e|]; [|done..].
  destruct (head (questions request)) as [q|] eqn:Hq.
  2:{ cbn [pass_step]. unfold answer. rewrite Hq. done. }
  cbn [pass_step]. set (s1 := set_limiter limiter (inc Total shard s)).
  destruct (Blocklist_ops.is_active (st_blocklist s1)) eqn:Ha; cbn [andb].
  - cbn [pass_step]. destruct (Blocklist_ops.is_blocked (st_blocklist s1) (qname q)); [done|].
    cbn [pass_step]. unfold answer. rewrite Hq.
    destruct (decorate unix s1 q (build_response request (st_zones s1))) as [p|e|]; cbn [mbind res_bind]; [|done..].
    destruct (_ && _ && _); [|done]. cbn [pass_step].
    by destruct (resolve_unknown now shard req request p q t s1) as [[r s2]|e|].
  - cbn [pass_step]. unfold answer. rewrite Hq.
    destruct (decorate unix s1 q (build_response request (st_zones s1))) as [p|e|]; cbn [mbind res_bind]; [|done..].
    destruct (_ && _ && _); [|done]. cbn [pass_step].
    by destruct (resolve_unknown now shard req request p q t s1) as [[r s2]|e|].
Qed.

(** ** Among others *)

(** The state a pass has seen: each part as its access found it. *)
Definition seen (env : nat → ServerState) : ServerState :=
  mkState (st_zones (env 3)) (st_zone_path (env 0)) (st_forward_rules (env 4)) (st_forwarder (env 4))
    (st_recursive (env 4)) (st_cache (env 4)) (st_limiter (env 0))
    (if Blocklist_ops.is_active (st_blocklist (env 1)) then st_blocklist (env 2) else Blocklist_ops.empty)
    (st_dns64_prefix (env 3)) (st_axfr_acl (env 0)) (st_dnssec_keys (env 3)) (st_metrics (env 0)).

(** Recursion is offered or not for good. *)
Lemma same_recursion s s' : same_config s s' → recursion_available s' = recursion_available s.
Proof.
  intros Hc. unfold recursion_available. rewrite (same_rules _ _ Hc). f_equal.
  apply bool_decide_ext. symmetry. apply (same_recursive _ _ Hc).
Qed.

(** A blocklist that blocks is active. *)
Lemma blocked_active b name : Blocklist_ops.is_blocked b name = true → Blocklist_ops.is_active b = true.
Proof.
  unfold Blocklist_ops.is_blocked, Blocklist_ops.is_active. intros Hb. apply negb_true_iff, bool_decide_eq_false.
  intros He. rewrite He in Hb. case_bool_decide; [set_solver|].
  apply blocked_wildcard_spec in Hb as (? & _ & ?). set_solver.
Qed.

Lemma seen_blocked env name :
  blocked (seen env) name =
  Blocklist_ops.is_active (st_blocklist (env 1)) && Blocklist_ops.is_blocked (st_blocklist (env 2)) name.
Proof.
  unfold blocked. cbn [seen st_blocklist]. destruct (Blocklist_ops.is_active (st_blocklist (env 1))); [|done].
  cbn [andb]. destruct (Blocklist_ops.is_blocked (st_blocklist (env 2)) name) eqn:Hb;
    [by rewrite (blocked_active _ _ Hb)|by rewrite andb_false_r].
Qed.

(** What the last part of a pass reads. *)
Lemma resolve_unknown_reads request response q s s' :
  st_cache s' = st_cache s → st_forward_rules s' = st_forward_rules s → st_recursive s' = st_recursive s →
  outcome (pass_step (Lookup request response q) s).1 =
  fst <$> resolve_unknown now shard req request response q t s'.
Proof.
  intros Hc Hf Hr. cbn [pass_step]. unfold resolve_unknown. rewrite Hc.
  destruct (Cache_ops.get _ _ now (st_cache s)) as [[raw|] c]; cbn [set_cache st_forward_rules st_recursive].
  - pose proof (replay_infallible raw request t) as Hi. destruct (replay raw request t) as [b|e|]; [done| |done].
    by destruct (Hi e).
  - rewrite Hf, Hr. destruct (ForwardRules.match_name _ _); [done|]. by destruct (st_recursive s).
Qed.

(** A pass that is over stays so. *)
Lemma among_over n env p : access p = 5 → run_among n env p = p.
Proof. intros Hp. induction n as [|n IH]; [done|]. cbn [run_among]. by destruct p. Qed.

Lemma lookup_over request response q s : access (pass_step (Lookup request response q) s).1 = 5.
Proof. cbn [pass_step]. by destruct (resolve_unknown _ _ _ _ _ _ _ _) as [[? ?]| |]. Qed.

(** From the zones on. *)
Lemma answer_among n env request q s' :
  head (questions request) = Some q → recursion_available (env 3) = recursion_available s' →
  st_zones s' = st_zones (env 3) → st_dnssec_keys s' = st_dnssec_keys (env 3) →
  st_dns64_prefix s' = st_dns64_prefix (env 3) → st_cache s' = st_cache (env 4) →
  st_forward_rules s' = st_forward_rules (env 4) → st_recursive s' = st_recursive (env 4) →
  outcome (run_among (2 + n) env (Zones request)) =
  fst <$> (response ← decorate unix s' q (build_response request (st_zones s'));
    if (Z.land (h_flags (header (build_response request (st_zones s')))) 15 =? RCODE_NXDOMAIN)%Z
       && negb (Z.land (h_flags (header request)) FLAG_RD =? 0)%Z && recursion_available s' then
      resolve_unknown now shard req request response q t s'
    else Ok (local_answer shard response t s')).
Proof.
  intros Hq Hra Hz Hk Hd Hc Hf Hr.
  change (2 + n) with (S (S n)). cbn [run_among access]. cbn [pass_step]. unfold answer. rewrite Hq, Hz.
  assert (∀ p, decorate unix s' q p = decorate unix (env 3) q p) as Hdec
    by (intros p; unfold decorate; by rewrite Hk, Hd, Hz).
  rewrite Hdec. destruct (decorate_Ok unix (env 3) q (build_response request (st_zones (env 3)))) as (p & -> & _).
  cbn [mbind res_bind]. rewrite Hra. destruct (_ && _ && _).
  - cbn [fst access]. rewrite among_over by apply lookup_over. by apply resolve_unknown_reads.
  - unfold local_answer. cbn [fst pass_step]. rewrite among_over by done. cbn. by rewrite Hra.
Qed.

Lemma among_seen env :
  (∀ i j, same_config (env i) (env j)) →
  outcome (run_among 5 env Limit) = fst <$> resolve_local now unix shard req client t (seen env).
Proof.
  intros Henv. unfold resolve_local. cbn [run_among access pass_step].
  change (st_limiter (inc Total shard (seen env))) with (st_limiter (env 0)).
  change (st_limiter (inc Total shard (env 0))) with (st_limiter (env 0)).
  destruct (RateLimiter_ops.allow now client (st_limiter (env 0))) as [[] limiter]; [|done]. cbn [negb].
  destruct (from_bytes req) as [request|e|]; [|done..].
  set (s' := set_limiter limiter (inc Total shard (seen env))).
  assert (recursion_available (env 3) = recursion_available s') as Hra by apply (same_recursion _ _ (Henv 4 3)).
  destruct (head (questions request)) as [q|] eqn:Hq.
  2:{ cbn [fst access pass_step]. unfold answer. rewrite Hq. unfold local_answer.
      cbn [fst pass_step]. by rewrite Hra. }
  pose proof (fun n => answer_among n env request q s' Hq Hra eq_refl eq_refl eq_refl eq_refl eq_refl eq_refl)
    as Hans.
  change (Blocklist_ops.is_active (st_blocklist s') && Blocklist_ops.is_blocked (st_blocklist s') (qname q))
    with (blocked (seen env) (qname q)). rewrite seen_blocked.
  cbn [fst access pass_step]. destruct (Blocklist_ops.is_active (st_blocklist (env 1))); cbn [andb access pass_step].
  - destruct (Blocklist_ops.is_blocked (st_blocklist (env 2)) (qname q)); [done|]. exact (Hans 0).
  - exact (Hans 1).
Qed.

End Pass.

(** ** Properties *)

Section Properties.
Context `{UNI : Unicode, HAS : HashIter, EDD : Ed25519, NET : Net, CLK : Clock, TOM : Toml}.

(** States of one server's life share their configuration. *)
Lemma lifetime_same_config fs pkcs8 args s s' :
  lifetime fs pkcs8 args s → lifetime fs pkcs8 args s' → same_config s s'.
Proof.
  intros (s0 & Hb & Hc & _)%lifetime_inv (s0' & Hb' & Hc' & _ & Hf)%lifetime_inv. rewrite Hb in Hb'.
  injection Hb' as <-. destruct Hc, Hc'. split; solve [congruence|tauto|by intros _].
Qed.

(** C19: a query answered while the server goes on, reloads in two stores included, is
    answered as if at one moment: whatever states of the server's life its five accesses
    to the shared state find, the outcome of the first pass is that of
    [resolve_local] in the state put together from what it saw, whose zones are a
    single snapshot. So it still panics only in the parser, its reply
    carries the query's identifier, and it forwards only names the snapshot does not
    have and the blocklist it read does not block. *)
Theorem overlapped_pass fs pkcs8 args env now unix shard req client t :
  (∀ i, lifetime fs pkcs8 args (env i)) →
  let result := outcome (run_among now unix shard req client t 5 env Limit) in
  result = fst <$> resolve_local now unix shard req client t (seen env) ∧
  (result = Panic ↔ admitted now client (env 0) = true ∧ from_bytes req = Panic) ∧
  (∀ b, result = Ok (Ready b) →
     ∃ request, from_bytes req = Ok request ∧ take 2 b = u16_to_be_bytes (h_id (header request))) ∧
  (∀ ctx, result = Ok (Forward ctx) →
     ∃ request q, from_bytes req = Ok request ∧ head (questions request) = Some q ∧
       node (st_zones (env 3)) (to_lowercase (qname q)) = None ∧
       Blocklist_ops.is_active (st_blocklist (env 1)) &&
         Blocklist_ops.is_blocked (st_blocklist (env 2)) (qname q) = false).
Proof.
  intros Henv. cbn zeta. rewrite among_seen by (intros i j; by eapply lifetime_same_config).
  assert (cache_ok (st_cache (seen env))) as Hc by (destruct (lifetime_inv _ _ _ _ (Henv 4)) as (? & _ & _ & [Hg _] & _); done).
  split; [done|]. split; [|split].
  - change (admitted now client (env 0)) with (admitted now client (seen env)).
    rewrite <- (resolve_local_panics now unix shard req client t (seen env) Hc).
    by destruct (resolve_local _ _ _ _ _ _ _) as [[]| |].
  - intros b Hr. destruct (resolve_local now unix shard req client t (seen env)) as [[r s']| |] eqn:Hl; [|done..].
    injection Hr as ->. by eapply resolve_local_reply.
  - intros ctx Hr. destruct (resolve_local now unix shard req client t (seen env)) as [[r s']| |] eqn:Hl; [|done..].
    injection Hr as ->. destruct (resolve_local_forward _ _ _ _ _ _ _ _ _ Hl) as (request & q & Hp & Hq & _ & Hb & Hn & _).
    exists request, q. by rewrite <- seen_blocked.
Qed.

End Properties.

(** ** Witnesses *)

(** The zones are replaced after the blocklist was read. *)
Definition other_fs : bytes → option bytes := fun path =>
  if bool_decide (path = str "db.zone") then Some (str "new.b 60 A 192.0.2.9") else None.
Definition sample_env (i : nat) : ServerState :=
  if i <? 3 then sample_server else @store_zones ascii_unicode list_iter no_toml other_fs sample_server.

Lemma sample_env_life i :
  @lifetime ascii_unicode list_iter toy_ed25519 honest_net still_clock no_toml sample_fs None sample_args
    (sample_env i).
Proof.
  unfold sample_env. destruct (i <? 3); [exact sample_lifetime|].
  eapply Life_step; [exact sample_lifetime|apply Serve_store_zones].
Qed.

(** The reply then has the record of the new zone. *)
Definition new_name_request : bytes :=
  to_bytes (mkPacket (mkHeader 77 256 1 0 0 0) [mkQuestion (str "new.b") 1 1] [] [] []).

Lemma overlapped_pass_witness :
  ∃ b, outcome (@run_among ascii_unicode list_iter toy_ed25519 0 0 0 new_name_request (V4 [10; 0; 0; 1]%Z) Udp
    5 sample_env Limit) = Ok (Ready b) ∧ take 2 b = [0; 77]%Z.
Proof.
  destruct (@overlapped_pass ascii_unicode list_iter toy_ed25519 honest_net still_clock no_toml sample_fs None
    sample_args sample_env 0 0 0 new_name_request (V4 [10; 0; 0; 1]%Z) Udp sample_env_life)
    as (_ & _ & Hid & _).
  destruct (outcome (@run_among ascii_unicode list_iter toy_ed25519 0 0 0 new_name_request
    (V4 [10; 0; 0; 1]%Z) Udp 5 sample_env Limit)) as [[b|ctx|]|e|] eqn:Ho;
    try (exfalso; vm_compute in Ho; discriminate Ho).
  exists b. split; [reflexivity|]. destruct (Hid b eq_refl) as (request & Hp & ->).
  vm_compute in Hp. injection Hp as <-. vm_compute. reflexivity.
Defined.
