(* ===== verification/Jobs.v ===== *)
(** * What the spawned tasks do

    The loops of [src/src/server.rs] and [src/src/doq.rs] hand their work to tasks: a
    forwarded UDP query, a TCP, TLS, HTTP or QUIC connection. This file defines what
    each task does from its input to its end, over the handlers of [Transport], and
    shows that all it does to the server is a sequence of the steps of [Server]. TLS
    handshakes and HTTP framing are inputs: what they yield, or their failure. Here a
    task runs from its start to its end on its own; [Tasks] runs them side by side. *)

From S2P Require Import Prelude RustStd Message Packet Encoder Zones Resolver Cache RateLimit Acl Blocklist.
From S2P Require Import Metrics Dnssec Net Forwarder Recursive State Pipeline Policy Transport Config Server.

Section Jobs.
Context `{UNI : Unicode, HAS : HashIter, EDD : Ed25519, NET : Net, CLK : Clock, TOM : Toml, B64 : Base64Url}.

(** The task of a query [serve] does not answer at once: the reply it sends. *)
Definition query_task (shard ev : nat) (ctx : ForwardCtx) (s : ServerState)
    : res string (bytes * ServerState) * nat := forward_leader shard ev ctx s.

(** The task of a connection of [serve_dot]: [handshake] is the plain text stream, if
    the TLS handshake succeeded. *)
Definition dot_task (unix : Z) (shard ev : nat) (handshake : option bytes) (client : IpAddr)
    (s : ServerState) : bytes * res string (ServerState * nat) :=
  match handshake with
  | Some stream => handle_dns_stream unix shard ev stream client s
  | None => ([], Ok (s, ev))
  end.

(** The requests of a connection of [serve_doh], each answered by [handle_http]:
    method, target and body. *)
Fixpoint http_requests (unix : Z) (shard ev : nat) (reqs : list (bytes * bytes * bytes))
    (client : IpAddr) (s : ServerState) : list DohResponse * res string (ServerState * nat) :=
  match reqs with
  | [] => ([], Ok (s, ev))
  | (method, target, body) :: reqs =>
      match handle_http unix shard ev method target body client s with
      | (Ok (resp, s), ev) =>
          let '(out, r) := http_requests unix shard ev reqs client s in (resp :: out, r)
      | (Err e, _) => ([], Err e)
      | (Panic, _) => ([], Panic)
      end
  end.

Definition doh_task (unix : Z) (shard ev : nat) (handshake : option (list (bytes * bytes * bytes)))
    (client : IpAddr) (s : ServerState) : list DohResponse * res string (ServerState * nat) :=
  match handshake with
  | Some reqs => http_requests unix shard ev reqs client s
  | None => ([], Ok (s, ev))
  end.

(** The task of a connection of [doq::serve]: [handshake] is the streams of the
    connection. *)
Definition doq_task (unix : Z) (shard ev : nat) (handshake : option (list bytes)) (client : IpAddr)
    (s : ServerState) : list bytes * res string (ServerState * nat) :=
  match handshake with
  | Some streams => handle_connection unix shard ev streams client s
  | None => ([], Ok (s, ev))
  end.

(** ** Lemmas *)

Lemma axfr_first_serves shard req client t s r s' :
  axfr_first shard req client t s = Ok (r, s') → rtc serves s s'.
Proof.
  destruct t; cbn; [by intros [= _ <-]|]. intros Ha. apply rtc_once. by eapply Serve_axfr.
Qed.

Lemma forward_leader_serves shard ev ctx s reply s' ev' :
  forward_leader shard ev ctx s = (Ok (reply, s'), ev') → rtc serves s s'.
Proof.
  unfold forward_leader, forward_and_cache.
  destruct (upstream_query shard ev ctx s) as [[r s1] ev1] eqn:Hu.
  destruct (finish_forward (now_at ev1) shard ctx r s1) as [[raw s2]|e|] eqn:Hf; [|done..].
  destruct (replay _ _ _) as [b|e|]; [|done..]. intros [= _ <- _].
  eapply rtc_l; [by eapply Serve_upstream|]. by eapply finish_forward_serves.
Qed.

Lemma resolve_request_serves unix shard ev req client t s r s' ev' :
  resolve_request unix shard ev req client t s = (Ok (r, s'), ev') → rtc serves s s'.
Proof.
  unfold resolve_request. destruct (axfr_first _ _ _ _ _) as [[[resp|] s1]|e|] eqn:Ha; [..|done|done].
  - intros [= _ <- _]. by eapply axfr_first_serves.
  - destruct (resolve_local _ _ _ _ _ _ _) as [[q s2]|e|] eqn:Hl; [|done..]. intros Hf.
    etrans; [by eapply axfr_first_serves|]. eapply rtc_l; [by eapply Serve_local|].
    destruct q as [b|ctx|]; cbn in Hf; [by injection Hf as _ <- _| |by injection Hf as _ <- _].
    destruct (forward_leader shard (S ev) ctx s2) as [[[reply s3]|e|] ev1] eqn:Hw; [|done..].
    injection Hf as _ <- _. by eapply forward_leader_serves.
Qed.

Lemma stream_serves fuel unix shard ev stream client s out s' ev' :
  dns_stream_loop fuel unix shard ev stream client s = (out, Ok (s', ev')) → rtc serves s s'.
Proof.
  revert ev stream s out. induction fuel as [|fuel IH]; intros ev stream s out; cbn; [done|].
  destruct stream as [|a [|b rest]]; [by intros [= _ <- _]..|].
  destruct (_ <=? _); [|done].
  destruct (resolve_request _ _ _ _ _ _ _) as [[[[resp|] s1]|e|] ev1] eqn:Hr; [..|done|done].
  - destruct (dns_stream_loop _ _ _ _ _ _ _) as [o r] eqn:Hl. intros [= _ ->].
    etrans; [by eapply resolve_request_serves|]. by eapply IH.
  - intros Hl. etrans; [by eapply resolve_request_serves|]. by eapply IH.
Qed.

Lemma connection_serves unix shard ev streams client s out s' ev' :
  handle_connection unix shard ev streams client s = (out, Ok (s', ev')) → rtc serves s s'.
Proof.
  revert ev s out. induction streams as [|stream rest IH]; intros ev s out; cbn; [by intros [= _ <- _]|].
  destruct stream as [|a [|b body]]; [by intros [= _ <- _]..|]. destruct (_ <=? _); [|done].
  destruct (resolve_request _ _ _ _ _ _ _) as [[[resp s1]|e|] ev1] eqn:Hr; [|done..].
  destruct (handle_connection _ _ _ _ _ _) as [o r] eqn:Hl. intros [= _ ->].
  etrans; [by eapply resolve_request_serves|]. by eapply IH.
Qed.

Lemma handle_http_serves unix shard ev method target body client s resp s' ev' :
  handle_http unix shard ev method target body client s = (Ok (resp, s'), ev') → rtc serves s s'.
Proof.
  unfold handle_http, resolve_http. destruct (_ <? _)%Z; [by intros [= _ <- _]|].
  destruct (doh_query _ _ _) as [q|code|]; [|by intros [= _ <- _]|done].
  destruct (resolve_request _ _ _ _ _ _ _) as [[[[r|] s1]|e|] ev1] eqn:Hr; [..|done|done];
    intros [= _ <- _]; by eapply resolve_request_serves.
Qed.

Lemma http_serves unix shard ev reqs client s out s' ev' :
  http_requests unix shard ev reqs client s = (out, Ok (s', ev')) → rtc serves s s'.
Proof.
  revert ev s out. induction reqs as [|[[method target] body] reqs IH]; intros ev s out; cbn;
    [by intros [= _ <- _]|].
  destruct (handle_http _ _ _ _ _ _ _ _) as [[[resp s1]|e|] ev1] eqn:Hr; [|done..].
  destruct (http_requests _ _ _ _ _ _) as [o r] eqn:Hl. intros [= _ ->].
  etrans; [by eapply handle_http_serves|]. by eapply IH.
Qed.

Lemma lifetime_serves fs pkcs8 args s s' :
  lifetime fs pkcs8 args s → rtc serves s s' → lifetime fs pkcs8 args s'.
Proof. intros Hl Hr. induction Hr; eauto using lifetime. Qed.

(** Every task stays within the server's life: from a state the server can be in, a
    forwarded query, a TCP or TLS connection, the HTTP requests of a connection and the
    streams of a QUIC connection each end in a state the server can be in, so that
    what was shown of those holds whichever transport the queries come by. *)
Theorem tasks_keep_lifetime fs pkcs8 args s s' ev' :
  lifetime fs pkcs8 args s →
  (∃ shard ev ctx reply, query_task shard ev ctx s = (Ok (reply, s'), ev')) ∨
  (∃ unix shard ev stream client out, handle_dns_stream unix shard ev stream client s = (out, Ok (s', ev'))) ∨
  (∃ unix shard ev h client out, dot_task unix shard ev h client s = (out, Ok (s', ev'))) ∨
  (∃ unix shard ev h client out, doh_task unix shard ev h client s = (out, Ok (s', ev'))) ∨
  (∃ unix shard ev h client out, doq_task unix shard ev h client s = (out, Ok (s', ev'))) →
  lifetime fs pkcs8 args s'.
Proof.
  intros Hl Ht. eapply lifetime_serves; [exact Hl|].
  destruct Ht as [(shard & ev & ctx & reply & Ht)|[(unix & shard & ev & stream & client & out & Ht)
    |[(unix & shard & ev & [stream|] & client & out & Ht)
    |[(unix & shard & ev & [reqs|] & client & out & Ht)|(unix & shard & ev & [streams|] & client & out & Ht)]]]].
  - by eapply forward_leader_serves.
  - by eapply stream_serves.
  - by eapply stream_serves.
  - by injection Ht as _ <- _.
  - by eapply http_serves.
  - by injection Ht as _ <- _.
  - by eapply connection_serves.
  - by injection Ht as _ <- _.
Qed.

(** A QUIC stream that ends before its length prefix closes the connection: the
    streams after it are not served. *)
Theorem doq_short_stream unix shard ev streams client s :
  handle_connection unix shard ev ([] :: streams) client s = ([], Ok (s, ev)).
Proof. done. Qed.

End Jobs.
