(* ===== verification/Tasks.v ===== *)
(** * The tasks, step by step

    [Jobs] says what a task does when nothing else runs. Here tasks run side by side on
    one server state, as the multi-threaded runtime runs them: a request stands at a
    [stage] of [ServerState::resolve] and [forward_ctx] ([src/src/state.rs]) and
    [work] is what it does next: the attempt of a transfer, the first pass, the look
    at the table of queries in flight, the upstream query, every single call on the
    cache's map while its reply is stored, the publication, the reply. [task_step]
    runs the requests of forwarded UDP queries and of the connections: framed streams
    ([handle_dns_stream]), QUIC ([handle_connection]), HTTP ([handle_http],
    whose requests run side by side), and the metrics endpoint.

    The table of queries in flight is not stored twice: a key has an entry as long
    as the task that leads its query is between the look at the table and the end of its
    guard ([leading]); [SingleFlight] shows that for the table itself. When a leader leaves,
    by return, by a panic or because its connection was dropped, its followers
    find the value it published or a dropped sender ([end_flight]). *)

From S2P Require Import CacheRace SingleFlight.
From S2P Require Import Prelude RustStd Message Packet Encoder Zones Resolver Cache RateLimit Acl Blocklist.
From S2P Require Import Metrics Dnssec Net Forwarder Recursive State Pipeline Policy Transport Config Server Jobs.

(** ** One request *)

(** Where a request stands: before the transfer attempt, before the first pass, before
    the look at the table of flights; as a leader before the upstream query, with its
    result, inside [Cache::insert], before publishing and after; as a follower waiting,
    with the shared reply, or left by its leader; with its reply; stopped by a
    panic. *)
Inductive stage :=
| Received (req : bytes)
| Passing (req : bytes)
| Forwarding (ctx : ForwardCtx)
| Asking (ctx : ForwardCtx)
| Answered (ctx : ForwardCtx) (result : res string bytes)
| Storing (ctx : ForwardCtx) (raw : bytes) (th : thread)
| Publishing (ctx : ForwardCtx) (raw : bytes)
| Announced (ctx : ForwardCtx) (raw : bytes)
| Following (ctx : ForwardCtx)
| Shared (ctx : ForwardCtx) (raw : bytes)
| Orphaned (ctx : ForwardCtx)
| Replying (reply : option bytes)
| Crashed.

(** The flight a request leads, and what its channel holds. *)
Definition flight : Type := Key * option bytes.

Definition leading (w : stage) : option flight :=
  match w with
  | Asking ctx | Answered ctx _ | Storing ctx _ _ | Publishing ctx _ => Some (ctx_key ctx, None)
  | Announced ctx raw => Some (ctx_key ctx, Some raw)
  | _ => None
  end.

(** A computed reply, or a panic on the way to it. *)
Definition reply_or_crash (r : res string bytes) : stage :=
  match r with Ok b => Replying (Some b) | _ => Crashed end.

(** The SERVFAIL a failed upstream query is answered with. *)
Definition servfail_bytes (ctx : ForwardCtx) : bytes :=
  to_bytes (synth_response (fc_request ctx) [] RCODE_SERVFAIL).

Section Work.
Context `{UNI : Unicode, HAS : HashIter, EDD : Ed25519, NET : Net, CLK : Clock}.

(** The end of [forward_and_cache]: the upstream's result is handled. *)
Definition handle_result (shard : nat) (ctx : ForwardCtx) (result : res string bytes) (s : ServerState)
    : stage * ServerState :=
  match result with
  | Ok raw =>
      match from_bytes raw with
      | Ok parsed =>
          match cache_ttl parsed with
          | Some ttl => (Storing ctx raw (insert_call (fc_name ctx) (fc_qtype ctx) raw ttl), s)
          | None => (Publishing ctx raw, s)
          end
      | Err _ => (Publishing ctx raw, s)
      | Panic => (Crashed, s)
      end
  | Err _ => (Publishing ctx (servfail_bytes ctx), inc Errors shard s)
  | Panic => (Crashed, s)
  end.

(** What a request does next, given what the table of flights has for each key: its
    next stage and the new server state, or nothing when it has to wait or is done. *)
Definition work (unix : Z) (shard ev : nat) (flights : Key → option (option bytes)) (client : IpAddr)
    (w : stage) (s : ServerState) : option (stage * ServerState) :=
  match w with
  | Received req =>
      match axfr_first shard req client Tcp s with
      | Ok (Some resp, s) => Some (Replying (Some resp), s)
      | Ok (None, s) => Some (Passing req, s)
      | _ => Some (Crashed, s)
      end
  | Passing req =>
      match resolve_local (now_at ev) unix shard req client Tcp s with
      | Ok (Ready b, s) => Some (Replying (Some b), s)
      | Ok (Drop, s) => Some (Replying None, s)
      | Ok (Forward ctx, s) => Some (Forwarding ctx, s)
      | _ => Some (Crashed, charged (now_at ev) shard client s)
      end
  | Forwarding ctx =>
      match flights (ctx_key ctx) with
      | None => Some (Asking ctx, s)
      | Some _ => Some (Following ctx, inc Coalesced shard s)
      end
  | Asking ctx => let '(r, s, _) := upstream_query shard ev ctx s in Some (Answered ctx r, s)
  | Answered ctx r => Some (handle_result shard ctx r s)
  | Storing ctx raw th =>
      match th with
      | Finished _ => Some (Publishing ctx raw, s)
      | _ =>
          let '(c, th) := advance (now_at ev) th (st_cache s) in Some (Storing ctx raw th, set_cache c s)
      end
  | Publishing ctx raw => Some (Announced ctx raw, s)
  | Announced ctx raw => Some (reply_or_crash (replay raw (fc_request ctx) (fc_transport ctx)), s)
  | Following ctx =>
      match flights (ctx_key ctx) with
      | Some (Some raw) => Some (Shared ctx raw, s)
      | _ => None
      end
  | Shared ctx raw => Some (reply_or_crash (replay raw (fc_request ctx) (fc_transport ctx)), s)
  | Orphaned ctx => Some (reply_or_crash (servfail_reply ctx), s)
  | Replying _ | Crashed => None
  end.

End Work.

(** ** The tasks *)

(** What the peer of a connection sends: framed messages (TCP, and TLS once its handshake is
    done), HTTP requests (method, target, body), QUIC streams, paths asked of the metrics
    endpoint. *)
Inductive input :=
| Frames (stream : bytes)
| Http (requests : list (bytes * bytes * bytes))
| Quic (streams : list bytes)
| Paths (paths : list bytes).

(** A spawned task: a forwarded UDP query, a connection with what is still to be
    read and the request in hand, or one HTTP request of a connection. *)
Inductive job :=
| Query (client : SocketAddr) (w : stage)
| Connection (client : IpAddr) (i : input) (w : option stage)
| Request (client : IpAddr) (w : stage).

Definition job_stage (j : job) : option stage :=
  match j with Query _ w | Request _ w => Some w | Connection _ _ w => w end.

Definition job_client (j : job) : IpAddr :=
  match j with Query c _ => sa_ip c | Connection c _ _ | Request c _ => c end.

Definition with_stage (w : stage) (j : job) : job :=
  match j with
  | Query c _ => Query c w
  | Connection c i _ => Connection c i (Some w)
  | Request c _ => Request c w
  end.

Definition job_leading (j : job) : option flight := job_stage j ≫= leading.

(** The table of flights: a key has an entry as long as a task leads it. *)
Definition flight_value (k : Key) (j : job) : option (option bytes) :=
  match job_leading j with
  | Some (k', v) => if bool_decide (k' = k) then Some v else None
  | None => None
  end.

Definition flights_of (js : gmap nat job) (k : Key) : option (option bytes) :=
  head (omap (fun qj => flight_value k qj.2) (map_to_list js)).

(** The guard and the sender of a leader are dropped: its followers have what it
    published, or nothing. *)
Definition leave (f : flight) (w : stage) : stage :=
  match w with
  | Following ctx =>
      if bool_decide (ctx_key ctx = f.1) then
        match f.2 with Some raw => Shared ctx raw | None => Orphaned ctx end
      else w
  | _ => w
  end.

Definition job_leave (f : flight) (j : job) : job :=
  match job_stage j with Some w => with_stage (leave f w) j | None => j end.

Definition end_flight (f : option flight) (js : gmap nat job) : gmap nat job :=
  match f with Some f => job_leave f <$> js | None => js end.

(** The task [q] goes on to [w]; if it led a flight and no longer does, that ends. *)
Definition goes_to (q : nat) (j : job) (w : stage) (js : gmap nat job) : gmap nat job :=
  <[q := with_stage w j]> (end_flight (match leading w with Some _ => None | None => job_leading j end) js).

(** The next message of a connection, and what is left to read; nothing at the end of the
    input or when it is cut short, which ends the connection. *)
Definition next_frame (stream : bytes) : option (bytes * bytes) :=
  match stream with
  | a :: b :: rest =>
      let len := Z.to_nat (u16_from_be_bytes a b) in
      if len <=? length rest then Some (take len rest, drop len rest) else None
  | _ => None
  end.

Definition next_message (i : input) : option (bytes * input) :=
  match i with
  | Frames stream => '(msg, rest) ← next_frame stream; Some (msg, Frames rest)
  | Quic (stream :: rest) => '(msg, _) ← next_frame stream; Some (msg, Quic rest)
  | _ => None
  end.

(** What an HTTP request asks of the resolver, if it is not refused with an error
    status before. *)
Definition http_query `{Base64Url} (method target body : bytes) : option bytes :=
  if (MAX_BODY <? Z.of_nat (length body))%Z then None
  else match doh_query method target body with Ok q => Some q | _ => None end.

(** Where a task may end: with its reply handed over or failing to be, by a panic; a
    connection also between requests (its input is over, or reading or the handshake
    fails); and a request of an HTTP connection wherever it awaits, when the connection is
    dropped. *)
Definition may_end (j : job) : bool :=
  match j, job_stage j with
  | _, Some (Replying _ | Crashed) => true
  | Connection _ _ _, None => true
  | Request _ _, Some (Asking _ | Following _) => true
  | _, _ => false
  end.

Section Tasks.
Context `{UNI : Unicode, HAS : HashIter, EDD : Ed25519, NET : Net, CLK : Clock, B64 : Base64Url}.

Inductive task_step (s : ServerState) (js : gmap nat job) : ServerState → gmap nat job → Prop :=
| Task_works q j w unix shard ev w' s' :
    js !! q = Some j → job_stage j = Some w →
    work unix shard ev (flights_of js) (job_client j) w s = Some (w', s') →
    task_step s js s' (goes_to q j w' js)
| Task_reads q client i msg rest :
    js !! q = Some (Connection client i None) → next_message i = Some (msg, rest) →
    task_step s js s (<[q := Connection client rest (Some (Received msg))]> js)
| Task_replied q client i reply :
    js !! q = Some (Connection client i (Some (Replying reply))) →
    task_step s js s (<[q := Connection client i None]> js)
| Task_request q q' client method target body rest msg :
    js !! q = Some (Connection client (Http ((method, target, body) :: rest)) None) → js !! q' = None →
    http_query method target body = Some msg →
    task_step s js s (<[q' := Request client (Received msg)]> (<[q := Connection client (Http rest) None]> js))
| Task_refused q client method target body rest :
    js !! q = Some (Connection client (Http ((method, target, body) :: rest)) None) →
    http_query method target body = None →
    task_step s js s (<[q := Connection client (Http rest) None]> js)
| Task_scraped q client path rest :
    js !! q = Some (Connection client (Paths (path :: rest)) None) →
    task_step s js s (<[q := Connection client (Paths rest) None]> js)
| Task_ends q j :
    js !! q = Some j → may_end j = true → task_step s js s (end_flight (job_leading j) (delete q js)).

End Tasks.

(** ** Every step of a task is a step of the server *)

Section Life.
Context `{UNI : Unicode, HAS : HashIter, EDD : Ed25519, NET : Net, CLK : Clock, TOM : Toml, B64 : Base64Url}.

(** Where a forwarded query, an upstream's result and a published reply come from: from
    a first pass, an upstream query of that forwarded query, and such a result or the
    SERVFAIL of a failed one, each in a state of the server's life. *)
Section Origins.
Context (fs : bytes → option bytes) (pkcs8 : option bytes) (args : Args).

Definition passed (ctx : ForwardCtx) : Prop :=
  ∃ now unix shard req client t s s', lifetime fs pkcs8 args s ∧
    resolve_local now unix shard req client t s = Ok (Forward ctx, s').

Definition asked (ctx : ForwardCtx) (result : res string bytes) : Prop :=
  ∃ shard ev ev' s s', passed ctx ∧ lifetime fs pkcs8 args s ∧ upstream_query shard ev ctx s = (result, s', ev').

Definition published (ctx : ForwardCtx) (raw : bytes) : Prop :=
  asked ctx (Ok raw) ∨ ∃ e, asked ctx (Err e) ∧ raw = servfail_bytes ctx.

(** What a reply may be: a transfer or the answer of a first pass, in a state of the
    server's life; the bytes published for a query of the same name and type, rewritten
    for this one; or this query's own SERVFAIL, when its leader was lost. *)
Definition justified (b : bytes) : Prop :=
  (∃ shard req client s s', lifetime fs pkcs8 args s ∧ try_axfr shard req client s = Ok (Some b, s')) ∨
  (∃ now unix shard req client s s', lifetime fs pkcs8 args s ∧
     resolve_local now unix shard req client Tcp s = Ok (Ready b, s')) ∨
  (∃ ctx ctx' raw, passed ctx ∧ published ctx' raw ∧ ctx_key ctx' = ctx_key ctx ∧
     replay raw (fc_request ctx) (fc_transport ctx) = Ok b) ∨
  (∃ ctx, passed ctx ∧ servfail_reply ctx = Ok b).

(** What is known of a request at each of its stages. *)
Definition explained (w : stage) : Prop :=
  match w with
  | Received _ | Passing _ | Crashed | Replying None => True
  | Forwarding ctx | Asking ctx | Following ctx | Orphaned ctx => passed ctx
  | Answered ctx r => asked ctx r
  | Storing ctx raw th =>
      asked ctx (Ok raw) ∧ ∃ p ttl, from_bytes raw = Ok p ∧ cache_ttl p = Some ttl ∧
        ((∃ at_, th = Inserting (Cache_ops.key (fc_name ctx) (fc_qtype ctx)) raw ttl at_) ∨ th = Finished None)
  | Publishing ctx raw | Announced ctx raw => published ctx raw
  | Shared ctx raw => passed ctx ∧ ∃ ctx', published ctx' raw ∧ ctx_key ctx' = ctx_key ctx
  | Replying (Some b) => justified b
  end.

Lemma published_passed ctx raw : published ctx raw → passed ctx.
Proof. by intros [(?&?&?&?&?&?&_)|(?&(?&?&?&?&?&?&_)&_)]. Qed.

Lemma replay_justified ctx ctx' raw :
  passed ctx → published ctx' raw → ctx_key ctx' = ctx_key ctx →
  explained (reply_or_crash (replay raw (fc_request ctx) (fc_transport ctx))).
Proof.
  intros Hp Hs Hk. destruct (replay _ _ _) as [b|e|] eqn:Hr; [|done..]. right. right. left. eauto 10.
Qed.

(** Handling a result. *)
Lemma handle_result_explained shard ctx r s w s' :
  asked ctx r → handle_result shard ctx r s = (w, s') →
  explained w ∧ (s' = s ∨ s' = inc Errors shard s).
Proof.
  intros Ha. unfold handle_result. destruct r as [raw|e|].
  - destruct (from_bytes raw) as [p|e|] eqn:Hp; [destruct (cache_ttl p) as [ttl|] eqn:Ht|..]; intros [= <- <-];
      (split; [|by left]); [|by left..|done].
    split; [done|]. exists p, ttl. split_and!; [done..|]. unfold insert_call. destruct (_ || _); eauto.
  - intros [= <- <-]. split; [right; eauto|by right].
  - intros [= <- <-]. split; [done|by left].
Qed.

(** One call on the cache's map. *)
Lemma storing_explained now ctx raw th s c th' :
  (∀ r, th ≠ Finished r) → explained (Storing ctx raw th) → advance now th (st_cache s) = (c, th') →
  serves s (set_cache c s) ∧ explained (Storing ctx raw th').
Proof.
  intros Hf (Ha & p & ttl & Hp & Ht & [[at_ ->]| ->]) Hadv; [|by destruct (Hf None)]. split.
  - pose proof (Serve_call now raw p ttl (Inserting (Cache_ops.key (fc_name ctx) (fc_qtype ctx)) raw ttl at_) s Hp Ht) as Hs.
    rewrite Hadv in Hs. by apply Hs.
  - split; [done|]. exists p, ttl. split_and!; [done..|].
    destruct at_; cbn in Hadv; injection Hadv as _ <-; eauto.
Qed.

Lemma work_explained unix shard ev flights client w s w' s' :
  lifetime fs pkcs8 args s → explained w →
  (∀ k raw, flights k = Some (Some raw) → ∃ ctx, published ctx raw ∧ ctx_key ctx = k) →
  work unix shard ev flights client w s = Some (w', s') →
  explained w' ∧ (s' = s ∨ serves s s').
Proof.
  intros Hl Hw Hfl. destruct w as [req|req|ctx|ctx|ctx r|ctx raw th|ctx raw|ctx raw|ctx|ctx raw|ctx|reply|]; cbn [work].
  - destruct (axfr_first shard req client Tcp s) as [[[resp|] s1]|e|] eqn:Ha; intros [= <- <-]; cbn in Ha;
      [| |by split; [|left]..]; (split; [|right; by eapply Serve_axfr]); [|done]. left. eauto 10.
  - destruct (resolve_local _ _ _ _ _ _ _) as [[[b|ctx|] s1]|e|] eqn:Hr; intros [= <- <-].
    1-3: split; [|right; by eapply Serve_local]. 1: right; left; eauto 10. 1: unfold explained, passed; eauto 12. 1: done.
    + by apply resolve_local_infallible in Hr.
    + split; [done|]. right. by eapply Serve_panic.
  - destruct (flights _); intros [= <- <-]; (split; [exact Hw|]); [right; apply Serve_count|by left].
  - destruct (upstream_query shard ev ctx s) as [[r s1] ev1] eqn:Hu. intros [= <- <-].
    split; [|right; by eapply Serve_upstream]. unfold explained, asked. eauto 12.
  - intros [= Hh]. destruct (handle_result_explained _ _ _ _ _ _ Hw Hh) as [? [->| ->]]; eauto using Serve_count.
  - destruct th as [k resp ttl at_|k|k|o]; [| | |intros [= <- <-]; split; [by left; apply Hw|by left]];
      destruct (advance _ _ _) as [c th'] eqn:Ha; intros [= <- <-];
      (eapply storing_explained in Ha as [??]; [|done|exact Hw]); (split; [done|by right]).
  - intros [= <- <-]. split; [exact Hw|by left].
  - intros [= <- <-]. split; [|by left]. eapply replay_justified; [by eapply published_passed|exact Hw|done].
  - destruct (flights (ctx_key ctx)) as [[raw|]|] eqn:Hf; [|done..]. intros [= <- <-].
    destruct (Hfl _ _ Hf) as (ctx' & ? & ?). split; [|by left]. split; [exact Hw|eauto].
  - intros [= <- <-]. destruct Hw as (Hp & ctx' & Hs & Hk). split; [|by left]. by eapply replay_justified.
  - intros [= <- <-]. split; [|by left]. destruct (servfail_reply ctx) as [b|e|] eqn:Hs; [|done..].
    do 3 right. eauto.
  - done.
  - done.
Qed.

(** ** The flights *)

Lemma flights_of_Some js k v :
  flights_of js k = Some v → ∃ q j, js !! q = Some j ∧ job_leading j = Some (k, v).
Proof.
  unfold flights_of. intros Hh%head_Some_elem_of. apply list_elem_of_omap in Hh as ([q j] & Hin & Hv).
  exists q, j. split; [by apply elem_of_map_to_list|]. cbn in Hv. unfold flight_value in Hv.
  destruct (job_leading j) as [[k' v']|]; [|done]. case_bool_decide; by simplify_eq.
Qed.

Lemma flights_of_None js k :
  flights_of js k = None → ∀ q j v, js !! q = Some j → job_leading j ≠ Some (k, v).
Proof.
  unfold flights_of. intros Hh%head_None q j v Hq Hj.
  assert (v ∈ omap (fun qj => flight_value k qj.2) (map_to_list js)) as Hin.
  { apply list_elem_of_omap. exists (q, j). split; [by apply elem_of_map_to_list|].
    unfold flight_value. cbn. rewrite Hj. by rewrite bool_decide_true. }
  rewrite Hh in Hin. by apply elem_of_nil in Hin.
Qed.

Lemma job_stage_with w j : job_stage (with_stage w j) = Some w.
Proof. by destruct j. Qed.

Lemma job_stage_leave f j : job_stage (job_leave f j) = leave f <$> job_stage j.
Proof. unfold job_leave. destruct (job_stage j) eqn:Hj; [apply job_stage_with|done]. Qed.

Lemma leading_leave f w : leading (leave f w) = leading w.
Proof. destruct w; try done. cbn. case_bool_decide; [|done]. by destruct f.2. Qed.

Lemma job_leading_leave f j : job_leading (job_leave f j) = job_leading j.
Proof.
  unfold job_leading. rewrite job_stage_leave. destruct (job_stage j); [cbn; apply leading_leave|done].
Qed.

Lemma lookup_end_flight f js q :
  end_flight f js !! q = (fun j => from_option (fun f => job_leave f j) j f) <$> js !! q.
Proof. destruct f; cbn; [apply lookup_fmap|by destruct (js !! q)]. Qed.

(** What holds at all times of the server and its tasks: the server state is one of its
    life, every request is where the code can have brought it, a request that waits has
    a leader at work, and no two tasks lead a flight of one key. *)
Record tasks_ok (s : ServerState) (js : gmap nat job) : Prop := {
  ok_life : lifetime fs pkcs8 args s;
  ok_explained : ∀ q j w, js !! q = Some j → job_stage j = Some w → explained w;
  ok_leader : ∀ q j ctx, js !! q = Some j → job_stage j = Some (Following ctx) →
    ∃ q' j' v, js !! q' = Some j' ∧ job_leading j' = Some (ctx_key ctx, v);
  ok_unique : ∀ q q' j j' k v v', js !! q = Some j → js !! q' = Some j' →
    job_leading j = Some (k, v) → job_leading j' = Some (k, v') → q = q';
}.

Lemma ok_empty s : lifetime fs pkcs8 args s → tasks_ok s ∅.
Proof. intros Hl. split; [done|..]; intros *; by rewrite lookup_empty. Qed.

Lemma ok_serves s s' js : tasks_ok s js → s' = s ∨ serves s s' → tasks_ok s' js.
Proof. intros [] [->|Hs]; split; try done. by eapply Life_step. Qed.

(** What a leader has published. *)
Lemma leading_published s js q j k raw :
  tasks_ok s js → js !! q = Some j → job_leading j = Some (k, Some raw) →
  ∃ ctx, published ctx raw ∧ ctx_key ctx = k.
Proof.
  intros Hok Hq Hj. unfold job_leading in Hj. destruct (job_stage j) as [w|] eqn:Hw; [|done].
  pose proof (ok_explained _ _ Hok _ _ _ Hq Hw) as He. destruct w; simplify_eq/=. eauto.
Qed.

(** A task leaves. *)
Lemma ok_leaves s js q j :
  tasks_ok s js → js !! q = Some j → tasks_ok s (end_flight (job_leading j) (delete q js)).
Proof.
  intros Hok Hq. pose proof (leading_published s js q j) as Hpub. destruct Hok as [Hl He Hf Hu].
  assert (∀ q' j', end_flight (job_leading j) (delete q js) !! q' = Some j' →
    q' ≠ q ∧ ∃ j0, js !! q' = Some j0 ∧ job_leading j' = job_leading j0 ∧
      job_stage j' = from_option leave id (job_leading j) <$> job_stage j0) as Hinv.
  { intros q' j'. rewrite lookup_end_flight. intros (j0 & [Hne Hj0]%lookup_delete_Some & ->)%fmap_Some.
    split; [done|]. exists j0. split; [done|]. destruct (job_leading j); cbn.
    - by rewrite job_leading_leave, job_stage_leave.
    - split; [done|]. by destruct (job_stage j0). }
  split; [done|..].
  - intros q' j' w (_ & j0 & Hj0 & _ & ->)%Hinv (w0 & Hw & ->)%fmap_Some.
    pose proof (He _ _ _ Hj0 Hw) as Hw0. destruct (job_leading j) as [[k v]|] eqn:Hj; [|done]. cbn.
    destruct w0; try done. cbn. case_bool_decide as Hk; [|done]. destruct v as [raw|]; [|done].
    cbn. split; [done|]. destruct (Hpub k raw) as (ctx' & ? & ?); [by split|done..|]. exists ctx'. by split; [|congruence].
  - intros q' j' ctx (_ & j0 & Hj0 & _ & ->)%Hinv (w0 & Hw & Hx)%fmap_Some.
    assert (w0 = Following ctx ∧ ∀ v, job_leading j ≠ Some (ctx_key ctx, v)) as [-> Hne].
    { destruct (job_leading j) as [[k v]|]; cbn in Hx; [|by subst].
      destruct w0; try done. cbn in Hx. case_bool_decide; [by destruct v|]. injection Hx as <-.
      split; [done|]. intros v' [= ? _]. congruence. }
    destruct (Hf _ _ _ Hj0 Hw) as (q1 & j1 & v & Hq1 & Hv).
    assert (q1 ≠ q) as Hqq by (intros ->; simplify_eq; by destruct (Hne v)).
    exists q1, (from_option (fun f => job_leave f j1) j1 (job_leading j)), v. split.
    + by rewrite lookup_end_flight, lookup_delete_ne, Hq1 by congruence.
    + destruct (job_leading j); cbn; [by rewrite job_leading_leave|done].
  - intros q1 q2 j1 j2 k v v' (_ & i1 & H1 & -> & _)%Hinv (_ & i2 & H2 & -> & _)%Hinv. by eapply Hu.
Qed.

(** A task joins, or comes back, that does not lead. *)
Lemma ok_joins s js q j :
  tasks_ok s js → js !! q = None → job_leading j = None →
  (∀ w, job_stage j = Some w → explained w) →
  (∀ ctx, job_stage j = Some (Following ctx) → ∃ q' j' v, js !! q' = Some j' ∧ job_leading j' = Some (ctx_key ctx, v)) →
  tasks_ok s (<[q := j]> js).
Proof.
  intros [Hl He Hf Hu] Hq Hj Hw Hfo.
  assert (∀ q' j', js !! q' = Some j' → q ≠ q') as Hne by congruence. split; [done|..].
  - intros q' j' w [[<- <-]|[_ Hq']]%lookup_insert_Some; [by apply Hw|by eapply He].
  - intros q' j' ctx Hq' Hc.
    assert (∃ q' j' v, js !! q' = Some j' ∧ job_leading j' = Some (ctx_key ctx, v)) as (q1 & j1 & v & H1 & H2).
    { apply lookup_insert_Some in Hq' as [[<- <-]|[_ Hq']]; [by apply Hfo|by eapply Hf]. }
    exists q1, j1, v. split; [|done]. rewrite lookup_insert_ne; eauto.
  - intros q1 q2 j1 j2 k v v' [[<- <-]|[_ H1]]%lookup_insert_Some [[<- <-]|[_ H2]]%lookup_insert_Some; try congruence.
    by eapply Hu.
Qed.

(** A task leads, for the first time or still. *)
Lemma ok_leads s js q j w k v :
  tasks_ok s js → js !! q = Some j → leading w = Some (k, v) → explained w →
  (∃ v0, job_leading j = Some (k, v0)) ∨ (job_leading j = None ∧ flights_of js k = None) →
  tasks_ok s (<[q := with_stage w j]> js).
Proof.
  intros [Hl He Hf Hu] Hq Hw Hx Hj.
  assert (job_leading (with_stage w j) = Some (k, v)) as Hlw by (unfold job_leading; rewrite job_stage_with; exact Hw).
  assert (∀ q' j' v', js !! q' = Some j' → job_leading j' = Some (k, v') → q' = q) as Honly.
  { intros q' j' v' Hq' Hj'. destruct Hj as [[v0 Hj]|[_ Hn]]; [by eapply Hu|].
    by destruct (flights_of_None _ _ Hn _ _ v' Hq'). }
  split; [done|..].
  - intros q' j' w' [[<- <-]|[_ Hq']]%lookup_insert_Some; [rewrite job_stage_with; by intros [= <-]|by eapply He].
  - intros q' j' ctx [[<- <-]|[_ Hq']]%lookup_insert_Some Hc; [rewrite job_stage_with in Hc; by simplify_eq|].
    destruct (Hf _ _ _ Hq' Hc) as (q1 & j1 & v1 & H1 & H2). destruct (decide (q = q1)) as [<-|Hne].
    + simplify_eq. destruct Hj as [[v0 Hj]|[Hj _]]; [|congruence]. rewrite Hj in H2. injection H2 as -> ->.
      exists q, (with_stage w j), v. by rewrite lookup_insert_eq.
    + exists q1, j1, v1. by rewrite lookup_insert_ne.
  - intros q1 q2 j1 j2 k' v1 v2 [[<- <-]|[? H1]]%lookup_insert_Some [[<- <-]|[? H2]]%lookup_insert_Some HL1 HL2; try done.
    + rewrite Hlw in HL1. injection HL1 as <- <-. symmetry. by eapply Honly.
    + rewrite Hlw in HL2. injection HL2 as <- <-. by eapply Honly.
    + by eapply Hu.
Qed.

(** How a request comes to lead, and stays leading the same key; and when it waits. *)
Lemma work_flight unix shard ev flights client w s w' s' :
  work unix shard ev flights client w s = Some (w', s') →
  (∀ k v, leading w' = Some (k, v) → (∃ v0, leading w = Some (k, v0)) ∨ (leading w = None ∧ flights k = None)) ∧
  (∀ ctx, w' = Following ctx → leading w = None ∧ is_Some (flights (ctx_key ctx))).
Proof.
  assert (∀ r, leading (reply_or_crash r) = None ∧ ∀ ctx, reply_or_crash r ≠ Following ctx) as Hr by (by intros []).
  destruct w as [req|req|ctx|ctx|ctx r|ctx raw th|ctx raw|ctx raw|ctx|ctx raw|ctx|reply|]; cbn [work]; intros Hw.
  - repeat case_match; simplify_eq; split; naive_solver.
  - repeat case_match; simplify_eq; split; naive_solver.
  - case_match eqn:Hf; simplify_eq; split; naive_solver.
  - repeat case_match; simplify_eq; split; naive_solver.
  - unfold handle_result in Hw. repeat case_match; simplify_eq; split; naive_solver.
  - repeat case_match; simplify_eq; split; naive_solver.
  - simplify_eq. split; naive_solver.
  - destruct (Hr (replay raw (fc_request ctx) (fc_transport ctx))) as [H1 H2]. simplify_eq. split; [congruence|by intros ? ?%H2].
  - repeat case_match; simplify_eq; split; naive_solver.
  - destruct (Hr (replay raw (fc_request ctx) (fc_transport ctx))) as [H1 H2]. simplify_eq. split; [congruence|by intros ? ?%H2].
  - destruct (Hr (servfail_reply ctx)) as [H1 H2]. simplify_eq. split; [congruence|by intros ? ?%H2].
  - done.
  - done.
Qed.

(** A request goes on. *)
Lemma ok_goes_to s js q j w w' :
  tasks_ok s js → js !! q = Some j → job_stage j = Some w → explained w' →
  (∀ k v, leading w' = Some (k, v) → (∃ v0, leading w = Some (k, v0)) ∨ (leading w = None ∧ flights_of js k = None)) →
  (∀ ctx, w' = Following ctx → leading w = None ∧ is_Some (flights_of js (ctx_key ctx))) →
  tasks_ok s (goes_to q j w' js).
Proof.
  intros Hok Hq Hw Hx Hl Hf. assert (job_leading j = leading w) as Hj by (unfold job_leading; by rewrite Hw).
  unfold goes_to. destruct (leading w') as [[k v]|] eqn:Hw'.
  { cbn. eapply ok_leads; [done..|]. rewrite Hj. by eapply Hl. }
  pose proof (ok_leaves _ _ _ _ Hok Hq) as Hok'.
  assert (<[q := with_stage w' j]> (end_flight (job_leading j) js) =
    <[q := with_stage w' j]> (end_flight (job_leading j) (delete q js))) as ->.
  { apply map_eq. intros q'. destruct (decide (q = q')) as [<-|Hne]; [by rewrite !lookup_insert_eq|].
    by rewrite !lookup_insert_ne, !lookup_end_flight, lookup_delete_ne by done. }
  apply ok_joins; [done| | |rewrite job_stage_with; by intros ? [= <-]|].
  - by rewrite lookup_end_flight, lookup_delete_eq.
  - unfold job_leading. by rewrite job_stage_with.
  - rewrite job_stage_with. intros ctx [= ->]. destruct (Hf ctx eq_refl) as [Hn [v Hv]].
    destruct (flights_of_Some _ _ _ Hv) as (q1 & j1 & H1 & H2). exists q1, j1, v. split; [|done].
    rewrite Hj, Hn. cbn. rewrite lookup_delete_ne; [done|]. intros <-. simplify_eq. congruence.
Qed.

(** A connection takes its next input. *)
Lemma ok_replace s js q j j' :
  tasks_ok s js → js !! q = Some j → job_leading j = None → job_leading j' = None →
  (∀ w, job_stage j' = Some w → explained w ∧ ∀ ctx, w ≠ Following ctx) → tasks_ok s (<[q := j']> js).
Proof.
  intros Hok Hq Hj Hj' Hw. pose proof (ok_leaves _ _ _ _ Hok Hq) as Hok'. rewrite Hj in Hok'. cbn in Hok'.
  rewrite <- insert_delete_eq. apply ok_joins; [done|by rewrite lookup_delete_eq|done|naive_solver|].
  intros ctx Hc. destruct (Hw _ Hc) as [_ Hn]. by destruct (Hn ctx).
Qed.

Lemma task_step_ok s js s' js' : task_step s js s' js' → tasks_ok s js → tasks_ok s' js'.
Proof.
  intros Hs Hok.
  destruct Hs as [q j w unix shard ev w' s' Hq Hj Hw|q c i msg rest Hq|q c i reply Hq
    |q q' c method target body rest msg Hq Hq'|q c method target body rest Hq|q c path rest Hq|q j Hq].
  - destruct (work_explained unix shard ev (flights_of js) (job_client j) w s w' s') as [Hx Hsv].
    + apply (ok_life _ _ Hok).
    + by eapply (ok_explained _ _ Hok).
    + intros k raw (q1 & j1 & H1 & H2)%flights_of_Some. by eapply leading_published.
    + done.
    + destruct (work_flight _ _ _ _ _ _ _ _ _ Hw) as [H1 H2].
      eapply ok_goes_to; [by eapply ok_serves|done..].
  - eapply ok_replace; [done..|]. by intros ? [= <-].
  - by eapply ok_replace.
  - apply ok_joins; [by eapply ok_replace| |done|by intros ? [= <-]|done].
    rewrite lookup_insert_ne; [done|]. intros <-. congruence.
  - by eapply ok_replace.
  - by eapply ok_replace.
  - by apply ok_leaves.
Qed.

End Origins.
End Life.

(** ** A request on its own *)

Section Alone.
Context `{UNI : Unicode, HAS : HashIter, EDD : Ed25519, NET : Net, CLK : Clock}.

(** One step of a request no other has to wait for. *)
Definition moves_alone (client : IpAddr) (x y : stage * ServerState) : Prop :=
  ∃ unix shard ev, work unix shard ev (fun _ => None) client x.1 x.2 = Some y.

Lemma storing_alone client fuel ev ctx raw th s :
  rtc (moves_alone client) (Storing ctx raw th, s)
    (let '(c, th') := solo fuel (now_at ev) (now_at ev) th (st_cache s) in (Storing ctx raw th', set_cache c s)).
Proof.
  revert th s. induction fuel as [|fuel IH]; intros th s; [by destruct s|]. cbn [solo].
  replace (match th with Inserting _ _ _ Store => now_at ev | _ => now_at ev end) with (now_at ev)
    by (by destruct th as [???[]| | |]).
  destruct (advance (now_at ev) th (st_cache s)) as [c th'] eqn:Ha.
  assert ((∃ o, th = Finished o) ∨ ∀ o, th ≠ Finished o) as [[o ->]|Hn] by (destruct th; eauto).
  - injection Ha as <- <-. apply IH.
  - eapply rtc_l; [|apply (IH th' (set_cache c s))]. exists 0%Z, 0, ev. cbn [fst snd work].
    destruct th as [| | |o]; [by rewrite Ha..|by destruct (Hn o)].
Qed.

Lemma leader_alone client shard ev ctx s reply s' ev' :
  forward_leader shard ev ctx s = (Ok (reply, s'), ev') →
  rtc (moves_alone client) (Forwarding ctx, s) (Replying (Some reply), s').
Proof.
  unfold forward_leader, forward_and_cache, finish_forward.
  destruct (upstream_query shard ev ctx s) as [[r s1] ev1] eqn:Hu. intros Hf.
  eapply rtc_l; [by exists 0%Z, 0, 0|].
  eapply rtc_l; [exists 0%Z, shard, ev; cbn; by rewrite Hu|].
  assert (∀ raw s2, (reply ← replay raw (fc_request ctx) (fc_transport ctx); Ok (reply, s2)) = Ok (reply, s') →
    rtc (moves_alone client) (Publishing ctx raw, s2) (Replying (Some reply), s')) as Hend.
  { intros raw s2 (b & Hr & [= <- <-])%bind_Ok. eapply rtc_l; [by exists 0%Z, 0, 0|].
    apply rtc_once. exists 0%Z, 0, 0. cbn. by rewrite Hr. }
  destruct r as [raw|e|]; [| |done].
  - destruct (from_bytes raw) as [p|e|] eqn:Hp; [destruct (cache_ttl p) as [ttl|] eqn:Ht| |done].
    + eapply rtc_l; [exists 0%Z, 0, 0; cbn; by rewrite Hp, Ht|].
      etrans; [apply (storing_alone client MAX_CALLS ev1)|]. rewrite (proj1 (uninterrupted_calls _ _ _)).
      eapply rtc_l; [by exists 0%Z, 0, 0|]. injection Hf as Hf _. by apply Hend.
    + eapply rtc_l; [exists 0%Z, 0, 0; cbn; by rewrite Hp, Ht|]. injection Hf as Hf _. by apply Hend.
    + eapply rtc_l; [exists 0%Z, 0, 0; cbn; by rewrite Hp|]. injection Hf as Hf _. by apply Hend.
  - eapply rtc_l; [by exists 0%Z, shard, 0|]. injection Hf as Hf _. by apply Hend.
Qed.

(** On its own, a request that goes through its stages ends with the reply and the server state of
    [resolve_request], so that what was shown of the transports request by request is
    about these tasks. *)
Theorem request_alone client unix shard ev req s r s' ev' :
  resolve_request unix shard ev req client Tcp s = (Ok (r, s'), ev') →
  rtc (moves_alone client) (Received req, s) (Replying r, s').
Proof.
  unfold resolve_request. destruct (axfr_first shard req client Tcp s) as [[[resp|] s1]|e|] eqn:Ha; [..|done|done].
  { intros [= <- <- _]. apply rtc_once. exists 0%Z, shard, 0. cbn [fst snd work]. by rewrite Ha. }
  destruct (resolve_local (now_at ev) unix shard req client Tcp s1) as [[q s2]|e|] eqn:Hl; [|done..]. intros Hf.
  eapply rtc_l; [exists 0%Z, shard, 0; cbn [fst snd work]; by rewrite Ha|].
  destruct q as [b|ctx|]; cbn [finish_resolution] in Hf.
  - injection Hf as <- <- _. apply rtc_once. exists unix, shard, ev. cbn [fst snd work]. by rewrite Hl.
  - eapply rtc_l; [exists unix, shard, ev; cbn [fst snd work]; by rewrite Hl|].
    destruct (forward_leader shard (S ev) ctx s2) as [[[reply s3]|e|] ev1] eqn:Hw; [|done..].
    injection Hf as <- <- _. by eapply leader_alone.
  - injection Hf as <- <- _. apply rtc_once. exists unix, shard, ev. cbn [fst snd work]. by rewrite Hl.
Qed.

End Alone.
