(* ===== verification/Streams.v ===== *)
(** * Connections that end early

    [Transport] models [handle_dns_stream] of [src/src/server.rs] and [handle_connection] of
    [src/src/doq.rs] with writes that succeed and peers that close cleanly. Here the peer may
    stop reading, so that a connection (or a QUIC stream) takes so many bytes and every write after
    that fails, and may reset the connection instead of closing it. Each way a connection can
    end is a value, with the state the server is left in. *)

From S2P Require Import Prelude RustStd Message Packet Encoder Zones Resolver Cache RateLimit Acl Blocklist.
From S2P Require Import Metrics Dnssec Net Forwarder Recursive State Pipeline Policy Transport Config Server Jobs.

(** The peer closed between two messages (or within a length prefix), or reset the connection
    there; the bytes stopped within a message; a write failed; the resolution
    panicked. *)
Inductive stream_end :=
| ClientDone
| ReadFailed
| MessageCut
| WriteFailed
| TaskPanicked.

(** ** Writes *)

(** [write_all] on a connection that takes [room] more bytes, or any number: what is
    written, and the room left unless the write failed. *)
Definition write_all (bs : bytes) (room : option nat) : bytes * option (option nat) :=
  match room with
  | None => (bs, Some None)
  | Some n => if length bs <=? n then (bs, Some (Some (n - length bs))) else (take n bs, None)
  end.

(** The length and the reply, each a [write_all(..).await?]. *)
Definition write_reply (resp : bytes) (room : option nat) : bytes * option (option nat) :=
  match write_all (u16_to_be_bytes (len_u16 resp)) room with
  | (w, None) => (w, None)
  | (w, Some room) => let '(w', room) := write_all resp room in (w ++ w', room)
  end.

(** What a connection takes of [bs], and whether that is less than all of it. *)
Definition taken (room : option nat) (bs : bytes) : bytes :=
  match room with Some n => take n bs | None => bs end.
Definition overruns (room : option nat) (bs : bytes) : bool :=
  match room with Some n => n <? length bs | None => false end.

Lemma overruns_nil room : overruns room [] = false.
Proof. by destruct room. Qed.

Lemma taken_nil room : taken room [] = [].
Proof. destruct room; [apply take_nil|done]. Qed.

Lemma taken_all room bs : overruns room bs = false → taken room bs = bs.
Proof. destruct room as [n|]; cbn; [|done]. intros Hn%Nat.ltb_ge. by apply take_ge. Qed.

(** A write that fits leaves room for what follows, one that does not is cut. *)
Lemma write_all_spec bs room :
  (∃ room', write_all bs room = (bs, Some room') ∧
     ∀ out, taken room (bs ++ out) = bs ++ taken room' out ∧ overruns room (bs ++ out) = overruns room' out) ∨
  (write_all bs room = (taken room bs, None) ∧
     ∀ out, taken room (bs ++ out) = taken room bs ∧ overruns room (bs ++ out) = true).
Proof.
  unfold write_all. destruct room as [n|]; cbn [taken overruns]; [|left; by exists None].
  destruct (Nat.leb_spec (length bs) n) as [Hn|Hn].
  - left. exists (Some (n - length bs)). split; [done|]. intros out. cbn [taken overruns].
    rewrite take_app_ge, length_app by lia. split; [done|].
    destruct (Nat.ltb_spec n (length bs + length out)), (Nat.ltb_spec (n - length bs) (length out)); lia || done.
  - right. split; [done|]. intros out. rewrite take_app_le, length_app by lia. split; [done|].
    apply Nat.ltb_lt. lia.
Qed.

Lemma write_reply_spec resp room :
  (∃ room', write_reply resp room = (tcp_frame resp, Some room') ∧
     ∀ out, taken room (tcp_frame resp ++ out) = tcp_frame resp ++ taken room' out ∧
       overruns room (tcp_frame resp ++ out) = overruns room' out) ∨
  (write_reply resp room = (taken room (tcp_frame resp), None) ∧
     ∀ out, taken room (tcp_frame resp ++ out) = taken room (tcp_frame resp) ∧
       overruns room (tcp_frame resp ++ out) = true).
Proof.
  unfold write_reply, tcp_frame. set (l := u16_to_be_bytes (len_u16 resp)).
  destruct (write_all_spec l room) as [(room1 & -> & H1)|[-> H1]].
  - destruct (write_all_spec resp room1) as [(room2 & -> & H2)|[-> H2]].
    + left. exists room2. split; [done|]. intros out. rewrite <- !(assoc_L (++)).
      destruct (H1 (resp ++ out)) as [-> ->]. destruct (H2 out) as [-> ->]. done.
    + right. split; [by destruct (H1 resp) as [-> _]|]. intros out. rewrite <- !(assoc_L (++)).
      destruct (H1 (resp ++ out)) as [-> ->], (H1 resp) as [-> _]. by destruct (H2 out) as [-> ->].
  - right. split; [by destruct (H1 resp) as [-> _]|]. intros out. rewrite <- !(assoc_L (++)).
    destruct (H1 (resp ++ out)) as [-> ->]. by destruct (H1 resp) as [-> _].
Qed.

(** ** The handlers *)

(** A QUIC stream: the room it has for the reply, whether the peer resets it rather than finishing
    it, and the bytes that arrive before. *)
Record quic_stream := mkQuic { qs_room : option nat; qs_reset : bool; qs_bytes : bytes }.

Section Streams.
Context `{UNI : Unicode, HAS : HashIter, EDD : Ed25519, NET : Net, CLK : Clock, TOM : Toml}.

(** [handle_dns_stream] on the bytes the peer sends before it closes or resets: what is
    written, how it ends, and the state, but for a panic. *)
Fixpoint stream_loop (fuel : nat) (unix : Z) (shard ev : nat) (reset : bool) (room : option nat)
    (stream : bytes) (client : IpAddr) (s : ServerState) : bytes * stream_end * option ServerState :=
  match fuel with
  | 0 => ([], TaskPanicked, None)
  | S fuel =>
      match stream with
      | a :: b :: rest =>
          let len := Z.to_nat (u16_from_be_bytes a b) in
          if len <=? length rest then
            match resolve_request unix shard ev (take len rest) client Tcp s with
            | (Ok (Some resp, s), ev) =>
                match write_reply resp room with
                | (w, None) => (w, WriteFailed, Some s)
                | (w, Some room) =>
                    let '(out, e, s) := stream_loop fuel unix shard ev reset room (drop len rest) client s in
                    (w ++ out, e, s)
                end
            | (Ok (None, s), ev) => stream_loop fuel unix shard ev reset room (drop len rest) client s
            | _ => ([], TaskPanicked, None)
            end
          else ([], MessageCut, Some s)
      | _ => ([], if reset then ReadFailed else ClientDone, Some s)
      end
  end.

Definition serve_stream (unix : Z) (shard ev : nat) (reset : bool) (room : option nat) (stream : bytes)
    (client : IpAddr) (s : ServerState) : bytes * stream_end * option ServerState :=
  stream_loop (S (length stream)) unix shard ev reset room stream client s.

(** [handle_connection] of [doq.rs]; [lost] when the connection is lost rather than closed after
    the last stream. *)
Fixpoint serve_quic (unix : Z) (shard ev : nat) (lost : bool) (streams : list quic_stream)
    (client : IpAddr) (s : ServerState) : list bytes * stream_end * option ServerState :=
  match streams with
  | [] => ([], if lost then ReadFailed else ClientDone, Some s)
  | mkQuic room reset stream :: rest =>
      match stream with
      | a :: b :: body =>
          let len := Z.to_nat (u16_from_be_bytes a b) in
          if len <=? length body then
            match resolve_request unix shard ev (take len body) client Tcp s with
            | (Ok (resp, s), ev) =>
                match from_option (fun r => write_reply r room) ([], Some room) resp with
                | (w, None) => ([w], WriteFailed, Some s)
                | (w, Some _) =>
                    let '(out, e, s) := serve_quic unix shard ev lost rest client s in (w :: out, e, s)
                end
            | _ => ([], TaskPanicked, None)
            end
          else ([], MessageCut, Some s)
      | _ => ([], if reset then ReadFailed else ClientDone, Some s)
      end
  end.

(** ** Lemmas *)

(** How an end relates to that of a connection whose writes succeed. *)
Definition same_end (e : stream_end) (o : option ServerState) (r : res string (ServerState * nat)) : Prop :=
  match e with
  | ClientDone | ReadFailed => ∃ s ev, o = Some s ∧ r = Ok (s, ev)
  | MessageCut => is_Some o ∧ ∃ err, r = Err err
  | TaskPanicked => o = None ∧ r = Panic
  | WriteFailed => False
  end.

(** A connection cut short: [x] is what happens, [y] what would have, [ov] whether the
    peer takes too little. *)
Definition cut_of {A} (s : ServerState) (expected : A) (ov : bool) (x : A * stream_end * option ServerState)
    (r : res string (ServerState * nat)) : Prop :=
  x.1.1 = expected ∧ (∀ s', x.2 = Some s' → rtc serves s s') ∧
  if ov then x.1.2 = WriteFailed ∧ is_Some x.2 else same_end x.1.2 x.2 r.

Lemma cut_of_serves {A B} s s1 (f : A → B) expected expected' ov ov' out e o r :
  rtc serves s s1 → cut_of s1 expected ov (out, e, o) r → expected' = f expected → ov' = ov →
  cut_of s expected' ov' (f out, e, o) r.
Proof.
  intros Hs (Hout & Hst & Hend) -> ->. cbn in *. split_and!; cbn; [by rewrite Hout| |done].
  intros s' Hs'. etrans; [exact Hs|by apply Hst].
Qed.

Lemma stream_loop_cut fuel unix shard ev reset room stream client s :
  length stream < fuel →
  let y := dns_stream_loop fuel unix shard ev stream client s in
  cut_of s (taken room y.1) (overruns room y.1) (stream_loop fuel unix shard ev reset room stream client s) y.2.
Proof.
  cbv zeta. revert ev room stream s. induction fuel as [|fuel IH]; intros ev room stream s Hf; [lia|].
  assert (∀ e o r, (∀ s', o = Some s' → s' = s) → same_end e o r →
    cut_of s (taken room []) (overruns room []) ([], e, o) r) as Hnow.
  { intros e o r Ho He. rewrite overruns_nil, taken_nil. split_and!; [done|by intros s' ->%Ho|done]. }
  cbn [stream_loop dns_stream_loop].
  destruct stream as [|a [|b rest]]; cbn [length] in Hf;
    [apply Hnow; [by intros ? [= <-]|destruct reset; cbn; eauto]..|].
  set (k := Z.to_nat _).
  destruct (Nat.leb_spec k (length rest)); [|apply Hnow; [by intros ? [= <-]|cbn; eauto]].
  assert (length (drop k rest) < fuel) as Hd by (rewrite length_drop; lia).
  pose proof (resolve_request_infallible unix shard ev (take k rest) client Tcp s) as Hi.
  destruct (resolve_request _ _ _ _ _ _ _) as [[[[resp|] s1]|err|] ev1] eqn:Hr;
    [| |by destruct (Hi err)|by apply Hnow].
  - assert (rtc serves s s1) as Hs by by eapply resolve_request_serves.
    destruct (write_reply_spec resp room) as [(room' & -> & Ht)|[-> Ht]].
    + specialize (IH ev1 room' (drop k rest) s1 Hd).
      destruct (stream_loop _ _ _ _ _ _ _ _ _) as [[out e] o]. destruct (dns_stream_loop _ _ _ _ _ _ _) as [full r].
      by apply (cut_of_serves _ _ (app (tcp_frame resp)) _ _ _ _ _ _ _ _ Hs IH); apply Ht.
    + destruct (dns_stream_loop _ _ _ _ _ _ _) as [full r]. cbn [fst snd]. destruct (Ht full) as [-> ->].
      split_and!; [done|by intros s' [= <-]|done|by eexists].
  - assert (rtc serves s s1) as Hs by by eapply resolve_request_serves.
    specialize (IH ev1 room (drop k rest) s1 Hd). destruct (stream_loop _ _ _ _ _ _ _ _ _) as [[out e] o].
    by apply (cut_of_serves _ _ (fun x => x) _ _ _ _ _ _ _ _ Hs IH).
Qed.

(** The replies of a QUIC connection up to the first that its stream does not take. *)
Fixpoint cut_streams (rooms : list (option nat)) (full : list bytes) : list bytes :=
  match rooms, full with
  | room :: rooms, w :: full => if overruns room w then [taken room w] else w :: cut_streams rooms full
  | _, _ => []
  end.
Fixpoint any_overruns (rooms : list (option nat)) (full : list bytes) : bool :=
  match rooms, full with
  | room :: rooms, w :: full => overruns room w || any_overruns rooms full
  | _, _ => false
  end.

Lemma quic_cut unix shard ev lost streams client s :
  let y := handle_connection unix shard ev (qs_bytes <$> streams) client s in
  cut_of s (cut_streams (qs_room <$> streams) y.1) (any_overruns (qs_room <$> streams) y.1)
    (serve_quic unix shard ev lost streams client s) y.2.
Proof.
  cbv zeta. revert ev s. induction streams as [|[room reset stream] streams IH]; intros ev s;
    cbn [serve_quic handle_connection fmap list_fmap qs_room qs_bytes].
  { split_and!; [done|by intros s' [= <-]|]. destruct lost; cbn; eauto. }
  assert (∀ e o r, (∀ s', o = Some s' → s' = s) → same_end e o r → cut_of s ([] : list bytes) false ([], e, o) r) as Hnow.
  { intros e o r Ho He. split_and!; [done|by intros s' ->%Ho|done]. }
  destruct stream as [|a [|b body]]; [apply Hnow; [by intros ? [= <-]|destruct reset; cbn; eauto]..|].
  set (k := Z.to_nat _).
  destruct (Nat.leb_spec k (length body)); [|apply Hnow; [by intros ? [= <-]|cbn; eauto]].
  pose proof (resolve_request_infallible unix shard ev (take k body) client Tcp s) as Hi.
  destruct (resolve_request _ _ _ _ _ _ _) as [[[resp s1]|err|] ev1] eqn:Hr; [|by destruct (Hi err)|by apply Hnow].
  assert (rtc serves s s1) as Hs by by eapply resolve_request_serves.
  assert ((∃ room', from_option (fun r => write_reply r room) ([], Some room) resp
             = (from_option tcp_frame [] resp, Some room') ∧ overruns room (from_option tcp_frame [] resp) = false) ∨
          (from_option (fun r => write_reply r room) ([], Some room) resp
             = (taken room (from_option tcp_frame [] resp), None) ∧
           overruns room (from_option tcp_frame [] resp) = true)) as Hw.
  { destruct resp as [r|]; cbn [from_option]; [|left; exists room; by rewrite overruns_nil].
    destruct (write_reply_spec r room) as [(room' & -> & Ht)|[-> Ht]].
    - left. exists room'. split; [done|]. destruct (Ht []) as [_ E]. rewrite app_nil_r in E. by rewrite E, overruns_nil.
    - right. split; [done|]. destruct (Ht []) as [_ E]. by rewrite app_nil_r in E. }
  specialize (IH ev1 s1). destruct (handle_connection _ _ _ _ _ _) as [full r]. cbn [fst snd cut_streams any_overruns] in *.
  destruct Hw as [(room' & -> & ->)|[-> ->]]; cbn [orb].
  - destruct (serve_quic _ _ _ _ _ _ _) as [[out e] o].
    by apply (cut_of_serves _ _ (cons (from_option tcp_frame [] resp)) _ _ _ _ _ _ _ _ Hs IH).
  - split_and!; [done|by intros s' [= <-]|done|by eexists].
Qed.

(** ** Properties *)

(** C40: a peer that stops taking bytes or resets its connection gets a prefix of the replies and
    costs the server nothing else: what is written is as much of the full sequence of
    replies as the connection takes; the handler ends with a write error exactly when they do
    not all fit, and otherwise as it would have ended; and whatever the end (but a panic), the
    state it leaves is one that steps of the server lead to. *)
Theorem stream_cut_short unix shard ev reset room (stream : bytes) client s :
  let '(out, e, o) := serve_stream unix shard ev reset room stream client s in
  let '(full, r) := handle_dns_stream unix shard ev stream client s in
  out = taken room full ∧ (e = WriteFailed ↔ overruns room full = true) ∧
  (e ≠ WriteFailed → same_end e o r) ∧ (∀ s', o = Some s' → rtc serves s s') ∧
  (o = None ↔ e = TaskPanicked).
Proof.
  pose proof (stream_loop_cut (S (length stream)) unix shard ev reset room stream client s ltac:(lia)) as Hc.
  unfold serve_stream, handle_dns_stream. destruct (stream_loop _ _ _ _ _ _ _ _ _) as [[out e] o].
  destruct (dns_stream_loop _ _ _ _ _ _ _) as [full r]. destruct Hc as (Ho & Hs & Hend). cbn [fst snd] in *.
  destruct (overruns room full); [destruct Hend as [-> [s' ->]]; by split_and!|].
  split_and!; [done| |done|done|].
  - split; [|done]. by intros ->.
  - destruct e; cbn in Hend; destruct_and? Hend; try (destruct Hend as (? & ? & -> & _));
      try (match goal with H : is_Some _ |- _ => destruct H as [? ->] end); naive_solver.
Qed.

(** One QUIC stream that does not take its reply ends the connection: the streams
    before it are answered whole, the ones after it are not served at all. *)
Theorem quic_stream_fails unix shard ev lost streams client s :
  let '(out, e, o) := serve_quic unix shard ev lost streams client s in
  let '(full, r) := handle_connection unix shard ev (qs_bytes <$> streams) client s in
  out = cut_streams (qs_room <$> streams) full ∧ (e = WriteFailed ↔ any_overruns (qs_room <$> streams) full = true) ∧
  (∀ s', o = Some s' → rtc serves s s').
Proof.
  pose proof (quic_cut unix shard ev lost streams client s) as Hc.
  destruct (serve_quic _ _ _ _ _ _ _) as [[out e] o]. destruct (handle_connection _ _ _ _ _ _) as [full r].
  destruct Hc as (Ho & Hs & Hend). cbn [fst snd] in *. split_and!; [done| |done].
  destruct (any_overruns _ _); [by destruct Hend as [-> _]|]. split; [|done]. by intros ->.
Qed.

End Streams.

(** ** A peer that takes five bytes *)

(** Of two requests on a connection, the second is not served. *)
Example five_bytes_taken :
  let '(out, e, o) :=
    @serve_stream ascii_unicode list_iter toy_ed25519 honest_net still_clock 1000 0 0 false (Some 5)
      (tcp_frame (to_bytes sample_request) ++ tcp_frame (to_bytes sample_request)) (V4 [10; 0; 0; 1]%Z)
      sample_state in
  length out = 5 ∧ e = WriteFailed ∧
  Metrics_ops.sum Total (st_metrics (default sample_state o)) = 1%Z.
Proof. vm_compute. auto. Qed.
