(* ===== verification/Runtime.v ===== *)
(** * The running process: listeners, tasks and graceful shutdown

    Models [src/src/server.rs] and the rest of [run_server] in [src/src/main.rs]:
    the listeners [run] starts ([run_start], with its bind errors), the receive
    and accept loops ([serve], [serve_tcp], [serve_dot], [serve_doh],
    [serve_metrics], [doq::serve]), the tickers, the signal handler, the reload
    handler and the drain of [run]. The whole is a step relation over the loops,
    the tasks in flight ([Tasks]) and the server state; the handlers that change the
    server state are those of [State] and [Config].

    A loop ends by the shutdown channel, by an error of its socket, or, for a UDP
    worker, by a panic of the first pass, which it runs inline. The channel fires
    when [true] was sent or the sender is gone: the loops' [select] ignores which.
    Time advances by [Tick] steps only, so that a step takes no time of its own. *)

From S2P Require Import Prelude RustStd TextParse Message Packet Encoder Zones ZoneFile Resolver Cache.
From S2P Require Import RateLimit Acl Blocklist Metrics Dnssec Net Forwarder Recursive State Pipeline.
From S2P Require Import Policy Transport Config Tls Server Jobs Tasks.

(** ** Loops *)

Inductive loop :=
| UdpWorker (i : nat) | TcpLoop | DotLoop | DohLoop | DoqLoop | MetricsLoop | Reporter | Cleaner.

#[global] Instance loop_eq_dec : EqDecision loop.
Proof. solve_decision. Defined.

Definition loop_code (l : loop) : nat + nat :=
  match l with
  | UdpWorker i => inl i
  | TcpLoop => inr 0 | DotLoop => inr 1 | DohLoop => inr 2 | DoqLoop => inr 3
  | MetricsLoop => inr 4 | Reporter => inr 5 | Cleaner => inr 6
  end.
Definition loop_of_code (c : nat + nat) : loop :=
  match c with
  | inl i => UdpWorker i
  | inr 0 => TcpLoop | inr 1 => DotLoop | inr 2 => DohLoop | inr 3 => DoqLoop
  | inr 4 => MetricsLoop | inr 5 => Reporter | inr _ => Cleaner
  end.
#[global] Instance loop_countable : Countable loop.
Proof. apply (inj_countable' loop_code loop_of_code). by intros []. Defined.

(** Why a loop ended: the shutdown channel, an error it returned, a panic, or (DoQ)
    an endpoint that was closed. *)
Inductive cause := Shutdown | SocketError | Panicked | Closed.

#[global] Instance cause_eq_dec : EqDecision cause.
Proof. solve_decision. Defined.

Inductive status := Running | Ended (c : cause).

#[global] Instance status_eq_dec : EqDecision status.
Proof. solve_decision. Defined.

(** ** Start-up of [run] *)

(** What the operating system grants: the addresses a text resolves to, the [i]-th UDP
    socket of an address (created, with [SO_REUSEPORT], and bound), a TCP listener, a QUIC
    endpoint. *)
Class Os := {
  to_socket_addrs : bytes → option (list SocketAddr);
  udp_bind : SocketAddr → nat → bool;
  tcp_bind : bytes → bool;
  quic_bind : bytes → bool;
}.

(** [bind_tcp(addr).await?]. *)
Definition bind_tcp `{Os} (addr : bytes) : res string unit :=
  if tcp_bind addr then Ok tt else Err "Failed to bind TCP listener"%string.

(** [bind_reuseport]: only the first address is tried. *)
Definition bind_reuseport `{Os} (addr : bytes) (i : nat) : res string SocketAddr :=
  match to_socket_addrs addr with
  | None => Err "resolving"%string
  | Some [] => Err "no socket address"%string
  | Some (sa :: _) => if udp_bind sa i then Ok sa else Err "Failed to bind UDP socket"%string
  end.

(** [for _ in 0..workers { udp_sockets.push(bind_reuseport(addr)?) }]. *)
Fixpoint bind_workers `{Os} (addr : bytes) (ids : list nat) : res string (list SocketAddr) :=
  match ids with
  | [] => Ok []
  | i :: ids => sa ← bind_reuseport addr i; rest ← bind_workers addr ids; Ok (sa :: rest)
  end.

(** An optional TCP-based listener. *)
Definition start_tcp_listener `{Os} (l : loop) (addr : option bytes) : res string (list loop) :=
  match addr with
  | Some a => _ ← bind_tcp a; Ok [l]
  | None => Ok []
  end.

(** The DoQ endpoint: a failure to build or bind it is only logged. *)
Definition start_doq `{Os, TlsLib} (assets : TlsAssets) (addr : option bytes) : list loop :=
  match addr with
  | Some a =>
      match build_endpoint (with_doq_alpn (ta_config assets)) a with
      | Ok _ => if quic_bind a then [DoqLoop] else []
      | _ => []
      end
  | None => []
  end.

(** [if let Some(tls) = tls]. *)
Definition start_tls `{Os, TlsLib} (tls : option TlsAssets) (ls : Listeners) : res string (list loop) :=
  match tls with
  | None => Ok []
  | Some assets =>
      dot ← start_tcp_listener DotLoop (l_dot ls);
      doh ← start_tcp_listener DohLoop (l_doh ls);
      Ok (dot ++ doh ++ start_doq assets (l_doq ls))
  end.

(** [run] up to its foreground loop: the loops it starts. [udp_sockets[0]] panics
    without workers; [available_parallelism] is never zero. *)
Definition run_start `{Os, TlsLib} (workers : nat) (tls : option TlsAssets) (ls : Listeners)
    : res string (list loop) :=
  udp_sockets ← bind_workers (l_addr ls) (seq 0 workers);
  _ ← idx udp_sockets 0;
  _ ← bind_tcp (l_addr ls);
  enc ← start_tls tls ls;
  metrics ← start_tcp_listener MetricsLoop (l_metrics ls);
  Ok (enc ++ metrics ++ [Reporter; Cleaner] ++ (UdpWorker <$> seq 0 workers) ++ [TcpLoop]).

(** ** The process *)

(** The task of the signal handler: installing the handlers may panic; then it
    waits, sets the flag, sends on the channel and ends. *)
Inductive handler := Installing | Waiting | Flagged | Sent | HandlerPanicked.

#[global] Instance handler_eq_dec : EqDecision handler.
Proof. solve_decision. Defined.

(** Where [run] is: in the foreground accept loop, waiting for the handles left until
    the end of the grace period, or returned. The handles are those of the UDP
    workers. *)
Inductive main_state :=
| Foreground (handles : list nat)
| Draining (handles : list nat) (deadline : Z)
| Returned (r : res string unit).

(** [METRICS_INTERVAL], [LIMITER_CLEANUP_INTERVAL] and [SHUTDOWN_GRACE]. *)
Definition METRICS_INTERVAL : Z := from_secs 60.
Definition LIMITER_CLEANUP_INTERVAL : Z := from_secs 60.
Definition SHUTDOWN_GRACE : Z := from_secs 5.

Record process := mkProcess {
  p_state : ServerState;
  p_clock : Z;
  p_handler : handler;
  p_shutting_down : bool;
  p_loops : gmap loop status;
  p_jobs : gmap nat job;
  p_main : main_state;
}.

(** The shutdown channel makes [changed()] return: a value was sent, or the sender
    was dropped with the handler's task. *)
Definition shutdown_fired (p : process) : bool :=
  match p_handler p with Sent | HandlerPanicked => true | _ => false end.

Definition running (l : loop) (p : process) : Prop := p_loops p !! l = Some Running.

Definition set_state (s : ServerState) (p : process) : process :=
  mkProcess s (p_clock p) (p_handler p) (p_shutting_down p) (p_loops p) (p_jobs p) (p_main p).
Definition set_handler (h : handler) (p : process) : process :=
  mkProcess (p_state p) (p_clock p) h (p_shutting_down p) (p_loops p) (p_jobs p) (p_main p).
Definition end_loop (l : loop) (c : cause) (p : process) : process :=
  mkProcess (p_state p) (p_clock p) (p_handler p) (p_shutting_down p) (<[l := Ended c]> (p_loops p))
    (p_jobs p) (p_main p).
Definition set_jobs (js : gmap nat job) (p : process) : process :=
  mkProcess (p_state p) (p_clock p) (p_handler p) (p_shutting_down p) (p_loops p) js (p_main p).
Definition set_main (m : main_state) (p : process) : process :=
  mkProcess (p_state p) (p_clock p) (p_handler p) (p_shutting_down p) (p_loops p) (p_jobs p) m.
Definition set_clock (t : Z) (p : process) : process :=
  mkProcess (p_state p) t (p_handler p) (p_shutting_down p) (p_loops p) (p_jobs p) (p_main p).

(** The UDP workers of a list of loops, in order: the handles of [run]. *)
Definition worker_of (l : loop) : option nat :=
  match l with UdpWorker i => Some i | _ => None end.

(** The state of the process when [run] enters its foreground loop. *)
Definition launched (s : ServerState) (loops : list loop) : process :=
  mkProcess s 0 Installing false (list_to_map ((fun l => (l, Running)) <$> loops)) ∅
    (Foreground (omap worker_of loops)).

(** The thread pool of [main]: one worker per core, at least one; the [n]-th thread to
    start takes the next core in turn. [core_ids[idx]] panics out of range. *)
Definition worker_threads (core_ids : list nat) : nat := length core_ids `max` 1.

Definition thread_core (core_ids : list nat) (n : Z) : res string (option nat) :=
  match core_ids with
  | [] => Ok None
  | _ => c ← idx core_ids (Z.to_nat (n mod 2 ^ 64 mod Z.of_nat (length core_ids))); Ok (Some c)
  end.

(** [run_server], from the command line to the running process. *)
Definition boot `{Unicode, HashIter, Ed25519, Toml, Os, TlsLib} (fs : bytes → option bytes)
    (pkcs8 : option bytes) (args : Args) (largs : ListenArgs) (workers : nat) : res string process :=
  settings ← startup_settings fs args;
  s ← build_from fs pkcs8 args settings;
  let ls := listeners largs settings in
  tls ← prepare_tls fs ls;
  loops ← run_start workers tls ls;
  Ok (launched s loops).

Section Process.
Context `{UNI : Unicode, HAS : HashIter, EDD : Ed25519, NET : Net, CLK : Clock, TOM : Toml, B64 : Base64Url}.

(** [spawn_signal_handler]: the handlers are installed or the task panics; a signal
    raises the flag (so does a failure of [ctrl_c], which completes its branch of the
    [select]); then [true] is sent. *)
Inductive signal_step : process → process → Prop :=
| Handler_installed p : p_handler p = Installing → signal_step p (set_handler Waiting p)
| Handler_fails p : p_handler p = Installing → signal_step p (set_handler HandlerPanicked p)
| Signal p :
    p_handler p = Waiting →
    signal_step p (mkProcess (p_state p) (p_clock p) Flagged true (p_loops p) (p_jobs p) (p_main p))
| Send p : p_handler p = Flagged → signal_step p (set_handler Sent p).

(** [serve], worker [i]: a reply sent inline, a query dropped, a query handed to a
    task, a panic of the first pass, an error of [recv_from], the shutdown. *)
Inductive udp_step (i : nat) : process → process → Prop :=
| Udp_ready p datagram client unix shard ev reply s' :
    running (UdpWorker i) p →
    serve_datagram unix shard ev datagram (sa_ip client) (p_state p) = Ok (Ready reply, s') →
    udp_step i p (set_state s' p)
| Udp_drop p datagram client unix shard ev s' :
    running (UdpWorker i) p →
    serve_datagram unix shard ev datagram (sa_ip client) (p_state p) = Ok (Drop, s') →
    udp_step i p (set_state s' p)
| Udp_forward p datagram client unix shard ev ctx s' q :
    running (UdpWorker i) p →
    serve_datagram unix shard ev datagram (sa_ip client) (p_state p) = Ok (Forward ctx, s') →
    p_jobs p !! q = None →
    udp_step i p (set_jobs (<[q := Query client (Forwarding ctx)]> (p_jobs p)) (set_state s' p))
| Udp_panic p datagram client unix shard ev :
    running (UdpWorker i) p →
    serve_datagram unix shard ev datagram (sa_ip client) (p_state p) = Panic →
    udp_step i p (end_loop (UdpWorker i) Panicked
      (set_state (charged (now_at ev) shard (sa_ip client) (p_state p)) p))
| Udp_fails p : running (UdpWorker i) p → udp_step i p (end_loop (UdpWorker i) SocketError p)
| Udp_stops p :
    running (UdpWorker i) p → shutdown_fired p = true → udp_step i p (end_loop (UdpWorker i) Shutdown p).

(** What the connections of a listener carry. *)
Definition carries (l : loop) (i : input) : bool :=
  match l, i with
  | TcpLoop, Frames _ | DotLoop, Frames _ | DohLoop, Http _ | DoqLoop, Quic _ | MetricsLoop, Paths _ => true
  | _, _ => false
  end.

(** An accept loop: a connection, from any client and with any input, is handed to a task
    of its own, the listener fails ([fail] is how the loop then ends), or the shutdown
    channel fired. *)
Inductive listener_step (l : loop) (fail : cause) : process → process → Prop :=
| Accept p q client i :
    running l p → p_jobs p !! q = None → carries l i = true →
    listener_step l fail p (set_jobs (<[q := Connection client i None]> (p_jobs p)) p)
| Accept_fails p : running l p → listener_step l fail p (end_loop l fail p)
| Listener_stops p :
    running l p → shutdown_fired p = true → listener_step l fail p (end_loop l Shutdown p).

Definition serve_tcp : process → process → Prop := listener_step TcpLoop SocketError.
Definition serve_dot : process → process → Prop := listener_step DotLoop SocketError.
Definition serve_doh : process → process → Prop := listener_step DohLoop SocketError.
Definition serve_metrics : process → process → Prop := listener_step MetricsLoop SocketError.

(** [doq::serve]: a closed endpoint ends the loop without an error; its address is
    read first, which may fail. *)
Inductive serve_doq : process → process → Prop :=
| Doq_listens p p' : listener_step DoqLoop Closed p p' → serve_doq p p'
| Doq_no_address p : running DoqLoop p → serve_doq p (end_loop DoqLoop SocketError p).

(** The tickers: the summary is only logged. *)
Inductive metrics_reporter : process → process → Prop :=
| Report p : running Reporter p → metrics_reporter p p
| Report_stops p :
    running Reporter p → shutdown_fired p = true → metrics_reporter p (end_loop Reporter Shutdown p).

Inductive limiter_cleanup : process → process → Prop :=
| Clean p now :
    running Cleaner p → limiter_cleanup p (set_state (cleanup_rate_limiter now (p_state p)) p)
| Clean_stops p :
    running Cleaner p → shutdown_fired p = true → limiter_cleanup p (end_loop Cleaner Shutdown p).

(** [spawn_reload_handler]: a reload at once, or its two stores apart; it does not
    watch the shutdown channel. *)
Inductive reload_handler : process → process → Prop :=
| Reload p fs : reload_handler p (set_state (reload fs (p_state p)).1 p)
| Reload_zones p fs : reload_handler p (set_state (store_zones fs (p_state p)) p)
| Reload_blocklist p fs : reload_handler p (set_state (store_blocklist fs (p_state p)) p).

(** A step of one of the tasks ([Tasks]). *)
Inductive job_step : process → process → Prop :=
| Job_step p s' js' :
    task_step (p_state p) (p_jobs p) s' js' → job_step p (set_jobs js' (set_state s' p)).

(** The end of [run]. [serve_tcp(..).await?]: an error is returned, the end starts the
    drain. The drain: the next handle is done, the grace period is over, or none is
    left. *)
Inductive main_step : process → process → Prop :=
| Main_fails p handles :
    p_main p = Foreground handles → p_loops p !! TcpLoop = Some (Ended SocketError) →
    main_step p (set_main (Returned (Err "accept failed"%string)) p)
| Main_drains p handles :
    p_main p = Foreground handles → p_loops p !! TcpLoop = Some (Ended Shutdown) →
    main_step p (set_main (Draining handles (p_clock p + SHUTDOWN_GRACE)) p)
| Drain_next p i handles d c :
    p_main p = Draining (i :: handles) d → p_loops p !! UdpWorker i = Some (Ended c) →
    main_step p (set_main (Draining handles d) p)
| Drain_timeout p i handles d :
    p_main p = Draining (i :: handles) d → (d <= p_clock p)%Z → main_step p (set_main (Returned (Ok tt)) p)
| Drain_done p d :
    p_main p = Draining [] d → main_step p (set_main (Returned (Ok tt)) p).

(** The process: any of these, or time passes. *)
Inductive pstep (p p' : process) : Prop :=
| Step_tick t : (p_clock p <= t)%Z → p' = set_clock t p → pstep p p'
| Step_signal : signal_step p p' → pstep p p'
| Step_udp i : udp_step i p p' → pstep p p'
| Step_tcp : serve_tcp p p' → pstep p p'
| Step_dot : serve_dot p p' → pstep p p'
| Step_doh : serve_doh p p' → pstep p p'
| Step_metrics : serve_metrics p p' → pstep p p'
| Step_doq : serve_doq p p' → pstep p p'
| Step_report : metrics_reporter p p' → pstep p p'
| Step_clean : limiter_cleanup p p' → pstep p p'
| Step_reload : reload_handler p p' → pstep p p'
| Step_job : job_step p p' → pstep p p'
| Step_main : main_step p p' → pstep p p'.

End Process.

(** All the ways a process steps. *)
Ltac step_cases Hs :=
  destruct Hs as [t Ht ->|Hs|i Hs|Hs|Hs|Hs|Hs|Hs|Hs|Hs|Hs|Hs|Hs];
    unfold serve_tcp, serve_dot, serve_doh, serve_metrics in *; try destruct Hs;
    try match goal with L : listener_step _ _ _ _ |- _ => destruct L end.

Section Runs.
Context `{UNI : Unicode, HAS : HashIter, EDD : Ed25519, NET : Net, CLK : Clock, TOM : Toml, B64 : Base64Url}.

(** [main] ends when [run] returns, and the runtime drops what is left. *)
Definition alive (p : process) : Prop :=
  match p_main p with Returned _ => False | _ => True end.

(** The processes reachable from a launched one. *)
Inductive reaches (p0 : process) : process → Prop :=
| Reaches_refl : reaches p0 p0
| Reaches_step p p' : reaches p0 p → alive p → pstep p p' → reaches p0 p'.

(** ** Invariants *)

Lemma reaches_trans p0 p1 p2 : reaches p0 p1 → reaches p1 p2 → reaches p0 p2.
Proof. intros H1. induction 1; [done|]. eauto using reaches. Qed.

Lemma reaches_alive_step p p' : alive p → pstep p p' → reaches p p'.
Proof. eauto using reaches. Qed.

(** Ending a running loop keeps what the ended ones show. *)
Lemma end_loop_other p l l' c c' :
  running l p → p_loops p !! l' = Some (Ended c') → <[l := Ended c]> (p_loops p) !! l' = Some (Ended c').
Proof. unfold running. intros Hl Hl'. rewrite lookup_insert_ne; [done|]. intros ->. congruence. Qed.

(** Loops never start again once they have ended. *)
Lemma ended_forever p p' l c :
  reaches p p' → p_loops p !! l = Some (Ended c) → p_loops p' !! l = Some (Ended c).
Proof.
  intros Hr Hl. induction Hr as [|p1 p2 _ IH _ Hs]; [done|].
  step_cases Hs; cbn; first [exact IH|by apply end_loop_other].
Qed.

(** The flag is up from the signal on; loops end by the channel only after it fired;
    [run] drains and returns [Ok] only then, and returns an error only when its
    listener failed. *)
Record PInv (p : process) : Prop := {
  pinv_flag : p_shutting_down p = match p_handler p with Flagged | Sent => true | _ => false end;
  pinv_stop : ∀ l, p_loops p !! l = Some (Ended Shutdown) → shutdown_fired p = true;
  pinv_main : match p_main p with
              | Foreground _ => True
              | Draining _ d => p_loops p !! TcpLoop = Some (Ended Shutdown) ∧
                                (d <= p_clock p + SHUTDOWN_GRACE)%Z
              | Returned (Ok _) => p_loops p !! TcpLoop = Some (Ended Shutdown)
              | Returned _ => p_loops p !! TcpLoop = Some (Ended SocketError)
              end;
}.

Lemma launched_running s loops l st : p_loops (launched s loops) !! l = Some st → st = Running.
Proof. intros (? & [= -> ->] & _)%elem_of_list_to_map_2%list_elem_of_fmap. done. Qed.

Lemma PInv_launched s loops : PInv (launched s loops).
Proof. split; [done| |done]. by intros l Hl%launched_running. Qed.

(** A step that changes neither handler, loops nor main. *)
Lemma PInv_keep p p' :
  p_handler p' = p_handler p → p_shutting_down p' = p_shutting_down p → p_loops p' = p_loops p →
  p_main p' = p_main p → (p_clock p <= p_clock p')%Z → PInv p → PInv p'.
Proof.
  intros Hh Hf Hl Hm Hc [I1 I2 I3].
  split; unfold shutdown_fired in *; rewrite ?Hh, ?Hf, ?Hl, ?Hm; [done..|].
  destruct (p_main p) as [|hs d|[]]; [done| |done..]. destruct I3. split; [done|lia].
Qed.

Lemma PInv_end p l c :
  (c = Shutdown → shutdown_fired p = true) → running l p → PInv p → PInv (end_loop l c p).
Proof.
  intros Hc Hl [I1 I2 I3]. split; cbn; [done| |].
  - intros l' [[-> [= ->]]|[_ Hl']]%lookup_insert_Some; [by apply Hc|by eapply I2].
  - destruct (p_main p) as [|hs d|[]]; [done|destruct I3|..]; eauto using end_loop_other.
Qed.

(** A step of the handler. *)
Lemma PInv_handler p h f :
  f = match h with Flagged | Sent => true | _ => false end →
  (shutdown_fired p = true → match h with Sent | HandlerPanicked => true | _ => false end = true) →
  PInv p → PInv (mkProcess (p_state p) (p_clock p) h f (p_loops p) (p_jobs p) (p_main p)).
Proof. intros Hf Hs [I1 I2 I3]. split; cbn; [done| |done]. intros l Hl. apply Hs. by eapply I2. Qed.

Lemma PInv_step p p' : pstep p p' → PInv p → PInv p'.
Proof.
  intros Hs Hi. pose proof (pinv_flag p Hi) as If. pose proof (pinv_main p Hi) as Im.
  step_cases Hs;
    first [ by eapply PInv_keep; [..|exact Hi]; cbn; (done || lia)
          | apply PInv_end; [|done..]; naive_solver
          | idtac ].
  1-4: apply PInv_handler; [|unfold shutdown_fired|done];
    match goal with E : p_handler _ = _ |- _ => rewrite E in * end; done.
  - apply PInv_end; [done..|]. by eapply PInv_keep; [..|exact Hi].
  - split; [apply Hi..|]. done.
  - split; [apply Hi..|]. cbn. split; [done|lia].
  - split; [apply Hi..|]. cbn. by rewrite H in Im.
  - split; [apply Hi..|]. cbn. rewrite H in Im. apply Im.
  - split; [apply Hi..|]. cbn. rewrite H in Im. apply Im.
Qed.

Lemma PInv_reaches s loops p : reaches (launched s loops) p → PInv p.
Proof. induction 1; eauto using PInv_launched, PInv_step. Qed.

(** The loops of a process are those it was launched with. *)
Lemma reaches_dom p p' : reaches p p' → dom (p_loops p') = dom (p_loops p).
Proof.
  intros Hr. induction Hr as [|p1 p2 _ IH _ Hs]; [done|]. rewrite <- IH.
  step_cases Hs; cbn; try done; unfold running in *; apply dom_insert_lookup_L; eauto.
Qed.

(** The drain waits for UDP workers of the process only. *)
Definition handles_known (p : process) : Prop :=
  match p_main p with
  | Foreground hs | Draining hs _ => Forall (fun i => UdpWorker i ∈ dom (p_loops p)) hs
  | Returned _ => True
  end.

Lemma handles_known_launched s loops : handles_known (launched s loops).
Proof.
  unfold handles_known, launched. cbn. rewrite dom_list_to_map_L, <- list_fmap_compose.
  apply Forall_forall. intros i (l & Hl & Hi)%list_elem_of_omap. apply elem_of_list_to_set.
  apply list_elem_of_fmap. exists (UdpWorker i). split; [done|]. by destruct l; simplify_eq/=.
Qed.

Lemma handles_known_step p p' : alive p → pstep p p' → handles_known p → handles_known p'.
Proof.
  intros Ha Hs Hk. assert (dom (p_loops p') = dom (p_loops p)) as Hd.
  { apply reaches_dom. by apply reaches_alive_step. }
  unfold handles_known in *. rewrite Hd. clear Hd.
  step_cases Hs; cbn; first [exact Hk|done|rewrite H in Hk; try done; by inv Hk].
Qed.

Lemma handles_known_reaches s loops p : reaches (launched s loops) p → handles_known p.
Proof. induction 1; eauto using handles_known_launched, handles_known_step. Qed.

(** What a run of the drain leaves alone. *)
Definition undisturbed (p p' : process) : Prop :=
  p_jobs p' = p_jobs p ∧ p_clock p' = p_clock p ∧ p_state p' = p_state p.

Lemma undisturbed_trans p1 p2 p3 : undisturbed p1 p2 → undisturbed p2 p3 → undisturbed p1 p3.
Proof. intros (?&?&?) (?&?&?). by split_and!; etrans. Qed.

(** Every loop can stop once the channel fired. *)
Lemma loop_stops p l : running l p → shutdown_fired p = true → pstep p (end_loop l Shutdown p).
Proof.
  intros Hl Hf. destruct l as [i| | | | | | |].
  - by apply (Step_udp _ _ i), Udp_stops.
  - by apply Step_tcp, Listener_stops.
  - by apply Step_dot, Listener_stops.
  - by apply Step_doh, Listener_stops.
  - by apply Step_doq, Doq_listens, Listener_stops.
  - by apply Step_metrics, Listener_stops.
  - by apply Step_report, Report_stops.
  - by apply Step_clean, Clean_stops.
Qed.

(** One loop stops, if it has not already. *)
Lemma stop_loop p l :
  alive p → shutdown_fired p = true → l ∈ dom (p_loops p) →
  ∃ p' c, reaches p p' ∧ p_loops p' !! l = Some (Ended c) ∧ p_main p' = p_main p ∧
    shutdown_fired p' = true ∧ undisturbed p p' ∧ (c = Shutdown ∨ p_loops p !! l = Some (Ended c)).
Proof.
  intros Ha Hf [[|c] Hl]%elem_of_dom.
  - exists (end_loop l Shutdown p), Shutdown. split_and!; try (done || by left).
    + apply reaches_alive_step; [done|]. by apply loop_stops.
    + cbn. by rewrite lookup_insert_eq.
  - exists p, c. split_and!; done || (by right) || constructor.
Qed.

(** The drain completes at once: the workers stop and their handles are done. *)
Lemma drain_completes handles d p :
  p_main p = Draining handles d → shutdown_fired p = true →
  Forall (fun i => UdpWorker i ∈ dom (p_loops p)) handles →
  ∃ p', reaches p p' ∧ p_main p' = Returned (Ok tt) ∧ undisturbed p p'.
Proof.
  revert p. induction handles as [|i hs IH]; intros p Hm Hf Hd;
    assert (alive p) as Ha by (unfold alive; by rewrite Hm).
  - exists (set_main (Returned (Ok tt)) p). split_and!; try done. apply reaches_alive_step; [done|].
    by apply Step_main, Drain_done with d.
  - inv Hd as [|? ? Hi Hd'].
    destruct (stop_loop p (UdpWorker i) Ha Hf Hi) as (p1 & c & Hr1 & Hl & Hm1 & Hf1 & Hu1 & Hc1).
    destruct (IH (set_main (Draining hs d) p1)) as (p2 & Hr2 & Hm2 & Hu2); [done..| |].
    { cbn. by rewrite (reaches_dom _ _ Hr1). }
    exists p2. split_and!; [|done|by eapply undisturbed_trans].
    eapply reaches_trans; [exact Hr1|]. eapply reaches_trans; [|exact Hr2].
    apply reaches_alive_step; [unfold alive; by rewrite Hm1, Hm|].
    apply Step_main, Drain_next with i c; [by rewrite Hm1|done].
Qed.

(** Once the channel fired, [run] can return without any time passing and without a
    single task in flight making a step. *)
Lemma shutdown_run s loops p :
  TcpLoop ∈ loops → reaches (launched s loops) p → alive p → shutdown_fired p = true →
  (∀ c, p_loops p !! TcpLoop = Some (Ended c) → c = Shutdown) →
  ∃ p', reaches p p' ∧ p_main p' = Returned (Ok tt) ∧ undisturbed p p'.
Proof.
  intros Htcp Hr Ha Hf Hc.
  pose proof (handles_known_reaches _ _ _ Hr) as Hk.
  destruct (p_main p) as [hs|hs d|] eqn:Hm; [| |unfold alive in Ha; by rewrite Hm in Ha].
  2:{ unfold handles_known in Hk. rewrite Hm in Hk. by eapply drain_completes. }
  assert (TcpLoop ∈ dom (p_loops p)) as Ht.
  { rewrite (reaches_dom _ _ Hr). cbn. rewrite dom_list_to_map_L, <- list_fmap_compose.
    apply elem_of_list_to_set, list_elem_of_fmap. by exists TcpLoop. }
  destruct (stop_loop p TcpLoop Ha Hf Ht) as (p1 & c & Hr1 & Hl & Hm1 & Hf1 & Hu1 & Hc1).
  assert (c = Shutdown) as -> by (destruct Hc1; eauto).
  destruct (drain_completes hs (p_clock p1 + SHUTDOWN_GRACE)
    (set_main (Draining hs (p_clock p1 + SHUTDOWN_GRACE)) p1)) as (p2 & Hr2 & Hm2 & Hu2); [done..| |].
  { cbn. unfold handles_known in Hk. rewrite Hm in Hk. by rewrite (reaches_dom _ _ Hr1). }
  exists p2. split_and!; [|done|by eapply undisturbed_trans].
  eapply reaches_trans; [exact Hr1|]. eapply reaches_trans; [|exact Hr2].
  apply reaches_alive_step; [unfold alive; by rewrite Hm1, Hm|]. by apply Step_main, Main_drains; [rewrite Hm1|].
Qed.

(** ** The server's life inside the process *)

(** A step keeps the server state in its life and the tasks explained by it. *)
Lemma pstep_tasks_ok fs pkcs8 args p p' :
  pstep p p' → tasks_ok fs pkcs8 args (p_state p) (p_jobs p) →
  tasks_ok fs pkcs8 args (p_state p') (p_jobs p').
Proof.
  intros Hs Hok. step_cases Hs; cbn; try exact Hok; unfold serve_datagram in *;
    try (eapply ok_serves; [exact Hok|]; right; econstructor; done);
    try (by apply ok_joins).
  - apply ok_joins; [eapply ok_serves; [exact Hok|right; econstructor; done]|done|done| |done].
    intros w [= <-]. pose proof (ok_life _ _ _ _ _ Hok). unfold explained, passed. eauto 12.
  - by eapply task_step_ok.
Qed.

Lemma reaches_tasks_ok fs pkcs8 args p p' :
  reaches p p' → tasks_ok fs pkcs8 args (p_state p) (p_jobs p) →
  tasks_ok fs pkcs8 args (p_state p') (p_jobs p').
Proof. intros Hr Hok. induction Hr; eauto using pstep_tasks_ok. Qed.

(** ** Losing the UDP workers *)

(** A server whose limiter is off admits everything, for good. *)
Definition unlimited (s : ServerState) : Prop := max_per_window (st_limiter s) = 0%Z.

Lemma unlimited_admits now client s : unlimited s → admitted now client s = true.
Proof. unfold unlimited, admitted, RateLimiter_ops.allow. by intros ->. Qed.

Lemma unlimited_charged now shard client s : unlimited s → unlimited (charged now shard client s).
Proof. unfold unlimited, charged, RateLimiter_ops.allow. cbn. intros Hu. by rewrite Hu. Qed.

(** A datagram the parser panics on ends the worker that reads it. *)
Lemma lose_worker p i datagram :
  alive p → running (UdpWorker i) p → from_bytes (take UDP_BUFFER datagram) = Panic →
  unlimited (p_state p) → cache_ok (st_cache (p_state p)) →
  ∃ p', reaches p p' ∧ p_loops p' = <[UdpWorker i := Ended Panicked]> (p_loops p) ∧
    p_main p' = p_main p ∧ p_handler p' = p_handler p ∧ p_shutting_down p' = p_shutting_down p ∧
    unlimited (p_state p') ∧ cache_ok (st_cache (p_state p')).
Proof.
  intros Ha Hi Hd Hu Hc. set (client := mkSocketAddr (V4 [192; 0; 2; 1]%Z) 53).
  eexists. split; [apply reaches_alive_step; [done|]|].
  - apply (Step_udp _ _ i), (Udp_panic i p datagram client 0 0 0); [done|]. unfold serve_datagram.
    apply resolve_local_panics; [done|]. split; [by apply unlimited_admits|done].
  - split_and!; try done. by apply unlimited_charged.
Qed.

Lemma lose_workers datagram ids p :
  from_bytes (take UDP_BUFFER datagram) = Panic → NoDup ids → Forall (fun i => running (UdpWorker i) p) ids →
  alive p → unlimited (p_state p) → cache_ok (st_cache (p_state p)) →
  ∃ p', reaches p p' ∧ Forall (fun i => p_loops p' !! UdpWorker i = Some (Ended Panicked)) ids ∧
    p_main p' = p_main p ∧ p_shutting_down p' = p_shutting_down p ∧ p_handler p' = p_handler p.
Proof.
  intros Hd. revert p. induction ids as [|i ids IH]; intros p Hn Hr Ha Hu Hc.
  { exists p. split_and!; done || constructor. }
  inv Hn as [|? ? Hni Hn']. inv Hr as [|? ? Hri Hr'].
  destruct (lose_worker p i datagram Ha Hri Hd Hu Hc) as (p1 & Hr1 & Hl1 & Hm1 & Hh1 & Hf1 & Hu1 & Hc1).
  destruct (IH p1) as (p2 & Hr2 & Hl2 & Hm2 & Hf2 & Hh2); [done| |..|done|done|].
  { apply Forall_forall. intros j Hj. unfold running. rewrite Hl1, lookup_insert_ne by (intros [= ->]; done).
    by eapply Forall_forall in Hr'. }
  { unfold alive. by rewrite Hm1. }
  exists p2. split_and!; [by eapply reaches_trans| |congruence..]. constructor; [|done].
  eapply ended_forever; [exact Hr2|]. by rewrite Hl1, lookup_insert_eq.
Qed.

(** ** Start-up *)

Context `{OSS : Os, TLS : TlsLib}.

Lemma boot_Ok fs pkcs8 args largs workers p :
  boot fs pkcs8 args largs workers = Ok p ↔
  ∃ settings s tls loops,
    startup_settings fs args = Ok settings ∧ build_from fs pkcs8 args settings = Ok s ∧
    prepare_tls fs (listeners largs settings) = Ok tls ∧
    run_start workers tls (listeners largs settings) = Ok loops ∧ p = launched s loops.
Proof.
  unfold boot. split.
  - intros Hb. apply bind_Ok in Hb as (st & Hs & Hb). apply bind_Ok in Hb as (s & Hf & Hb).
    apply bind_Ok in Hb as (tls & Ht & Hb). apply bind_Ok in Hb as (ls & Hl & Hb).
    injection Hb as <-. eauto 10.
  - intros (st & s & tls & ls & -> & Hf & Ht & Hl & ->). cbn. by rewrite Hf; cbn; rewrite Ht; cbn; rewrite Hl.
Qed.

Lemma boot_build fs pkcs8 args largs workers p :
  boot fs pkcs8 args largs workers = Ok p → build_state fs pkcs8 args = Ok (p_state p).
Proof.
  intros (st & s & tls & ls & Hs & Hf & _ & _ & ->)%boot_Ok. unfold build_state. by rewrite Hs.
Qed.

(** The loops of a listener that binds a TCP socket: none, or the one asked for. *)
Lemma start_tcp_listener_Ok l addr loops :
  start_tcp_listener l addr = Ok loops ↔
  loops = match addr with Some _ => [l] | None => [] end ∧ (∀ a, addr = Some a → tcp_bind a = true).
Proof.
  unfold start_tcp_listener, bind_tcp. destruct addr as [a|]; [destruct (tcp_bind a) eqn:Hb|]; cbn.
  - split; [intros [= <-]; split; [done|by intros ? [= <-]]|by intros [-> _]].
  - split; [done|]. intros [_ Ha]. specialize (Ha a eq_refl). congruence.
  - split; [intros [= <-]; done|by intros [-> _]].
Qed.

(** The loops [run_start] gives, and exactly when it gives them. *)
Definition tls_loops (assets : TlsAssets) (ls : Listeners) : list loop :=
  match l_dot ls with Some _ => [DotLoop] | None => [] end ++
  match l_doh ls with Some _ => [DohLoop] | None => [] end ++ start_doq assets (l_doq ls).

Definition started (workers : nat) (tls : option TlsAssets) (ls : Listeners) : list loop :=
  match tls with Some assets => tls_loops assets ls | None => [] end ++
  match l_metrics ls with Some _ => [MetricsLoop] | None => [] end ++
  [Reporter; Cleaner] ++ (UdpWorker <$> seq 0 workers) ++ [TcpLoop].

Record binds (workers : nat) (tls : option TlsAssets) (ls : Listeners) : Prop := {
  binds_workers : workers ≠ 0;
  binds_udp : ∃ sa rest, to_socket_addrs (l_addr ls) = Some (sa :: rest) ∧ ∀ i, i < workers → udp_bind sa i = true;
  binds_tcp : tcp_bind (l_addr ls) = true;
  binds_dot : ∀ a, is_Some tls → l_dot ls = Some a → tcp_bind a = true;
  binds_doh : ∀ a, is_Some tls → l_doh ls = Some a → tcp_bind a = true;
  binds_metrics : ∀ a, l_metrics ls = Some a → tcp_bind a = true;
}.

Lemma bind_reuseport_Ok addr i sa :
  bind_reuseport addr i = Ok sa ↔ ∃ rest, to_socket_addrs addr = Some (sa :: rest) ∧ udp_bind sa i = true.
Proof.
  unfold bind_reuseport. destruct (to_socket_addrs addr) as [[|sa' rest]|];
    [by split; [|intros (? & ? & _)]| |by split; [|intros (? & ? & _)]].
  destruct (udp_bind sa' i) eqn:Hb; split.
  - intros [= <-]. eauto.
  - by intros (rest' & [= -> _] & _).
  - done.
  - intros (rest' & [= -> _] & ?). congruence.
Qed.

Lemma bind_workers_inv addr ids sas :
  bind_workers addr ids = Ok sas →
  length sas = length ids ∧ ∀ i, i ∈ ids → ∃ sa, bind_reuseport addr i = Ok sa.
Proof.
  revert sas. induction ids as [|j ids IH]; intros sas Hb; cbn in Hb.
  { injection Hb as <-. split; [done|]. by intros i ?%elem_of_nil. }
  apply bind_Ok in Hb as (sa & Hj & Hb). apply bind_Ok in Hb as (rest & Hr & Hb). injection Hb as <-.
  destruct (IH rest Hr) as [Hl Hi]. split; [cbn; lia|]. intros i [->|?]%elem_of_cons; eauto.
Qed.

Lemma bind_workers_all addr ids sa :
  (∀ i, i ∈ ids → bind_reuseport addr i = Ok sa) → bind_workers addr ids = Ok (const sa <$> ids).
Proof.
  induction ids as [|j ids IH]; intros Hi; [done|]. cbn. rewrite (Hi j) by set_solver. cbn.
  rewrite IH by set_solver. done.
Qed.

Lemma bind_workers_Ok addr workers :
  workers ≠ 0 →
  (∃ sas, bind_workers addr (seq 0 workers) = Ok sas) ↔
  ∃ sa rest, to_socket_addrs addr = Some (sa :: rest) ∧ ∀ i, i < workers → udp_bind sa i = true.
Proof.
  intros Hw. split.
  - intros (sas & [_ Hi]%bind_workers_inv).
    destruct (Hi 0) as (sa & (rest & Ha & _)%bind_reuseport_Ok); [apply elem_of_seq; lia|].
    exists sa, rest. split; [done|]. intros i Hlt.
    destruct (Hi i) as (sa' & (rest' & Ha' & Hb)%bind_reuseport_Ok); [apply elem_of_seq; lia|].
    rewrite Ha in Ha'. by injection Ha' as <- _.
  - intros (sa & rest & Ha & Hi). eexists. apply (bind_workers_all _ _ sa). intros i [_ Hlt]%elem_of_seq.
    apply bind_reuseport_Ok. eauto.
Qed.

Lemma bind_tcp_Ok addr : bind_tcp addr = Ok tt ↔ tcp_bind addr = true.
Proof. unfold bind_tcp. by destruct (tcp_bind addr). Qed.

Lemma start_tls_Ok tls ls loops :
  start_tls tls ls = Ok loops ↔
  loops = match tls with Some assets => tls_loops assets ls | None => [] end ∧
  (∀ a, is_Some tls → l_dot ls = Some a → tcp_bind a = true) ∧
  (∀ a, is_Some tls → l_doh ls = Some a → tcp_bind a = true).
Proof.
  unfold start_tls, tls_loops. destruct tls as [assets|].
  2:{ split; [intros [= <-]|by intros [-> _]]. split_and!; [done|by intros ? []..]. }
  rewrite bind_Ok. split.
  - intros (dot & [-> Hd]%start_tcp_listener_Ok & Hb). apply bind_Ok in Hb as (doh & [-> Hh]%start_tcp_listener_Ok & Hb).
    injection Hb as <-. eauto.
  - intros (-> & Hd & Hh). eexists. split; [apply start_tcp_listener_Ok; eauto|].
    apply bind_Ok. eexists. split; [apply start_tcp_listener_Ok; eauto|done].
Qed.

Lemma run_start_Ok workers tls ls loops :
  run_start workers tls ls = Ok loops ↔ binds workers tls ls ∧ loops = started workers tls ls.
Proof.
  unfold run_start. rewrite bind_Ok. split.
  - intros (sas & Hw & Hb). apply bind_Ok in Hb as (sa0 & H0%idx_Ok & Hb).
    assert (workers ≠ 0) as Hz.
    { apply lookup_lt_Some in H0. apply bind_workers_inv in Hw as [Hl _]. rewrite length_seq in Hl. lia. }
    apply bind_Ok in Hb as ([] & Ht & Hb). rewrite bind_tcp_Ok in Ht.
    apply bind_Ok in Hb as (enc & (-> & Hd & Hh)%start_tls_Ok & Hb).
    apply bind_Ok in Hb as (ms & [-> Hm]%start_tcp_listener_Ok & Hb). injection Hb as <-.
    split; [|done]. split; try done. apply bind_workers_Ok; eauto.
  - intros [[Hz Hu Ht Hd Hh Hm] ->]. apply bind_workers_Ok in Hu as [sas Hu]; [|done].
    exists sas. split; [done|]. apply bind_Ok.
    destruct sas as [|sa sas]; [apply bind_workers_inv in Hu as [Hl _]; rewrite length_seq in Hl; by destruct workers|].
    exists sa. split; [done|]. apply bind_Ok. exists tt. split; [by apply bind_tcp_Ok|].
    apply bind_Ok. eexists. split; [apply start_tls_Ok; split_and!; [reflexivity|done..]|].
    apply bind_Ok. eexists. split; [apply start_tcp_listener_Ok; eauto|]. done.
Qed.

Lemma started_tcp workers tls ls : TcpLoop ∈ started workers tls ls.
Proof. unfold started. rewrite !elem_of_app. do 4 right. by left. Qed.

Lemma boot_launched fs pkcs8 args largs workers p :
  boot fs pkcs8 args largs workers = Ok p →
  ∃ s tls settings, p = launched s (started workers tls (listeners largs settings)).
Proof. intros (st & s & tls & ls & _ & _ & _ & [_ ->]%run_start_Ok & ->)%boot_Ok. eauto. Qed.

(** The loops of a launched process are those it was launched with. *)
Lemma running_launched s loops l : running l (launched s loops) ↔ l ∈ loops.
Proof.
  unfold running, launched. cbn. split.
  - intros (? & [= ->] & Hl)%elem_of_list_to_map_2%list_elem_of_fmap. done.
  - intros Hl. induction loops as [|l' loops IH]; [by apply elem_of_nil in Hl|]. cbn.
    destruct (decide (l' = l)) as [->|Hne]; [by rewrite lookup_insert_eq|].
    rewrite lookup_insert_ne by done. apply IH. by apply elem_of_cons in Hl as [?|?].
Qed.

(** The encrypted listeners come with TLS assets. *)
Lemma prepare_tls_listeners fs largs settings tls :
  prepare_tls fs (listeners largs settings) = Ok tls →
  is_Some tls ∨ l_dot (listeners largs settings) = None ∧ l_doh (listeners largs settings) = None ∧
    l_doq (listeners largs settings) = None.
Proof.
  unfold prepare_tls, listeners. cbn [l_tls l_dot l_doh l_doq].
  destruct (or_else (la_dot_addr largs) _) as [?|], (or_else (la_doh_addr largs) _) as [?|],
    (or_else (la_doq_addr largs) _) as [?|]; cbn; intros Hp;
    try (left; apply bind_Ok in Hp as (? & _ & [= <-]); by eexists); by right.
Qed.

Lemma start_doq_running assets addr :
  DoqLoop ∈ start_doq assets addr ↔
  ∃ a sa, addr = Some a ∧ build_endpoint (with_doq_alpn (ta_config assets)) a = Ok sa ∧ quic_bind a = true.
Proof.
  unfold start_doq. destruct addr as [a|]; [|by split; [intros ?%elem_of_nil|intros (?&?&?&?)]].
  destruct (build_endpoint _ a) as [sa| |] eqn:Hb; [destruct (quic_bind a) eqn:Hq|..].
  all: split; [intros Hin; by apply elem_of_nil in Hin || eauto 10|intros (?&?&[= <-]&?&?); by constructor || congruence].
Qed.

Lemma start_doq_only assets addr l : l ∈ start_doq assets addr → l = DoqLoop.
Proof.
  unfold start_doq. destruct addr as [a|]; [|by intros ?%elem_of_nil].
  destruct (build_endpoint _ a); [destruct (quic_bind a)|..]; by intros ?%list_elem_of_singleton || intros ?%elem_of_nil.
Qed.

Lemma elem_of_optional {A} (o : option A) (l x : loop) :
  l ∈ match o with Some _ => [x] | None => [] end ↔ is_Some o ∧ l = x.
Proof.
  destruct o; [rewrite list_elem_of_singleton|rewrite elem_of_nil]; split; eauto; naive_solver.
Qed.

(** Which loops are started. *)
Lemma elem_of_started workers tls ls l :
  l ∈ started workers tls ls ↔
  match l with
  | DotLoop => is_Some tls ∧ is_Some (l_dot ls)
  | DohLoop => is_Some tls ∧ is_Some (l_doh ls)
  | DoqLoop => ∃ assets, tls = Some assets ∧ DoqLoop ∈ start_doq assets (l_doq ls)
  | MetricsLoop => is_Some (l_metrics ls)
  | UdpWorker i => i < workers
  | TcpLoop | Reporter | Cleaner => True
  end.
Proof.
  assert (l ∈ match tls with Some assets => tls_loops assets ls | None => [] end ↔
    is_Some tls ∧ (is_Some (l_dot ls) ∧ l = DotLoop ∨ is_Some (l_doh ls) ∧ l = DohLoop) ∨
    ∃ assets, tls = Some assets ∧ l ∈ start_doq assets (l_doq ls)) as He.
  { destruct tls as [assets|]; [|rewrite elem_of_nil; split; [done|by intros [[[] _]|(? & ? & _)]]].
    unfold tls_loops. rewrite !elem_of_app, !elem_of_optional. split; [|naive_solver].
    intros [?|[?|?]]; [by left; eauto..|right; eauto]. }
  assert (∀ assets, l ∈ start_doq assets (l_doq ls) → l = DoqLoop) as Honly.
  { intros assets. apply start_doq_only. }
  unfold started. rewrite !elem_of_app, He, elem_of_optional, list_elem_of_fmap, !elem_of_cons, !elem_of_nil.
  setoid_rewrite elem_of_seq. clear He.
  destruct l; split; try done; try naive_solver.
  intros Hi. do 3 right. left. exists i. split; [done|lia].
Qed.

(** Pinning never panics, and the workers get distinct cores. *)
Theorem workers_pinned (core_ids : list nat) :
  NoDup core_ids → (Z.of_nat (length core_ids) < 2 ^ 64)%Z →
  (∀ n, ∃ c, thread_core core_ids n = Ok c) ∧
  ∀ i j c, i < length core_ids → j < length core_ids →
    thread_core core_ids (Z.of_nat i) = Ok (Some c) → thread_core core_ids (Z.of_nat j) = Ok (Some c) → i = j.
Proof.
  intros Hn Hb. unfold thread_core. destruct core_ids as [|c0 cs] eqn:Hc; [split; [eauto|cbn; lia]|].
  rewrite <- Hc in *. assert (0 < length core_ids) by (rewrite Hc; cbn; lia). split.
  - intros n. destruct (lookup_lt_is_Some_2 core_ids
      (Z.to_nat (n mod 2 ^ 64 mod Z.of_nat (length core_ids)))) as [c Hl].
    { pose proof (Z.mod_pos_bound (n mod 2 ^ 64) (Z.of_nat (length core_ids))). lia. }
    exists (Some c). apply bind_Ok. exists c. split; [by apply idx_Ok|done].
  - assert (∀ i, i < length core_ids →
      Z.to_nat (Z.of_nat i mod 2 ^ 64 mod Z.of_nat (length core_ids)) = i) as Hm.
    { intros i Hi. rewrite (Z.mod_small (Z.of_nat i) (2 ^ 64)), Z.mod_small by lia. apply Nat2Z.id. }
    intros i j c Hi Hj. rewrite !Hm by done. rewrite !bind_Ok.
    intros (? & H1%idx_Ok & [= ->]) (? & H2%idx_Ok & [= ->]). by eapply NoDup_lookup.
Qed.

(** ** Properties *)

(** C23: start-up opens what was asked for or fails, with one exception. [boot] gives
    a process exactly when the configuration loads, the TLS assets can be built if
    an encrypted listener was asked for, there is a worker, and every TCP socket
    and every UDP worker's socket can be bound; each listener asked for is then
    running, one UDP worker per processor included. The exception is DoQ, which
    runs only if its endpoint could also be built and bound: a failure there is not an
    error. *)
Theorem boot_listens fs pkcs8 args largs workers p :
  boot fs pkcs8 args largs workers = Ok p ↔
  ∃ settings s tls, let ls := listeners largs settings in
    startup_settings fs args = Ok settings ∧ build_from fs pkcs8 args settings = Ok s ∧
    prepare_tls fs ls = Ok tls ∧ binds workers tls ls ∧ p_state p = s ∧
    p = launched s (started workers tls ls) ∧
    (running DotLoop p ↔ is_Some (l_dot ls)) ∧ (running DohLoop p ↔ is_Some (l_doh ls)) ∧
    (running MetricsLoop p ↔ is_Some (l_metrics ls)) ∧ running TcpLoop p ∧
    (∀ i, running (UdpWorker i) p ↔ i < workers) ∧
    (running DoqLoop p ↔ ∃ assets a addr, tls = Some assets ∧ l_doq ls = Some a ∧
       build_endpoint (with_doq_alpn (ta_config assets)) a = Ok addr ∧ quic_bind a = true).
Proof.
  split; [|intros (? & ? & ? & ? & ? & ? & ? & ? & ? & _); apply boot_Ok; eexists _, _, _, _; split_and!;
    [done..| |done]; by apply run_start_Ok].
  intros (settings & s & tls & loops & Hs & Hf & Ht & [Hb ->]%run_start_Ok & ->)%boot_Ok.
  exists settings, s, tls. cbn zeta. setoid_rewrite running_launched. setoid_rewrite elem_of_started.
  pose proof (prepare_tls_listeners _ _ _ _ Ht) as Hl. setoid_rewrite start_doq_running.
  split_and!; try done; destruct Hl as [[? ->]|(H1 & H2 & H3)]; rewrite ?H1, ?H2, ?H3; split; naive_solver.
Qed.

(** C17: the server's life inside the process. Whatever the loops, tickers, signal handlers
    and tasks do, in any order and with the cache's map shared call by call (a first pass and an
    upstream query being one step each): the server
    state of the running process is one of the states of [Server.lifetime]; every request in
    the hands of a task is explained by it, that is, it was forwarded by a first
    pass, what it stores is the reply its own upstream query got, filed under the name
    and type asked, with the lifetime of that reply, and its reply is a transfer or an
    answer of a first pass, or a reply that was got for the same name and type, rewritten
    for it, or SERVFAIL; a request that waits for a shared reply has a leader at work; and
    no two tasks ask for the same name and type at once. *)
Theorem process_lifetime fs pkcs8 args largs workers p0 p :
  boot fs pkcs8 args largs workers = Ok p0 → reaches p0 p →
  lifetime fs pkcs8 args (p_state p) ∧
  (∀ q j w, p_jobs p !! q = Some j → job_stage j = Some w → explained fs pkcs8 args w) ∧
  (∀ q j ctx, p_jobs p !! q = Some j → job_stage j = Some (Following ctx) →
     ∃ q' j' v, p_jobs p !! q' = Some j' ∧ job_leading j' = Some (SingleFlight.ctx_key ctx, v)) ∧
  (∀ q q' j j' k v v', p_jobs p !! q = Some j → p_jobs p !! q' = Some j' →
     job_leading j = Some (k, v) → job_leading j' = Some (k, v') → q = q').
Proof.
  intros Hb Hr. assert (tasks_ok fs pkcs8 args (p_state p) (p_jobs p)) as [].
  - eapply reaches_tasks_ok; [exact Hr|]. pose proof (boot_build _ _ _ _ _ _ Hb) as Hs.
    destruct (boot_launched _ _ _ _ _ _ Hb) as (s & tls & st & ->). by apply ok_empty, Life_start.
  - done.
Qed.

(** C22: the health check tells the truth before anything stops: [/healthz] answers 503
    exactly from the signal on (the handler has raised the flag, and may have
    sent), hence before any loop stops for a signal; and [run] returns [Ok] only after the
    channel fired, an error only when accepting TCP connections failed. *)
Theorem health_before_stop fs pkcs8 args largs workers p0 p :
  boot fs pkcs8 args largs workers = Ok p0 → reaches p0 p →
  ((metrics_endpoint (str "/healthz") (p_shutting_down p) (st_metrics (p_state p))).1.1 = 503%Z ↔
     p_handler p = Flagged ∨ p_handler p = Sent) ∧
  (∀ l, p_loops p !! l = Some (Ended Shutdown) → p_handler p = Sent ∨ p_handler p = HandlerPanicked) ∧
  (p_main p = Returned (Ok tt) → p_handler p = Sent ∨ p_handler p = HandlerPanicked) ∧
  (∀ e, p_main p = Returned (Err e) → p_loops p !! TcpLoop = Some (Ended SocketError)).
Proof.
  intros (s & tls & st & ->)%boot_launched Hr%PInv_reaches. destruct Hr as [If Is Im].
  assert (∀ l, p_loops p !! l = Some (Ended Shutdown) → p_handler p = Sent ∨ p_handler p = HandlerPanicked) as Hs.
  { intros l Hl. specialize (Is l Hl). unfold shutdown_fired in Is. destruct (p_handler p); auto; done. }
  split_and!; [|done|..].
  - rewrite If. destruct (p_handler p); split; try (by auto); try (by intros []); vm_compute; done.
  - intros Hm. rewrite Hm in Im. by apply (Hs TcpLoop).
  - intros e Hm. by rewrite Hm in Im.
Qed.

(** The drain ends: at any moment of the drain its deadline is at most
    [SHUTDOWN_GRACE] away, and once it has passed [run] can return, whatever the
    workers do. *)
Theorem drain_bounded fs pkcs8 args largs workers p0 p handles d :
  boot fs pkcs8 args largs workers = Ok p0 → reaches p0 p → p_main p = Draining handles d →
  (d <= p_clock p + SHUTDOWN_GRACE)%Z ∧
  ∀ t, (d <= t)%Z → (p_clock p <= t)%Z →
    reaches p (set_main (Returned (Ok tt)) (set_clock t p)).
Proof.
  intros (s & tls & st & ->)%boot_launched Hr%PInv_reaches Hm. destruct Hr as [_ _ Im].
  rewrite Hm in Im. split; [apply Im|]. intros t Hd Ht.
  assert (alive p) as Ha by (unfold alive; by rewrite Hm).
  apply Reaches_step with (set_clock t p); [by apply reaches_alive_step, (Step_tick _ _ t)|done|].
  destruct handles as [|i hs]; [by apply Step_main, Drain_done with d|by apply Step_main, Drain_timeout with i hs d].
Qed.

(** C21: a shutdown does not wait for the queries in flight: once the shutdown channel fired,
    and unless accepting TCP connections had failed before, [run] can return [Ok]
    with every task still in flight untouched, no time having passed and
    without any of them having made a step. Only the handles of the UDP receive
    loops are awaited; the tasks of the queries and connections have none. *)
Theorem shutdown_abandons_queries fs pkcs8 args largs workers p0 p :
  boot fs pkcs8 args largs workers = Ok p0 → reaches p0 p → alive p →
  shutdown_fired p = true → (∀ c, p_loops p !! TcpLoop = Some (Ended c) → c = Shutdown) →
  ∃ p', reaches p p' ∧ p_main p' = Returned (Ok tt) ∧
    p_jobs p' = p_jobs p ∧ p_clock p' = p_clock p ∧ p_state p' = p_state p.
Proof.
  intros (s & tls & st & ->)%boot_launched Hr Ha Hf Hc.
  eapply shutdown_run; [|exact Hr|done..]. apply started_tcp.
Qed.

(** C20: one datagram per worker silences UDP for good: without rate limiting, datagrams
    that make the parser panic lead from start-up to a process in which every UDP
    worker has ended by a panic, though nothing asked for a shutdown and [run] goes on
    accepting TCP connections; and no UDP worker ever runs again in it. *)
Theorem udp_service_lost fs pkcs8 args largs workers p0 datagram :
  boot fs pkcs8 args largs workers = Ok p0 → a_rate_limit args = 0%Z →
  from_bytes (take UDP_BUFFER datagram) = Panic →
  ∃ p, reaches p0 p ∧ p_shutting_down p = false ∧ shutdown_fired p = false ∧ p_main p = p_main p0 ∧
    (∀ i, i < workers → p_loops p !! UdpWorker i = Some (Ended Panicked)) ∧
    ∀ p' i, reaches p p' → ¬ running (UdpWorker i) p'.
Proof.
  intros Hb Hrl Hd. pose proof (boot_build _ _ _ _ _ _ Hb) as Hs.
  destruct (boot_launched _ _ _ _ _ _ Hb) as (s & tls & st & ->). cbn [p_state launched] in Hs.
  destruct (build_state_inv _ _ _ _ Hs)
    as (? & ? & ? & ? & ? & _ & _ & _ & _ & _ & _ & _ & _ & _ & Hc & Hlim & _).
  set (p0 := launched s _) in *.
  assert (∀ i, i < workers ↔ running (UdpWorker i) p0) as Hrun.
  { intros i. unfold p0. by rewrite running_launched, elem_of_started. }
  destruct (lose_workers datagram (seq 0 workers) p0) as (p & Hr & Hl & Hm & Hf & Hh); try done.
  - apply NoDup_seq.
  - apply Forall_seq. intros i Hi. apply Hrun. lia.
  - unfold unlimited. cbn [p_state p0 launched]. rewrite Hlim. unfold startup_limiter. by rewrite Hrl.
  - cbn. rewrite Hc. apply map_Forall_empty.
  - exists p. rewrite Forall_seq in Hl.
    split_and!; [done..|unfold shutdown_fired; by rewrite Hh|done|intros i ?; apply Hl; lia|].
    intros p' i Hr' Hi. destruct (decide (i < workers)) as [Hlt|Hge].
    + specialize (Hl i). eapply ended_forever in Hr'; [|apply Hl; lia].
      unfold running in Hi. congruence.
    + assert (UdpWorker i ∈ dom (p_loops p0)) as [[|] Hx]%elem_of_dom.
      { rewrite <- (reaches_dom _ _ Hr), <- (reaches_dom _ _ Hr'). apply elem_of_dom. by eexists. }
      * destruct Hge. by apply Hrun.
      * by apply launched_running in Hx.
Qed.

End Runs.

(** ** Witnesses *)

(** An operating system that grants every socket, and TLS libraries that accept
    everything. *)
Definition granting_os : Os := {|
  to_socket_addrs s := (fun a => [a]) <$> parse_socket_addr s; udp_bind _ _ := true; tcp_bind _ := true; quic_bind _ := true |}.
Definition toy_tls : TlsLib := {|
  pem_certs b := Some [b]; pem_key b := Some (Some b); self_signed := Some (str "cert", str "key");
  tls_versions := true; tls_pair _ _ := true; quic_suits _ := true |}.

Definition sample_largs : ListenArgs :=
  mkListenArgs (str "127.0.0.1:8888") (Some (str "127.0.0.1:853")) None None None None
    (Some (str "127.0.0.1:9100")).

Definition sample_booted : res string process :=
  @boot ascii_unicode list_iter toy_ed25519 no_toml granting_os toy_tls sample_fs None sample_args
    sample_largs 2.
Definition sample_process : process :=
  match sample_booted with Ok p => p | _ => launched sample_server [] end.

Lemma sample_boots : sample_booted = Ok sample_process.
Proof. vm_compute. reflexivity. Qed.

(** A TCP connection with one query is accepted, then the signal comes and is sent. *)
Definition sample_client : IpAddr := V4 [10; 0; 0; 1]%Z.
Definition sample_input : input := Frames (tcp_frame (to_bytes sample_request)).
Definition sample_busy : process :=
  set_jobs {[ 0 := Connection sample_client sample_input None ]} sample_process.
Definition sample_flagged : process :=
  mkProcess (p_state sample_busy) (p_clock sample_busy) Flagged true (p_loops sample_busy)
    (p_jobs sample_busy) (p_main sample_busy).
Definition sample_signalled : process := set_handler Sent sample_flagged.
(** The foreground loop stops and the drain begins. *)
Definition sample_draining : process :=
  set_main (Draining [0; 1] SHUTDOWN_GRACE) (end_loop TcpLoop Shutdown sample_signalled).

Section Samples.
#[local] Existing Instance ascii_unicode.
#[local] Existing Instance list_iter.
#[local] Existing Instance toy_ed25519.
#[local] Existing Instance honest_net.
#[local] Existing Instance still_clock.
#[local] Existing Instance no_toml.
#[local] Existing Instance toy_base64.

Lemma sample_signalled_reached : reaches sample_process sample_signalled.
Proof.
  apply Reaches_step with sample_flagged; [|done|by apply Step_signal, (Send sample_flagged)].
  apply Reaches_step with (set_handler Waiting sample_busy);
    [|done|by apply Step_signal, (Signal (set_handler Waiting sample_busy))].
  apply Reaches_step with sample_busy; [|done|by apply Step_signal, (Handler_installed sample_busy)].
  apply reaches_alive_step; [done|]. by apply Step_tcp, (Accept TcpLoop SocketError sample_process 0 sample_client sample_input).
Qed.

Lemma sample_draining_reached : reaches sample_process sample_draining.
Proof.
  apply Reaches_step with (end_loop TcpLoop Shutdown sample_signalled); [|done|].
  - apply Reaches_step with sample_signalled; [exact sample_signalled_reached|done|].
    by apply (loop_stops sample_signalled TcpLoop).
  - by apply Step_main, (Main_drains (end_loop TcpLoop Shutdown sample_signalled)).
Qed.

(** The query of the connection: read, not a transfer, forwarded by the first pass, leading
    its flight. *)
Definition with_request (w : stage) (s : ServerState) : process :=
  set_jobs {[ 0 := Connection sample_client (Frames []) (Some w) ]} (set_state s sample_process).
Definition tcp_pass : res string (Resolution * ServerState) :=
  resolve_local 0 0 0 (to_bytes sample_request) sample_client Tcp sample_server.
Definition tcp_ctx : ForwardCtx := match tcp_pass with Ok (Forward ctx, _) => ctx | _ => sample_ctx end.
Definition tcp_after : ServerState := match tcp_pass with Ok (_, s) => s | _ => sample_server end.
Definition sample_asking : process := with_request (Asking tcp_ctx) tcp_after.

Lemma sample_works w s w' s' :
  work 0 0 0 (flights_of (p_jobs (with_request w s))) sample_client w s = Some (w', s') →
  leading w = None → pstep (with_request w s) (with_request w' s').
Proof.
  intros Hw Hl. apply Step_job.
  apply (Job_step (with_request w s) s' {[ 0 := Connection sample_client (Frames []) (Some w') ]}).
  pose proof (Task_works s (p_jobs (with_request w s)) 0 _ w 0 0 0 w' s' eq_refl eq_refl Hw) as Ht.
  unfold goes_to in Ht. cbn [job_leading job_stage mbind option_bind] in Ht. rewrite Hl in Ht.
  destruct (leading w'); cbn in Ht; rewrite insert_singleton_eq in Ht; exact Ht.
Qed.

Lemma sample_asking_reached : reaches sample_process sample_asking.
Proof.
  apply Reaches_step with (with_request (Forwarding tcp_ctx) tcp_after);
    [apply Reaches_step with (with_request (Passing (to_bytes sample_request)) sample_server);
      [apply Reaches_step with (with_request (Received (to_bytes sample_request)) sample_server);
        [apply Reaches_step with sample_busy; [|exact I|]|exact I|]|exact I|]|exact I|].
  - apply reaches_alive_step; [exact I|].
    by apply Step_tcp, (Accept TcpLoop SocketError sample_process 0 sample_client sample_input).
  - apply Step_job.
    apply (Job_step sample_busy sample_server {[ 0 := Connection sample_client (Frames []) (Some (Received (to_bytes sample_request))) ]}).
    pose proof (Task_reads sample_server (p_jobs sample_busy) 0 sample_client sample_input (to_bytes sample_request)
      (Frames []) eq_refl eq_refl) as Ht.
    unfold sample_busy, set_jobs, p_jobs in Ht |- *. rewrite insert_singleton_eq in Ht. exact Ht.
  - by apply (sample_works (Received (to_bytes sample_request)) sample_server).
  - by apply (sample_works (Passing (to_bytes sample_request)) sample_server).
  - by apply (sample_works (Forwarding tcp_ctx) tcp_after).
Qed.

(** The theorems at the sample process; the first premise is [sample_boots]. *)
Lemma process_lifetime_witness :
  lifetime sample_fs None sample_args (p_state sample_asking) ∧ passed sample_fs None sample_args tcp_ctx.
Proof.
  destruct (@process_lifetime _ _ _ _ _ _ _ granting_os toy_tls sample_fs None sample_args sample_largs 2
    sample_process sample_asking sample_boots sample_asking_reached) as (Hl & He & _).
  split; [exact Hl|]. exact (He 0 _ (Asking tcp_ctx) eq_refl eq_refl).
Defined.

Lemma health_before_stop_witness :
  (metrics_endpoint (str "/healthz") (p_shutting_down sample_signalled)
     (st_metrics (p_state sample_signalled))).1.1 = 503%Z.
Proof.
  apply (proj1 (@health_before_stop _ _ _ _ _ _ _ granting_os toy_tls sample_fs None sample_args
    sample_largs 2 sample_process sample_signalled sample_boots sample_signalled_reached)).
  right. reflexivity.
Defined.

Lemma drain_bounded_witness :
  reaches sample_draining (set_main (Returned (Ok tt)) (set_clock (from_secs 9) sample_draining)).
Proof.
  apply (proj2 (@drain_bounded _ _ _ _ _ _ _ granting_os toy_tls sample_fs None sample_args sample_largs 2
    sample_process sample_draining [0; 1] SHUTDOWN_GRACE sample_boots sample_draining_reached
    eq_refl)); vm_compute; discriminate.
Defined.

Lemma shutdown_abandons_queries_witness :
  ∃ p', reaches sample_signalled p' ∧ p_main p' = Returned (Ok tt) ∧
    p_jobs p' = {[ 0 := Connection sample_client sample_input None ]} ∧ p_clock p' = p_clock sample_signalled.
Proof.
  destruct (@shutdown_abandons_queries _ _ _ _ _ _ _ granting_os toy_tls sample_fs None sample_args
    sample_largs 2 sample_process sample_signalled sample_boots sample_signalled_reached I eq_refl)
    as (p' & Hr & Hm & Hj & Hc & _).
  - intros c Hl. vm_compute in Hl. discriminate Hl.
  - exists p'. split; [exact Hr|]. split; [exact Hm|]. split; [exact Hj|exact Hc].
Defined.

Lemma udp_service_lost_witness :
  ∃ p, reaches sample_process p ∧ p_shutting_down p = false ∧
    ∀ p' i, reaches p p' → ¬ running (UdpWorker i) p'.
Proof.
  destruct (@udp_service_lost _ _ _ _ _ _ _ granting_os toy_tls sample_fs None sample_args sample_largs 2
    sample_process nsec_empty_rdata sample_boots eq_refl) as (p & Hr & Hf & _ & _ & _ & Hn).
  - vm_compute. reflexivity.
  - exists p. split; [exact Hr|]. split; [exact Hf|exact Hn].
Defined.

End Samples.
