(* ===== verification/Fairness.v ===== *)
(** * Shutdown ends, whatever the schedule

    [Runtime] shows that a shutdown can complete; here every fair run of the process
    completes one. A run is a sequence of processes, each a step of [Runtime.pstep]
    from the one before (and standing still once [run] has returned). It is fair
    when the scheduler and [select] neglect nobody for ever: the signal handler that has
    raised the flag sends, a receive or accept loop whose shutdown branch is ready
    takes it, and [run] goes on when what it waits for is there. Nothing else is
    asked: queries and connections may keep arriving, tasks may never end, time may
    stand still. *)

From S2P Require Import Prelude RustStd TextParse Message Packet Encoder Zones ZoneFile Resolver Cache.
From S2P Require Import RateLimit Acl Blocklist Metrics Dnssec Net Forwarder Recursive State Pipeline.
From S2P Require Import Policy Transport Config Tls Server Jobs Tasks Runtime.

(** ** Runs and fairness *)

Section Runs.
Context `{UNI : Unicode, HAS : HashIter, EDD : Ed25519, NET : Net, CLK : Clock, TOM : Toml, B64 : Base64Url}.

(** A step of a run. *)
Definition moves (p p' : process) : Prop := (alive p ∧ pstep p p') ∨ (¬ alive p ∧ p' = p).

Definition run_of (p : process) (e : nat → process) : Prop :=
  e 0 = p ∧ ∀ n, moves (e n) (e (S n)).

(** The actions the scheduler must not neglect. *)
Definition sends (p p' : process) : Prop :=
  alive p ∧ p_handler p = Flagged ∧ p' = set_handler Sent p.
Definition stops (l : loop) (p p' : process) : Prop :=
  alive p ∧ running l p ∧ shutdown_fired p = true ∧ p' = end_loop l Shutdown p.
Definition proceeds (p p' : process) : Prop := alive p ∧ main_step p p'.

Definition enabled (A : process → process → Prop) (p : process) : Prop := ∃ p', A p p'.

(** Weak fairness: an action that stays enabled is taken; again and again it is
    taken or not enabled. *)
Definition weakly_fair (e : nat → process) (A : process → process → Prop) : Prop :=
  ∀ n, ∃ m, n ≤ m ∧ (A (e m) (e (S m)) ∨ ¬ enabled A (e m)).

Record fair (e : nat → process) : Prop := {
  fair_sends : weakly_fair e sends;
  fair_stops : ∀ l, weakly_fair e (stops l);
  fair_proceeds : weakly_fair e proceeds;
}.

(** Every action is a step of the process. *)
Lemma sends_step p p' : sends p p' → pstep p p'.
Proof. intros (_ & Hh & ->). by apply Step_signal, Send. Qed.
Lemma stops_step l p p' : stops l p p' → pstep p p'.
Proof. intros (_ & Hl & Hf & ->). by apply loop_stops. Qed.
Lemma proceeds_step p p' : proceeds p p' → pstep p p'.
Proof. intros [_ Hm]. by apply Step_main. Qed.

(** The rule for one helpful action: while [P] holds every step keeps it or reaches [Q],
    the action is enabled, and taking it reaches [Q]. *)
Lemma leads_by (A : process → process → Prop) (P Q : process → Prop) p e n :
  run_of p e → weakly_fair e A → P (e n) →
  (∀ m p', P (e m) → moves (e m) p' → e (S m) = p' → P p' ∨ Q p') →
  (∀ m, P (e m) → enabled A (e m)) →
  (∀ m, P (e m) → A (e m) (e (S m)) → Q (e (S m))) →
  ∃ m, n ≤ m ∧ Q (e m).
Proof.
  intros [_ Hrun] Hfair HP Hkeep Hen Hact. destruct (Hfair n) as (m & Hle & Hm).
  assert (P (e m) ∨ ∃ k, n ≤ k ∧ Q (e k)) as [HPm|?]; [|destruct Hm as [Ha|Hne]|done].
  - clear Hm. induction Hle as [|m Hle IH]; [by left|]. destruct IH as [HPm|?]; [|by right].
    destruct (Hkeep m (e (S m)) HPm (Hrun m) eq_refl); [by left|right]. exists (S m). split; [lia|done].
  - exists (S m). split; [lia|]. by apply Hact.
  - destruct Hne. by apply Hen.
Qed.

Lemma run_reaches p e n : run_of p e → reaches p (e n).
Proof.
  intros [<- Hrun]. induction n as [|n IH]; [constructor|].
  destruct (Hrun n) as [[Ha Hs]|[_ ->]]; [by eapply Reaches_step|done].
Qed.

(** ** What the steps keep *)

(** The foreground loop ends by the shutdown or by a socket error. *)
Definition tcp_known (p : process) : Prop :=
  match p_loops p !! TcpLoop with
  | Some Running | Some (Ended Shutdown) | Some (Ended SocketError) => True
  | _ => False
  end.

Lemma tcp_known_step p p' : pstep p p' → tcp_known p → tcp_known p'.
Proof.
  intros Hs. unfold tcp_known, running in *.
  step_cases Hs; cbn; try done; unfold running in *;
    first [by rewrite lookup_insert_eq | by rewrite lookup_insert_ne].
Qed.

Lemma tcp_known_reaches s loops p : TcpLoop ∈ loops → reaches (launched s loops) p → tcp_known p.
Proof.
  intros Hin. induction 1 as [|p p' _ IH _ Hs]; [|by eapply tcp_known_step].
  unfold tcp_known. by rewrite (proj2 (running_launched s loops TcpLoop) Hin).
Qed.

(** The channel stays fired. *)
Lemma fired_step p p' : pstep p p' → shutdown_fired p = true → shutdown_fired p' = true.
Proof.
  intros Hs. unfold shutdown_fired. step_cases Hs; cbn; try done;
    by match goal with E : p_handler _ = _ |- _ => rewrite E end.
Qed.

Lemma flagged_step p p' : pstep p p' → p_handler p = Flagged → p_handler p' = Flagged ∨ shutdown_fired p' = true.
Proof. intros Hs Hh. unfold shutdown_fired. step_cases Hs; cbn; eauto; congruence. Qed.

(** What a step does to [run] itself. *)
Lemma main_changes p p' : pstep p p' → p_main p' = p_main p ∨ main_step p p'.
Proof. intros Hs. step_cases Hs; try (by left); right; eauto using main_step. Qed.

(** [run] returns success or an error. *)
Definition returns_known (p : process) : Prop :=
  match p_main p with Returned Panic => False | _ => True end.

Lemma returns_known_reaches s loops p : reaches (launched s loops) p → returns_known p.
Proof.
  induction 1 as [|p p' _ IH _ Hs]; [done|]. unfold returns_known in *.
  destruct (main_changes _ _ Hs) as [->|Hm]; [done|]. by destruct Hm.
Qed.

#[local] Instance alive_dec p : Decision (alive p).
Proof. unfold alive. destruct (p_main p); apply _. Defined.

Lemma alive_moves p p' : alive p → moves p p' → pstep p p'.
Proof. by intros Ha [[_ ?]|[? _]]. Qed.

(** ** The phases of a shutdown *)

Section Phases.
Context (p : process) (e : nat → process).
Hypothesis Hrun : run_of p e.
Hypothesis Hfair : fair e.

Lemma run_dom n : dom (p_loops (e n)) = dom (p_loops p).
Proof. apply reaches_dom. by apply run_reaches. Qed.

(** The handler that raised the flag sends, unless [run] returns first. *)
Lemma flag_sent n :
  alive (e n) → p_handler (e n) = Flagged →
  ∃ m, n ≤ m ∧ (¬ alive (e m) ∨ alive (e m) ∧ shutdown_fired (e m) = true).
Proof.
  intros Ha Hh. apply (leads_by sends (fun p => alive p ∧ p_handler p = Flagged)
    (fun p => ¬ alive p ∨ alive p ∧ shutdown_fired p = true) p e n Hrun); try done.
  - apply Hfair.
  - intros m p' [Ham Hhm] Hmv _. apply alive_moves in Hmv; [|done].
    destruct (decide (alive p')); [|by right; left].
    destruct (flagged_step _ _ Hmv Hhm); [by left|right; by right].
  - intros m [Ham Hhm]. by exists (set_handler Sent (e m)).
  - intros m [Ham Hhm] (_ & _ & ->). right. split; [exact Ham|done].
Qed.

(** A loop ends once the channel fired; [F] is what holds of [run] meanwhile. *)
Lemma loop_ends (F : process → Prop) l n :
  (∀ q q', F q → running l q → pstep q q' → alive q' → F q') →
  alive (e n) → shutdown_fired (e n) = true → F (e n) → l ∈ dom (p_loops p) →
  ∃ m, n ≤ m ∧ (¬ alive (e m) ∨
    alive (e m) ∧ shutdown_fired (e m) = true ∧ F (e m) ∧ ∃ c, p_loops (e m) !! l = Some (Ended c)).
Proof.
  rewrite <- (run_dom n). intros HF Ha Hf HFn [[|c] Hl]%elem_of_dom; [|exists n; eauto 10].
  apply (leads_by (stops l) (fun q => alive q ∧ shutdown_fired q = true ∧ F q ∧ running l q)
    (fun q => ¬ alive q ∨ alive q ∧ shutdown_fired q = true ∧ F q ∧ ∃ c, p_loops q !! l = Some (Ended c))
    p e n Hrun); try done.
  - apply Hfair.
  - intros m q (Ham & Hfm & HFm & Hlm) Hmv _. apply alive_moves in Hmv; [|done].
    destruct (decide (alive q)) as [Haq|]; [|by right; left].
    pose proof (fired_step _ _ Hmv Hfm) as Hfq. pose proof (HF _ _ HFm Hlm Hmv Haq) as HFq.
    assert (l ∈ dom (p_loops q)) as [[|c] Hq]%elem_of_dom.
    { rewrite (reaches_dom (e m) q) by by apply reaches_alive_step. apply elem_of_dom. by eexists. }
    + left. done.
    + right. right. eauto.
  - intros m (Ham & Hfm & _ & Hlm). by exists (end_loop l Shutdown (e m)).
  - intros m (Ham & Hfm & HFm & Hlm) Hst. pose proof (stops_step _ _ _ Hst) as Hs.
    pose proof (fired_step _ _ Hs Hfm) as Hfq.
    assert (alive (e (S m))) as Haq. { destruct Hst as (_ & _ & _ & ->). exact Ham. }
    right. split_and!; [done..|by eapply HF|]. destruct Hst as (_ & _ & _ & ->). exists Shutdown.
    cbn. by rewrite lookup_insert_eq.
Qed.

(** [run] takes its next step once that is possible for good. *)
Lemma run_proceeds (R Q : process → Prop) n :
  (∀ q q', R q → pstep q q' → p_main q' = p_main q → R q') →
  (∀ q q', R q → main_step q q' → Q q') → (∀ q, R q → ∃ q', main_step q q') →
  alive (e n) → R (e n) → ∃ m, n ≤ m ∧ Q (e m).
Proof.
  intros Hkeep Hstep Hen Ha HR.
  apply (leads_by proceeds (fun q => alive q ∧ R q) Q p e n Hrun); try done.
  - apply Hfair.
  - intros m q [Ham HRm] Hmv _. apply alive_moves in Hmv; [|done].
    destruct (main_changes _ _ Hmv) as [Hm|Hm]; [left|right; by eapply Hstep].
    split; [|by eapply Hkeep]. unfold alive in *. by rewrite Hm.
  - intros m [Ham HRm]. destruct (Hen _ HRm) as [q' Hq']. by exists q'.
  - intros m [Ham HRm] [_ Hm]. by eapply Hstep.
Qed.

(** The drain ends. *)
Lemma drain_ends hs d n :
  alive (e n) → shutdown_fired (e n) = true → p_main (e n) = Draining hs d →
  Forall (fun i => UdpWorker i ∈ dom (p_loops p)) hs → ∃ m, ¬ alive (e m).
Proof.
  revert n. induction hs as [|i hs IH]; intros n Ha Hf Hm Hd.
  { destruct (run_proceeds (fun q => p_main q = Draining [] d) (fun q => ¬ alive q) n) as (m & _ & Hd'); eauto.
    - intros q q' Hq _ Hs. congruence.
    - intros q q' Hq Hs. destruct Hs; try congruence. intros Hx. exact Hx.
    - intros q Hq. eauto using main_step. }
  inv Hd as [|? ? Hi Hd'].
  destruct (loop_ends (fun q => p_main q = Draining (i :: hs) d) (UdpWorker i) n)
    as (m & Hle & [?|(Ham & Hfm & Hmm & c & Hlm)]); eauto.
  { intros q q' Hq Hr Hs Ha'. destruct (main_changes _ _ Hs) as [->|Hms]; [done|].
    unfold running in Hr. destruct Hms; try congruence. destruct Ha'. }
  destruct (run_proceeds
    (fun q => p_main q = Draining (i :: hs) d ∧ shutdown_fired q = true ∧ p_loops q !! UdpWorker i = Some (Ended c) ∧ reaches (e m) q)
    (fun q => ¬ alive q ∨ alive q ∧ shutdown_fired q = true ∧ p_main q = Draining hs d) m)
    as (m' & Hle' & [?|(Ha' & Hf' & Hm')]); eauto using reaches.
  - intros q q' (Hq & Hfq & Hlq & Hrq) Hs Hmain. assert (alive q) as Haq by (unfold alive; by rewrite Hq).
    split_and!; [congruence|by eapply fired_step| |by eapply Reaches_step].
    eapply ended_forever, Hlq. by apply reaches_alive_step.
  - intros q q' (Hq & Hfq & Hlq & Hrq) Hs. destruct Hs; try congruence.
    + right. assert (handles = hs ∧ d0 = d) as [-> ->] by (split; congruence). done.
    + left. intros Hx. exact Hx.
  - intros q (Hq & Hfq & Hlq & Hrq). eauto using main_step.
Qed.

(** From the flag on, [run] returns. *)
Lemma shutdown_returns n :
  tcp_known p → (∀ m, handles_known (e m)) →
  alive (e n) → p_handler (e n) = Flagged ∨ shutdown_fired (e n) = true → ∃ m, ¬ alive (e m).
Proof.
  intros Htcp Hk Ha Hh.
  assert (∃ m, ¬ alive (e m) ∨ alive (e m) ∧ shutdown_fired (e m) = true) as (m1 & [?|[Ha1 Hf1]]); [|by exists m1|].
  { destruct Hh as [Hh|Hf]; [|exists n; by right]. destruct (flag_sent n Ha Hh) as (m & _ & ?). by exists m. }
  assert (TcpLoop ∈ dom (p_loops p)) as Hdom.
  { apply elem_of_dom. unfold tcp_known in Htcp. by destruct (p_loops p !! TcpLoop). }
  assert (∀ m hs d, alive (e m) → shutdown_fired (e m) = true → p_main (e m) = Draining hs d → ∃ m, ¬ alive (e m)) as Hdr.
  { intros m hs d Ham Hfm Hmm. eapply (drain_ends hs d m); try done.
    specialize (Hk m). unfold handles_known in Hk. rewrite Hmm, run_dom in Hk. done. }
  destruct (p_main (e m1)) as [hs|hs d|r] eqn:Hm1; [|by eapply (Hdr m1)|exists m1; unfold alive; rewrite Hm1; tauto].
  destruct (loop_ends (fun q => p_main q = Foreground hs) TcpLoop m1)
    as (m2 & _ & [?|(Ha2 & Hf2 & Hm2 & c & Hl2)]); eauto.
  { intros q q' Hq Hr Hs Ha'. destruct (main_changes _ _ Hs) as [->|Hms]; [done|].
    unfold running in Hr. destruct Hms; congruence. }
  assert (c = Shutdown ∨ c = SocketError) as Hc.
  { assert (tcp_known (e m2)) as Hkn.
    { clear -Hrun Htcp. induction m2 as [|m IH]; [by rewrite (proj1 Hrun)|].
      destruct (proj2 Hrun m) as [[_ Hs]|[_ ->]]; [by eapply tcp_known_step|done]. }
    unfold tcp_known in Hkn. rewrite Hl2 in Hkn. destruct c; auto; done. }
  destruct (run_proceeds
    (fun q => p_main q = Foreground hs ∧ shutdown_fired q = true ∧ p_loops q !! TcpLoop = Some (Ended c))
    (fun q => ¬ alive q ∨ alive q ∧ shutdown_fired q = true ∧ ∃ d, p_main q = Draining hs d) m2)
    as (m3 & _ & [?|(Ha3 & Hf3 & d & Hm3)]); eauto.
  - intros q q' (Hq & Hfq & Hlq) Hs Hmain. assert (alive q) as Haq by (unfold alive; by rewrite Hq).
    split_and!; [congruence|by eapply fired_step|]. eapply ended_forever, Hlq. by apply reaches_alive_step.
  - intros q q' (Hq & Hfq & Hlq) Hs. destruct Hs; try congruence.
    + left. intros Hx. exact Hx.
    + right. assert (handles = hs) as -> by congruence. split_and!; [done..|]. by eexists.
  - intros q (Hq & Hfq & Hlq). destruct Hc as [-> | ->]; eauto using main_step.
Qed.

End Phases.

(** ** Property *)

Context `{OSS : Os, TLS : TlsLib}.

(** C18: every shutdown completes: in every fair run of a booted process, from the
    moment a signal raised the flag (or the channel fired because the handler died),
    [run] returns and the process stands still: successfully, unless accepting
    TCP connections had failed, which it then reports. Neither queries that
    keep arriving, nor tasks that never end, nor a clock that does not advance
    can hold it up. *)
Theorem shutdown_completes fs pkcs8 args largs workers p0 e n :
  boot fs pkcs8 args largs workers = Ok p0 → run_of p0 e → fair e →
  p_handler (e n) = Flagged ∨ shutdown_fired (e n) = true →
  ∃ m, (∀ k, m ≤ k → e k = e m) ∧
    (p_main (e m) = Returned (Ok tt) ∨
     ∃ err, p_main (e m) = Returned (Err err) ∧ p_loops (e m) !! TcpLoop = Some (Ended SocketError)).
Proof.
  intros (s & tls & st & ->)%boot_launched Hrun Hfair Hh.
  assert (∀ m, handles_known (e m)) as Hk
    by (intros m; eapply handles_known_reaches; by apply run_reaches).
  assert (∃ m, ¬ alive (e m)) as [m Hm].
  { destruct (decide (alive (e n))) as [Ha|]; [|by exists n].
    eapply shutdown_returns; try done. eapply tcp_known_reaches; [apply started_tcp|constructor]. }
  exists m. split.
  - induction 1 as [|k _ IH]; [done|]. destruct (proj2 Hrun k) as [[Ha _]|[_ Hs]]; [by rewrite IH in Ha|congruence].
  - pose proof (run_reaches _ _ m Hrun) as Hr. pose proof (returns_known_reaches _ _ _ Hr) as Hret.
    pose proof (pinv_main _ (PInv_reaches _ _ _ Hr)) as Hi.
    unfold alive, returns_known in *. destruct (p_main (e m)) as [| |[[]|err|]]; try tauto; eauto.
Qed.

End Runs.

(** ** Witness *)

Section Sample.
#[local] Existing Instance ascii_unicode.
#[local] Existing Instance list_iter.
#[local] Existing Instance toy_ed25519.
#[local] Existing Instance honest_net.
#[local] Existing Instance still_clock.
#[local] Existing Instance no_toml.
#[local] Existing Instance toy_base64.
#[local] Existing Instance granting_os.
#[local] Existing Instance toy_tls.

(** A whole shutdown of the sample process, step by step. *)
Definition waiting : process := set_handler Waiting sample_process.
Definition flagged : process :=
  mkProcess (p_state waiting) (p_clock waiting) Flagged true (p_loops waiting) (p_jobs waiting) (p_main waiting).
Definition sent : process := set_handler Sent flagged.
Definition tcp_stopped : process := end_loop TcpLoop Shutdown sent.
Definition draining : process := set_main (Draining [0; 1] (p_clock tcp_stopped + SHUTDOWN_GRACE)) tcp_stopped.
Definition udp0_stopped : process := end_loop (UdpWorker 0) Shutdown draining.
Definition draining1 : process := set_main (Draining [1] (p_clock tcp_stopped + SHUTDOWN_GRACE)) udp0_stopped.
Definition udp1_stopped : process := end_loop (UdpWorker 1) Shutdown draining1.
Definition drained : process := set_main (Draining [] (p_clock tcp_stopped + SHUTDOWN_GRACE)) udp1_stopped.
Definition returned : process := set_main (Returned (Ok tt)) drained.

Definition shutdown_trace (n : nat) : process :=
  default returned ([sample_process; waiting; flagged; sent; tcp_stopped; draining; udp0_stopped; draining1;
    udp1_stopped; drained] !! n).

Lemma shutdown_trace_run : run_of sample_process shutdown_trace.
Proof.
  split; [done|]. intros n.
  destruct n as [|[|[|[|[|[|[|[|[|[|n]]]]]]]]]];
    [left; split; [vm_compute; exact I|]..|right; split; [vm_compute; tauto|done]].
  - apply Step_signal, (Handler_installed sample_process). vm_compute. reflexivity.
  - apply Step_signal, (Signal waiting). vm_compute. reflexivity.
  - apply Step_signal, (Send flagged). vm_compute. reflexivity.
  - apply Step_tcp, (Listener_stops TcpLoop SocketError sent); vm_compute; reflexivity.
  - apply Step_main, (Main_drains tcp_stopped [0; 1]); vm_compute; reflexivity.
  - apply (Step_udp _ _ 0), (Udp_stops 0 draining); vm_compute; reflexivity.
  - apply Step_main, (Drain_next udp0_stopped 0 [1] (p_clock tcp_stopped + SHUTDOWN_GRACE) Shutdown);
      vm_compute; reflexivity.
  - apply (Step_udp _ _ 1), (Udp_stops 1 draining1); vm_compute; reflexivity.
  - apply Step_main, (Drain_next udp1_stopped 1 [] (p_clock tcp_stopped + SHUTDOWN_GRACE) Shutdown);
      vm_compute; reflexivity.
  - apply Step_main, (Drain_done drained (p_clock tcp_stopped + SHUTDOWN_GRACE)). vm_compute. reflexivity.
Qed.

(** Once the process has returned nothing is enabled. *)
Lemma shutdown_trace_fair : fair shutdown_trace.
Proof.
  assert (∀ A, (∀ p p', A p p' → alive p) → weakly_fair shutdown_trace A) as Hw.
  { intros A HA n. exists (10 + n). split; [lia|]. right. intros [p' Hp']. by apply HA in Hp'. }
  split; [|intros l|]; apply Hw; by intros p p' [Ha _].
Qed.

Lemma shutdown_completes_witness :
  ∃ m, p_main (shutdown_trace m) = Returned (Ok tt) ∨
    ∃ err, p_main (shutdown_trace m) = Returned (Err err).
Proof.
  destruct (shutdown_completes sample_fs None sample_args sample_largs 2 sample_process shutdown_trace 2
    sample_boots shutdown_trace_run shutdown_trace_fair) as (m & _ & Hm).
  - left. reflexivity.
  - exists m. destruct Hm as [Hm|(err & Hm & _)]; [left; exact Hm|right; exists err; exact Hm].
Defined.

End Sample.
